(** * Model loading and caching (common/gl_model.c)

    A shallow embedding of the brush-model and alias-model loaders, the
    model registry, the visibility decoder and the point-in-leaf query,
    followed by the properties established about them.

    Conventions of the embedding.
    - A C [int] is a [Z] kept in the 32-bit two's-complement range; sums
      that the source lets overflow are wrapped with [wrap].
    - A [byte] is a [Z] in [0, 256).
    - A [float] is the rational number it denotes ([Q]), without NaN or
      infinities.  Comparisons and absolute values are exact; the
      operations that round (products, sums, quotients) are variables of
      the definitions that use them.
    - A C string is a Rocq [string] holding the characters before the
      terminating NUL; [char name[16]] arrays that the source compares
      from the middle are kept as lists of character codes.
    - A pointer into an array is the index of the element; NULL is [None].
    - [Sys_Error] never returns: a function that may call it returns a
      [result], and so does one that may touch memory outside an array.
    - Constants and types declared in headers that are not part of this
      file are fields of the class [Headers]. *)

From Stdlib Require Import ZArith QArith Qround Lia Lqa String Ascii List Bool.
From stdpp Require Import base option list strings numbers pretty.

Open Scope Z_scope.

(** ** Outcomes of a call *)

Inductive result (A : Type) : Type :=
| Ok (a : A)
| SysError (msg : string)
| Undefined (what : string).
Arguments Ok {A} a.
Arguments SysError {A} msg.
Arguments Undefined {A} what.

#[global] Instance result_ret : MRet result := fun A a => Ok a.
#[global] Instance result_bind : MBind result := fun A B f m =>
  match m with
  | Ok a => f a
  | SysError msg => SysError msg
  | Undefined what => Undefined what
  end.

Definition is_Ok {A} (r : result A) : Prop := exists a, r = Ok a.
Definition is_fatal {A} (r : result A) : Prop := exists msg, r = SysError msg.

(** Array read and write through an index that the source does not check. *)
Definition peek {A} (arr : list A) (i : Z) : result A :=
  if i <? 0 then Undefined "index below the array"
  else match arr !! Z.to_nat i with
       | Some a => Ok a
       | None => Undefined "index past the array"
       end.

Definition poke {A} (arr : list A) (i : Z) (a : A) : result (list A) :=
  if i <? 0 then Undefined "index below the array"
  else if i <? Z.of_nat (length arr) then Ok (<[Z.to_nat i := a]> arr)
  else Undefined "index past the array".

(** ** Machine integers *)

Definition wrap (bits : Z) (x : Z) : Z :=
  (x + 2 ^ (bits - 1)) mod 2 ^ bits - 2 ^ (bits - 1).

Definition int_add (a b : Z) : Z := wrap 32 (a + b).
Definition int_sub (a b : Z) : Z := wrap 32 (a - b).
Definition int_mul (a b : Z) : Z := wrap 32 (a * b).
Definition INT_MAX : Z := 2147483647.
Definition INT_MIN : Z := -2147483648.
Definition is_int (x : Z) : Prop := INT_MIN <= x <= INT_MAX.
Definition is_byte (x : Z) : Prop := 0 <= x < 256.

(** ** Visibility decoder *)

Module Vis.

(** [row = (model->numleafs + 7) >> 3] *)
Definition vis_row (numleafs : Z) : Z := Z.shiftr (int_add numleafs 7) 3.

(** [while (row) { *out++ = 0xff; row--; }] for a row count [n] that is
    not negative; [out] is the write index into [decompressed]. *)
Fixpoint fill_visible (n : nat) (out : Z) (decompressed : list Z)
  : result (list Z) :=
  match n with
  | O => Ok decompressed
  | S n' =>
      match poke decompressed out 255 with
      | Ok d => fill_visible n' (out + 1) d
      | SysError m => SysError m
      | Undefined w => Undefined w
      end
  end.

(** [while (c) { *out++ = 0; c--; }] *)
Fixpoint write_zeros (c : nat) (out : Z) (decompressed : list Z)
  : result (list Z * Z) :=
  match c with
  | O => Ok (decompressed, out)
  | S c' =>
      match poke decompressed out 0 with
      | Ok d => write_zeros c' (out + 1) d
      | SysError m => SysError m
      | Undefined w => Undefined w
      end
  end.

(** The [do { ... } while (out - decompressed < row)] loop.  [inp] is the
    visibility lump from the read pointer on; each turn consumes one or
    two bytes of it, which is what the recursion descends on.  The result
    is the buffer and the final write index. *)
Fixpoint expand_loop (inp : list Z) (row : Z) (out : Z) (decompressed : list Z)
  : result (list Z * Z) :=
  match inp with
  | [] => Undefined "read past the visibility data"
  | b :: rest =>
      if negb (b =? 0) then
        match poke decompressed out b with
        | Ok d =>
            if out + 1 <? row then expand_loop rest row (out + 1) d
            else Ok (d, out + 1)
        | SysError m => SysError m
        | Undefined w => Undefined w
        end
      else
        match rest with
        | [] => Undefined "read past the visibility data"
        | c :: rest' =>
            match write_zeros (Z.to_nat c) out decompressed with
            | Ok (d, out') =>
                if out' <? row then expand_loop rest' row out' d
                else Ok (d, out')
            | SysError m => SysError m
            | Undefined w => Undefined w
            end
        end
  end.

(** [Mod_DecompressVis(in, model)].  The static buffer
    [decompressed[MAX_MAP_LEAFS / 8]] is passed in and handed back: the
    returned pointer is to its first byte. *)
Definition Mod_DecompressVis (inp : option (list Z)) (numleafs : Z)
    (decompressed : list Z) : result (list Z) :=
  let row := vis_row numleafs in
  match inp with
  | None =>
      if row <? 0 then Undefined "row count below zero never reaches zero"
      else fill_visible (Z.to_nat row) 0 decompressed
  | Some bytes =>
      r ← expand_loop bytes row 0 decompressed; mret (fst r)
  end.

(** The run-length code as the specification words it: a non-zero byte
    stands for itself, a zero byte followed by a count stands for that
    many zero bytes. *)
Fixpoint spec_expand (inp : list Z) : list Z :=
  match inp with
  | [] => []
  | b :: rest =>
      if negb (b =? 0) then b :: spec_expand rest
      else match rest with
           | [] => []
           | c :: rest' => replicate (Z.to_nat c) 0 ++ spec_expand rest'
           end
  end.

(** One code of the run-length format. *)
Inductive one_code : list Z -> Prop :=
| code_literal b : b <> 0 -> one_code [b]
| code_run c : one_code [0; c].

(** What a run of the loop yields: the codes [pre0 ++ code] were consumed,
    their expansion was appended to the bytes [w] already written, and
    the bound [row] was reached by [code] and not before it. *)
Definition loop_outcome (inp w tail : list Z) (row : Z)
    (r : result (list Z * Z)) : Prop :=
  exists pre0 code post,
    inp = (pre0 ++ code) ++ post /\
    one_code code /\
    spec_expand inp = spec_expand (pre0 ++ code) ++ spec_expand post /\
    spec_expand (pre0 ++ code) = spec_expand pre0 ++ spec_expand code /\
    let e := spec_expand (pre0 ++ code) in
    r = Ok (w ++ e ++ drop (length e) tail, Z.of_nat (length w + length e)) /\
    Z.of_nat (length w + length (spec_expand pre0)) < row /\
    row <= Z.of_nat (length w + length e).

End Vis.

(** ** Constants of headers outside this file *)

(** [bspfile.h], [modelgen.h], [model.h] and [glquake.h] are not part of
    the file at hand; what the loaders use of them is collected here.
    [ULONG_BITS] is the width of [unsigned long] on the target,
    [EXTENT_BITS] the width of the fields [extents] and [texturemins] of
    a surface, and [DotProduct] the macro of that name on [vec3_t]. *)
Class Headers := {
  BSPVERSION : Z;
  ULONG_BITS : Z;
  MAX_QPATH : Z;
  ALIAS_VERSION : Z;
  MAX_LBM_HEIGHT : Z;
  MAXALIASVERTS : Z;
  MAXALIASTRIS : Z;
  MAXALIASFRAMES : Z;
  MAX_SKINS : Z;
  ALIAS_SINGLE : Z;
  ALIAS_SKIN_SINGLE : Z;
  TEX_SPECIAL : Z;
  SURF_PLANEBACK : Z;
  SURF_DRAWSKY : Z;
  SURF_DRAWTURB : Z;
  SURF_DRAWTILED : Z;
  EXTENT_BITS : Z;
  DotProduct : Q * Q * Q -> Q * Q * Q -> Q
}.

(** One admissible choice, used where a property is run on concrete
    data: the values of the original release of the format. *)
Definition stock_headers : Headers := {|
  BSPVERSION := 29;
  ULONG_BITS := 64;
  MAX_QPATH := 64;
  ALIAS_VERSION := 6;
  MAX_LBM_HEIGHT := 480;
  MAXALIASVERTS := 1024;
  MAXALIASTRIS := 2048;
  MAXALIASFRAMES := 256;
  MAX_SKINS := 32;
  ALIAS_SINGLE := 0;
  ALIAS_SKIN_SINGLE := 0;
  TEX_SPECIAL := 1;
  SURF_PLANEBACK := 2;
  SURF_DRAWSKY := 4;
  SURF_DRAWTURB := 16;
  SURF_DRAWTILED := 32;
  EXTENT_BITS := 16;
  DotProduct := fun x y =>
    (x.1.1 * y.1.1 + x.1.2 * y.1.2 + x.2 * y.2)%Q
|}.

(** ** Brush model header: the lump table *)

Module Lumps.
Section lumps.
Context `{Headers}.

Record lump_t := { fileofs : Z; filelen : Z }.

(** The fixed header: a version and [HEADER_LUMPS] table entries. *)
Record dheader_t := { version : Z; lumps : list lump_t }.

(** [int e1 = b1 + header->lumps[i].filelen;] *)
Definition lump_end (l : lump_t) : Z := int_add (fileofs l) (filelen l).

(** The value of an [int] after conversion to [unsigned long], as the
    comparison [e1 > size] makes it. *)
Definition ulong_of_int (x : Z) : Z := x mod 2 ^ ULONG_BITS.

(** [b1 > e1 || e1 > size || b1 < 0 || e1 < 0] *)
Definition bad_extents (l : lump_t) (size : Z) : bool :=
  let b1 := fileofs l in
  let e1 := lump_end l in
  (b1 >? e1) || (ulong_of_int e1 >? size) || (b1 <? 0) || (e1 <? 0).

(** [(b1 < b2 && e1 > b2) || (b2 < b1 && e2 > b1)] *)
Definition crossing (l1 l2 : lump_t) : bool :=
  let b1 := fileofs l1 in
  let e1 := lump_end l1 in
  let b2 := fileofs l2 in
  let e2 := lump_end l2 in
  ((b1 <? b2) && (e1 >? b2)) || ((b2 <? b1) && (e2 >? b1)).

(** The inner loop over [j]: does lump [l1] trip the test against some
    entry of the table? *)
Fixpoint overlaps_any (l1 : lump_t) (table : list lump_t) : bool :=
  match table with
  | [] => false
  | l2 :: rest => if crossing l1 l2 then true else overlaps_any l1 rest
  end.

(** The outer loop over [i], for the entries [todo] still to visit. *)
Fixpoint check_lumps (todo table : list lump_t) (size : Z) : result unit :=
  match todo with
  | [] => Ok ()
  | l1 :: rest =>
      if bad_extents l1 size then SysError "bad lump extents"
      else if overlaps_any l1 table then SysError "overlapping lumps"
      else check_lumps rest table size
  end.

(** [Mod_LoadBrushModel], up to the point where the lumps are loaded. *)
Definition Mod_LoadBrushModel_header (header : dheader_t) (size : Z)
  : result unit :=
  if negb (version header =? BSPVERSION) then SysError "wrong version number"
  else check_lumps (lumps header) (lumps header) size.

(** The validity of a lump table in the words of the specification:
    every lump lies inside the buffer, with no overflow, and no two
    lumps share a byte. *)
Definition in_buffer (l : lump_t) (size : Z) : Prop :=
  0 <= fileofs l /\ 0 <= fileofs l + filelen l <= size /\
  fileofs l + filelen l <= INT_MAX.

Definition share_a_byte (l1 l2 : lump_t) : Prop :=
  exists x, fileofs l1 <= x < fileofs l1 + filelen l1 /\
            fileofs l2 <= x < fileofs l2 + filelen l2.

End lumps.

(** A lump table that the overlap test lets through, in the numbering
    of bspfile.h.  Behind the 124-byte header of a file of 192 bytes the
    entities (lump 0) and the visibility (lump 4) both claim the bytes
    124 to 139, the one node (lump 5) follows them, the one leaf (lump
    10) ends the file, and every other lump is empty and starts at the
    end of the file. *)
Definition no_lump : lump_t := {| fileofs := 192; filelen := 0 |}.

Definition same_start_table : list lump_t :=
  [ {| fileofs := 124; filelen := 16 |}; no_lump; no_lump; no_lump;
    {| fileofs := 124; filelen := 16 |};
    {| fileofs := 140; filelen := 24 |};
    no_lump; no_lump; no_lump; no_lump;
    {| fileofs := 164; filelen := 28 |};
    no_lump; no_lump; no_lump; no_lump ].

(** A lump table that the overlap test stops, of a file of 140 bytes:
    the second lump is empty and starts at the byte 130 of the first. *)
Definition inside_table : list lump_t :=
  {| fileofs := 124; filelen := 16 |} ::
  {| fileofs := 130; filelen := 0 |} ::
  replicate 13 {| fileofs := 140; filelen := 0 |}.

End Lumps.

(** ** Model registry *)

Module Registry.
Section registry.
Context `{Headers}.

(** What the registry does not look into: the loaded data of a model
    record, the handle [cache_user_t] it embeds, and the state of the
    content cache behind [Cache_Check]. *)
Context {payload cache_user_t cache_t : Type}.

(** [Cache_Check(&mod->cache)]: the data pointer if still resident; the
    call may touch the handle it is given and the cache's own state. *)
Variable Cache_Check :
  cache_user_t -> cache_t -> option Z * cache_user_t * cache_t.

(** Clearing [mod->cache.data]. *)
Variable cache_data_clear : cache_user_t -> cache_user_t.

Inductive modtype_t := mod_brush | mod_sprite | mod_alias.

Definition modtype_eqb (a b : modtype_t) : bool :=
  match a, b with
  | mod_brush, mod_brush | mod_sprite, mod_sprite | mod_alias, mod_alias => true
  | _, _ => false
  end.

Record model_t := {
  name : string;
  needload : bool;
  type : modtype_t;
  cache : cache_user_t;
  data : payload
}.

Definition MAX_MOD_KNOWN : Z := 512.

(** The statics [mod_known[MAX_MOD_KNOWN]] and [mod_numknown], with the
    content cache the registry talks to. *)
Record registry := {
  mod_known : list model_t;
  mod_numknown : Z;
  content_cache : cache_t
}.

(** [for (i = 0, mod = mod_known; i < mod_numknown; i++, mod++)
       if (!strcmp(mod->name, name)) break;]
    over the slots [mods] still to visit; the result is the final [i]. *)
Fixpoint search (nm : string) (mods : list model_t) (i : Z) : Z :=
  match mods with
  | [] => i
  | m :: rest => if String.eqb (name m) nm then i else search nm rest (i + 1)
  end.

(** [strncpy(mod->name, name, MAX_QPATH - 1); mod->name[MAX_QPATH - 1] = 0;] *)
Definition stored_name (nm : string) : string :=
  substring 0 (Z.to_nat (MAX_QPATH - 1)) nm.

(** [Mod_FindName]: the index of the slot found or claimed. *)
Definition Mod_FindName (nm : string) (st : registry) : result (Z * registry) :=
  if String.eqb nm "" then SysError "NULL name"
  else
    let i := search nm (take (Z.to_nat (mod_numknown st)) (mod_known st)) 0 in
    if i =? mod_numknown st then
      if mod_numknown st =? MAX_MOD_KNOWN
      then SysError "mod_numknown == MAX_MOD_KNOWN"
      else
        m ← peek (mod_known st) i;
        let m' := {| name := stored_name nm; needload := true;
                     type := type m; cache := cache m; data := data m |} in
        known ← poke (mod_known st) i m';
        mret (i, {| mod_known := known;
                    mod_numknown := int_add (mod_numknown st) 1;
                    content_cache := content_cache st |})
    else mret (i, st).


(** One turn of the loop of [Mod_ClearAll]. *)
Definition clear_one (m : model_t) : model_t :=
  let m1 :=
    if negb (modtype_eqb (type m) mod_alias)
    then {| name := name m; needload := true; type := type m;
            cache := cache m; data := data m |}
    else m in
  if modtype_eqb (type m1) mod_sprite
  then {| name := name m1; needload := needload m1; type := type m1;
          cache := cache_data_clear (cache m1); data := data m1 |}
  else m1.

(** [Mod_ClearAll] *)
Definition Mod_ClearAll (st : registry) : registry :=
  let n := Z.to_nat (mod_numknown st) in
  {| mod_known := map clear_one (take n (mod_known st)) ++ drop n (mod_known st);
     mod_numknown := mod_numknown st;
     content_cache := content_cache st |}.

(** The registry as the code keeps it: the array has its fixed size and
    the count stays within it. *)
Definition registry_ok (st : registry) : Prop :=
  Z.of_nat (length (mod_known st)) = MAX_MOD_KNOWN /\
  0 <= mod_numknown st <= MAX_MOD_KNOWN.

(** A name is present when one of the claimed slots holds it. *)
Definition present (nm : string) (st : registry) : Prop :=
  exists (i : nat) (m : model_t),
    Z.of_nat i < mod_numknown st /\ mod_known st !! i = Some m /\ name m = nm.

End registry.

(** The registry at program start: every slot zeroed, none in use.  The
    loaded data is left out ([unit]), a handle is its data pointer, and
    the sample cache check hands that pointer back. *)
Definition blank_model : @model_t unit (option Z) :=
  {| name := ""; needload := false; type := mod_brush; cache := None;
     data := () |}.

Definition blank_registry : @registry unit (option Z) unit :=
  {| mod_known := replicate 512 blank_model; mod_numknown := 0;
     content_cache := () |}.

Definition probe_only (h : option Z) (c : unit) : option Z * option Z * unit :=
  (h, h, c).

End Registry.

(** ** Alias models: header, triangles and frames *)

Module Alias.
Section alias.
Context `{Headers}.

(** The on-disk header [mdl_t], its fields already brought to host byte
    order ([LittleLong]); the float fields, which the loader only copies,
    are left out. *)
Record mdl_t := {
  version : Z;
  numskins : Z;
  skinwidth : Z;
  skinheight : Z;
  numverts : Z;
  numtris : Z;
  numframes : Z;
  synctype : Z;
  flags : Z
}.

(** The integer fields of the working header [aliashdr_t]. *)
Record aliashdr_t := {
  h_numskins : Z;
  h_skinwidth : Z;
  h_skinheight : Z;
  h_numverts : Z;
  h_numtris : Z;
  h_numframes : Z
}.

(** [Mod_LoadAliasModel] from the version test to the frame-count test.
    The working block comes from the hunk allocator, which is outside
    this file and is taken to hand out the block. *)
Definition Mod_LoadAliasModel_header (pinmodel : mdl_t) : result aliashdr_t :=
  if negb (version pinmodel =? ALIAS_VERSION)
  then SysError "wrong version number"
  else if skinheight pinmodel >? MAX_LBM_HEIGHT
  then SysError "skin taller than MAX_LBM_HEIGHT"
  else if numverts pinmodel <=? 0
  then SysError "model has no vertices"
  else if numverts pinmodel >? MAXALIASVERTS
  then SysError "model has too many vertices"
  else if numtris pinmodel <=? 0
  then SysError "model has no triangles"
  else if numframes pinmodel <? 1
  then SysError "Invalid # of frames"
  else Ok {| h_numskins := numskins pinmodel;
             h_skinwidth := skinwidth pinmodel;
             h_skinheight := skinheight pinmodel;
             h_numverts := numverts pinmodel;
             h_numtris := numtris pinmodel;
             h_numframes := numframes pinmodel |}.

(** [dtriangle_t] on disk and [mtriangle_t] in memory. *)
Record dtriangle_t := { d_facesfront : Z; d_vertindex : list Z }.
Record mtriangle_t := { facesfront : Z; vertindex : list Z }.

(** [for (i = 0; i < pheader->numtris; i++) { triangles[i] = ... }]:
    [n] turns are left, [triangles] is the static array of
    [MAXALIASTRIS] entries. *)
Fixpoint load_triangles (n : nat) (i : Z) (pintriangles : list dtriangle_t)
    (triangles : list mtriangle_t) : result (list mtriangle_t) :=
  match n with
  | O => Ok triangles
  | S n' =>
      match peek pintriangles i with
      | Ok t =>
          match poke triangles i {| facesfront := d_facesfront t;
                                    vertindex := d_vertindex t |} with
          | Ok triangles' => load_triangles n' (i + 1) pintriangles triangles'
          | SysError m => SysError m
          | Undefined w => Undefined w
          end
      | SysError m => SysError m
      | Undefined w => Undefined w
      end
  end.

(** The header tests as the specification lists them. *)
Definition spec_header_ok (pinmodel : mdl_t) : Prop :=
  version pinmodel = ALIAS_VERSION /\
  0 < numverts pinmodel <= MAXALIASVERTS /\
  0 < numtris pinmodel <= MAXALIASTRIS /\
  1 <= numframes pinmodel /\
  skinheight pinmodel <= MAX_LBM_HEIGHT.

(** The tests the loader makes on the header, read off its code: there is
    none of the triangle count against [MAXALIASTRIS]. *)
Definition header_tests (p : mdl_t) : Prop :=
  version p = ALIAS_VERSION /\
  skinheight p <= MAX_LBM_HEIGHT /\
  0 < numverts p <= MAXALIASVERTS /\
  0 < numtris p /\
  1 <= numframes p.

(** *** Frames and poses *)

(** [trivertx_t]: three position bytes and a normal index. *)
Record trivertx_t := { v : list Z; lightnormalindex : Z }.

(** [daliasframe_t]: a bounding box, a name of 16 bytes, the vertices. *)
Record daliasframe_t := {
  f_bboxmin : trivertx_t;
  f_bboxmax : trivertx_t;
  f_name : string;
  verts : list trivertx_t
}.

(** [daliasgroup_t] with what lies behind it: the interval table
    [intervals[]] and the frames that follow the table. *)
Record daliasgroup_t := {
  g_numframes : Z;
  g_bboxmin : trivertx_t;
  g_bboxmax : trivertx_t;
  intervals : list Q;
  g_frames : list daliasframe_t
}.

(** A record of the frame section: [daliasframetype_t] says which of the
    two follows ([ALIAS_SINGLE] or not). *)
Inductive daliasframetype_t :=
| frame_single (f : daliasframe_t)
| frame_group (g : daliasgroup_t).

(** [maliasframedesc_t] *)
Record maliasframedesc_t := {
  firstpose : Z;
  numposes : Z;
  bboxmin : trivertx_t;
  bboxmax : trivertx_t;
  name : string
}.

(** The statics [poseverts], [poseintervals] (both of [MAXALIASFRAMES]
    entries) and the pose cursor [posenum]. *)
Record poses := {
  poseverts : list (list trivertx_t);
  poseintervals : list Q;
  posenum : Z
}.

(** [strncpy(frame->name, in->name, sizeof(frame->name));
     frame->name[sizeof(frame->name) - 1] = 0;] *)
Definition frame_name (nm : string) : string := substring 0 15 nm.

(** The three position bytes of a bounding-box corner; the normal index
    is not copied. *)
Definition copy_bbox (dst src : trivertx_t) : trivertx_t :=
  {| v := v src; lightnormalindex := lightnormalindex dst |}.

(** [Mod_LoadAliasFrame(in, frame)] *)
Definition Mod_LoadAliasFrame (inp : daliasframe_t) (frame : maliasframedesc_t)
    (st : poses) : result (maliasframedesc_t * poses) :=
  let frame' := {| firstpose := posenum st; numposes := 1;
                   bboxmin := copy_bbox (bboxmin frame) (f_bboxmin inp);
                   bboxmax := copy_bbox (bboxmax frame) (f_bboxmax inp);
                   name := frame_name (f_name inp) |} in
  pv ← poke (poseverts st) (posenum st) (verts inp);
  pi ← poke (poseintervals st) (posenum st) 999%Q;
  mret (frame', {| poseverts := pv; poseintervals := pi;
                   posenum := int_add (posenum st) 1 |}).

(** The loop of [Mod_LoadAliasGroup] over the sub-frames: [n] turns are
    left, [i] is the index of the interval to read. *)
Fixpoint group_loop (n : nat) (i : Z) (inp : daliasgroup_t) (st : poses)
  : result poses :=
  match n with
  | O => Ok st
  | S n' =>
      match peek (g_frames inp) i with
      | Ok dframe =>
          match poke (poseverts st) (posenum st) (verts dframe) with
          | Ok pv =>
              match peek (intervals inp) i with
              | Ok interval =>
                  match poke (poseintervals st) (posenum st) interval with
                  | Ok pi =>
                      if Qle_bool interval 0 then SysError "interval <= 0"
                      else group_loop n' (i + 1) inp
                             {| poseverts := pv; poseintervals := pi;
                                posenum := int_add (posenum st) 1 |}
                  | SysError m => SysError m
                  | Undefined w => Undefined w
                  end
              | SysError m => SysError m
              | Undefined w => Undefined w
              end
          | SysError m => SysError m
          | Undefined w => Undefined w
          end
      | SysError m => SysError m
      | Undefined w => Undefined w
      end
  end.

(** [Mod_LoadAliasGroup(in, frame, loadname)] *)
Definition Mod_LoadAliasGroup (inp : daliasgroup_t) (frame : maliasframedesc_t)
    (st : poses) : result (maliasframedesc_t * poses) :=
  let numframes := g_numframes inp in
  dframe ← peek (g_frames inp) 0;
  let frame' := {| firstpose := posenum st; numposes := numframes;
                   bboxmin := copy_bbox (bboxmin frame) (g_bboxmin inp);
                   bboxmax := copy_bbox (bboxmax frame) (g_bboxmax inp);
                   name := frame_name (f_name dframe) |} in
  st' ← group_loop (Z.to_nat numframes) 0 inp st;
  mret (frame', st').

(** The frame loop of [Mod_LoadAliasModel] over the records of the frame
    section; [frames] are the descriptors of the working header. *)
Fixpoint frame_loop (n : nat) (i : Z) (records : list daliasframetype_t)
    (frames : list maliasframedesc_t) (st : poses)
  : result (list maliasframedesc_t * poses) :=
  match n with
  | O => Ok (frames, st)
  | S n' =>
      match peek records i, peek frames i with
      | Ok rec, Ok frame =>
          match
            match rec with
            | frame_single f => Mod_LoadAliasFrame f frame st
            | frame_group g => Mod_LoadAliasGroup g frame st
            end
          with
          | Ok (frame', st') =>
              frame_loop n' (i + 1) records (<[Z.to_nat i := frame']> frames) st'
          | SysError m => SysError m
          | Undefined w => Undefined w
          end
      | SysError m, _ | _, SysError m => SysError m
      | Undefined w, _ | _, Undefined w => Undefined w
      end
  end.

(** [posenum = 0;] and the frame loop, then [pheader->numposes = posenum]:
    the descriptors and the number of poses. *)
Definition load_frames (numframes : Z) (records : list daliasframetype_t)
    (frames : list maliasframedesc_t) (st : poses)
  : result (list maliasframedesc_t * Z * poses) :=
  r ← frame_loop (Z.to_nat numframes) 0 records frames
        {| poseverts := poseverts st; poseintervals := poseintervals st;
           posenum := 0 |};
  mret (fst r, posenum (snd r), snd r).

(** The pose statics as a load finds them: both arrays have their
    [MAXALIASFRAMES] entries and the cursor is not negative. *)
Definition poses_ok (st : poses) : Prop :=
  Z.of_nat (length (poseverts st)) = MAXALIASFRAMES /\
  Z.of_nat (length (poseintervals st)) = MAXALIASFRAMES /\
  MAXALIASFRAMES <= INT_MAX /\
  0 <= posenum st.

(** The number of poses a record of the frame section stands for, and
    the pose count its descriptor is given. *)
Definition pose_count (rec : daliasframetype_t) : Z :=
  match rec with
  | frame_single _ => 1
  | frame_group g => Z.max 0 (g_numframes g)
  end.

Definition declared_poses (rec : daliasframetype_t) : Z :=
  match rec with
  | frame_single _ => 1
  | frame_group g => g_numframes g
  end.

Fixpoint pose_total (records : list daliasframetype_t) : Z :=
  match records with
  | [] => 0
  | rec :: rest => pose_count rec + pose_total rest
  end.

(** A group record whose tables are as long as its count says. *)
Definition group_complete (g : daliasgroup_t) : Prop :=
  (Z.to_nat (g_numframes g) <= length (intervals g))%nat /\
  (Z.to_nat (g_numframes g) <= length (g_frames g))%nat /\
  (1 <= length (g_frames g))%nat.

Definition intervals_positive (g : daliasgroup_t) : Prop :=
  forall (k : nat) (x : Q),
    (k < Z.to_nat (g_numframes g))%nat -> intervals g !! k = Some x ->
    (0 < x)%Q.

Definition record_complete (rec : daliasframetype_t) : Prop :=
  match rec with
  | frame_single _ => True
  | frame_group g => group_complete g
  end.

Definition record_positive (rec : daliasframetype_t) : Prop :=
  match rec with
  | frame_single _ => True
  | frame_group g => intervals_positive g
  end.

End alias.

(** Sample data: a one-vertex frame, a group of three sub-frames shown
    for a tenth of a second each, a zeroed descriptor and zeroed pose
    statics. *)
Definition blank_vert : trivertx_t := {| v := [0; 0; 0]; lightnormalindex := 0 |}.

Definition sample_frame (nm : string) : daliasframe_t :=
  {| f_bboxmin := blank_vert; f_bboxmax := blank_vert; f_name := nm;
     verts := [blank_vert] |}.

Definition sample_group : daliasgroup_t :=
  {| g_numframes := 3; g_bboxmin := blank_vert; g_bboxmax := blank_vert;
     intervals := [1 # 10; 2 # 10; 3 # 10]%Q;
     g_frames := [sample_frame "run1"; sample_frame "run2"; sample_frame "run3"] |}.

Definition blank_desc : maliasframedesc_t :=
  {| firstpose := 0; numposes := 0; bboxmin := blank_vert;
     bboxmax := blank_vert; name := "" |}.

Definition blank_poses : poses :=
  {| poseverts := replicate 256 []; poseintervals := replicate 256 0%Q;
     posenum := 0 |}.

(** A header that is in order except for its triangle count. *)
Definition overfull_header : mdl_t :=
  {| version := 6; numskins := 1; skinwidth := 8; skinheight := 8;
     numverts := 3; numtris := 2049; numframes := 1; synctype := 0;
     flags := 0 |}.

End Alias.

(** ** Alias models: skins *)

Module Skins.
Section skins.
Context `{Headers}.

(** Outside this file: the state of the texture manager and the upload
    [GL_LoadTexture(identifier, width, height, data, mipmap, alpha)],
    which is given the memory from [data] on and returns a handle. *)
Context {gl_t : Type}.
Context (GL_LoadTexture :
           string -> Z -> Z -> list Z -> bool -> bool -> gl_t -> Z * gl_t).

(** [Mod_FloodFillSkin(skin, skinwidth, skinheight)] rewrites bytes of the
    buffer from [skin] on and nothing else; the texture table does not
    depend on what it writes, so it enters as a rewriting of the buffer
    at an offset. *)
Context (Mod_FloodFillSkin : list Z -> Z -> Z -> Z -> list Z).

(** A 32-bit little-endian integer of the buffer ([LittleLong] of an
    [int] field). *)
Definition read_long (buf : list Z) (ofs : Z) : result Z :=
  b0 ← peek buf ofs;
  b1 ← peek buf (ofs + 1);
  b2 ← peek buf (ofs + 2);
  b3 ← peek buf (ofs + 3);
  mret (wrap 32 (b0 + 256 * b1 + 65536 * b2 + 16777216 * b3)).

(** The memory from a pointer on. *)
Definition from (buf : list Z) (ofs : Z) : list Z := drop (Z.to_nat ofs) buf.

(** [snprintf(name, sizeof(name), ...)] with [char name[32]]. *)
Definition name_single (model : string) (i : Z) : string :=
  substring 0 31 (model +:+ "_" +:+ pretty i).
Definition name_group (model : string) (i j : Z) : string :=
  substring 0 31 (model +:+ "_" +:+ pretty i +:+ "_" +:+ pretty j).

(** What the skin loader reads and writes: the file buffer, the texture
    manager, the table [gl_texturenum[MAX_SKINS][4]] and the read
    pointer [pskintype]. *)
Record loader := {
  buffer : list Z;
  gl : gl_t;
  gl_texturenum : list (list Z);
  pskintype : Z
}.

(** What the saves of the 8-bit texels write: under [NQ_HACK] the entry
    [texels[i]] of the alias header, which stands here for the block of
    the hunk it points to, and under [QW_HACK] the array
    [player_8bit_texels[320 * 200]] of this file. *)
Record texel_store := {
  texels : list (option (list Z));
  player_8bit_texels : list Z
}.

(** [gl_texturenum[i][c] = h] *)
Definition set_slot (table : list (list Z)) (i c h : Z)
  : result (list (list Z)) :=
  row ← peek table i;
  row' ← poke row c h;
  poke table i row'.

(** [gl_texturenum[i][c]] *)
Definition get_slot (table : list (list Z)) (i c : Z) : result Z :=
  row ← peek table i; peek row c.

Section one_model.
(** [loadmodel->name], [pheader->skinwidth], [pheader->skinheight], the
    pointer [skin] set once at the head of [Mod_LoadAllSkins], and
    [s = skinwidth * skinheight]. *)
Variables (model : string) (skinwidth skinheight skin s : Z).

(** [for (j = 0; j < groupskins; j++)]: [n] turns are left. *)
Fixpoint upload_loop (n : nat) (i j : Z) (st : loader) : result loader :=
  match n with
  | O => Ok st
  | S n' =>
      let buf := Mod_FloodFillSkin (buffer st) skin skinwidth skinheight in
      let '(h, g) :=
        GL_LoadTexture (name_group model i j) skinwidth skinheight
          (from buf (pskintype st)) true false (gl st) in
      match set_slot (gl_texturenum st) i (Z.land j 3) h with
      | Ok table =>
          upload_loop n' i (j + 1)
            {| buffer := buf; gl := g; gl_texturenum := table;
               pskintype := pskintype st + s |}
      | SysError m => SysError m
      | Undefined w => Undefined w
      end
  end.

(** [for ( ; j < 4; j++) gl_texturenum[i][j & 3] = gl_texturenum[i][j - k];] *)
Fixpoint fill_loop (n : nat) (i j k : Z) (table : list (list Z))
  : result (list (list Z)) :=
  match n with
  | O => Ok table
  | S n' =>
      match get_slot table i (j - k) with
      | Ok h =>
          match set_slot table i (Z.land j 3) h with
          | Ok table' => fill_loop n' i (j + 1) k table'
          | SysError m => SysError m
          | Undefined w => Undefined w
          end
      | SysError m => SysError m
      | Undefined w => Undefined w
      end
  end.

(** The branch of [Mod_LoadAllSkins] for an animating skin group, entered
    with [pskintype] at the type field of skin [i]. *)
Definition load_skin_group (i : Z) (st : loader) : result loader :=
  let pinskingroup := pskintype st + 4 in
  groupskins ← read_long (buffer st) pinskingroup;
  let pinskinintervals := pinskingroup + 4 in
  let st1 := {| buffer := buffer st; gl := gl st;
                gl_texturenum := gl_texturenum st;
                pskintype := pinskinintervals + 4 * groupskins |} in
  st2 ← upload_loop (Z.to_nat groupskins) i 0 st1;
  let j := Z.max 0 groupskins in
  let k := j in
  table ← fill_loop (Z.to_nat (4 - j)) i j k (gl_texturenum st2);
  mret {| buffer := buffer st2; gl := gl st2; gl_texturenum := table;
          pskintype := pskintype st2 |}.

(** The build: each of the macros [NQ_HACK] and [QW_HACK] is defined by
    the build system, or is not. *)
Variables NQ_HACK QW_HACK : bool.

(** The bytes a [memcpy] reads from the buffer: [n] of them from [ofs]
    on. *)
Fixpoint read_bytes (n : nat) (buf : list Z) (ofs : Z) : result (list Z) :=
  match n with
  | O => Ok []
  | S n' =>
      b ← peek buf ofs;
      rest ← read_bytes n' buf (ofs + 1);
      mret (b :: rest)
  end.

(** [memcpy(dst, data, s)]: the length reaches [memcpy] (and, under
    [NQ_HACK], the hunk allocator before it) as a [size_t], so a
    negative [s] asks for more than any buffer holds. *)
Definition copy_texels (buf : list Z) (data : Z) : result (list Z) :=
  if s <? 0 then Undefined "copy of a negative size"
  else read_bytes (Z.to_nat s) buf data.

(** Under [NQ_HACK]:
    [texels = Hunk_AllocName(s, loadname);
     GL_Aliashdr(pheader)->texels[i] = texels - (byte * )pheader;
     memcpy(texels, data, s);] *)
Definition save_texels (i data : Z) (buf : list Z) (ts : texel_store)
  : result texel_store :=
  if NQ_HACK then
    bytes ← copy_texels buf data;
    table ← poke (texels ts) i (Some bytes);
    mret {| texels := table; player_8bit_texels := player_8bit_texels ts |}
  else mret ts.

(** Under [QW_HACK]:
    [if (!strcmp(loadmodel->name, "progs/player.mdl")) {
         if (s > sizeof(player_8bit_texels)) Sys_Error("Player skin too large");
         memcpy(player_8bit_texels, data, s); }]
    The comparison is made in [size_t], where a negative [s] is above
    every size. *)
Definition save_player_texels (data : Z) (buf : list Z) (ts : texel_store)
  : result texel_store :=
  if QW_HACK && String.eqb model "progs/player.mdl" then
    if (s <? 0) || (s >? 320 * 200) then SysError "Player skin too large"
    else
      bytes ← copy_texels buf data;
      mret {| texels := texels ts;
              player_8bit_texels :=
                bytes ++ drop (Z.to_nat s) (player_8bit_texels ts) |}
  else mret ts.

(** The branch for a single skin. *)
Definition load_skin_single (i : Z) (st : loader) (ts : texel_store)
  : result (loader * texel_store) :=
  let buf := Mod_FloodFillSkin (buffer st) skin skinwidth skinheight in
  ts1 ← save_texels i (pskintype st + 4) buf ts;
  ts2 ← save_player_texels (pskintype st + 4) buf ts1;
  let '(h, g) :=
    GL_LoadTexture (name_single model i) skinwidth skinheight
      (from buf (pskintype st + 4)) true false (gl st) in
  t3 ← set_slot (gl_texturenum st) i 3 h;
  t2 ← set_slot t3 i 2 h;
  t1 ← set_slot t2 i 1 h;
  t0 ← set_slot t1 i 0 h;
  mret ({| buffer := buf; gl := g; gl_texturenum := t0;
           pskintype := pskintype st + 4 + s |}, ts2).

(** The branch for a group, with the save that [NQ_HACK] puts into the
    first turn of the upload loop ([if (j == 0)], between the flood fill
    and the upload, at the first image of the group).  The upload does
    not write the buffer, so the save is taken here from the bytes it
    reads there. *)
Definition load_skin_group_texels (i : Z) (st : loader) (ts : texel_store)
  : result (loader * texel_store) :=
  groupskins ← read_long (buffer st) (pskintype st + 4);
  ts1 ← (if 0 <? groupskins
         then save_texels i (pskintype st + 4 + 4 + 4 * groupskins)
                (Mod_FloodFillSkin (buffer st) skin skinwidth skinheight) ts
         else mret ts);
  st' ← load_skin_group i st;
  mret (st', ts1).

(** [for (i = 0; i < numskins; i++)]: [n] turns are left. *)
Fixpoint skin_loop (n : nat) (i : Z) (st : loader) (ts : texel_store)
  : result (loader * texel_store) :=
  match n with
  | O => Ok (st, ts)
  | S n' =>
      match read_long (buffer st) (pskintype st) with
      | Ok type =>
          match
            if type =? ALIAS_SKIN_SINGLE then load_skin_single i st ts
            else load_skin_group_texels i st ts
          with
          | Ok (st', ts') => skin_loop n' (i + 1) st' ts'
          | SysError m => SysError m
          | Undefined w => Undefined w
          end
      | SysError m => SysError m
      | Undefined w => Undefined w
      end
  end.

End one_model.

(** [Mod_LoadAllSkins(numskins, pskintype)]: the loader and the saved
    texels afterwards. *)
Definition Mod_LoadAllSkins (NQ_HACK QW_HACK : bool) (model : string)
    (skinwidth skinheight : Z) (numskins : Z) (st : loader)
    (ts : texel_store) : result (loader * texel_store) :=
  let skin := pskintype st + 4 in
  if (numskins <? 1) || (numskins >? MAX_SKINS)
  then SysError "Invalid # of skins"
  else
    let s := int_mul skinwidth skinheight in
    skin_loop model skinwidth skinheight skin s NQ_HACK QW_HACK
      (Z.to_nat numskins) 0 st ts.

(** The handles the uploads of a group return, in the order of the
    uploads: what [upload_loop] obtains from [GL_LoadTexture], without
    the table. *)
Fixpoint uploaded (model : string) (skinwidth skinheight skin s : Z)
    (n : nat) (i j : Z) (buf : list Z) (g : gl_t) (p : Z) : list Z :=
  match n with
  | O => []
  | S n' =>
      let buf' := Mod_FloodFillSkin buf skin skinwidth skinheight in
      let '(h, g') :=
        GL_LoadTexture (name_group model i j) skinwidth skinheight
          (from buf' p) true false g in
      h :: uploaded model skinwidth skinheight skin s n' i (j + 1) buf' g' (p + s)
  end.

(** The table row of a group as the specification has it (every slot
    behind the uploaded ones holds the handle of the last upload) and as
    a cyclic repetition of the uploaded handles. *)
Definition replicates_last (row handles : list Z) : Prop :=
  forall j : nat, (length handles <= j < 4)%nat -> row !! j = last handles.

Definition repeats_cyclically (row handles : list Z) : Prop :=
  forall j : nat, (j < 4)%nat -> row !! j = handles !! (j mod length handles)%nat.

End skins.

(** A sample texture manager that numbers the uploads, and a flood fill
    that leaves the buffer alone. *)
Definition counting_upload (nm : string) (w h : Z) (data : list Z)
    (mipmap alpha : bool) (next : Z) : Z * Z := (next, next + 1).

Definition no_fill (buf : list Z) (skin w h : Z) : list Z := buf.

(** The skin section of a model with one group of two 2x2 images: type 1,
    count 2, two intervals, eight pixels. *)
Definition two_image_group : list Z :=
  [1; 0; 0; 0;  2; 0; 0; 0;  0; 0; 0; 0;  0; 0; 0; 0;
   5; 5; 5; 5;  6; 6; 6; 6].

Definition sample_loader : @loader Z :=
  {| buffer := two_image_group; gl := 100;
     gl_texturenum := replicate 32 [0; 0; 0; 0]; pskintype := 0 |}.

End Skins.

(** ** Point-in-leaf query *)

Module Tree.
Section tree.
Context `{Headers}.

Definition vec3_t : Type := Q * Q * Q.

Record mplane_t := { normal : vec3_t; dist : Q }.

(** An [mnode_t *]: nodes and leaves share the head of their records,
    and a child pointer goes into either array. *)
Inductive node_ptr := to_node (i : Z) | to_leaf (i : Z).

(** Of [mnode_t]: the contents tag, the plane pointer (an index into the
    plane array) and the two children. *)
Record mnode_t := {
  contents : Z;
  plane : Z;
  children : node_ptr * node_ptr
}.

(** Of [mleaf_t]: the contents tag. *)
Record mleaf_t := { leaf_contents : Z }.

Record model_t := {
  nodes : option (list mnode_t);
  leafs : list mleaf_t;
  planes : list mplane_t
}.

(** [node->contents] through either kind of pointer. *)
Definition contents_at (nds : list mnode_t) (m : model_t) (node : node_ptr)
  : result Z :=
  match node with
  | to_node i => n ← peek nds i; mret (contents n)
  | to_leaf i => l ← peek (leafs m) i; mret (leaf_contents l)
  end.

(** What one turn of the [while (1)] loop does with [node]. *)
Inductive turn := found (leaf : node_ptr) | next (node : node_ptr).

Definition loop_body (p : vec3_t) (nds : list mnode_t) (m : model_t)
    (node : node_ptr) : result turn :=
  c ← contents_at nds m node;
  if c <? 0 then mret (found node)
  else
    match node with
    | to_leaf _ => Undefined "plane read from a leaf record"
    | to_node i =>
        n ← peek nds i;
        pl ← peek (planes m) (plane n);
        let d := (DotProduct p (normal pl) - dist pl)%Q in
        if negb (Qle_bool d 0) then mret (next (fst (children n)))
        else mret (next (snd (children n)))
    end.

(** The loop, for at most [fuel] turns; [None] when they do not
    suffice. *)
Fixpoint descend (fuel : nat) (p : vec3_t) (nds : list mnode_t) (m : model_t)
    (node : node_ptr) : option (result node_ptr) :=
  match fuel with
  | O => None
  | S fuel' =>
      match loop_body p nds m node with
      | Ok (found leaf) => Some (Ok leaf)
      | Ok (next node') => descend fuel' p nds m node'
      | SysError msg => Some (SysError msg)
      | Undefined w => Some (Undefined w)
      end
  end.

(** [Mod_PointInLeaf(p, model)] *)
Definition Mod_PointInLeaf (fuel : nat) (p : vec3_t) (model : option model_t)
  : option (result node_ptr) :=
  match model with
  | None => Some (SysError "bad model")
  | Some m =>
      match nodes m with
      | None => Some (SysError "bad model")
      | Some nds => descend fuel p nds m (to_node 0)
      end
  end.

(** The descent in the words of the specification: from a tree element,
    stop if its contents tag is negative; otherwise go to child 0 when
    the point's distance from the plane is strictly positive and to
    child 1 when it is not.  The count is the number of turns taken. *)
Inductive descent (p : vec3_t) (nds : list mnode_t) (m : model_t)
  : node_ptr -> node_ptr -> nat -> Prop :=
| descent_stop node c :
    contents_at nds m node = Ok c -> c < 0 ->
    descent p nds m node node 1
| descent_front i n pl leaf k :
    peek nds i = Ok n -> 0 <= contents n ->
    peek (planes m) (plane n) = Ok pl ->
    (0 < DotProduct p (normal pl) - dist pl)%Q ->
    descent p nds m (fst (children n)) leaf k ->
    descent p nds m (to_node i) leaf (S k)
| descent_back i n pl leaf k :
    peek nds i = Ok n -> 0 <= contents n ->
    peek (planes m) (plane n) = Ok pl ->
    (DotProduct p (normal pl) - dist pl <= 0)%Q ->
    descent p nds m (snd (children n)) leaf k ->
    descent p nds m (to_node i) leaf (S k).

End tree.

(** A tree of one node that splits on the plane x = 0, with a leaf on
    either side; leaf 0 is the solid leaf outside the world. *)
Definition split_on_x (front back : node_ptr) : model_t :=
  {| nodes := Some [{| contents := 0; plane := 0; children := (front, back) |}];
     leafs := [{| leaf_contents := -2 |}; {| leaf_contents := -1 |};
               {| leaf_contents := -3 |}];
     planes := [{| normal := (1, 0, 0)%Q; dist := 0%Q |}] |}.

End Tree.

(** ** Texture animation sequences *)

Module TexAnim.

(** Of [texture_t]: the name (16 character codes) and the animation
    links.  A [texture_t *] is the index of the texture in
    [loadmodel->textures]. *)
Record texture_t := {
  name : list Z;
  anim_total : Z;
  anim_min : Z;
  anim_max : Z;
  anim_next : option Z;
  alternate_anims : option Z
}.

Definition ANIM_CYCLE : Z := 2.

(** [name[k]]; the array ends in zeros. *)
Definition char_at (nm : list Z) (k : nat) : Z := nth k nm 0.

(** [!strcmp(a, b)] for two strings of which the arrays hold the bytes
    [a] and [b] from the first character on: the comparison ends at the
    first difference or at a NUL in both, and reads past an array that
    ends before either. *)
Fixpoint strcmp_eq (a b : list Z) : result bool :=
  match a, b with
  | x :: a', y :: b' =>
      if negb (x =? y) then Ok false
      else if x =? 0 then Ok true
      else strcmp_eq a' b'
  | _, _ => Undefined "strcmp reads past the end of the name"
  end.

(** The frame character: ['0'..'9'] for the primary sequence, ['A'..'J']
    (or lower case) for the alternate one. *)
Inductive frame_char := primary (num : Z) | alternate (num : Z) | bad_char.

Definition classify (c : Z) : frame_char :=
  let c := if (97 <=? c) && (c <=? 122) then c - (97 - 65) else c in
  if (48 <=? c) && (c <=? 57) then primary (c - 48)
  else if (65 <=? c) && (c <=? 74) then alternate (c - 65)
  else bad_char.

(** The locals [anims], [altanims], [max] and [altmax]. *)
Record sequences := {
  anims : list (option Z);
  altanims : list (option Z);
  max : Z;
  altmax : Z
}.

Definition no_frames : list (option Z) := replicate 10 None.

(** From the [memset]s to the first frame: the texture [tx] at index [i]
    opens its sequence. *)
Definition open_sequence (i : Z) (tx : texture_t) : result sequences :=
  match classify (char_at (name tx) 1) with
  | primary num =>
      Ok {| anims := <[Z.to_nat num := Some i]> no_frames;
            altanims := no_frames; max := num + 1; altmax := 0 |}
  | alternate num =>
      Ok {| anims := no_frames;
            altanims := <[Z.to_nat num := Some i]> no_frames;
            max := 0; altmax := num + 1 |}
  | bad_char => SysError "Bad animating texture"
  end.

(** [for (j = i + 1; j < m->nummiptex; j++)] over the entries [rest] of
    the texture array from index [j] on. *)
Fixpoint gather (tx : texture_t) (j : Z) (rest : list (option texture_t))
    (sq : sequences) : result sequences :=
  match rest with
  | [] => Ok sq
  | None :: rest' => gather tx (j + 1) rest' sq
  | Some tx2 :: rest' =>
      if negb (char_at (name tx2) 0 =? 43) then gather tx (j + 1) rest' sq
      else
        match strcmp_eq (drop 2 (name tx2)) (drop 2 (name tx)) with
        | Ok false => gather tx (j + 1) rest' sq
        | Ok true =>
            match classify (char_at (name tx2) 1) with
            | primary num =>
                gather tx (j + 1) rest'
                  {| anims := <[Z.to_nat num := Some j]> (anims sq);
                     altanims := altanims sq;
                     max := if num + 1 >? max sq then num + 1 else max sq;
                     altmax := altmax sq |}
            | alternate num =>
                gather tx (j + 1) rest'
                  {| anims := anims sq;
                     altanims := <[Z.to_nat num := Some j]> (altanims sq);
                     max := max sq;
                     altmax := if num + 1 >? altmax sq then num + 1
                               else altmax sq |}
            | bad_char => SysError "Bad animating texture"
            end
        | SysError msg => SysError msg
        | Undefined w => Undefined w
        end
  end.

(** One of the two linking loops: [seq] is the sequence being linked, of
    [len] frames, [other] the other sequence and [otherlen] its length;
    [n] turns are left. *)
Fixpoint link (n : nat) (j : Z) (seq other : list (option Z))
    (len otherlen : Z) (textures : list (option texture_t))
  : result (list (option texture_t)) :=
  match n with
  | O => Ok textures
  | S n' =>
      match peek seq j with
      | Ok None => SysError "Missing frame"
      | Ok (Some idx) =>
          match peek textures idx with
          | Ok (Some tx2) =>
              let tx2' :=
                {| name := name tx2;
                   anim_total := len * ANIM_CYCLE;
                   anim_min := j * ANIM_CYCLE;
                   anim_max := (j + 1) * ANIM_CYCLE;
                   anim_next := default None (seq !! Z.to_nat ((j + 1) mod len));
                   alternate_anims :=
                     if negb (otherlen =? 0) then default None (other !! 0%nat)
                     else alternate_anims tx2 |} in
              link n' (j + 1) seq other len otherlen
                (<[Z.to_nat idx := Some tx2']> textures)
          | Ok None => Undefined "null texture pointer"
          | SysError m => SysError m
          | Undefined w => Undefined w
          end
      | SysError m => SysError m
      | Undefined w => Undefined w
      end
  end.

(** The body of the sequencing loop for a texture [tx] at index [i] that
    is animated and not yet sequenced. *)
Definition sequence_from (i : Z) (tx : texture_t)
    (textures : list (option texture_t))
  : result (sequences * list (option texture_t)) :=
  sq0 ← open_sequence i tx;
  sq ← gather tx (i + 1) (drop (Z.to_nat (i + 1)) textures) sq0;
  t1 ← link (Z.to_nat (max sq)) 0 (anims sq) (altanims sq)
          (max sq) (altmax sq) textures;
  t2 ← link (Z.to_nat (altmax sq)) 0 (altanims sq) (anims sq)
          (altmax sq) (max sq) t1;
  mret (sq, t2).

(** [for (i = 0; i < m->nummiptex; i++)]: [n] turns are left. *)
Fixpoint sequence_loop (n : nat) (i : Z) (textures : list (option texture_t))
  : result (list (option texture_t)) :=
  match n with
  | O => Ok textures
  | S n' =>
      match peek textures i with
      | Ok None => sequence_loop n' (i + 1) textures
      | Ok (Some tx) =>
          if negb (char_at (name tx) 0 =? 43)
          then sequence_loop n' (i + 1) textures
          else
            match anim_next tx with
            | Some _ => sequence_loop n' (i + 1) textures
            | None =>
                match sequence_from i tx textures with
                | Ok (_, textures') => sequence_loop n' (i + 1) textures'
                | SysError m => SysError m
                | Undefined w => Undefined w
                end
            end
      | SysError m => SysError m
      | Undefined w => Undefined w
      end
  end.

(** The second half of [Mod_LoadTextures]: "sequence the animations". *)
Definition sequence_animations (textures : list (option texture_t))
  : result (list (option texture_t)) :=
  sequence_loop (length textures) 0 textures.

(** A texture as the first loop of [Mod_LoadTextures] leaves it, as far
    as the sequencing goes: the name copied from the miptex and the
    links zero, [Hunk_AllocName] handing out zeroed memory. *)
Definition loaded (nm : list Z) : texture_t :=
  {| name := nm; anim_total := 0; anim_min := 0; anim_max := 0;
     anim_next := None; alternate_anims := None |}.

(** The sequencing of the textures of a map.  [names] holds the name of
    each miptex, and [None] where the data offset is -1 and the texture
    stays NULL. *)
Definition sequence_loaded (names : list (option (list Z)))
  : result (list (option texture_t)) :=
  sequence_animations
    ((fmap loaded : option (list Z) -> option texture_t) <$> names).

(** The C string that starts at the first of [chars]: the characters up
    to the first NUL. *)
Fixpoint c_string (chars : list Z) : list Z :=
  match chars with
  | [] => []
  | c :: rest => if c =? 0 then [] else c :: c_string rest
  end.

(** The suffix of a name as the specification has it: the characters
    after the frame character. *)
Definition suffix (nm : list Z) : list Z := c_string (drop 2 nm).

(** A name with a NUL after the frame character, inside its array. *)
Definition terminated (nm : list Z) : Prop := In 0 (drop 2 nm).

(** Texture [j] is the frame [fc] of the animation of suffix [sfx]: its
    name begins with '+', goes on with the character of [fc] and ends
    with [sfx]. *)
Definition frame_of (names : list (option (list Z))) (sfx : list Z)
    (fc : frame_char) (j : nat) : Prop :=
  exists nm, names !! j = Some (Some nm) /\ char_at nm 0 = 43 /\
             suffix nm = sfx /\ classify (char_at nm 1) = fc.

(** The two sequences of an animation. *)
Definition is_kind (kind : Z -> frame_char) : Prop :=
  kind = primary \/ kind = alternate.

(** The length of a sequence of the animation of suffix [sfx]: one more
    than the highest frame among the textures of that suffix, and zero
    when there is none. *)
Definition sequence_length (names : list (option (list Z))) (sfx : list Z)
    (kind : Z -> frame_char) (len : Z) : Prop :=
  0 <= len /\
  (forall (j : nat) (k : Z), frame_of names sfx (kind k) j -> k < len) /\
  (0 < len -> exists j, frame_of names sfx (kind (len - 1)) j).

(** The links of the frame [k] of a sequence, as the specification gives
    them: the total is the length of the sequence times the cycle, the
    frame lasts from [k] to [k + 1] times the cycle, and the next
    texture is the one of the following frame, the first one after the
    last. *)
Definition sequenced (names : list (option (list Z))) (sfx : list Z)
    (kind : Z -> frame_char) (k : Z) (t : texture_t) : Prop :=
  exists (len : Z) (next : nat),
    sequence_length names sfx kind len /\
    anim_total t = len * ANIM_CYCLE /\
    anim_min t = k * ANIM_CYCLE /\
    anim_max t = (k + 1) * ANIM_CYCLE /\
    anim_next t = Some (Z.of_nat next) /\
    frame_of names sfx (kind ((k + 1) mod len)) next.

(** Every animated name is terminated. *)
Definition all_terminated (names : list (option (list Z))) : Prop :=
  forall (j : nat) (nm : list Z),
    names !! j = Some (Some nm) -> char_at nm 0 = 43 -> terminated nm.

(** No two textures are the same frame of the same sequence of the
    animation of suffix [sfx]; of any animation. *)
Definition distinct_in (names : list (option (list Z))) (sfx : list Z)
  : Prop :=
  forall (kind : Z -> frame_char) (k : Z) (j j' : nat),
    is_kind kind ->
    frame_of names sfx (kind k) j -> frame_of names sfx (kind k) j' -> j = j'.

Definition distinct_frames (names : list (option (list Z))) : Prop :=
  forall sfx : list Z, distinct_in names sfx.

(** An animated texture whose frame character is none of ['0'..'9'] and
    ['A'..'J']. *)
Definition bad_frame (names : list (option (list Z))) : Prop :=
  exists (sfx : list Z) (j : nat), frame_of names sfx bad_char j.

(** A sequence has a gap: a frame is there and a lower one is not. *)
Definition gap (names : list (option (list Z))) : Prop :=
  exists (sfx : list Z) (kind : Z -> frame_char) (k k' : Z) (j : nat),
    is_kind kind /\ frame_of names sfx (kind k) j /\ 0 <= k' < k /\
    forall j' : nat, ~ frame_of names sfx (kind k') j'.

Definition gapless (names : list (option (list Z))) : Prop :=
  forall (sfx : list Z) (kind : Z -> frame_char) (k k' : Z) (j : nat),
    is_kind kind -> frame_of names sfx (kind k) j -> 0 <= k' < k ->
    exists j', frame_of names sfx (kind k') j'.

(** A sequence table against the texture array: every entry points to a
    texture of the array whose frame character gives the entry's
    position. *)
Definition frames_in (textures : list (option texture_t))
    (seq : list (option Z)) (kind : Z -> frame_char) : Prop :=
  forall (k : nat) (idx : Z),
    seq !! k = Some (Some idx) ->
    0 <= idx /\
    exists t, textures !! Z.to_nat idx = Some (Some t) /\
              classify (char_at (name t) 1) = kind (Z.of_nat k).

(** A sequence table of length [len]: ten slots, no frame at or beyond
    [len], and the frame [len - 1] present (the highest frame seen sets
    the length). *)
Definition table_ok (seq : list (option Z)) (len : Z) : Prop :=
  length seq = 10%nat /\ 0 <= len <= 10 /\
  (forall (k : nat) (idx : Z), seq !! k = Some (Some idx) -> Z.of_nat k < len) /\
  (0 < len -> exists idx, seq !! Z.to_nat (len - 1) = Some (Some idx)).

(** Linking rewrites the animation fields and leaves the names alone. *)
Definition same_names (before after : list (option texture_t)) : Prop :=
  ((fmap name : option texture_t -> option (list Z)) <$> after)
  = ((fmap name : option texture_t -> option (list Z)) <$> before).

(** Frame [k] of a sequence is present, or is a gap. *)
Definition present (seq : list (option Z)) (k : nat) : Prop :=
  exists idx, seq !! k = Some (Some idx).

Definition complete (seq : list (option Z)) (len : Z) : Prop :=
  forall k : nat, Z.of_nat k < len -> present seq k.

Definition has_gap (seq : list (option Z)) (len : Z) : Prop :=
  exists k : nat, Z.of_nat k < len /\ seq !! k = Some None.

(** A table of the turn that starts at texture [i], once the inner loop
    has looked at the textures before [m]: its entries are frames of
    the suffix among them, and every such frame has an entry, which is
    that texture or a later one of the same frame. *)
Definition gathered (names : list (option (list Z))) (sfx : list Z)
    (i m : nat) (kind : Z -> frame_char) (seq : list (option Z)) (len : Z)
  : Prop :=
  table_ok seq len /\
  (forall (k : nat) (idx : Z),
      seq !! k = Some (Some idx) ->
      0 <= idx /\ (i <= Z.to_nat idx < m)%nat /\
      frame_of names sfx (kind (Z.of_nat k)) (Z.to_nat idx)) /\
  (forall (j : nat) (k : Z),
      (i <= j < m)%nat -> frame_of names sfx (kind k) j ->
      exists j' : nat,
        (j <= j' < m)%nat /\ seq !! Z.to_nat k = Some (Some (Z.of_nat j'))).

(** The two tables of a turn, and no bad frame character met. *)
Definition gathered_upto (names : list (option (list Z))) (sfx : list Z)
    (i m : nat) (sq : sequences) : Prop :=
  gathered names sfx i m primary (anims sq) (max sq) /\
  gathered names sfx i m alternate (altanims sq) (altmax sq) /\
  (forall j : nat, (i <= j < m)%nat -> ~ frame_of names sfx bad_char j).

(** The animation of a suffix has no bad frame character and no gap. *)
Definition group_ok (names : list (option (list Z))) (sfx : list Z) : Prop :=
  (forall j : nat, ~ frame_of names sfx bad_char j) /\
  (forall (kind : Z -> frame_char) (k k' : Z) (j : nat),
      is_kind kind -> frame_of names sfx (kind k) j -> 0 <= k' < k ->
      exists j', frame_of names sfx (kind k') j').

(** The texture array before turn [i] of the outer loop: the names are
    those of the miptexes, the animations of the suffixes met so far
    have no bad frame character and no gap and, where their frames are
    distinct, are sequenced, and every other texture is as it was
    loaded. *)
Definition sequenced_upto (names : list (option (list Z))) (i : nat)
    (cur : list (option texture_t)) : Prop :=
  ((fmap name : option texture_t -> option (list Z)) <$> cur) = names /\
  (forall (j0 j : nat) (sfx : list Z) (fc0 : frame_char)
          (kind : Z -> frame_char) (k : Z),
      (j0 < i)%nat -> frame_of names sfx fc0 j0 -> distinct_in names sfx ->
      is_kind kind -> frame_of names sfx (kind k) j ->
      exists t, cur !! j = Some (Some t) /\ sequenced names sfx kind k t) /\
  (forall (j0 : nat) (sfx : list Z) (fc0 : frame_char),
      (j0 < i)%nat -> frame_of names sfx fc0 j0 -> group_ok names sfx) /\
  (forall j : nat,
      cur !! j
      = ((fmap loaded : option (list Z) -> option texture_t) <$> names) !! j \/
      exists (j0 : nat) (sfx : list Z) (fc0 fc : frame_char),
        (j0 < i)%nat /\ frame_of names sfx fc0 j0 /\ frame_of names sfx fc j).

(** A freshly loaded texture: the name in a 16-byte array, the links
    zeroed by the allocator. *)
Definition chars_of (s : string) : list Z :=
  map (fun a => Z.of_N (N_of_ascii a)) (list_ascii_of_string s).

Definition fresh (s : string) : option texture_t :=
  Some {| name := chars_of s ++ replicate (16 - String.length s) 0;
          anim_total := 0; anim_min := 0; anim_max := 0;
          anim_next := None; alternate_anims := None |}.

(** The three frames of the sample animation "ABC". *)
Definition abc_frames : list (option texture_t) :=
  [fresh "+0ABC"; fresh "+1ABC"; fresh "+2ABC"].

(** The name of a miptex: the characters of [s] in an array of 16
    bytes, filled up with NULs. *)
Definition miptex_name (s : string) : list Z :=
  chars_of s ++ replicate (16 - String.length s) 0.

Definition abc_names : list (option (list Z)) :=
  [Some (miptex_name "+0ABC"); Some (miptex_name "+1ABC");
   Some (miptex_name "+2ABC")].

(** Frame 0 of the animation "ABC" twice, after its frame 2 and before
    its frame 1. *)
Definition doubled_names : list (option (list Z)) :=
  [Some (miptex_name "+2ABC"); Some (miptex_name "+0ABC");
   Some (miptex_name "+0ABC"); Some (miptex_name "+1ABC")].

(** Two names that fill their 16 bytes. *)
Definition long_names : list (option (list Z)) :=
  [Some (miptex_name "+0ABCDEFGHIJKLMN");
   Some (miptex_name "+1ABCDEFGHIJKLMN")].

End TexAnim.

(** ** Faces and their texel extents *)

Module Faces.
Section faces.
Context `{Headers}.

Definition vec3_t : Type := Q * Q * Q.
Definition vec4_t : Type := Q * Q * Q * Q.

Record mvertex_t := { position : vec3_t }.
Record medge_t := { v : Z * Z }.

(** Of [mtexinfo_t]: the two texture axes [vecs[2][4]], the flags, and
    the name of the texture it points to. *)
Record mtexinfo_t := {
  vecs : vec4_t * vec4_t;
  tex_flags : Z;
  texture_name : list Z
}.

(** Of [loadmodel]: what the face loader reads. *)
Record brush := {
  vertexes : list mvertex_t;
  edges : list medge_t;
  surfedges : list Z;
  texinfo : list mtexinfo_t
}.

(** Of the on-disk [dface_t], in host byte order. *)
Record dface_t := {
  d_side : Z;
  d_firstedge : Z;
  d_numedges : Z;
  d_texinfo : Z
}.

(** Of [msurface_t]. *)
Record msurface_t := {
  flags : Z;
  firstedge : Z;
  numedges : Z;
  s_texinfo : Z;
  texturemins : Z * Z;
  extents : Z * Z
}.

Definition FLT_MAX : Q := inject_Z 340282346638528859811704183484516925440.

(** The float arithmetic of the target, which rounds: the product, the
    sum and the quotient of two floats as the code obtains them.  A
    float is the rational number it denotes, and what the operations
    yield on two of them is not fixed by this file. *)
Variables fmul fadd fdiv : Q -> Q -> Q.

(** [v->position[0] * tex->vecs[j][0] + v->position[1] * tex->vecs[j][1]
     + v->position[2] * tex->vecs[j][2] + tex->vecs[j][3]] *)
Definition project (pos : vec3_t) (axis : vec4_t) : Q :=
  let '(x, y, z) := pos in
  let '(a, b, c, d) := axis in
  fadd (fadd (fadd (fmul x a) (fmul y b)) (fmul z c)) d.

Definition Qltb (x y : Q) : bool := negb (Qle_bool y x).

(** [if (val < mins[j]) mins[j] = val;] and
    [if (val > maxs[j]) maxs[j] = val;] *)
Definition lower (val m : Q) : Q := if Qltb val m then val else m.
Definition raise (val m : Q) : Q := if Qltb m val then val else m.

(** The vertex that surf-edge [e] starts at. *)
Definition edge_vertex (m : brush) (e : Z) : result mvertex_t :=
  vi ← (if e >=? 0 then ed ← peek (edges m) e; mret (fst (v ed))
        else ed ← peek (edges m) (int_sub 0 e); mret (snd (v ed)));
  peek (vertexes m) vi.

(** The first loop of [CalcSurfaceExtents], over the edges of the face:
    [n] turns are left. *)
Fixpoint bounds_loop (m : brush) (tex : mtexinfo_t) (first : Z) (n : nat)
    (i : Z) (mins maxs : Q * Q) : result ((Q * Q) * (Q * Q)) :=
  match n with
  | O => Ok (mins, maxs)
  | S n' =>
      match peek (surfedges m) (int_add first i) with
      | Ok e =>
          match edge_vertex m e with
          | Ok vert =>
              let val0 := project (position vert) (fst (vecs tex)) in
              let val1 := project (position vert) (snd (vecs tex)) in
              bounds_loop m tex first n' (i + 1)
                (lower val0 (fst mins), lower val1 (snd mins))
                (raise val0 (fst maxs), raise val1 (snd maxs))
          | SysError msg => SysError msg
          | Undefined w => Undefined w
          end
      | SysError msg => SysError msg
      | Undefined w => Undefined w
      end
  end.

(** A [double] with an integral value converted to [int]. *)
Definition int_of_double (z : Z) : result Z :=
  if (INT_MIN <=? z) && (z <=? INT_MAX) then Ok z
  else Undefined "value outside the range of int".

(** A value stored in a field of [EXTENT_BITS] bits. *)
Definition stored (x : Z) : Z := wrap EXTENT_BITS x.

(** One turn of the second loop of [CalcSurfaceExtents]: the minimum is
    rounded down and the maximum up to a multiple of 16. *)
Definition round_axis (tex : mtexinfo_t) (mn mx : Q) : result (Z * Z) :=
  bmins ← int_of_double (Qfloor (fdiv mn 16));
  bmaxs ← int_of_double (Qceiling (fdiv mx 16));
  let tmin := stored (int_mul bmins 16) in
  let ext := stored (int_mul (int_sub bmaxs bmins) 16) in
  if (Z.land (tex_flags tex) TEX_SPECIAL =? 0) && (ext >? 256)
  then SysError "Bad surface extents"
  else mret (tmin, ext).

(** [CalcSurfaceExtents(s)] for a face of [numedges] edges from
    [firstedge] with texinfo [tex]: the pairs [texturemins] and
    [extents]. *)
Definition CalcSurfaceExtents (m : brush) (first num : Z) (tex : mtexinfo_t)
  : result ((Z * Z) * (Z * Z)) :=
  b ← bounds_loop m tex first (Z.to_nat num) 0
        (FLT_MAX, FLT_MAX) (- FLT_MAX, - FLT_MAX)%Q;
  a0 ← round_axis tex (fst (fst b)) (fst (snd b));
  a1 ← round_axis tex (snd (fst b)) (snd (snd b));
  mret ((fst a0, fst a1), (snd a0, snd a1)).

(** [!strncmp(name, "sky", 3)] and [!strncmp(name, "*", 1)] *)
Definition is_sky (nm : list Z) : bool :=
  (nth 0 nm 0 =? 115) && (nth 1 nm 0 =? 107) && (nth 2 nm 0 =? 121).
Definition is_turb (nm : list Z) : bool := nth 0 nm 0 =? 42.

(** One turn of the loop of [Mod_LoadFaces], as far as the flags and the
    extents go; [GL_SubdivideSurface], which is outside this file, only
    builds the polygons of the surface. *)
Definition load_face (m : brush) (inp : dface_t) : result msurface_t :=
  let flags0 := if negb (d_side inp =? 0) then Z.lor 0 SURF_PLANEBACK else 0 in
  tex ← peek (texinfo m) (d_texinfo inp);
  r ← CalcSurfaceExtents m (d_firstedge inp) (d_numedges inp) tex;
  if is_sky (texture_name tex) then
    mret {| flags := Z.lor flags0 (Z.lor SURF_DRAWSKY SURF_DRAWTILED);
            firstedge := d_firstedge inp; numedges := d_numedges inp;
            s_texinfo := d_texinfo inp;
            texturemins := fst r; extents := snd r |}
  else if is_turb (texture_name tex) then
    mret {| flags := Z.lor flags0 (Z.lor SURF_DRAWTURB SURF_DRAWTILED);
            firstedge := d_firstedge inp; numedges := d_numedges inp;
            s_texinfo := d_texinfo inp;
            texturemins := (stored (-8192), stored (-8192));
            extents := (stored 16384, stored 16384) |}
  else
    mret {| flags := flags0;
            firstedge := d_firstedge inp; numedges := d_numedges inp;
            s_texinfo := d_texinfo inp;
            texturemins := fst r; extents := snd r |}.

(** The flags of a face before the draw flags are set: the plane-back
    flag when the face lies on the back side of its plane. *)
Definition plane_back (inp : dface_t) : Z :=
  if d_side inp =? 0 then 0 else SURF_PLANEBACK.

(** The projected coordinates of the face on one axis, vertex by vertex:
    what the minimum and maximum are taken of. *)
Fixpoint projections (m : brush) (axis : vec4_t) (first : Z) (n : nat) (i : Z)
  : result (list Q) :=
  match n with
  | O => Ok []
  | S n' =>
      e ← peek (surfedges m) (int_add first i);
      vert ← edge_vertex m e;
      rest ← projections m axis first n' (i + 1);
      mret (project (position vert) axis :: rest)
  end.

(** The running minimum and maximum of the first loop. *)
Definition running_min (vals : list Q) (init : Q) : Q :=
  fold_left (fun m val => lower val m) vals init.
Definition running_max (vals : list Q) (init : Q) : Q :=
  fold_left (fun m val => raise val m) vals init.

(** The least and the greatest of the projected coordinates. *)
Definition is_least (x : Q) (vals : list Q) : Prop :=
  In x vals /\ forall val, In val vals -> (x <= val)%Q.
Definition is_greatest (x : Q) (vals : list Q) : Prop :=
  In x vals /\ forall val, In val vals -> (val <= x)%Q.

(** Coordinates of a size that keeps every intermediate value inside the
    integer types involved. *)
Definition moderate (val : Q) : Prop := (-16000 <= val <= 16000)%Q.

(** A coordinate whose division by 16 is exact, as it is for every
    binary float outside the subnormal range. *)
Definition divides_exactly (val : Q) : Prop := (fdiv val 16 == val / 16)%Q.

(** The minimum rounded down and the maximum rounded up to a multiple of
    16, and the rounded span. *)
Definition rounded_min (mn : Q) : Z := 16 * Qfloor (mn / 16).
Definition rounded_max (mx : Q) : Z := 16 * Qceiling (mx / 16).
Definition rounded_span (mn mx : Q) : Z := rounded_max mx - rounded_min mn.

End faces.

(** A triangle whose s coordinates run from [x0] to [x1] and whose t
    coordinates run from 0 to 16; edge 0 is the unused one. *)
Definition triangle_tex (special : Z) (texname : string) : mtexinfo_t :=
  {| vecs := ((1, 0, 0, 0), (0, 1, 0, 0))%Q;
     tex_flags := special;
     texture_name := TexAnim.chars_of texname ++ replicate 16 0 |}.

Definition triangle (x0 x1 : Q) (special : Z) (texname : string) : brush :=
  {| vertexes := [ {| position := (x0, 0, 0)%Q |};
                   {| position := (x1, 0, 0)%Q |};
                   {| position := (x1, 16, 0)%Q |} ];
     edges := [ {| v := (0, 0) |}; {| v := (0, 1) |}; {| v := (1, 2) |};
                {| v := (2, 0) |} ];
     surfedges := [1; 2; 3];
     texinfo := [ triangle_tex special texname ] |}.

Definition triangle_face : dface_t :=
  {| d_side := 0; d_firstedge := 0; d_numedges := 3; d_texinfo := 0 |}.

End Faces.

(** ** Loading a model by name *)

Module Loading.
Section loading.
Context `{Headers}.
Context {payload cache_user_t cache_t : Type}.

Local Abbreviation model_t := (@Registry.model_t payload cache_user_t).
Local Abbreviation registry := (@Registry.registry payload cache_user_t cache_t).

(** Outside this file: the cache check of the registry and the data
    pointer [mod->cache.data] of a handle. *)
Variable Cache_Check :
  cache_user_t -> cache_t -> option Z * cache_user_t * cache_t.
Variable cache_data : cache_user_t -> option Z.

(** Outside this file: [COM_LoadStackFile], which hands back the bytes of
    the named file or NULL, [COM_FileBase], and the two magic numbers
    [IDPOLYHEADER] and [IDSPRITEHEADER]. *)
Variable COM_LoadStackFile : string -> option (list Z).
Variable COM_FileBase : string -> string.
Variables IDPOLYHEADER IDSPRITEHEADER : Z.

(** The three loaders the switch of [Mod_LoadModel] chooses from.  Each
    is given the slot of the model ([loadmodel]), the hunk tag
    ([loadname]) and the file; the brush loader is given the size too.
    What they do to the registry is not looked into here. *)
Variable Mod_LoadAliasModel : Z -> string -> list Z -> registry -> result registry.
Variable Mod_LoadSpriteModel : Z -> string -> list Z -> registry -> result registry.
Variable Mod_LoadBrushModel :
  Z -> string -> list Z -> Z -> registry -> result registry.

Definition with_needload (b : bool) (m : model_t) : model_t :=
  {| Registry.name := Registry.name m; Registry.needload := b;
     Registry.type := Registry.type m; Registry.cache := Registry.cache m;
     Registry.data := Registry.data m |}.

Definition with_cache (h : cache_user_t) (m : model_t) : model_t :=
  {| Registry.name := Registry.name m; Registry.needload := Registry.needload m;
     Registry.type := Registry.type m; Registry.cache := h;
     Registry.data := Registry.data m |}.

(** [Cache_Check(&mod->cache)] on the slot [mod]: the pointer returned,
    with the handle and the cache as the call leaves them. *)
Definition check_slot (md : Z) (st : registry) : result (option Z * registry) :=
  m ← peek (Registry.mod_known st) md;
  let '(r, handle, cc) :=
    Cache_Check (Registry.cache m) (Registry.content_cache st) in
  known ← poke (Registry.mod_known st) md (with_cache handle m);
  mret (r, {| Registry.mod_known := known;
              Registry.mod_numknown := Registry.mod_numknown st;
              Registry.content_cache := cc |}).

(** The head of [Mod_LoadModel]: is the model still there, so that
    nothing has to be loaded? *)
Definition still_loaded (md : Z) (st : registry) : result (bool * registry) :=
  m ← peek (Registry.mod_known st) md;
  if negb (Registry.needload m) then
    if Registry.modtype_eqb (Registry.type m) Registry.mod_alias then
      '(r, st') ← check_slot md st;
      mret (if r is Some _ then true else false, st')
    else mret (true, st)
  else mret (false, st).

(** [Mod_LoadModel(mod, crash)]: the slot returned, or NULL. *)
Definition Mod_LoadModel (md : Z) (crash : bool) (st : registry)
  : result (option Z * registry) :=
  '(there, st0) ← still_loaded md st;
  if there : bool then mret (Some md, st0)
  else
    m ← peek (Registry.mod_known st0) md;
    match COM_LoadStackFile (Registry.name m) with
    | None =>
        if crash then SysError "Mod_LoadModel: not found"
        else mret (None, st0)
    | Some buf =>
        let loadname := COM_FileBase (Registry.name m) in
        known ← poke (Registry.mod_known st0) md (with_needload false m);
        let st1 := {| Registry.mod_known := known;
                      Registry.mod_numknown := Registry.mod_numknown st0;
                      Registry.content_cache := Registry.content_cache st0 |} in
        magic ← Skins.read_long buf 0;
        st2 ← (if magic =? IDPOLYHEADER
               then Mod_LoadAliasModel md loadname buf st1
               else if magic =? IDSPRITEHEADER
               then Mod_LoadSpriteModel md loadname buf st1
               else Mod_LoadBrushModel md loadname buf
                      (Z.of_nat (length buf)) st1);
        mret (Some md, st2)
    end.

(** [Mod_ForName(name, crash)] *)
Definition Mod_ForName (nm : string) (crash : bool) (st : registry)
  : result (option Z * registry) :=
  '(md, st1) ← Registry.Mod_FindName nm st;
  Mod_LoadModel md crash st1.

(** [Mod_Extradata(mod)]: the pointer returned. *)
Definition Mod_Extradata (md : Z) (st : registry)
  : result (option Z * registry) :=
  '(r, st0) ← check_slot md st;
  if r is Some _ then mret (r, st0)
  else
    '(_, st1) ← Mod_LoadModel md true st0;
    m ← peek (Registry.mod_known st1) md;
    if cache_data (Registry.cache m) is Some p then mret (Some p, st1)
    else SysError "Mod_Extradata: caching failed".

End loading.

(** A file system without files, and loaders that leave the registry
    alone, for running a property on concrete data. *)
Definition no_files (nm : string) : option (list Z) := None.

Definition idle_loader {payload cache_user_t cache_t : Type}
    (md : Z) (loadname : string) (buf : list Z)
    (st : @Registry.registry payload cache_user_t cache_t)
  : result (@Registry.registry payload cache_user_t cache_t) := Ok st.

Definition idle_brush_loader {payload cache_user_t cache_t : Type}
    (md : Z) (loadname : string) (buf : list Z) (size : Z)
    (st : @Registry.registry payload cache_user_t cache_t)
  : result (@Registry.registry payload cache_user_t cache_t) := Ok st.

(** A registry whose first slot holds a loaded brush model, one whose
    first slot holds an alias model that is resident in the cache, and a
    name of seventy characters. *)
Definition world_model : @Registry.model_t unit (option Z) :=
  {| Registry.name := "maps/start.bsp"; Registry.needload := false;
     Registry.type := Registry.mod_brush; Registry.cache := None;
     Registry.data := () |}.

Definition loaded_registry : @Registry.registry unit (option Z) unit :=
  {| Registry.mod_known := world_model :: replicate 511 Registry.blank_model;
     Registry.mod_numknown := 1; Registry.content_cache := () |}.

Definition player_model : @Registry.model_t unit (option Z) :=
  {| Registry.name := "progs/player.mdl"; Registry.needload := false;
     Registry.type := Registry.mod_alias; Registry.cache := Some 4096;
     Registry.data := () |}.

Definition cached_registry : @Registry.registry unit (option Z) unit :=
  {| Registry.mod_known := player_model :: replicate 511 Registry.blank_model;
     Registry.mod_numknown := 1; Registry.content_cache := () |}.

Definition long_name : string :=
  "progs/012345678901234567890123456789012345678901234567890123456789.mdl".

End Loading.

(** ** The visibility row of a leaf *)

Module Pvs.

(** Of [model_t] and [mleaf_t]: the leaf count that [Mod_DecompressVis]
    reads, the visibility lump, and for every leaf its
    [compressed_vis], a pointer into the lump or NULL. *)
Record model_t := {
  numleafs : Z;
  visdata : list Z;
  compressed_vis : list (option Z)
}.

(** [Mod_Init]: [memset(mod_novis, 0xff, sizeof(mod_novis))]; the
    registration of the console variable is outside this file. *)
Definition Mod_Init (mod_novis : list Z) : list Z :=
  replicate (length mod_novis) 255.

(** [Mod_LeafPVS(leaf, model)], with the statics [mod_novis] and
    [decompressed]: the memory the returned pointer points to. *)
Definition Mod_LeafPVS (leaf : Z) (model : model_t)
    (mod_novis decompressed : list Z) : result (list Z) :=
  if leaf =? 0 then Ok mod_novis
  else
    vis ← peek (compressed_vis model) leaf;
    Vis.Mod_DecompressVis (Skins.from (visdata model) <$> vis)
      (numleafs model) decompressed.

(** The bit of leaf [i] in a visibility row: [row[i >> 3] & (1 << (i & 7))]. *)
Definition visible (row : list Z) (i : Z) : bool :=
  Z.testbit (nth (Z.to_nat (Z.shiftr i 3)) row 0) (Z.land i 7).

(** A model of twenty leafs without visibility data. *)
Definition unvised : model_t :=
  {| numleafs := 20; visdata := []; compressed_vis := replicate 21 None |}.

End Pvs.

(** ** Brush model lumps: raw copies and arrays of integers *)

Module LumpData.
Section lumpdata.
Context `{Headers}.
Import Lumps.

(** [memcpy(dst, mod_base + ofs, n)]: [n] bytes read from [ofs] on. *)
Fixpoint copy_bytes (n : nat) (ofs : Z) (mod_base : list Z)
  : result (list Z) :=
  match n with
  | O => Ok []
  | S n' =>
      b ← peek mod_base ofs;
      rest ← copy_bytes n' (ofs + 1) mod_base;
      mret (b :: rest)
  end.

(** The body shared by [Mod_LoadLighting], [Mod_LoadVisibility] and
    [Mod_LoadEntities]: NULL for an empty lump, else a block of
    [filelen] bytes filled from the file.  The length reaches [memcpy]
    as a [size_t]; the block comes from the hunk allocator, which is
    outside this file and is taken to hand it out. *)
Definition copy_lump (mod_base : list Z) (l : lump_t)
  : result (option (list Z)) :=
  if filelen l =? 0 then Ok None
  else
    bytes ← copy_bytes (Z.to_nat (ulong_of_int (filelen l))) (fileofs l)
              mod_base;
    mret (Some bytes).

(** [Mod_LoadLighting(l)]: the value of [loadmodel->lightdata]. *)
Definition Mod_LoadLighting (mod_base : list Z) (l : lump_t)
  : result (option (list Z)) := copy_lump mod_base l.

(** [Mod_LoadVisibility(l)]: the value of [loadmodel->visdata]. *)
Definition Mod_LoadVisibility (mod_base : list Z) (l : lump_t)
  : result (option (list Z)) := copy_lump mod_base l.

(** [Mod_LoadEntities(l)]: the value of [loadmodel->entities]. *)
Definition Mod_LoadEntities (mod_base : list Z) (l : lump_t)
  : result (option (list Z)) := copy_lump mod_base l.

(** [if (l->filelen % sizeof *in) Sys_Error(...);
     count = l->filelen / sizeof *in;]
    with the length converted to [size_t] for both operations and the
    quotient stored in an [int]. *)
Definition lump_count (l : lump_t) (size : Z) : result Z :=
  let len := ulong_of_int (filelen l) in
  if negb (len mod size =? 0) then SysError "funny lump size"
  else Ok (wrap 32 (len / size)).

(** [(uint16_t)LittleShort(x)] of the two bytes at [ofs]. *)
Definition read_ushort (buf : list Z) (ofs : Z) : result Z :=
  b0 ← peek buf ofs;
  b1 ← peek buf (ofs + 1);
  mret ((b0 + 256 * b1) mod 65536).

(** [for (i = 0; i < count; i++) out[i] = LittleLong(in[i]);]: [n] turns
    are left; the result is [out] from index [i] on. *)
Fixpoint surfedge_loop (n : nat) (i : Z) (mod_base : list Z) (ofs : Z)
  : result (list Z) :=
  match n with
  | O => Ok []
  | S n' =>
      e ← Skins.read_long mod_base (ofs + 4 * i);
      rest ← surfedge_loop n' (i + 1) mod_base ofs;
      mret (e :: rest)
  end.

(** [Mod_LoadSurfedges(l)]: the array [loadmodel->surfedges];
    [loadmodel->numsurfedges] is its length. *)
Definition Mod_LoadSurfedges (mod_base : list Z) (l : lump_t)
  : result (list Z) :=
  count ← lump_count l 4;
  surfedge_loop (Z.to_nat count) 0 mod_base (fileofs l).

(** The loop of [Mod_LoadMarksurfaces]; a pointer [loadmodel->surfaces
    + j] is the index [j]. *)
Fixpoint marksurface_loop (n : nat) (i : Z) (mod_base : list Z) (ofs : Z)
    (numsurfaces : Z) : result (list Z) :=
  match n with
  | O => Ok []
  | S n' =>
      j ← read_ushort mod_base (ofs + 2 * i);
      if j >=? numsurfaces then SysError "bad surface number"
      else
        rest ← marksurface_loop n' (i + 1) mod_base ofs numsurfaces;
        mret (j :: rest)
  end.

(** [Mod_LoadMarksurfaces(l)]: the array [loadmodel->marksurfaces]. *)
Definition Mod_LoadMarksurfaces (mod_base : list Z) (l : lump_t)
    (numsurfaces : Z) : result (list Z) :=
  count ← lump_count l 2;
  marksurface_loop (Z.to_nat count) 0 mod_base (fileofs l) numsurfaces.

(** The little-endian reading of four bytes as a signed integer. *)
Definition long_of_bytes (b0 b1 b2 b3 : Z) : Z :=
  wrap 32 (b0 + 256 * b1 + 65536 * b2 + 16777216 * b3).

End lumpdata.

(** A file of 140 bytes: the 124 bytes of the header, left blank here,
    and 16 bytes of data, which two lumps divide between them. *)
Definition sample_file : list Z :=
  replicate 124 0 ++ [1; 0; 0; 0; 255; 255; 255; 255; 2; 0; 1; 0; 0; 0; 7; 7].

Definition sample_table : list Lumps.lump_t :=
  {| Lumps.fileofs := 124; Lumps.filelen := 8 |} ::
  {| Lumps.fileofs := 132; Lumps.filelen := 6 |} ::
  replicate 13 {| Lumps.fileofs := 140; Lumps.filelen := 0 |}.

(** An entry of the lump table as the file has it, for an offset and a
    length below 256. *)
Definition file_lump (ofs len : Z) : list Z := [ofs; 0; 0; 0; len; 0; 0; 0].

(** The 16 bytes that the entities and the visibility both claim in the
    file of [Lumps.same_start_table]. *)
Definition same_start_data : list Z :=
  [123; 125; 10; 0; 0; 0; 0; 0; 0; 0; 0; 0; 0; 0; 0; 0].

(** The file of [Lumps.same_start_table], byte by byte: the version 29
    and the fifteen table entries; the 16 bytes of data; a node with
    the plane 0 and the leaf 0 for both children; a leaf with the
    contents -1, no visibility row and no surfaces. *)
Definition same_start_file : list Z :=
  [29; 0; 0; 0] ++
  file_lump 124 16 ++ file_lump 192 0 ++ file_lump 192 0 ++ file_lump 192 0 ++
  file_lump 124 16 ++ file_lump 140 24 ++
  file_lump 192 0 ++ file_lump 192 0 ++ file_lump 192 0 ++ file_lump 192 0 ++
  file_lump 164 28 ++
  file_lump 192 0 ++ file_lump 192 0 ++ file_lump 192 0 ++ file_lump 192 0 ++
  same_start_data ++
  ([0; 0; 0; 0] ++ [255; 255; 255; 255] ++ replicate 16 0) ++
  ([255; 255; 255; 255] ++ [255; 255; 255; 255] ++ replicate 20 0).

End LumpData.

(** ** Alias models: the uploads of single skins *)

Module SkinTable.
Section skintable.
Context {gl_t : Type}.
Context (GL_LoadTexture :
           string -> Z -> Z -> list Z -> bool -> bool -> gl_t -> Z * gl_t).
Context (Mod_FloodFillSkin : list Z -> Z -> Z -> Z -> list Z).

(** The handles the uploads of [n] single skins return, in the order of
    the uploads: what [Skins.load_skin_single] obtains from
    [GL_LoadTexture] skin after skin, without the table. *)
Fixpoint single_handles (model : string) (skinwidth skinheight skin s : Z)
    (n : nat) (i : Z) (buf : list Z) (g : gl_t) (p : Z) : list Z :=
  match n with
  | O => []
  | S n' =>
      let buf' := Mod_FloodFillSkin buf skin skinwidth skinheight in
      let '(h, g') :=
        GL_LoadTexture (Skins.name_single model i) skinwidth skinheight
          (Skins.from buf' (p + 4)) true false g in
      h :: single_handles model skinwidth skinheight skin s n' (i + 1)
             buf' g' (p + 4 + s)
  end.

(** The bytes outside the pixels of the skin at [skin]. *)
Definition outside (skin skinwidth skinheight : Z) (k : nat) : Prop :=
  ~ (skin <= Z.of_nat k < skin + skinwidth * skinheight).

(** A flood fill writes to the pixels of the skin it is given only. *)
Definition fill_local (skin skinwidth skinheight : Z) : Prop :=
  forall (buf : list Z) (k : nat),
    outside skin skinwidth skinheight k ->
    Mod_FloodFillSkin buf skin skinwidth skinheight !! k = buf !! k.

(** A flood fill writes in place: the buffer keeps its size. *)
Definition fill_in_place (skin skinwidth skinheight : Z) : Prop :=
  forall buf : list Z,
    length (Mod_FloodFillSkin buf skin skinwidth skinheight) = length buf.

(** The [s] bytes of the buffer from [data] on. *)
Definition pixels_at (buf : list Z) (data s : Z) : list Z :=
  take (Z.to_nat s) (drop (Z.to_nat data) buf).

End skintable.

(** The skin section of a model with two single skins of 2x2 pixels. *)
Definition two_single_skins : list Z :=
  [0; 0; 0; 0;  5; 5; 5; 5;  0; 0; 0; 0;  6; 6; 6; 6].

Definition singles_loader : @Skins.loader Z :=
  {| Skins.buffer := two_single_skins; Skins.gl := 100;
     Skins.gl_texturenum := replicate 32 [0; 0; 0; 0]; Skins.pskintype := 0 |}.

(** Nothing saved yet: the table [texels[MAX_SKINS]] of a fresh alias
    header and the array [player_8bit_texels]. *)
Definition no_texels : Skins.texel_store :=
  {| Skins.texels := replicate 32 None;
     Skins.player_8bit_texels := replicate (Z.to_nat (320 * 200)) 0 |}.

(** A stand-in for the flood fill that paints every pixel of the skin it
    is given with colour 9. *)
Fixpoint paint (n : nat) (ofs : nat) (buf : list Z) : list Z :=
  match n with
  | O => buf
  | S n' => paint n' (S ofs) (<[ofs := 9]> buf)
  end.

Definition paint_fill (buf : list Z) (skin w h : Z) : list Z :=
  paint (Z.to_nat (w * h)) (Z.to_nat skin) buf.

End SkinTable.

(** ** Texture animation: what sequencing leaves alone *)

Module TexFrame.
Import TexAnim.

(** A texture whose name begins with '+'. *)
Definition animated (t : texture_t) : Prop := char_at (name t) 0 = 43.

(** Every entry of a sequence table points to an animated texture. *)
Definition plus_frames (textures : list (option texture_t))
    (seq : list (option Z)) : Prop :=
  forall (k : nat) (idx : Z),
    seq !! k = Some (Some idx) ->
    0 <= idx /\
    forall t, textures !! Z.to_nat idx = Some (Some t) -> animated t.

(** The texture array after a step against the array before it: as
    long, NULL where it was NULL, every texture under its old name, and
    a texture that is not animated unchanged. *)
Definition kept (before after : list (option texture_t)) : Prop :=
  length after = length before /\
  forall i : nat,
    (before !! i = Some None -> after !! i = Some None) /\
    (forall t, before !! i = Some (Some t) ->
               exists t', after !! i = Some (Some t') /\ name t' = name t /\
                          (~ animated t -> t' = t)).

(** A wall texture between the frames of an animation. *)
Definition mixed_textures : list (option texture_t) :=
  [fresh "+0ABC"; fresh "wall"; None; fresh "+1ABC"].

End TexFrame.

(** ** Leafs and the surfaces they mark *)

Module Leafs.
Section leafs.

(** Of headers outside this file: the contents tag of an empty leaf, the
    two surface flags the leaf loader sets, and the leaf limit. *)
Variables (CONTENTS_EMPTY SURF_UNDERWATER SURF_DONTWARP MAX_MAP_LEAFS : Z).

(** [isnotmap]: true, unless the build is the QuakeWorld one and the
    model is the map the server names. *)
Variable isnotmap : bool.

(** Of the on-disk [dleaf_t], in host byte order; the two
    mark-surface fields are the unsigned values the casts to
    [uint16_t] give. *)
Record dleaf_t := {
  d_contents : Z;
  d_firstmarksurface : Z;
  d_nummarksurfaces : Z;
  d_visofs : Z
}.

(** Of [mleaf_t]; [firstmarksurface] is an index into
    [loadmodel->marksurfaces] and [compressed_vis] an offset into
    [loadmodel->visdata], or NULL. *)
Record mleaf_t := {
  contents : Z;
  firstmarksurface : Z;
  nummarksurfaces : Z;
  compressed_vis : option Z
}.

(** [for (j = 0; j < out->nummarksurfaces; j++)
       out->firstmarksurface[j]->flags |= bit;]
    over the flags of the surfaces; [n] turns are left. *)
Fixpoint mark_loop (n : nat) (j first bit : Z) (marksurfaces : list Z)
    (flags : list Z) : result (list Z) :=
  match n with
  | O => Ok flags
  | S n' =>
      match peek marksurfaces (first + j) with
      | Ok surf =>
          match peek flags surf with
          | Ok f =>
              match poke flags surf (Z.lor f bit) with
              | Ok flags' => mark_loop n' (j + 1) first bit marksurfaces flags'
              | SysError m => SysError m
              | Undefined w => Undefined w
              end
          | SysError m => SysError m
          | Undefined w => Undefined w
          end
      | SysError m => SysError m
      | Undefined w => Undefined w
      end
  end.

(** One turn of the loop of [Mod_LoadLeafs]. *)
Definition load_leaf (inp : dleaf_t) (marksurfaces flags : list Z)
  : result (mleaf_t * list Z) :=
  let out := {| contents := d_contents inp;
                firstmarksurface := d_firstmarksurface inp;
                nummarksurfaces := d_nummarksurfaces inp;
                compressed_vis :=
                  if d_visofs inp =? -1 then None else Some (d_visofs inp) |} in
  flags1 ← (if negb (contents out =? CONTENTS_EMPTY)
            then mark_loop (Z.to_nat (nummarksurfaces out)) 0
                   (firstmarksurface out) SURF_UNDERWATER marksurfaces flags
            else Ok flags);
  flags2 ← (if isnotmap
            then mark_loop (Z.to_nat (nummarksurfaces out)) 0
                   (firstmarksurface out) SURF_DONTWARP marksurfaces flags1
            else Ok flags1);
  mret (out, flags2).

(** The loop over the leafs of the lump. *)
Fixpoint leaf_loop (inp : list dleaf_t) (marksurfaces flags : list Z)
  : result (list mleaf_t * list Z) :=
  match inp with
  | [] => Ok ([], flags)
  | l :: rest =>
      match load_leaf l marksurfaces flags with
      | Ok (out, flags') =>
          match leaf_loop rest marksurfaces flags' with
          | Ok (outs, flags'') => Ok (out :: outs, flags'')
          | SysError m => SysError m
          | Undefined w => Undefined w
          end
      | SysError m => SysError m
      | Undefined w => Undefined w
      end
  end.

(** [Mod_LoadLeafs], from the count on: the leafs and the flags of the
    surfaces. *)
Definition Mod_LoadLeafs (inp : list dleaf_t) (marksurfaces flags : list Z)
  : result (list mleaf_t * list Z) :=
  if Z.of_nat (length inp) >? MAX_MAP_LEAFS
  then SysError "model->numleafs > MAX_MAP_LEAFS"
  else leaf_loop inp marksurfaces flags.

(** Leaf [l] marks surface [s]: one of its mark-surface entries is
    [s]. *)
Definition marks (marksurfaces : list Z) (l : dleaf_t) (s : nat) : Prop :=
  exists k : nat,
    Z.of_nat k < d_nummarksurfaces l /\
    marksurfaces !! Z.to_nat (d_firstmarksurface l + Z.of_nat k)
    = Some (Z.of_nat s).

(** The mark-surface entries of a leaf lie inside the array. *)
Definition marks_inside (marksurfaces : list Z) (l : dleaf_t) : Prop :=
  0 <= d_firstmarksurface l /\ 0 <= d_nummarksurfaces l /\
  d_firstmarksurface l + d_nummarksurfaces l
  <= Z.of_nat (length marksurfaces).

(** What is or'ed into the flags of a surface: [bit] when the condition
    holds and nothing when it does not. *)
Definition added (bit : Z) (cond : Prop) (u : Z) : Prop :=
  (u = bit /\ cond) \/ (u = 0 /\ ~ cond).

End leafs.

(** Three leafs over four surfaces: the solid leaf marks nothing, a
    water leaf marks the surfaces 0 and 1, an empty leaf marks the
    surfaces 1 and 2. *)
Definition sample_leafs : list dleaf_t :=
  [ {| d_contents := -2; d_firstmarksurface := 0; d_nummarksurfaces := 0;
       d_visofs := -1 |};
    {| d_contents := -3; d_firstmarksurface := 0; d_nummarksurfaces := 2;
       d_visofs := 0 |};
    {| d_contents := -1; d_firstmarksurface := 2; d_nummarksurfaces := 2;
       d_visofs := 4 |} ].

Definition sample_marks : list Z := [0; 1; 1; 2].

End Leafs.

(** ** Nodes and their parents *)

Module Nodes.
Import Tree.

(** Of the on-disk [dnode_t], in host byte order: the plane number and
    the two children, which are signed shorts. *)
Record dnode_t := { d_planenum : Z; d_children : Z * Z }.

(** [if (p >= 0) out->children[j] = loadmodel->nodes + p;
     else out->children[j] = (mnode_t * )(loadmodel->leafs + (-1 - p));] *)
Definition child_ptr (p : Z) : node_ptr :=
  if p >=? 0 then to_node p else to_leaf (-1 - p).

(** One turn of the loop of [Mod_LoadNodes]; the block the nodes are
    written to comes zeroed from the hunk allocator, and the loop does
    not write the contents tag. *)
Definition load_node (inp : dnode_t) : mnode_t :=
  {| contents := 0; plane := d_planenum inp;
     children := (child_ptr (fst (d_children inp)),
                  child_ptr (snd (d_children inp))) |}.

(** The [parent] fields of the nodes and of the leafs, kept beside the
    records. *)
Record parents := {
  node_parent : list (option node_ptr);
  leaf_parent : list (option node_ptr)
}.

(** [node->parent = parent] *)
Definition set_parent (st : parents) (node : node_ptr)
    (parent : option node_ptr) : result parents :=
  match node with
  | to_node i =>
      pn ← poke (node_parent st) i parent;
      mret {| node_parent := pn; leaf_parent := leaf_parent st |}
  | to_leaf i =>
      pl ← poke (leaf_parent st) i parent;
      mret {| node_parent := node_parent st; leaf_parent := pl |}
  end.

(** [node->parent] *)
Definition parent_of (st : parents) (node : node_ptr)
  : option (option node_ptr) :=
  match node with
  | to_node i => if i <? 0 then None else node_parent st !! Z.to_nat i
  | to_leaf i => if i <? 0 then None else leaf_parent st !! Z.to_nat i
  end.

(** [Mod_SetParent(node, parent)], for at most [fuel] nested calls;
    [None] when they do not suffice. *)
Fixpoint Mod_SetParent (fuel : nat) (nds : list mnode_t) (m : model_t)
    (node : node_ptr) (parent : option node_ptr) (st : parents)
  : option (result parents) :=
  match fuel with
  | O => None
  | S fuel' =>
      match set_parent st node parent with
      | Ok st1 =>
          match contents_at nds m node with
          | Ok c =>
              if c <? 0 then Some (Ok st1)
              else
                match node with
                | to_leaf _ =>
                    Some (Undefined "children read from a leaf record")
                | to_node i =>
                    match peek nds i with
                    | Ok n =>
                        match Mod_SetParent fuel' nds m (fst (children n))
                                (Some node) st1 with
                        | Some (Ok st2) =>
                            Mod_SetParent fuel' nds m (snd (children n))
                              (Some node) st2
                        | other => other
                        end
                    | SysError msg => Some (SysError msg)
                    | Undefined w => Some (Undefined w)
                    end
                end
          | SysError msg => Some (SysError msg)
          | Undefined w => Some (Undefined w)
          end
      | SysError msg => Some (SysError msg)
      | Undefined w => Some (Undefined w)
      end
  end.

(** [Mod_LoadNodes], from the loop on: the nodes, and the parents as
    [Mod_SetParent(loadmodel->nodes, NULL)] leaves them. *)
Definition Mod_LoadNodes (fuel : nat) (inp : list dnode_t) (m : model_t)
    (st : parents) : option (result (list mnode_t * parents)) :=
  let nds := map load_node inp in
  match Mod_SetParent fuel nds m (to_node 0) None st with
  | Some (Ok st') => Some (Ok (nds, st'))
  | Some (SysError msg) => Some (SysError msg)
  | Some (Undefined w) => Some (Undefined w)
  | None => None
  end.

(** The elements that a walk from [node] visits, in the order of the
    visits: the element itself and, when its contents tag is not
    negative, what the walks from its two children visit. *)
Inductive walk (nds : list mnode_t) (m : model_t)
  : node_ptr -> list node_ptr -> Prop :=
| walk_leaf node c :
    contents_at nds m node = Ok c -> c < 0 -> walk nds m node [node]
| walk_node i n l1 l2 :
    peek nds i = Ok n -> 0 <= contents n ->
    walk nds m (fst (children n)) l1 ->
    walk nds m (snd (children n)) l2 ->
    walk nds m (to_node i) (to_node i :: l1 ++ l2).

(** The parent arrays are as long as the arrays of the records. *)
Definition sized (nds : list mnode_t) (m : model_t) (st : parents) : Prop :=
  length (node_parent st) = length nds /\
  length (leaf_parent st) = length (leafs m).

(** Two nodes over three leafs: node 0 has node 1 and leaf 1 as
    children, node 1 has the leafs 2 and 0. *)
Definition sample_nodes : list dnode_t :=
  [ {| d_planenum := 0; d_children := (1, -2) |};
    {| d_planenum := 1; d_children := (-3, -1) |} ].

Definition sample_leafs : model_t :=
  {| nodes := None;
     leafs := [{| leaf_contents := -2 |}; {| leaf_contents := -1 |};
               {| leaf_contents := -3 |}];
     planes := [] |}.

Definition no_parents : parents :=
  {| node_parent := [None; None]; leaf_parent := [None; None; None] |}.

End Nodes.

(** ** The radius of a bounding box *)

Module Bounds.
Section bounds.

(** [Length] of the vector library, which is outside this file. *)
Variable Length : Q * Q * Q -> Q.

(** [fabs] of the C library, on the rational numbers. *)
Definition fabs (x : Q) : Q := if Qle_bool 0 x then x else (- x)%Q.

(** [fabs(mn) > fabs(mx) ? fabs(mn) : fabs(mx)] *)
Definition corner_of (mn mx : Q) : Q :=
  if Faces.Qltb (fabs mx) (fabs mn) then fabs mn else fabs mx.

(** [RadiusFromBounds(mins, maxs)] *)
Definition RadiusFromBounds (mins maxs : Q * Q * Q) : Q :=
  Length (corner_of mins.1.1 maxs.1.1, corner_of mins.1.2 maxs.1.2,
          corner_of mins.2 maxs.2).

(** A length that does not shrink when the absolute value of a
    component grows. *)
Definition monotone : Prop :=
  forall a b : Q * Q * Q,
    (fabs a.1.1 <= fabs b.1.1)%Q -> (fabs a.1.2 <= fabs b.1.2)%Q ->
    (fabs a.2 <= fabs b.2)%Q ->
    (Length a <= Length b)%Q.

(** The point lies in the box. *)
Definition inside (mins maxs p : Q * Q * Q) : Prop :=
  (mins.1.1 <= p.1.1 <= maxs.1.1)%Q /\ (mins.1.2 <= p.1.2 <= maxs.1.2)%Q /\
  (mins.2 <= p.2 <= maxs.2)%Q.

End bounds.

(** A stand-in for [Length] that can be run on rational numbers: the
    sum of the absolute values of the components. *)
Definition sum_length (a : Q * Q * Q) : Q :=
  (fabs a.1.1 + fabs a.1.2 + fabs a.2)%Q.

End Bounds.

(** ** Alias models: the flood fill of a skin *)

Module FloodFill.

Definition FLOODFILL_FIFO_SIZE : Z := 4096.
Definition FLOODFILL_FIFO_MASK : Z := FLOODFILL_FIFO_SIZE - 1.

(** What the loop works on: the pixels from [skin] on, the queue
    [fifo] of [floodfill_t] (two shorts), its write index [inpt] and the
    local [fdc] of the turn at hand. *)
Record fill_state := {
  skin : list Z;
  fifo : list (Z * Z);
  inpt : Z;
  fdc : Z
}.

(** [for (i = 0; i < 256; ++i)
       if (d_8to24table[i] == (255 << 0)) { filledcolor = i; break; }]
    after [filledcolor = 0]; [n] turns are left.  The palette
    [d_8to24table] is outside this file. *)
Fixpoint find_black (n : nat) (i : Z) (d_8to24table : list Z) : result Z :=
  match n with
  | O => Ok 0
  | S n' =>
      match peek d_8to24table i with
      | Ok c => if c =? 255 then Ok i else find_black n' (i + 1) d_8to24table
      | SysError m => SysError m
      | Undefined w => Undefined w
      end
  end.

(** The macro [FLOODFILL_STEP(off, dx, dy)], with [pos] the index of
    the pixel at hand. *)
Definition FLOODFILL_STEP (fillcolor x y pos off dx dy : Z)
    (st : fill_state) : result fill_state :=
  c ← peek (skin st) (pos + off);
  if c =? fillcolor then
    sk ← poke (skin st) (pos + off) 255;
    ff ← poke (fifo st) (inpt st) (wrap 16 (x + dx), wrap 16 (y + dy));
    mret {| skin := sk; fifo := ff;
            inpt := Z.land (int_add (inpt st) 1) FLOODFILL_FIFO_MASK;
            fdc := fdc st |}
  else if negb (c =? 255) then
    mret {| skin := skin st; fifo := fifo st; inpt := inpt st; fdc := c |}
  else mret st.

(** One turn of the [while (outpt != inpt)] loop: the state and the new
    read index. *)
Definition flood_turn (fillcolor filledcolor skinwidth skinheight : Z)
    (outpt : Z) (st : fill_state) : result (fill_state * Z) :=
  e ← peek (fifo st) outpt;
  let x := fst e in
  let y := snd e in
  let pos := int_add x (int_mul skinwidth y) in
  let outpt' := Z.land (int_add outpt 1) FLOODFILL_FIFO_MASK in
  let st0 := {| skin := skin st; fifo := fifo st; inpt := inpt st;
                fdc := filledcolor |} in
  st1 ← (if x >? 0 then FLOODFILL_STEP fillcolor x y pos (-1) (-1) 0 st0
         else Ok st0);
  st2 ← (if x <? int_sub skinwidth 1
         then FLOODFILL_STEP fillcolor x y pos 1 1 0 st1 else Ok st1);
  st3 ← (if y >? 0
         then FLOODFILL_STEP fillcolor x y pos (int_sub 0 skinwidth) 0 (-1) st2
         else Ok st2);
  st4 ← (if y <? int_sub skinheight 1
         then FLOODFILL_STEP fillcolor x y pos skinwidth 0 1 st3 else Ok st3);
  sk ← poke (skin st4) pos (fdc st4);
  mret ({| skin := sk; fifo := fifo st4; inpt := inpt st4; fdc := fdc st4 |},
        outpt').

(** The loop, for at most [fuel] turns; [None] when they do not
    suffice. *)
Fixpoint flood_loop (fuel : nat)
    (fillcolor filledcolor skinwidth skinheight : Z)
    (outpt : Z) (st : fill_state) : option (result (list Z)) :=
  if outpt =? inpt st then Some (Ok (skin st))
  else
    match fuel with
    | O => None
    | S fuel' =>
        match flood_turn fillcolor filledcolor skinwidth skinheight outpt st with
        | Ok (st', outpt') =>
            flood_loop fuel' fillcolor filledcolor skinwidth skinheight
              outpt' st'
        | SysError m => Some (SysError m)
        | Undefined w => Some (Undefined w)
        end
    end.

(** [Mod_FloodFillSkin(skin, skinwidth, skinheight)]: the pixels from
    [skin] on afterwards.  [fifo0] is what the stack holds where the
    queue is placed. *)
Definition Mod_FloodFillSkin (fuel : nat) (d_8to24table : list Z)
    (fifo0 : list (Z * Z)) (pixels : list Z) (skinwidth skinheight : Z)
  : option (result (list Z)) :=
  match peek pixels 0 with
  | Ok fillcolor =>
      match find_black 256 0 d_8to24table with
      | Ok filledcolor =>
          if (fillcolor =? filledcolor) || (fillcolor =? 255)
          then Some (Ok pixels)
          else
            match poke fifo0 0 (0, 0) with
            | Ok ff =>
                flood_loop fuel fillcolor filledcolor skinwidth skinheight 0
                  {| skin := pixels; fifo := ff;
                     inpt := Z.land (int_add 0 1) FLOODFILL_FIFO_MASK;
                     fdc := filledcolor |}
            | SysError m => Some (SysError m)
            | Undefined w => Some (Undefined w)
            end
      | SysError m => Some (SysError m)
      | Undefined w => Some (Undefined w)
      end
  | SysError m => Some (SysError m)
  | Undefined w => Some (Undefined w)
  end.

(** The number of pixels of colour [v]. *)
Fixpoint count_of (v : Z) (pixels : list Z) : Z :=
  match pixels with
  | [] => 0
  | c :: rest => (if c =? v then 1 else 0) + count_of v rest
  end.

(** A queue entry that is in order: a pixel of the image that had the
    fill colour when the fill began. *)
Definition cell (fillcolor skinwidth skinheight : Z) (pixels0 : list Z)
    (e : Z * Z) : Prop :=
  0 <= fst e < skinwidth /\ 0 <= snd e < skinheight /\
  pixels0 !! Z.to_nat (fst e + skinwidth * snd e) = Some fillcolor.

(** The state of the loop against the pixels [pixels0] the fill began
    with; [hw] is the number of queue slots written so far, as far as
    that is below the size of the queue. *)
Definition good (fillcolor skinwidth skinheight : Z) (pixels0 : list Z)
    (st : fill_state) (hw : Z) : Prop :=
  length (skin st) = length pixels0 /\
  Z.of_nat (length (fifo st)) = FLOODFILL_FIFO_SIZE /\
  0 <= inpt st < FLOODFILL_FIFO_SIZE /\
  0 <= hw <= FLOODFILL_FIFO_SIZE /\
  (hw < FLOODFILL_FIFO_SIZE -> inpt st = hw) /\
  (forall s : Z,
      0 <= s < hw ->
      exists e, fifo st !! Z.to_nat s = Some e /\
                cell fillcolor skinwidth skinheight pixels0 e) /\
  (forall k : nat,
      pixels0 !! k <> Some fillcolor \/ skinwidth * skinheight <= Z.of_nat k ->
      skin st !! k = pixels0 !! k) /\
  fdc st <> fillcolor.

(** What the loop has left to do: the pixels that still have the fill
    colour weigh a whole queue each, the entries in the queue one
    each. *)
Definition left_to_do (fillcolor : Z) (st : fill_state) (outpt : Z) : Z :=
  FLOODFILL_FIFO_SIZE * count_of fillcolor (skin st)
  + (inpt st - outpt) mod FLOODFILL_FIFO_SIZE.

(** A palette whose entry 0 is opaque black, and a skin of 3x2 pixels
    with a background of colour 7 around two pixels of colour 3. *)
Definition black_first : list Z := 255 :: replicate 255 0.

Definition small_skin : list Z := [7; 7; 3; 7; 3; 7].

End FloodFill.

(** ** Brush models: setting up the submodels *)

Module Submodels.
Section submodels.
Context `{Headers}.
Context {cache_user_t cache_t other : Type}.

(** [MAX_MAP_HULLS] of [bspfile.h] and [Length] of the vector library,
    both outside this file. *)
Variable MAX_MAP_HULLS : Z.
Variable Length : Q * Q * Q -> Q.

(** A submodel as [Mod_LoadSubmodels] leaves it. *)
Record dmodel_t := {
  mins : Q * Q * Q;
  maxs : Q * Q * Q;
  origin : Q * Q * Q;
  headnode : list Z;
  visleafs : Z;
  firstface : Z;
  numfaces : Z
}.

(** Of a [hull_t], the two fields the loop writes. *)
Record hull_t := {
  firstclipnode : Z;
  lastclipnode : Z
}.

(** Of a brush [model_t], the fields the loop reads and writes; [rest]
    holds all the others. *)
Record brush_t := {
  hulls : list hull_t;
  numclipnodes : Z;
  firstmodelsurface : Z;
  nummodelsurfaces : Z;
  model_mins : Q * Q * Q;
  model_maxs : Q * Q * Q;
  radius : Q;
  numleafs : Z;
  submodels : list dmodel_t;
  numsubmodels : Z;
  rest : other
}.

Local Abbreviation model_t := (@Registry.model_t brush_t cache_user_t).
Local Abbreviation registry := (@Registry.registry brush_t cache_user_t cache_t).

(** [mod->hulls[0].firstclipnode = bm->headnode[0];] *)
Definition first_hull (bm : dmodel_t) (hs : list hull_t) : result (list hull_t) :=
  h ← peek hs 0;
  first ← peek (headnode bm) 0;
  poke hs 0 {| firstclipnode := first; lastclipnode := lastclipnode h |}.

(** [for (j = 1; j < MAX_MAP_HULLS; j++) {
       mod->hulls[j].firstclipnode = bm->headnode[j];
       mod->hulls[j].lastclipnode = mod->numclipnodes - 1; }]
    with [n] turns left. *)
Fixpoint hull_loop (n : nat) (j : Z) (bm : dmodel_t) (last : Z)
    (hs : list hull_t) : result (list hull_t) :=
  match n with
  | O => Ok hs
  | S n' =>
      first ← peek (headnode bm) j;
      hs' ← poke hs j {| firstclipnode := first; lastclipnode := last |};
      hull_loop n' (j + 1) bm last hs'
  end.

(** The head of a turn of the loop over the submodels: the fields of
    [mod] that are set from [mod->submodels[i]]. *)
Definition setup_model (i : Z) (b : brush_t) : result brush_t :=
  bm ← peek (submodels b) i;
  hs0 ← first_hull bm (hulls b);
  hs ← hull_loop (Z.to_nat (MAX_MAP_HULLS - 1)) 1 bm
         (int_sub (numclipnodes b) 1) hs0;
  mret {| hulls := hs;
          numclipnodes := numclipnodes b;
          firstmodelsurface := firstface bm;
          nummodelsurfaces := numfaces bm;
          model_mins := mins bm;
          model_maxs := maxs bm;
          radius := Bounds.RadiusFromBounds Length (mins bm) (maxs bm);
          numleafs := visleafs bm;
          submodels := submodels b;
          numsubmodels := numsubmodels b;
          rest := rest b |}.

Definition with_data (b : brush_t) (m : model_t) : model_t :=
  {| Registry.name := Registry.name m; Registry.needload := Registry.needload m;
     Registry.type := Registry.type m; Registry.cache := Registry.cache m;
     Registry.data := b |}.

Definition with_name (nm : string) (m : model_t) : model_t :=
  {| Registry.name := nm; Registry.needload := Registry.needload m;
     Registry.type := Registry.type m; Registry.cache := Registry.cache m;
     Registry.data := Registry.data m |}.

(** [snprintf(name, sizeof(name), "*%i", i + 1)] with [char name[10]]. *)
Definition submodel_name (i : Z) : string :=
  substring 0 9 ("*" +:+ pretty (int_add i 1)).

(** One turn of the loop over the submodels, on the model in slot [md]:
    the slot [mod] points to afterwards, and the registry. *)
Definition submodel_turn (i md : Z) (st : registry) : result (Z * registry) :=
  m ← peek (Registry.mod_known st) md;
  b ← setup_model i (Registry.data m);
  known ← poke (Registry.mod_known st) md (with_data b m);
  let st1 := {| Registry.mod_known := known;
                Registry.mod_numknown := Registry.mod_numknown st;
                Registry.content_cache := Registry.content_cache st |} in
  if i <? int_sub (numsubmodels b) 1 then
    let name := submodel_name i in
    '(loadmodel, st2) ← Registry.Mod_FindName name st1;
    (* *loadmodel = *mod; strcpy(loadmodel->name, name); *)
    src ← peek (Registry.mod_known st2) md;
    if Z.of_nat (String.length name) <? MAX_QPATH then
      known2 ← poke (Registry.mod_known st2) loadmodel (with_name name src);
      mret (loadmodel,
            {| Registry.mod_known := known2;
               Registry.mod_numknown := Registry.mod_numknown st2;
               Registry.content_cache := Registry.content_cache st2 |})
    else Undefined "strcpy past the end of the name"
  else mret (md, st1).

(** [for (i = 0; i < mod->numsubmodels; i++)], for at most [fuel]
    turns; [None] when they do not suffice. *)
Fixpoint submodel_loop (fuel : nat) (i md : Z) (st : registry)
  : option (result (Z * registry)) :=
  match peek (Registry.mod_known st) md with
  | Ok m =>
      if i <? numsubmodels (Registry.data m) then
        match fuel with
        | O => None
        | S fuel' =>
            match submodel_turn i md st with
            | Ok (md', st') => submodel_loop fuel' (int_add i 1) md' st'
            | SysError msg => Some (SysError msg)
            | Undefined w => Some (Undefined w)
            end
        end
      else Some (Ok (md, st))
  | SysError msg => Some (SysError msg)
  | Undefined w => Some (Undefined w)
  end.

(** The model [m] is set up for the submodel [bm]: its surfaces, its
    bounds, its leafs and the first clip node of each of its hulls are
    those of [bm]. *)
Definition set_up_for (bm : dmodel_t) (b : brush_t) : Prop :=
  firstmodelsurface b = firstface bm /\
  nummodelsurfaces b = numfaces bm /\
  model_mins b = mins bm /\ model_maxs b = maxs bm /\
  radius b = Bounds.RadiusFromBounds Length (mins bm) (maxs bm) /\
  numleafs b = visleafs bm /\
  forall (j : nat) (first : Z),
    headnode bm !! j = Some first ->
    exists h, hulls b !! j = Some h /\ firstclipnode h = first.

(** The name of the model that stands for the submodel [k]: the name of
    the map for the first, ["*k"] for the others. *)
Definition name_of (world : string) (k : Z) : string :=
  if k =? 0 then world else submodel_name (k - 1).

(** The slot [s] is the one a lookup of the name [nm] comes to: the
    first slot in use that holds the name. *)
Definition first_at (nm : string) (st : registry) (s : Z) : Prop :=
  0 <= s < Registry.mod_numknown st /\
  Registry.search nm
    (take (Z.to_nat (Registry.mod_numknown st)) (Registry.mod_known st)) 0 = s.

(** The slot [s] holds the model that stands for the submodel [k] of
    the map [m0]: it has the name of that submodel, it is set up for
    it, it is marked as loaded like the map, and a lookup of its name
    comes to it. *)
Definition stands_for (m0 : model_t) (st : registry) (k s : Z) : Prop :=
  exists (mk : model_t) (bm : dmodel_t),
    submodels (Registry.data m0) !! Z.to_nat k = Some bm /\
    0 <= s < Registry.mod_numknown st /\
    Registry.mod_known st !! Z.to_nat s = Some mk /\
    Registry.name mk = name_of (Registry.name m0) k /\
    Registry.needload mk = Registry.needload m0 /\
    Registry.type mk = Registry.type m0 /\
    set_up_for bm (Registry.data mk) /\
    (1 <= k -> first_at (Registry.name mk) st s).

(** The state at the head of the turn [i] of the loop, which began on
    the map [m0] in the slot [md0]: [mod] is the slot [md]. *)
Definition in_turn (m0 : model_t) (md0 : Z) (i md : Z) (st : registry) : Prop :=
  Registry.registry_ok st /\
  Registry.mod_numknown st + (numsubmodels (Registry.data m0) - 1 - i)
  <= Registry.MAX_MOD_KNOWN /\
  0 <= md < Registry.mod_numknown st /\
  (exists m : model_t,
      Registry.mod_known st !! Z.to_nat md = Some m /\
      Registry.name m = name_of (Registry.name m0) i /\
      Registry.needload m = Registry.needload m0 /\
      Registry.type m = Registry.type m0 /\
      submodels (Registry.data m) = submodels (Registry.data m0) /\
      numsubmodels (Registry.data m) = numsubmodels (Registry.data m0) /\
      length (hulls (Registry.data m)) = length (hulls (Registry.data m0))) /\
  (i = 0 -> md = md0) /\
  (1 <= i -> first_at (name_of (Registry.name m0) i) st md) /\
  (forall k : Z,
      0 <= k < i ->
      exists s, s <> md /\ (k = 0 -> s = md0) /\ stands_for m0 st k s).

(** The state the loop ends in. *)
Definition all_set_up (m0 : model_t) (md0 : Z) (st : registry) : Prop :=
  Registry.registry_ok st /\
  forall k : Z,
    0 <= k < numsubmodels (Registry.data m0) ->
    exists s, (k = 0 -> s = md0) /\ stands_for m0 st k s.

End submodels.

(** A map of three submodels in the slot 0 of the registry, for running
    a property on concrete data. *)
Definition sample_submodel (face : Z) : @dmodel_t :=
  {| mins := (0, 0, 0)%Q; maxs := (1, 1, 1)%Q; origin := (0, 0, 0)%Q;
     headnode := [face; face + 1; face + 2; face + 3];
     visleafs := face; firstface := face; numfaces := 10 |}.

Definition sample_brush : @brush_t unit :=
  {| hulls := replicate 4 {| firstclipnode := 0; lastclipnode := 0 |};
     numclipnodes := 50;
     firstmodelsurface := 0; nummodelsurfaces := 0;
     model_mins := (0, 0, 0)%Q; model_maxs := (0, 0, 0)%Q;
     radius := 0%Q; numleafs := 0;
     submodels := [sample_submodel 0; sample_submodel 10; sample_submodel 20];
     numsubmodels := 3;
     rest := () |}.

Definition sample_world : @Registry.model_t (@brush_t unit) (option Z) :=
  {| Registry.name := "maps/start.bsp"; Registry.needload := false;
     Registry.type := Registry.mod_brush; Registry.cache := None;
     Registry.data := sample_brush |}.

Definition unused_slot : @Registry.model_t (@brush_t unit) (option Z) :=
  {| Registry.name := ""; Registry.needload := false;
     Registry.type := Registry.mod_brush; Registry.cache := None;
     Registry.data := sample_brush |}.

Definition sample_registry
  : @Registry.registry (@brush_t unit) (option Z) unit :=
  {| Registry.mod_known := sample_world :: replicate 511 unused_slot;
     Registry.mod_numknown := 1;
     Registry.content_cache := () |}.

End Submodels.

(** * Properties *)

(** ** Machine integers *)

Lemma wrap_small (x : Z) : is_int x -> wrap 32 x = x.
Proof.
  unfold is_int, INT_MIN, INT_MAX, wrap. intros Hx.
  change (2 ^ (32 - 1)) with 2147483648. change (2 ^ 32) with 4294967296.
  rewrite Z.mod_small; lia.
Qed.

Lemma wrap_is_int (x : Z) : is_int (wrap 32 x).
Proof.
  unfold is_int, INT_MIN, INT_MAX, wrap.
  change (2 ^ (32 - 1)) with 2147483648. change (2 ^ 32) with 4294967296.
  pose proof (Z.mod_pos_bound (x + 2147483648) 4294967296). lia.
Qed.

(** ** Visibility decoder *)

Section VisProps.
Import Vis.

Lemma vis_row_ceil (numleafs : Z) :
  0 <= numleafs <= INT_MAX - 7 ->
  vis_row numleafs = (numleafs + 7) / 8 /\
  8 * (vis_row numleafs - 1) < numleafs <= 8 * vis_row numleafs.
Proof.
  unfold INT_MAX. intros Hn. unfold vis_row, int_add.
  rewrite wrap_small by (unfold is_int, INT_MIN, INT_MAX; lia).
  rewrite Z.shiftr_div_pow2 by lia. change (2 ^ 3) with 8.
  split; [done|].
  pose proof (Z.div_mod (numleafs + 7) 8 ltac:(lia)).
  pose proof (Z.mod_pos_bound (numleafs + 7) 8 ltac:(lia)). lia.
Qed.

Lemma poke_end (w tail : list Z) (t b : Z) :
  poke (w ++ t :: tail) (Z.of_nat (length w)) b = Ok ((w ++ [b]) ++ tail).
Proof.
  unfold poke.
  destruct (Z.ltb_spec (Z.of_nat (length w)) 0) as [?|_]; [lia|].
  rewrite length_app. cbn [length].
  destruct (Z.ltb_spec (Z.of_nat (length w))
              (Z.of_nat (length w + S (length tail)))) as [_|?]; [|lia].
  rewrite Nat2Z.id.
  replace (length w) with (length w + 0)%nat at 1 by lia.
  rewrite insert_app_r. cbn. by rewrite <- app_assoc.
Qed.

Lemma poke_inside {A} (arr : list A) (i : Z) (a : A) :
  0 <= i < Z.of_nat (length arr) ->
  poke arr i a = Ok (<[Z.to_nat i := a]> arr).
Proof.
  intros Hi. unfold poke.
  destruct (Z.ltb_spec i 0); [lia|].
  destruct (Z.ltb_spec i (Z.of_nat (length arr))); [done | lia].
Qed.

Lemma poke_full (w : list Z) (b : Z) :
  exists what, poke w (Z.of_nat (length w)) b = Undefined what.
Proof.
  unfold poke.
  destruct (Z.ltb_spec (Z.of_nat (length w)) 0) as [?|_]; [lia|].
  rewrite Z.ltb_irrefl. eauto.
Qed.

Lemma fill_visible_spec (n : nat) (w tail : list Z) :
  (n <= length tail)%nat ->
  fill_visible n (Z.of_nat (length w)) (w ++ tail)
  = Ok (w ++ replicate n 255 ++ drop n tail).
Proof.
  revert w tail. induction n as [|n IH]; intros w tail Hn.
  - cbn. by rewrite drop_0.
  - destruct tail as [|t tail]; [cbn in Hn; lia|].
    cbn [fill_visible]. rewrite poke_end.
    replace (Z.of_nat (length w) + 1) with (Z.of_nat (length (w ++ [255])))
      by (rewrite length_app; cbn; lia).
    rewrite IH by (cbn in Hn; lia).
    cbn. by rewrite <- app_assoc.
Qed.

Lemma write_zeros_spec (c : nat) (w tail : list Z) :
  (c <= length tail)%nat ->
  write_zeros c (Z.of_nat (length w)) (w ++ tail)
  = Ok (w ++ replicate c 0 ++ drop c tail, Z.of_nat (length w + c)).
Proof.
  revert w tail. induction c as [|c IH]; intros w tail Hc.
  - cbn. rewrite drop_0. do 2 f_equal. lia.
  - destruct tail as [|t tail]; [cbn in Hc; lia|].
    cbn [write_zeros]. rewrite poke_end.
    replace (Z.of_nat (length w) + 1) with (Z.of_nat (length (w ++ [0])))
      by (rewrite length_app; cbn; lia).
    rewrite IH by (cbn in Hc; lia).
    rewrite length_app. cbn. rewrite <- app_assoc. cbn.
    do 2 f_equal. lia.
Qed.

Lemma loop_outcome_literal inp w tail row b r :
  b <> 0 ->
  loop_outcome inp (w ++ [b]) tail row r ->
  forall t, loop_outcome (b :: inp) w (t :: tail) row r.
Proof.
  intros Hb (pre0 & code & post & -> & Hc & He & Hs & Hr & Hlt & Hge) t.
  cbn zeta in *.
  assert (Hnb : negb (b =? 0) = true)
    by (apply negb_true_iff, Z.eqb_neq; exact Hb).
  exists (b :: pre0), code, post. cbn zeta.
  split_and!.
  - done.
  - done.
  - cbn [app spec_expand]. rewrite Hnb. by rewrite He.
  - cbn [app spec_expand]. rewrite Hnb. by rewrite Hs.
  - rewrite Hr. cbn [app spec_expand]. rewrite Hnb.
    rewrite !length_app. cbn [length drop app].
    rewrite <- !app_assoc. cbn [app]. do 2 f_equal. lia.
  - revert Hlt. cbn [spec_expand]. rewrite Hnb, !length_app. cbn. lia.
  - revert Hge. cbn [app spec_expand]. rewrite Hnb, !length_app. cbn. lia.
Qed.

Lemma loop_outcome_run inp w tail row c r :
  (Z.to_nat c <= length tail)%nat ->
  loop_outcome inp (w ++ replicate (Z.to_nat c) 0) (drop (Z.to_nat c) tail) row r ->
  loop_outcome (0 :: c :: inp) w tail row r.
Proof.
  intros Hfit (pre0 & code & post & -> & Hc & He & Hs & Hr & Hlt & Hge).
  cbn zeta in *.
  exists (0 :: c :: pre0), code, post. cbn zeta.
  split_and!.
  - done.
  - done.
  - cbn [app spec_expand Z.eqb negb]. by rewrite He, app_assoc.
  - cbn [app spec_expand Z.eqb negb]. by rewrite Hs, app_assoc.
  - rewrite Hr. cbn [app spec_expand Z.eqb negb].
    rewrite !length_app, !length_replicate, drop_drop.
    rewrite <- !app_assoc. do 2 f_equal. lia.
  - revert Hlt. cbn [spec_expand Z.eqb negb].
    rewrite !length_app, !length_replicate. lia.
  - revert Hge. cbn [app spec_expand Z.eqb negb].
    rewrite !length_app, !length_replicate. lia.
Qed.

Lemma expand_loop_spec (n : nat) :
  forall (inp w tail : list Z) (row : Z),
    (length inp <= n)%nat ->
    Forall is_byte inp ->
    Z.of_nat (length w) < row ->
    row <= Z.of_nat (length w + length (spec_expand inp)) ->
    row + 254 <= Z.of_nat (length w + length tail) ->
    loop_outcome inp w tail row
      (expand_loop inp row (Z.of_nat (length w)) (w ++ tail)).
Proof.
  induction n as [|n IH]; intros inp w tail row Hn Hbytes Hlt Hreach Hroom.
  { destruct inp; cbn in *; lia. }
  destruct inp as [|b rest]; [cbn in Hreach; lia|].
  inversion Hbytes as [|? ? Hb Hrest]; subst.
  cbn [expand_loop]. cbn [spec_expand] in Hreach.
  destruct (Z.eqb_spec b 0) as [->|Hb0]; cbn [negb] in *.
  - destruct rest as [|c rest]; [cbn in Hreach; lia|].
    inversion Hrest as [|? ? Hc Hrest']; subst. unfold is_byte in Hc.
    assert (Hfit : (Z.to_nat c <= length tail)%nat) by lia.
    rewrite write_zeros_spec by exact Hfit.
    destruct (Z.ltb_spec (Z.of_nat (length w + Z.to_nat c)) row) as [Hmore|Hdone].
    + apply loop_outcome_run; [exact Hfit|].
      replace (Z.of_nat (length w + Z.to_nat c))
        with (Z.of_nat (length (w ++ replicate (Z.to_nat c) 0)))
        by (rewrite length_app, length_replicate; lia).
      rewrite app_assoc.
      apply IH; rewrite ?length_app, ?length_replicate, ?length_drop.
      * cbn in Hn. lia.
      * exact Hrest'.
      * lia.
      * revert Hreach. rewrite length_app, length_replicate. lia.
      * lia.
    + exists [], [0; c], rest. cbn zeta. split_and!.
      * done.
      * apply code_run.
      * cbn. by rewrite app_nil_r.
      * done.
      * cbn [app spec_expand Z.eqb negb].
        by rewrite app_nil_r, length_replicate.
      * cbn. lia.
      * cbn [app spec_expand Z.eqb negb].
        rewrite app_nil_r, length_replicate. lia.
  - destruct tail as [|t tail]; [cbn in Hroom; lia|].
    rewrite poke_end.
    destruct (Z.ltb_spec (Z.of_nat (length w) + 1) row) as [Hmore|Hdone].
    + apply loop_outcome_literal; [exact Hb0|].
      replace (Z.of_nat (length w) + 1) with (Z.of_nat (length (w ++ [b])))
        by (rewrite length_app; cbn; lia).
      apply IH; rewrite ?length_app.
      * cbn in Hn. lia.
      * exact Hrest.
      * cbn. lia.
      * revert Hreach. cbn. lia.
      * revert Hroom. cbn. lia.
    + assert (Hnb : negb (b =? 0) = true)
        by (apply negb_true_iff, Z.eqb_neq; exact Hb0).
      exists [], [b], rest. cbn zeta. split_and!.
      * done.
      * by apply code_literal.
      * cbn [app spec_expand]. by rewrite Hnb.
      * done.
      * cbn [app spec_expand]. rewrite Hnb. cbn.
        rewrite <- app_assoc. cbn. do 2 f_equal. lia.
      * cbn. lia.
      * cbn [app spec_expand]. rewrite Hnb. cbn. lia.
Qed.

(** C3.  Visibility decompression.  Without a compressed row the first
    [ceil(numleafs/8)] bytes of the returned buffer are all 0xFF.  With
    one, the decoder consumes whole codes of the input (a non-zero byte
    standing for itself, a zero byte and a count standing for that many
    zero bytes), appends their expansion, and stops at the first code
    whose expansion brings the output to [ceil(numleafs/8)] bytes, so the
    first [ceil(numleafs/8)] bytes returned are those of the expanded
    input.  The input [00 03 FF] with 32 leaves gives [00 00 00 FF]. *)
Theorem C3_decompress_vis :
  (forall (numleafs : Z) (decompressed : list Z),
      0 <= numleafs <= INT_MAX - 7 ->
      vis_row numleafs <= Z.of_nat (length decompressed) ->
      8 * (vis_row numleafs - 1) < numleafs <= 8 * vis_row numleafs /\
      exists d,
        Mod_DecompressVis None numleafs decompressed = Ok d /\
        take (Z.to_nat (vis_row numleafs)) d
        = replicate (Z.to_nat (vis_row numleafs)) 255 /\
        drop (Z.to_nat (vis_row numleafs)) d
        = drop (Z.to_nat (vis_row numleafs)) decompressed) /\
  (forall (inp : list Z) (numleafs : Z) (decompressed : list Z),
      0 < numleafs <= INT_MAX - 7 ->
      Forall is_byte inp ->
      vis_row numleafs <= Z.of_nat (length (spec_expand inp)) ->
      vis_row numleafs + 254 <= Z.of_nat (length decompressed) ->
      8 * (vis_row numleafs - 1) < numleafs <= 8 * vis_row numleafs /\
      loop_outcome inp [] decompressed (vis_row numleafs)
        (expand_loop inp (vis_row numleafs) 0 decompressed) /\
      exists d,
        Mod_DecompressVis (Some inp) numleafs decompressed = Ok d /\
        take (Z.to_nat (vis_row numleafs)) d
        = take (Z.to_nat (vis_row numleafs)) (spec_expand inp)) /\
  (forall decompressed : list Z,
      (4 <= length decompressed)%nat ->
      vis_row 32 = 4 /\
      Mod_DecompressVis (Some [0; 3; 255]) 32 decompressed
      = Ok ([0; 0; 0; 255] ++ drop 4 decompressed)).
Proof.
  split_and!.
  - intros numleafs decompressed Hn Hroom.
    destruct (vis_row_ceil numleafs Hn) as [_ Hceil]. split; [exact Hceil|].
    unfold Mod_DecompressVis.
    destruct (Z.ltb_spec (vis_row numleafs) 0) as [?|Hrow]; [lia|].
    pose proof (fill_visible_spec (Z.to_nat (vis_row numleafs)) [] decompressed
                  ltac:(lia)) as Hfill.
    change (Z.of_nat (length (@nil Z))) with 0 in Hfill.
    cbn [app] in Hfill. rewrite Hfill.
    eexists. split; [done|]. split.
    + rewrite take_app_length'; [done | by rewrite length_replicate].
    + rewrite drop_app_length'; [done | by rewrite length_replicate].
  - intros inp numleafs decompressed Hn Hbytes Hreach Hroom.
    destruct (vis_row_ceil numleafs ltac:(lia)) as [_ Hceil].
    split; [exact Hceil|].
    pose proof (expand_loop_spec (length inp) inp [] decompressed
                  (vis_row numleafs) ltac:(lia) Hbytes) as Hloop.
    change (Z.of_nat (length (@nil Z))) with 0 in Hloop.
    cbn [app length Nat.add] in Hloop.
    specialize (Hloop ltac:(lia) Hreach ltac:(lia)).
    split; [exact Hloop|].
    destruct Hloop as (pre0 & code & post & _ & _ & He & _ & Hr & _ & Hge).
    cbn zeta in *. unfold Mod_DecompressVis. rewrite Hr. cbn.
    eexists. split; [done|].
    change (length (@nil Z)) with 0%nat in Hge.
    rewrite He, !take_app_le by lia. done.
  - intros decompressed Hlen.
    do 4 (destruct decompressed as [|? decompressed]; [cbn in Hlen; lia|]).
    split; [reflexivity|].
    unfold Mod_DecompressVis. change (vis_row 32) with 4.
    cbn [expand_loop Z.eqb negb].
    change (write_zeros (Z.to_nat 3) 0 (z :: z0 :: z1 :: z2 :: decompressed))
      with (write_zeros 3 (Z.of_nat (length (@nil Z)))
              ([] ++ z :: z0 :: z1 :: z2 :: decompressed)).
    rewrite write_zeros_spec by (cbn [length]; lia).
    change (Z.of_nat (length (@nil Z) + 3)) with (Z.of_nat (length [0; 0; 0])).
    change (3 <? 4) with true. change (3 + 1 <? 4) with false. cbv iota.
    change ([] ++ replicate 3 0 ++ drop 3 (z :: z0 :: z1 :: z2 :: decompressed))
      with ([0; 0; 0] ++ z2 :: decompressed).
    change (Z.of_nat (length [0; 0; 0])) with 3.
    change 3 with (Z.of_nat (length [0; 0; 0])) at 1.
    rewrite poke_end.
    reflexivity.
Qed.

(** The three parts of [C3_decompress_vis] at 32 leaves, a 300-byte
    buffer of stale data and the row [00 03 FF]. *)
Lemma C3_decompress_vis_witness :
  (exists d, Mod_DecompressVis None 32 (replicate 300 7) = Ok d /\
             take 4 d = [255; 255; 255; 255]) /\
  (exists d, Mod_DecompressVis (Some [0; 3; 255]) 32 (replicate 300 7) = Ok d /\
             take 4 d = [0; 0; 0; 255]) /\
  Mod_DecompressVis (Some [0; 3; 255]) 32 [9; 9; 9; 9; 9]
  = Ok [0; 0; 0; 255; 9].
Proof.
  destruct C3_decompress_vis as (Hnone & Hsome & Hex).
  split_and!.
  - destruct (Hnone 32 (replicate 300 7)) as (_ & d & Hd & Htake & _).
    + unfold INT_MAX. lia.
    + vm_compute. discriminate.
    + exists d. split; [exact Hd | exact Htake].
  - destruct (Hsome [0; 3; 255] 32 (replicate 300 7)) as (_ & _ & d & Hd & Htake).
    + unfold INT_MAX. lia.
    + repeat constructor; unfold is_byte; lia.
    + vm_compute. discriminate.
    + vm_compute. discriminate.
    + exists d. split; [exact Hd | exact Htake].
  - apply (Hex [9; 9; 9; 9; 9]). cbn. lia.
Defined.

End VisProps.

(** ** Lump table *)

Section LumpsProps.
Import Lumps.
Context `{Headers}.

Lemma int_add_cases (a b : Z) :
  is_int a -> is_int b ->
  (is_int (a + b) /\ int_add a b = a + b) \/
  (INT_MAX < a + b /\ int_add a b = a + b - 4294967296) \/
  (a + b < INT_MIN /\ int_add a b = a + b + 4294967296).
Proof.
  unfold is_int, INT_MIN, INT_MAX, int_add, wrap. intros Ha Hb.
  change (2 ^ (32 - 1)) with 2147483648. change (2 ^ 32) with 4294967296.
  destruct (Z_lt_le_dec INT_MAX (a + b)) as [Hhi|Hhi]; unfold INT_MAX in Hhi.
  - right; left. split; [lia|].
    replace (a + b + 2147483648)
      with (a + b - 2147483648 + 1 * 4294967296) by lia.
    rewrite Z.mod_add, Z.mod_small by lia. lia.
  - destruct (Z_lt_le_dec (a + b) INT_MIN) as [Hlo|Hlo]; unfold INT_MIN in Hlo.
    + right; right. split; [lia|].
      replace (a + b + 2147483648)
        with (a + b + 6442450944 + (-1) * 4294967296) by lia.
      rewrite Z.mod_add, Z.mod_small by lia. lia.
    + left. split; [lia|]. rewrite Z.mod_small by lia. lia.
Qed.

Lemma ulong_of_int_nonneg (x : Z) :
  32 <= ULONG_BITS -> 0 <= x <= INT_MAX -> ulong_of_int x = x.
Proof.
  unfold INT_MAX, ulong_of_int. intros Hw Hx.
  apply Z.mod_small. split; [lia|].
  assert (2 ^ 32 <= 2 ^ ULONG_BITS) by (apply Z.pow_le_mono_r; lia).
  change (2 ^ 32) with 4294967296 in *. lia.
Qed.

(** The extent test accepts exactly the lumps that start at a
    non-negative offset, have a non-negative length, and end inside the
    buffer without passing [INT_MAX]. *)
Lemma bad_extents_false_iff (l : lump_t) (size : Z) :
  32 <= ULONG_BITS -> is_int (fileofs l) -> is_int (filelen l) ->
  bad_extents l size = false <->
  0 <= fileofs l /\ 0 <= filelen l /\
  fileofs l + filelen l <= size /\ fileofs l + filelen l <= INT_MAX.
Proof.
  intros Hw Hb Hlen. unfold bad_extents, lump_end. cbv zeta.
  rewrite !orb_false_iff, Z.gtb_ltb, Z.gtb_ltb, !Z.ltb_ge.
  destruct (int_add_cases _ _ Hb Hlen) as [[Hin ->]|[[Hhi ->]|[Hlo ->]]];
    unfold is_int, INT_MIN, INT_MAX in *.
  - split.
    + intros [[[? Hsz] ?] ?].
      rewrite ulong_of_int_nonneg in Hsz by (unfold INT_MAX; lia). lia.
    + intros (? & ? & ? & ?).
      rewrite ulong_of_int_nonneg by (unfold INT_MAX; lia). lia.
  - split; [intros [[[? ?] ?] ?]|intros (? & ? & ? & ?)]; lia.
  - split; [intros [[[? ?] ?] ?]|intros (? & ? & ? & ?)]; lia.
Qed.

Lemma overlaps_any_false_iff (l1 : lump_t) (table : list lump_t) :
  overlaps_any l1 table = false <->
  Forall (fun l2 => crossing l1 l2 = false) table.
Proof.
  induction table as [|l2 rest IH]; cbn [overlaps_any].
  - split; [constructor | done].
  - destruct (crossing l1 l2) eqn:Hc.
    + split; [done|]. intros Hall. inversion Hall; congruence.
    + rewrite IH. split; [by constructor|]. intros Hall. by inversion Hall.
Qed.

Lemma check_lumps_Ok_iff (todo table : list lump_t) (size : Z) :
  check_lumps todo table size = Ok () <->
  Forall (fun l1 => bad_extents l1 size = false /\
                    overlaps_any l1 table = false) todo.
Proof.
  induction todo as [|l1 rest IH]; cbn [check_lumps].
  - split; [constructor | done].
  - destruct (bad_extents l1 size) eqn:Hbad.
    { split; [done|]. intros Hall. inversion Hall as [|? ? [? ?]]. congruence. }
    destruct (overlaps_any l1 table) eqn:Hov.
    { split; [done|]. intros Hall. inversion Hall as [|? ? [? ?]]. congruence. }
    rewrite IH. split; [by constructor|]. intros Hall. by inversion Hall.
Qed.

Lemma check_lumps_outcomes (todo table : list lump_t) (size : Z) :
  check_lumps todo table size = Ok () \/ is_fatal (check_lumps todo table size).
Proof.
  induction todo as [|l1 rest IH]; cbn [check_lumps]; [by left|].
  destruct (bad_extents l1 size); [right; by eexists|].
  destruct (overlaps_any l1 table); [right; by eexists|]. exact IH.
Qed.

(** What the overlap test looks at: the start of one lump lying strictly
    between the start and the end of the other. *)
Lemma crossing_true_iff (l1 l2 : lump_t) :
  crossing l1 l2 = true <->
  (fileofs l1 < fileofs l2 < lump_end l1) \/
  (fileofs l2 < fileofs l1 < lump_end l2).
Proof.
  unfold crossing. cbv zeta.
  rewrite orb_true_iff, !andb_true_iff, !Z.gtb_ltb, !Z.ltb_lt. tauto.
Qed.

(** Two lumps that start at the same offset never trip the test. *)
Lemma crossing_same_start (l1 l2 : lump_t) :
  fileofs l1 = fileofs l2 -> crossing l1 l2 = false.
Proof.
  intros Heq. apply not_true_iff_false. rewrite crossing_true_iff. lia.
Qed.

(** The validation loop, characterised: it lets a table through exactly
    when every lump has a non-negative offset and length and ends inside
    the buffer, and no lump starts strictly inside another one. *)
Lemma check_lumps_characterised (table : list lump_t) (size : Z) :
  32 <= ULONG_BITS ->
  Forall (fun l => is_int (fileofs l) /\ is_int (filelen l)) table ->
  check_lumps table table size = Ok () <->
  Forall (fun l => 0 <= fileofs l /\ 0 <= filelen l /\
                   fileofs l + filelen l <= size /\
                   fileofs l + filelen l <= INT_MAX) table /\
  (forall l1 l2, In l1 table -> In l2 table ->
                 ~ fileofs l1 < fileofs l2 < lump_end l1).
Proof.
  intros Hw Hint. rewrite check_lumps_Ok_iff, !List.Forall_forall.
  rewrite List.Forall_forall in Hint.
  split.
  - intros Hall. split.
    + intros l Hl. destruct (Hall l Hl) as [Hbad _].
      destruct (Hint l Hl). by apply bad_extents_false_iff in Hbad.
    + intros l1 l2 Hl1 Hl2 Hcross. destruct (Hall l1 Hl1) as [_ Hov].
      rewrite overlaps_any_false_iff, List.Forall_forall in Hov.
      specialize (Hov l2 Hl2). apply not_true_iff_false in Hov.
      apply Hov, crossing_true_iff. by left.
  - intros [Hext Hno] l1 Hl1. split.
    + destruct (Hint l1 Hl1). apply bad_extents_false_iff; auto.
    + apply overlaps_any_false_iff, List.Forall_forall. intros l2 Hl2.
      apply not_true_iff_false. rewrite crossing_true_iff.
      intros [Hc|Hc]; [exact (Hno l1 l2 Hl1 Hl2 Hc) | exact (Hno l2 l1 Hl2 Hl1 Hc)].
Qed.

(** C1.  The overlap test of the lump validation reports a lump exactly
    when its start lies strictly between the start and the end of
    another one.  So a table of lumps that lie inside the buffer, any
    two of which start at the same offset or lie apart, is accepted,
    although two of its non-empty lumps that start at the same offset
    share the byte at that offset.  And a lump that starts strictly
    inside another one is fatal, also when it is empty and shares no
    byte with it. *)
Theorem C1_same_start_lumps_accepted :
  (forall (table : list lump_t) (size : Z),
      32 <= ULONG_BITS ->
      Forall (fun l => 0 <= filelen l /\ in_buffer l size) table ->
      (forall l1 l2 : lump_t,
          In l1 table -> In l2 table ->
          fileofs l1 = fileofs l2 \/
          fileofs l1 + filelen l1 <= fileofs l2 \/
          fileofs l2 + filelen l2 <= fileofs l1) ->
      check_lumps table table size = Ok () /\
      Mod_LoadBrushModel_header {| version := BSPVERSION; lumps := table |} size
      = Ok () /\
      (forall (i j : nat) (l1 l2 : lump_t),
          i <> j -> table !! i = Some l1 -> table !! j = Some l2 ->
          fileofs l1 = fileofs l2 ->
          0 < filelen l1 -> 0 < filelen l2 -> share_a_byte l1 l2)) /\
  (forall (table : list lump_t) (size : Z) (l1 l2 : lump_t),
      In l1 table -> In l2 table ->
      fileofs l1 < fileofs l2 < lump_end l1 ->
      is_fatal (check_lumps table table size) /\
      is_fatal (Mod_LoadBrushModel_header
                  {| version := BSPVERSION; lumps := table |} size)).
Proof.
  split.
  - intros table size Hw Hall Hapart.
    assert (Hend : forall l, In l table ->
               lump_end l = fileofs l + filelen l).
    { intros l Hl. rewrite List.Forall_forall in Hall.
      destruct (Hall l Hl) as (Hlen & Hin1 & Hin2 & Hin3).
      unfold lump_end, int_add. apply wrap_small.
      unfold is_int, INT_MIN, INT_MAX in *. lia. }
    assert (Hok : check_lumps table table size = Ok ()).
    { apply check_lumps_Ok_iff. rewrite List.Forall_forall in *.
      intros l1 Hl1. destruct (Hall l1 Hl1) as (Hlen1 & Hin1 & Hin2 & Hin3).
      split.
      - apply bad_extents_false_iff; unfold is_int, INT_MIN, INT_MAX in *;
          try lia; auto.
      - apply overlaps_any_false_iff, List.Forall_forall. intros l2 Hl2.
        apply not_true_iff_false. rewrite crossing_true_iff.
        rewrite (Hend l1 Hl1), (Hend l2 Hl2).
        destruct (Hall l2 Hl2) as (Hlen2 & _).
        destruct (Hapart l1 l2 Hl1 Hl2) as [?|[?|?]]; lia. }
    split; [exact Hok|]. split.
    + unfold Mod_LoadBrushModel_header. cbn [version lumps].
      by rewrite Z.eqb_refl.
    + intros i j l1 l2 _ Hi Hj Hsame Hp1 Hp2. exists (fileofs l1). lia.
  - intros table size l1 l2 Hl1 Hl2 Hcross.
    assert (Hfatal : is_fatal (check_lumps table table size)).
    { destruct (check_lumps_outcomes table table size) as [Hok|Hf]; [|done].
      exfalso. apply check_lumps_Ok_iff in Hok.
      rewrite List.Forall_forall in Hok. destruct (Hok l1 Hl1) as [_ Hov].
      rewrite overlaps_any_false_iff, List.Forall_forall in Hov.
      specialize (Hov l2 Hl2). apply not_true_iff_false in Hov.
      apply Hov, crossing_true_iff. by left. }
    split; [exact Hfatal|].
    unfold Mod_LoadBrushModel_header. cbn [version lumps].
    by rewrite Z.eqb_refl.
Qed.

End LumpsProps.

(** [C1_same_start_lumps_accepted] on two tables.  The first is the
    table of a file of 192 bytes in which the entities and the
    visibility both claim the bytes 124 to 139: the header is accepted,
    the two lumps share a byte, and both are loaded from the same
    bytes.  In the second an empty lump starts at the byte 130 of
    another one: it shares no byte with it, and the header is fatal. *)
Lemma C1_same_start_lumps_accepted_witness :
  (@Lumps.Mod_LoadBrushModel_header stock_headers
     {| Lumps.version := 29; Lumps.lumps := Lumps.same_start_table |} 192
   = Ok () /\
   Lumps.share_a_byte {| Lumps.fileofs := 124; Lumps.filelen := 16 |}
                      {| Lumps.fileofs := 124; Lumps.filelen := 16 |} /\
   @LumpData.Mod_LoadEntities stock_headers LumpData.same_start_file
     {| Lumps.fileofs := 124; Lumps.filelen := 16 |}
   = Ok (Some (LumpData.same_start_data)) /\
   @LumpData.Mod_LoadVisibility stock_headers LumpData.same_start_file
     {| Lumps.fileofs := 124; Lumps.filelen := 16 |}
   = Ok (Some (LumpData.same_start_data)) /\
   length LumpData.same_start_file = 192%nat) /\
  (~ Lumps.share_a_byte {| Lumps.fileofs := 124; Lumps.filelen := 16 |}
                        {| Lumps.fileofs := 130; Lumps.filelen := 0 |} /\
   is_fatal (@Lumps.Mod_LoadBrushModel_header stock_headers
               {| Lumps.version := 29; Lumps.lumps := Lumps.inside_table |}
               140)).
Proof.
  destruct (@C1_same_start_lumps_accepted stock_headers) as [Hpass Hfatal].
  split.
  - destruct (Hpass Lumps.same_start_table 192) as (_ & Hok & Hshare).
    + cbn. lia.
    + unfold Lumps.same_start_table, Lumps.in_buffer, INT_MAX.
      repeat constructor; cbn; lia.
    + intros l1 l2 Hl1 Hl2. unfold Lumps.same_start_table in Hl1, Hl2.
      cbn in Hl1, Hl2.
      repeat (destruct Hl1 as [<-|Hl1]; [| ]);
        try (exfalso; exact Hl1);
        repeat (destruct Hl2 as [<-|Hl2]; [| ]);
        try (exfalso; exact Hl2); cbn; lia.
    + split; [exact Hok|]. split.
      * apply (Hshare 0%nat 4%nat); cbn; (done || lia).
      * split; [vm_compute; reflexivity|]. split; [vm_compute|]; reflexivity.
  - split.
    + intros (x & Hx1 & Hx2). cbn in Hx1, Hx2. lia.
    + apply (Hfatal Lumps.inside_table 140
               {| Lumps.fileofs := 124; Lumps.filelen := 16 |}
               {| Lumps.fileofs := 130; Lumps.filelen := 0 |}).
      * left. reflexivity.
      * right. left. reflexivity.
      * vm_compute. split; reflexivity.
Defined.

(** ** Arrays *)

Lemma peek_lookup {A} (arr : list A) (i : nat) (a : A) :
  arr !! i = Some a -> peek arr (Z.of_nat i) = Ok a.
Proof.
  intros Ha. unfold peek.
  destruct (Z.ltb_spec (Z.of_nat i) 0); [lia|]. by rewrite Nat2Z.id, Ha.
Qed.

Lemma peek_inside {A} (arr : list A) (i : Z) (a : A) :
  0 <= i -> arr !! Z.to_nat i = Some a -> peek arr i = Ok a.
Proof.
  intros Hi Ha. unfold peek. destruct (Z.ltb_spec i 0); [lia|]. by rewrite Ha.
Qed.

Lemma peek_Ok_inv {A} (arr : list A) (i : Z) (a : A) :
  peek arr i = Ok a -> 0 <= i /\ arr !! Z.to_nat i = Some a.
Proof.
  unfold peek. destruct (Z.ltb_spec i 0); [done|].
  destruct (arr !! Z.to_nat i) eqn:Ha; [|done]. intros [= ->]. done.
Qed.

(** ** Model registry *)

Section RegistryProps.
Import Registry.
Context `{Headers} {payload cache_user_t cache_t : Type}.
Context (Cache_Check :
           cache_user_t -> cache_t -> option Z * cache_user_t * cache_t).

Local Abbreviation model := (@model_t payload cache_user_t).
Local Abbreviation reg := (@registry payload cache_user_t cache_t).

Lemma search_spec (nm : string) (mods : list model) (i : Z) :
  (search nm mods i = i + Z.of_nat (length mods) /\
   Forall (fun m => name m <> nm) mods) \/
  (exists (k : nat) (m : model),
      search nm mods i = i + Z.of_nat k /\ mods !! k = Some m /\ name m = nm).
Proof.
  revert i. induction mods as [|m rest IH]; intros i; cbn [search].
  - left. split; [cbn; lia | constructor].
  - destruct (String.eqb_spec (name m) nm) as [Heq|Hne].
    + right. exists 0%nat, m. split_and!; [lia | done | done].
    + destruct (IH (i + 1)) as [[Hs Hall]|(k & m' & Hs & Hk & Hm)].
      * left. split; [rewrite Hs; cbn [length]; lia | by constructor].
      * right. exists (S k), m'. split_and!; [lia | done | done].
Qed.

Lemma present_take (nm : string) (st : reg) :
  registry_ok st ->
  present nm st <->
  exists (i : nat) (m : model),
    take (Z.to_nat (mod_numknown st)) (mod_known st) !! i = Some m /\
    name m = nm.
Proof.
  intros [Hlen Hn]. unfold present. split.
  - intros (i & m & Hi & Hm & Hnm). exists i, m. split; [|done].
    rewrite lookup_take_lt by lia. done.
  - intros (i & m & Hm & Hnm). exists i, m.
    apply lookup_take_Some in Hm as [Hm Hi]. split_and!; [lia | done | done].
Qed.


Lemma Mod_FindName_present (nm : string) (st : reg) :
  registry_ok st -> nm <> "" -> present nm st ->
  exists (i : nat) (m : model),
    Mod_FindName nm st = Ok (Z.of_nat i, st) /\
    Z.of_nat i < mod_numknown st /\
    mod_known st !! i = Some m /\ name m = nm.
Proof.
  intros Hok Hnm Hp. pose proof Hok as [Hlen Hn].
  unfold Mod_FindName.
  destruct (String.eqb_spec nm "") as [?|_]; [done|].
  apply (present_take nm st Hok) in Hp as (i0 & m0 & Hm0 & Hnm0).
  destruct (search_spec nm (take (Z.to_nat (mod_numknown st)) (mod_known st)) 0)
    as [[_ Hall]|(k & m & Hs & Hk & Hm)].
  { rewrite List.Forall_forall in Hall. exfalso.
    apply (Hall m0); [|done]. apply list_elem_of_In, list_elem_of_lookup. eauto. }
  rewrite Hs. apply lookup_take_Some in Hk as [Hk Hlt].
  destruct (Z.eqb_spec (0 + Z.of_nat k) (mod_numknown st)) as [?|_]; [lia|].
  exists k, m. rewrite Z.add_0_l. split_and!; [done | lia | done | done].
Qed.

Lemma Mod_FindName_absent (nm : string) (st : reg) :
  registry_ok st -> nm <> "" -> ~ present nm st ->
  (mod_numknown st = MAX_MOD_KNOWN -> is_fatal (Mod_FindName nm st)) /\
  (mod_numknown st < MAX_MOD_KNOWN ->
   exists m : model,
     mod_known st !! Z.to_nat (mod_numknown st) = Some m /\
     Mod_FindName nm st
     = Ok (mod_numknown st,
           {| mod_known :=
                <[Z.to_nat (mod_numknown st) :=
                    {| name := stored_name nm; needload := true;
                       type := type m; cache := cache m; data := data m |}]>
                  (mod_known st);
              mod_numknown := mod_numknown st + 1;
              content_cache := content_cache st |})).
Proof.
  intros Hok Hnm Hp. pose proof Hok as [Hlen Hn].
  unfold Mod_FindName.
  destruct (String.eqb_spec nm "") as [?|_]; [done|].
  destruct (search_spec nm (take (Z.to_nat (mod_numknown st)) (mod_known st)) 0)
    as [[Hs _]|(k & m & _ & Hk & Hm)].
  2:{ exfalso. apply Hp, (present_take nm st Hok). eauto. }
  rewrite Hs, length_take, Nat.min_l by lia.
  rewrite Z.add_0_l, Z2Nat.id, Z.eqb_refl by lia.
  split.
  - intros ->. rewrite Z.eqb_refl. by eexists.
  - intros Hlt.
    destruct (Z.eqb_spec (mod_numknown st) MAX_MOD_KNOWN) as [?|_]; [lia|].
    destruct (lookup_lt_is_Some_2 (mod_known st) (Z.to_nat (mod_numknown st)))
      as [m Hm]; [lia|].
    exists m. split; [done|].
    rewrite <- (Z2Nat.id (mod_numknown st)) at 1 by lia.
    rewrite (peek_lookup _ _ _ Hm). cbn.
    rewrite poke_inside by lia. cbn.
    unfold int_add. rewrite wrap_small; [done|].
    unfold is_int, INT_MIN, INT_MAX, MAX_MOD_KNOWN in *. lia.
Qed.



End RegistryProps.


(** ** Alias model header *)

Section AliasHeaderProps.
Import Alias.
Context `{Headers}.

Lemma header_passes_iff (p : mdl_t) :
  is_Ok (Mod_LoadAliasModel_header p) <-> header_tests p.
Proof.
  unfold Mod_LoadAliasModel_header, header_tests, is_Ok.
  destruct (Z.eqb_spec (version p) ALIAS_VERSION); cbn [negb].
  2:{ split; [intros [? [=]] | intros [? _]; done]. }
  destruct (Z.gtb_spec (skinheight p) MAX_LBM_HEIGHT).
  { split; [intros [? [=]] | lia]. }
  destruct (Z.leb_spec (numverts p) 0).
  { split; [intros [? [=]] | lia]. }
  destruct (Z.gtb_spec (numverts p) MAXALIASVERTS).
  { split; [intros [? [=]] | lia]. }
  destruct (Z.leb_spec (numtris p) 0).
  { split; [intros [? [=]] | lia]. }
  destruct (Z.ltb_spec (numframes p) 1).
  { split; [intros [? [=]] | lia]. }
  split; [lia | eauto].
Qed.

Lemma header_fails_fatally (p : mdl_t) :
  ~ header_tests p -> is_fatal (Mod_LoadAliasModel_header p).
Proof.
  intros Hno. unfold Mod_LoadAliasModel_header, is_fatal.
  destruct (Z.eqb_spec (version p) ALIAS_VERSION); cbn [negb]; [|eauto].
  destruct (Z.gtb_spec (skinheight p) MAX_LBM_HEIGHT); [eauto|].
  destruct (Z.leb_spec (numverts p) 0); [eauto|].
  destruct (Z.gtb_spec (numverts p) MAXALIASVERTS); [eauto|].
  destruct (Z.leb_spec (numtris p) 0); [eauto|].
  destruct (Z.ltb_spec (numframes p) 1); [eauto|].
  exfalso. apply Hno. unfold header_tests. lia.
Qed.

Lemma header_copies_numtris (p : mdl_t) (h : aliashdr_t) :
  Mod_LoadAliasModel_header p = Ok h -> h_numtris h = numtris p.
Proof.
  unfold Mod_LoadAliasModel_header.
  repeat match goal with |- context [if ?b then _ else _] => destruct b end;
    try discriminate.
  by intros [= <-].
Qed.

(** The triangle loop runs off the static array when it is asked for
    more triangles than the array holds. *)
Lemma load_triangles_overflow (n : nat) :
  forall (i : Z) (pintriangles : list dtriangle_t) (triangles : list mtriangle_t),
    0 <= i <= Z.of_nat (length triangles) ->
    Z.of_nat (length triangles) < i + Z.of_nat n ->
    i + Z.of_nat n <= Z.of_nat (length pintriangles) ->
    exists why, load_triangles n i pintriangles triangles = Undefined why.
Proof.
  induction n as [|n IH]; intros i pin tris Hi Hover Hfile; [lia|].
  cbn [load_triangles].
  destruct (lookup_lt_is_Some_2 pin (Z.to_nat i)) as [t Ht]; [lia|].
  rewrite (peek_inside _ _ _ (proj1 Hi) Ht).
  destruct (Z_lt_le_dec i (Z.of_nat (length tris))) as [Hin|Hout].
  - rewrite poke_inside by lia.
    apply IH; rewrite ?length_insert; lia.
  - unfold poke. destruct (Z.ltb_spec i 0); [lia|].
    destruct (Z.ltb_spec i (Z.of_nat (length tris))); [lia|]. eauto.
Qed.

(** C8.  A header with the right version, a skin no taller than the
    maximum, a vertex count within (0, MAXALIASVERTS] and at least one
    frame, but more triangles than [MAXALIASTRIS], is not valid by the
    specification's tests and yet passes the loader's; the triangle loop
    that follows then writes past the static triangle array. *)
Theorem C8_triangle_limit_unchecked (p : mdl_t)
    (pintriangles : list dtriangle_t) (triangles : list mtriangle_t) :
  version p = ALIAS_VERSION ->
  skinheight p <= MAX_LBM_HEIGHT ->
  0 < numverts p <= MAXALIASVERTS ->
  1 <= numframes p ->
  0 <= MAXALIASTRIS < numtris p ->
  Z.of_nat (length triangles) = MAXALIASTRIS ->
  numtris p <= Z.of_nat (length pintriangles) ->
  ~ spec_header_ok p /\
  exists h,
    Mod_LoadAliasModel_header p = Ok h /\
    h_numtris h = numtris p /\
    exists why,
      load_triangles (Z.to_nat (h_numtris h)) 0 pintriangles triangles
      = Undefined why.
Proof.
  intros Hv Hs Hverts Hframes Htris Hcap Hfile. split.
  { unfold spec_header_ok. lia. }
  destruct (proj2 (header_passes_iff p)) as [h Hh].
  { unfold header_tests. lia. }
  exists h. pose proof (header_copies_numtris p h Hh) as Hn.
  split_and!; [done | done |]. rewrite Hn.
  apply load_triangles_overflow; lia.
Qed.

End AliasHeaderProps.

(** [C8_triangle_limit_unchecked] on a header that asks for 2049
    triangles where the array holds 2048. *)
Lemma C8_triangle_limit_unchecked_witness :
  exists h,
    @Alias.Mod_LoadAliasModel_header stock_headers Alias.overfull_header = Ok h /\
    Alias.h_numtris h = 2049.
Proof.
  destruct (@C8_triangle_limit_unchecked stock_headers Alias.overfull_header
              (replicate 2049 {| Alias.d_facesfront := 0;
                                 Alias.d_vertindex := [0; 0; 0] |})
              (replicate 2048 {| Alias.facesfront := 0;
                                 Alias.vertindex := [0; 0; 0] |}))
    as (_ & h & Hh & Hn & _); try (cbn; lia); try (vm_compute; congruence).
  exists h. split; [exact Hh | exact Hn].
Defined.

(** ** Alias frames and the pose cursor *)

Section AliasFrameProps.
Import Alias.
Context `{Headers}.

Lemma int_succ_inside (x cap : Z) :
  0 <= x < cap -> cap <= INT_MAX -> int_add x 1 = x + 1.
Proof.
  intros Hx Hcap. unfold int_add. apply wrap_small.
  unfold is_int, INT_MIN, INT_MAX in *. lia.
Qed.

Lemma Mod_LoadAliasFrame_spec (inp : daliasframe_t) (frame : maliasframedesc_t)
    (st : poses) :
  poses_ok st -> posenum st < MAXALIASFRAMES ->
  exists frame' st',
    Mod_LoadAliasFrame inp frame st = Ok (frame', st') /\
    firstpose frame' = posenum st /\ numposes frame' = 1 /\
    poses_ok st' /\ posenum st' = posenum st + 1.
Proof.
  intros (Hv & Hi & Hcap & Hpos) Hroom. unfold Mod_LoadAliasFrame.
  rewrite poke_inside by lia. cbn.
  rewrite poke_inside by lia. cbn.
  do 2 eexists. split; [done|]. cbn.
  rewrite (int_succ_inside _ MAXALIASFRAMES) by lia.
  split_and!; try done.
  unfold poses_ok. cbn. rewrite !length_insert. lia.
Qed.

(** The sub-frame loop when every interval it reads is positive. *)
Lemma group_loop_positive (inp : daliasgroup_t) (n : nat) :
  forall (i : nat) (st : poses),
    poses_ok st ->
    (i + n <= length (intervals inp))%nat ->
    (i + n <= length (g_frames inp))%nat ->
    (forall (k : nat) (x : Q),
        (i <= k < i + n)%nat -> intervals inp !! k = Some x -> (0 < x)%Q) ->
    posenum st + Z.of_nat n <= MAXALIASFRAMES ->
    exists st',
      group_loop n (Z.of_nat i) inp st = Ok st' /\
      poses_ok st' /\ posenum st' = posenum st + Z.of_nat n /\
      (forall k : nat,
          (k < n)%nat ->
          poseintervals st' !! (Z.to_nat (posenum st) + k)%nat
          = intervals inp !! (i + k)%nat) /\
      (forall j : nat,
          (j < Z.to_nat (posenum st))%nat ->
          poseintervals st' !! j = poseintervals st !! j /\
          poseverts st' !! j = poseverts st !! j).
Proof.
  induction n as [|n IH]; intros i st Hok Hint Hfr Hposv Hroom.
  { exists st. cbn. split_and!; [done | done | lia | intros; lia | done]. }
  pose proof Hok as (Hv & Hi & Hcap & Hpos).
  cbn [group_loop].
  destruct (lookup_lt_is_Some_2 (g_frames inp) i) as [dframe Hd]; [lia|].
  destruct (lookup_lt_is_Some_2 (intervals inp) i) as [x Hx]; [lia|].
  rewrite (peek_lookup _ _ _ Hd), (peek_lookup _ _ _ Hx).
  rewrite !poke_inside by lia.
  assert (Hxpos : (0 < x)%Q) by (apply (Hposv i); [lia | done]).
  destruct (Qle_bool x 0) eqn:Hle.
  { apply Qle_bool_iff in Hle. exfalso. exact (Qlt_not_le _ _ Hxpos Hle). }
  rewrite (int_succ_inside _ MAXALIASFRAMES) by lia.
  replace (Z.of_nat i + 1) with (Z.of_nat (S i)) by lia.
  set (st1 := {| poseverts := _; poseintervals := _; posenum := _ |}).
  destruct (IH (S i) st1) as (st' & Hloop & Hok' & Hnum & Hstored & Hkept).
  - unfold poses_ok, st1. cbn. rewrite !length_insert. lia.
  - lia.
  - lia.
  - intros k y Hk. apply Hposv. lia.
  - unfold st1. cbn. lia.
  - unfold st1 in Hnum, Hstored, Hkept. cbn in Hnum, Hstored, Hkept.
    exists st'. split_and!; [done | done | lia | |].
    + intros k Hk. destruct k as [|k].
      * rewrite Nat.add_0_r.
        destruct (Hkept (Z.to_nat (posenum st))) as [-> _]; [lia|].
        rewrite Nat.add_0_r, Hx. apply list_lookup_insert_eq. lia.
      * specialize (Hstored k ltac:(lia)).
        replace (Z.to_nat (posenum st) + S k)%nat
          with (Z.to_nat (posenum st + 1) + k)%nat by lia.
        rewrite Hstored. f_equal. lia.
    + intros j Hj. destruct (Hkept j) as [-> ->]; [lia|].
      rewrite !list_lookup_insert_ne by lia. done.
Qed.

(** The sub-frame loop when some interval it reads is not positive. *)
Lemma group_loop_fatal (inp : daliasgroup_t) (n : nat) :
  forall (i : nat) (st : poses),
    poses_ok st ->
    (i + n <= length (intervals inp))%nat ->
    (i + n <= length (g_frames inp))%nat ->
    (exists (k : nat) (x : Q),
        (i <= k < i + n)%nat /\ intervals inp !! k = Some x /\ (x <= 0)%Q) ->
    posenum st + Z.of_nat n <= MAXALIASFRAMES ->
    is_fatal (group_loop n (Z.of_nat i) inp st).
Proof.
  induction n as [|n IH]; intros i st Hok Hint Hfr (k & y & Hk & Hy & Hle) Hroom.
  { lia. }
  pose proof Hok as (Hv & Hi & Hcap & Hpos).
  cbn [group_loop].
  destruct (lookup_lt_is_Some_2 (g_frames inp) i) as [dframe Hd]; [lia|].
  destruct (lookup_lt_is_Some_2 (intervals inp) i) as [x Hx]; [lia|].
  rewrite (peek_lookup _ _ _ Hd), (peek_lookup _ _ _ Hx).
  rewrite !poke_inside by lia.
  destruct (Qle_bool x 0) eqn:Hx0; [by eexists|].
  rewrite (int_succ_inside _ MAXALIASFRAMES) by lia.
  replace (Z.of_nat i + 1) with (Z.of_nat (S i)) by lia.
  apply IH.
  - unfold poses_ok. cbn. rewrite !length_insert. lia.
  - lia.
  - lia.
  - exists k, y. split; [|split; [exact Hy | exact Hle]].
    destruct (decide (k = i)) as [->|?]; [|lia].
    rewrite Hx in Hy. injection Hy as ->.
    apply Qle_bool_iff in Hle. congruence.
  - cbn. lia.
Qed.

Lemma Mod_LoadAliasGroup_spec (g : daliasgroup_t) (frame : maliasframedesc_t)
    (st : poses) :
  poses_ok st -> group_complete g -> intervals_positive g ->
  posenum st + Z.max 0 (g_numframes g) <= MAXALIASFRAMES ->
  exists frame' st',
    Mod_LoadAliasGroup g frame st = Ok (frame', st') /\
    firstpose frame' = posenum st /\ numposes frame' = g_numframes g /\
    poses_ok st' /\ posenum st' = posenum st + Z.max 0 (g_numframes g) /\
    (forall k : nat,
        (k < Z.to_nat (g_numframes g))%nat ->
        poseintervals st' !! (Z.to_nat (posenum st) + k)%nat
        = intervals g !! k).
Proof.
  intros Hok (Hint & Hfr & Hone) Hpos Hroom. unfold Mod_LoadAliasGroup.
  destruct (lookup_lt_is_Some_2 (g_frames g) 0) as [dframe Hd]; [lia|].
  rewrite (peek_inside _ 0 dframe) by (lia || exact Hd). cbn.
  destruct (group_loop_positive g (Z.to_nat (g_numframes g)) 0 st)
    as (st' & Hloop & Hok' & Hnum & Hstored & _); try done; try lia.
  { intros k x Hk. apply Hpos. lia. }
  change (Z.of_nat 0) with 0 in Hloop. rewrite Hloop. cbn.
  do 2 eexists. split; [done|]. cbn. split_and!; try done. lia.
Qed.

Lemma Mod_LoadAliasGroup_fatal (g : daliasgroup_t) (frame : maliasframedesc_t)
    (st : poses) :
  poses_ok st -> group_complete g ->
  posenum st + Z.max 0 (g_numframes g) <= MAXALIASFRAMES ->
  (exists (k : nat) (x : Q),
      (k < Z.to_nat (g_numframes g))%nat /\ intervals g !! k = Some x /\
      (x <= 0)%Q) ->
  is_fatal (Mod_LoadAliasGroup g frame st).
Proof.
  intros Hok (Hint & Hfr & Hone) Hroom (k & x & Hk & Hx & Hle).
  unfold Mod_LoadAliasGroup.
  destruct (lookup_lt_is_Some_2 (g_frames g) 0) as [dframe Hd]; [lia|].
  rewrite (peek_inside _ 0 dframe) by (lia || exact Hd). cbn.
  destruct (group_loop_fatal g (Z.to_nat (g_numframes g)) 0 st)
    as [msg Hmsg]; try done; try lia.
  { exists k, x. split; [lia | done]. }
  change (Z.of_nat 0) with 0 in Hmsg. rewrite Hmsg. by eexists.
Qed.

Lemma pose_total_app (a b : list daliasframetype_t) :
  pose_total (a ++ b) = pose_total a + pose_total b.
Proof. induction a as [|r a IH]; cbn [app pose_total]; lia. Qed.

Lemma pose_count_nonneg (rec : daliasframetype_t) : 0 <= pose_count rec.
Proof. destruct rec; cbn; lia. Qed.

Lemma pose_total_nonneg (records : list daliasframetype_t) :
  0 <= pose_total records.
Proof.
  induction records as [|r rest IH]; cbn; [lia|].
  pose proof (pose_count_nonneg r). lia.
Qed.

(** The frame loop over the records [rest] that follow the records
    [done] already visited. *)
Lemma frame_loop_spec (rest : list daliasframetype_t) :
  forall (done tail : list daliasframetype_t)
         (frames : list maliasframedesc_t) (st : poses),
    poses_ok st ->
    Forall record_complete rest -> Forall record_positive rest ->
    posenum st + pose_total rest <= MAXALIASFRAMES ->
    (length done + length rest <= length frames)%nat ->
    exists frames' st',
      frame_loop (length rest) (Z.of_nat (length done))
        (done ++ rest ++ tail) frames st = Ok (frames', st') /\
      poses_ok st' /\ posenum st' = posenum st + pose_total rest /\
      length frames' = length frames /\
      (forall (k : nat) (rec : daliasframetype_t),
          rest !! k = Some rec ->
          exists fd, frames' !! (length done + k)%nat = Some fd /\
                     firstpose fd = posenum st + pose_total (take k rest) /\
                     numposes fd = declared_poses rec) /\
      (forall j : nat, (j < length done)%nat -> frames' !! j = frames !! j).
Proof.
  induction rest as [|rec rest IH];
    intros done tail frames st Hok Hcomp Hposv Hroom Hlen.
  { exists frames, st. cbn.
    split_and!; [done | done | lia | done | | done].
    intros k rec Hk. by rewrite lookup_nil in Hk. }
  inversion Hcomp as [|? ? Hc1 Hcomp']; subst.
  inversion Hposv as [|? ? Hp1 Hposv']; subst.
  cbn [length frame_loop pose_total] in *.
  pose proof (pose_total_nonneg rest) as Hnn.
  pose proof (pose_count_nonneg rec) as Hcn.
  assert (Hrec : (done ++ (rec :: rest) ++ tail) !! length done = Some rec).
  { rewrite lookup_app_r by lia. by rewrite Nat.sub_diag. }
  destruct (lookup_lt_is_Some_2 frames (length done)) as [frame Hframe]; [lia|].
  rewrite (peek_lookup _ _ _ Hrec), (peek_lookup _ _ _ Hframe).
  assert (Hstep : exists frame' st1,
             match rec with
             | frame_single f => Mod_LoadAliasFrame f frame st
             | frame_group g => Mod_LoadAliasGroup g frame st
             end = Ok (frame', st1) /\
             firstpose frame' = posenum st /\
             numposes frame' = declared_poses rec /\
             poses_ok st1 /\ posenum st1 = posenum st + pose_count rec).
  { destruct rec as [f|g]; cbn [pose_count declared_poses] in *.
    - destruct (Mod_LoadAliasFrame_spec f frame st Hok)
        as (frame' & st1 & ? & ? & ? & ? & ?); [lia|].
      exists frame', st1. done.
    - destruct (Mod_LoadAliasGroup_spec g frame st Hok Hc1 Hp1)
        as (frame' & st1 & ? & ? & ? & ? & ? & _); [lia|].
      exists frame', st1. done. }
  destruct Hstep as (frame' & st1 & -> & Hfirst & Hcount & Hok1 & Hnum1).
  rewrite Nat2Z.id.
  replace (Z.of_nat (length done) + 1) with (Z.of_nat (length (done ++ [rec])))
    by (rewrite length_app; cbn; lia).
  replace (done ++ (rec :: rest) ++ tail) with ((done ++ [rec]) ++ rest ++ tail)
    by (by rewrite <- app_assoc).
  destruct (IH (done ++ [rec]) tail (<[length done := frame']> frames) st1)
    as (frames' & st' & Hloop & Hok' & Hnum' & Hlen' & Hranges & Hkept);
    try done.
  { lia. }
  { rewrite length_app, length_insert. cbn. lia. }
  exists frames', st'. rewrite length_insert in Hlen'.
  split_and!; [done | done | lia | done | |].
  - intros k r Hk. destruct k as [|k]; cbn in Hk.
    + injection Hk as <-. exists frame'. rewrite Nat.add_0_r.
      rewrite Hkept by (rewrite length_app; cbn; lia).
      rewrite list_lookup_insert_eq by lia.
      split_and!; [done | cbn; lia | done].
    + destruct (Hranges k r Hk) as (fd & Hfd & Hfp & Hnp).
      exists fd. rewrite length_app in Hfd. cbn [length] in Hfd.
      replace (length done + S k)%nat with (length done + 1 + k)%nat by lia.
      split_and!; [done | cbn [take pose_total]; lia | done].
  - intros j Hj. rewrite Hkept by (rewrite length_app; cbn; lia).
    apply list_lookup_insert_ne. lia.
Qed.

(** C4.  Alias frames are decoded in declaration order with one pose
    cursor that starts at zero.  A single frame gets [firstpose] equal to
    the cursor and [numposes] 1, and advances the cursor by one.  A group
    gets [firstpose] equal to the cursor and [numposes] equal to its
    sub-frame count, reads one interval per sub-frame into the pose
    table and advances the cursor by that count; an interval that is not
    strictly positive is fatal.  A single frame followed by a group of
    three gives four poses, the ranges being [0,1) and [1,4). *)
Theorem C4_pose_cursor :
  (forall (inp : daliasframe_t) (frame : maliasframedesc_t) (st : poses),
      poses_ok st -> posenum st < MAXALIASFRAMES ->
      exists frame' st',
        Mod_LoadAliasFrame inp frame st = Ok (frame', st') /\
        firstpose frame' = posenum st /\ numposes frame' = 1 /\
        posenum st' = posenum st + 1) /\
  (forall (g : daliasgroup_t) (frame : maliasframedesc_t) (st : poses),
      poses_ok st -> group_complete g ->
      posenum st + Z.max 0 (g_numframes g) <= MAXALIASFRAMES ->
      (intervals_positive g ->
       exists frame' st',
         Mod_LoadAliasGroup g frame st = Ok (frame', st') /\
         firstpose frame' = posenum st /\
         numposes frame' = g_numframes g /\
         posenum st' = posenum st + Z.max 0 (g_numframes g) /\
         (forall k : nat,
             (k < Z.to_nat (g_numframes g))%nat ->
             poseintervals st' !! (Z.to_nat (posenum st) + k)%nat
             = intervals g !! k)) /\
      ((exists (k : nat) (x : Q),
           (k < Z.to_nat (g_numframes g))%nat /\
           intervals g !! k = Some x /\ (x <= 0)%Q) ->
       is_fatal (Mod_LoadAliasGroup g frame st))) /\
  (forall (records : list daliasframetype_t)
          (frames : list maliasframedesc_t) (st : poses),
      poses_ok st ->
      Forall record_complete records -> Forall record_positive records ->
      pose_total records <= MAXALIASFRAMES ->
      length frames = length records ->
      exists frames' st',
        load_frames (Z.of_nat (length records)) records frames st
        = Ok (frames', pose_total records, st') /\
        (forall (k : nat) (rec : daliasframetype_t),
            records !! k = Some rec ->
            exists fd, frames' !! k = Some fd /\
                       firstpose fd = pose_total (take k records) /\
                       numposes fd = declared_poses rec)) /\
  (forall (f : daliasframe_t) (g : daliasgroup_t)
          (frames : list maliasframedesc_t) (st : poses),
      poses_ok st -> 4 <= MAXALIASFRAMES ->
      g_numframes g = 3 -> group_complete g -> intervals_positive g ->
      length frames = 2%nat ->
      exists fd0 fd1 st',
        load_frames 2 [frame_single f; frame_group g] frames st
        = Ok ([fd0; fd1], 4, st') /\
        firstpose fd0 = 0 /\ numposes fd0 = 1 /\
        firstpose fd1 = 1 /\ numposes fd1 = 3).
Proof.
  assert (Hseq : forall (records : list daliasframetype_t)
          (frames : list maliasframedesc_t) (st : poses),
      poses_ok st ->
      Forall record_complete records -> Forall record_positive records ->
      pose_total records <= MAXALIASFRAMES ->
      length frames = length records ->
      exists frames' st',
        load_frames (Z.of_nat (length records)) records frames st
        = Ok (frames', pose_total records, st') /\
        length frames' = length frames /\
        (forall (k : nat) (rec : daliasframetype_t),
            records !! k = Some rec ->
            exists fd, frames' !! k = Some fd /\
                       firstpose fd = pose_total (take k records) /\
                       numposes fd = declared_poses rec)).
  { intros records frames st (Hv & Hi & Hcap & _) Hcomp Hposv Hroom Hlen.
    unfold load_frames. rewrite Nat2Z.id.
    set (st0 := {| poseverts := poseverts st;
                   poseintervals := poseintervals st; posenum := 0 |}).
    assert (Hok0 : poses_ok st0) by (unfold poses_ok, st0; cbn; lia).
    destruct (frame_loop_spec records [] [] frames st0 Hok0 Hcomp Hposv)
      as (frames' & st' & Hloop & _ & Hnum & Hlen' & Hranges & _);
      [cbn; lia | cbn; lia |].
    cbn [app length Z.of_nat] in Hloop. rewrite app_nil_r in Hloop.
    change (Z.of_nat 0) with 0 in Hloop. rewrite Hloop. cbn.
    exists frames', st'. split_and!.
    - do 2 f_equal. unfold st0 in Hnum. cbn in Hnum. f_equal. lia.
    - done.
    - intros k rec Hk. destruct (Hranges k rec Hk) as (fd & Hfd & Hfp & Hnp).
      exists fd. cbn in Hfd, Hfp. split_and!; [done | lia | done]. }
  split_and!.
  - intros inp frame st Hok Hroom.
    destruct (Mod_LoadAliasFrame_spec inp frame st Hok Hroom)
      as (frame' & st' & ? & ? & ? & _ & ?).
    exists frame', st'. done.
  - intros g frame st Hok Hcomp Hroom. split.
    + intros Hposv.
      destruct (Mod_LoadAliasGroup_spec g frame st Hok Hcomp Hposv Hroom)
        as (frame' & st' & ? & ? & ? & _ & ? & ?).
      exists frame', st'. done.
    + by apply Mod_LoadAliasGroup_fatal.
  - intros records frames st Hok Hcomp Hposv Hroom Hlen.
    destruct (Hseq records frames st Hok Hcomp Hposv Hroom Hlen)
      as (frames' & st' & ? & _ & ?).
    exists frames', st'. done.
  - intros f g frames st Hok Hroom Hg Hcomp Hposv Hlen.
    destruct (Hseq [frame_single f; frame_group g] frames st Hok)
      as (frames' & st' & Hload & Hlen' & Hranges).
    { constructor; [exact I|]. constructor; [exact Hcomp | constructor]. }
    { constructor; [exact I|]. constructor; [exact Hposv | constructor]. }
    { cbn. rewrite Hg. lia. }
    { done. }
    destruct (Hranges 0%nat (frame_single f) eq_refl) as (fd0 & Hfd0 & ? & ?).
    destruct (Hranges 1%nat (frame_group g) eq_refl) as (fd1 & Hfd1 & ? & ?).
    cbn in Hload. rewrite Hg in Hload. cbn in Hload.
    rewrite Hlen in Hlen'.
    destruct frames' as [|a [|b [|c frames']]]; cbn in Hlen'; try lia.
    cbn in Hfd0, Hfd1. simplify_eq.
    exists fd0, fd1, st'. cbn in *. split_and!; try done; lia.
Qed.

End AliasFrameProps.

(** [C4_pose_cursor] on a single frame followed by a group of three. *)
Lemma C4_pose_cursor_witness :
  exists fd0 fd1 st',
    Alias.load_frames 2
      [Alias.frame_single (Alias.sample_frame "stand1");
       Alias.frame_group Alias.sample_group]
      [Alias.blank_desc; Alias.blank_desc] Alias.blank_poses
    = Ok ([fd0; fd1], 4, st') /\
    Alias.firstpose fd0 = 0 /\ Alias.numposes fd0 = 1 /\
    Alias.firstpose fd1 = 1 /\ Alias.numposes fd1 = 3.
Proof.
  destruct (@C4_pose_cursor stock_headers) as (_ & _ & _ & Hexample).
  apply Hexample.
  - unfold Alias.poses_ok, INT_MAX. vm_compute. intuition congruence.
  - cbn. lia.
  - reflexivity.
  - unfold Alias.group_complete. cbn. lia.
  - intros k x Hk Hx. cbn in Hk.
    destruct k as [|[|[|k]]]; cbn in Hx; try lia;
      injection Hx as <-; reflexivity.
  - reflexivity.
Defined.

(** ** Alias skins *)

Section SkinsProps.
Import Skins.
Context {gl_t : Type}.
Context (GL_LoadTexture :
           string -> Z -> Z -> list Z -> bool -> bool -> gl_t -> Z * gl_t).
Context (Mod_FloodFillSkin : list Z -> Z -> Z -> Z -> list Z).

Lemma set_slot_spec (table : list (list Z)) (i c h : Z) (row : list Z) :
  0 <= i -> table !! Z.to_nat i = Some row ->
  0 <= c < Z.of_nat (length row) ->
  set_slot table i c h
  = Ok (<[Z.to_nat i := <[Z.to_nat c := h]> row]> table).
Proof.
  intros Hi Hrow Hc. unfold set_slot.
  rewrite (peek_inside _ _ _ Hi Hrow). cbn.
  rewrite poke_inside by lia. cbn.
  apply poke_inside. apply lookup_lt_Some in Hrow. lia.
Qed.

Lemma get_slot_spec (table : list (list Z)) (i c h : Z) (row : list Z) :
  0 <= i -> table !! Z.to_nat i = Some row ->
  0 <= c -> row !! Z.to_nat c = Some h ->
  get_slot table i c = Ok h.
Proof.
  intros Hi Hrow Hc Hh. unfold get_slot.
  rewrite (peek_inside _ _ _ Hi Hrow). cbn. by apply peek_inside.
Qed.

Lemma lookup_insert_row (table : list (list Z)) (n : nat) (row row' : list Z) :
  table !! n = Some row -> <[n := row']> table !! n = Some row'.
Proof. intros Hrow. apply list_lookup_insert_eq. by apply lookup_lt_Some in Hrow. Qed.

Ltac small_nats :=
  change (Z.to_nat 0) with 0%nat in *; change (Z.to_nat 1) with 1%nat in *;
  change (Z.to_nat 2) with 2%nat in *; change (Z.to_nat 3) with 3%nat in *.

Ltac slot_step :=
  cbn [mbind result_bind mret result_ret buffer gl gl_texturenum pskintype];
  match goal with
  | Hrow : ?T !! Z.to_nat ?i = Some ?row |- context [get_slot ?T ?i ?c] =>
      let c' := eval vm_compute in c in
      change (get_slot T i c) with (get_slot T i c');
      erewrite (get_slot_spec T i c' _ row) by (done || lia || reflexivity);
      cbn beta iota
  | Hrow : ?T !! Z.to_nat ?i = Some ?row |- context [set_slot ?T ?i ?c ?h] =>
      let c' := eval vm_compute in c in
      change (set_slot T i c h) with (set_slot T i c' h);
      rewrite (set_slot_spec T i c' h row) by (done || (cbn; lia));
      let Hnew := fresh "Hrow" in
      pose proof (lookup_insert_row T (Z.to_nat i) row
                    (<[Z.to_nat c' := h]> row) Hrow) as Hnew;
      small_nats;
      cbn [insert list_insert] in Hnew |- *; cbn beta iota
  end.

Ltac upload_step :=
  cbn [upload_loop uploaded fill_loop buffer gl gl_texturenum pskintype];
  match goal with
  | |- context [GL_LoadTexture ?a ?b ?c ?d ?e ?f ?g] =>
      destruct (GL_LoadTexture a b c d e f g) as [? ?]
  end.

Ltac group_case :=
  repeat upload_step;
  cbn [upload_loop uploaded fill_loop buffer gl gl_texturenum pskintype];
  repeat slot_step;
  cbn [mbind result_bind mret result_ret];
  do 2 eexists; split; [reflexivity|]; cbn [gl_texturenum];
  split; [eassumption|];
  split_and!;
  [ done | done
  | intros [|[|[|[|?]]]] ?; cbn; (done || lia)
  | let h := fresh "h" in let Hh := fresh "Hh" in
    intros h Hh; apply list_elem_of_In in Hh; apply list_elem_of_In;
    cbn in *; tauto
  | let i' := fresh "i'" in intros i' ?;
    by rewrite !list_lookup_insert_ne by done ].

(** C9.  A skin group of [k] images, 1 <= k <= 3: the [k] uploads fill
    slots 0 to k-1 of the skin's row of the texture table in order, and
    each remaining slot [j] is filled with the handle in slot [j - k], so
    that slot [j] holds the handle of upload [j mod k]; every slot of the
    row then holds a handle returned by one of the uploads, and the rows
    of the other skins are left as they were. *)
Theorem C9_group_table_cyclic (model : string)
    (skinwidth skinheight skin s i : Z) (st : loader) (k : Z)
    (row0 : list Z) :
  read_long (buffer st) (pskintype st + 4) = Ok k ->
  1 <= k <= 3 -> 0 <= i ->
  gl_texturenum st !! Z.to_nat i = Some row0 -> length row0 = 4%nat ->
  let handles :=
    uploaded GL_LoadTexture Mod_FloodFillSkin model skinwidth skinheight
      skin s (Z.to_nat k) i 0 (buffer st) (gl st)
      (pskintype st + 4 + 4 + 4 * k) in
  exists st' row,
    load_skin_group GL_LoadTexture Mod_FloodFillSkin model skinwidth
      skinheight skin s i st = Ok st' /\
    gl_texturenum st' !! Z.to_nat i = Some row /\
    length handles = Z.to_nat k /\
    length row = 4%nat /\
    repeats_cyclically row handles /\
    (forall h, h ∈ row -> h ∈ handles) /\
    (forall i' : nat,
        i' <> Z.to_nat i -> gl_texturenum st' !! i' = gl_texturenum st !! i').
Proof.
  intros Hread Hk Hi Hrow Hlen.
  destruct row0 as [|a [|b [|c [|d [|? ?]]]]]; try discriminate Hlen.
  unfold load_skin_group. rewrite Hread. cbn [mbind result_bind].
  assert (Hcases : k = 1 \/ k = 2 \/ k = 3) by lia.
  destruct Hcases as [-> | [-> | ->]]; cbv zeta.
  - change (Z.to_nat 1) with 1%nat. change (Z.max 0 1) with 1.
    change (Z.to_nat (4 - 1)) with 3%nat. group_case.
  - change (Z.to_nat 2) with 2%nat. change (Z.max 0 2) with 2.
    change (Z.to_nat (4 - 2)) with 2%nat. group_case.
  - change (Z.to_nat 3) with 3%nat. change (Z.max 0 3) with 3.
    change (Z.to_nat (4 - 3)) with 1%nat. group_case.
Qed.

End SkinsProps.

(** [C9_group_table_cyclic] on a group of two 2x2 images, uploaded by a
    texture manager that numbers its handles from 100. *)
Lemma C9_group_table_cyclic_witness :
  exists st' row,
    Skins.load_skin_group Skins.counting_upload Skins.no_fill
      "progs/flame.mdl" 2 2 4 4 0 Skins.sample_loader = Ok st' /\
    Skins.gl_texturenum st' !! 0%nat = Some row /\
    Skins.repeats_cyclically row [100; 101].
Proof.
  destruct (C9_group_table_cyclic Skins.counting_upload Skins.no_fill
              "progs/flame.mdl" 2 2 4 4 0 Skins.sample_loader 2 [0; 0; 0; 0])
    as (st' & row & Hload & Hrow & _ & _ & Hcyc & _).
  - reflexivity.
  - lia.
  - lia.
  - reflexivity.
  - reflexivity.
  - exists st', row. split; [exact Hload|]. split; [exact Hrow | exact Hcyc].
Defined.

(** The same group against the specification's reading: the uploads
    return the handles 100 and 101, the row becomes 100, 101, 100, 101,
    and slot 2 does not hold the handle of the last upload. *)
Lemma C9_last_handle_not_replicated :
  exists st',
    Skins.load_skin_group Skins.counting_upload Skins.no_fill
      "progs/flame.mdl" 2 2 4 4 0 Skins.sample_loader = Ok st' /\
    Skins.gl_texturenum st' !! 0%nat = Some [100; 101; 100; 101] /\
    Skins.uploaded Skins.counting_upload Skins.no_fill "progs/flame.mdl"
      2 2 4 4 2 0 0 Skins.two_image_group 100 16 = [100; 101] /\
    ~ Skins.replicates_last [100; 101; 100; 101] [100; 101].
Proof.
  eexists. split; [vm_compute; reflexivity|].
  split; [reflexivity|]. split; [reflexivity|].
  intros Hrep. specialize (Hrep 2%nat ltac:(cbn; lia)). discriminate Hrep.
Qed.

(** ** Point-in-leaf query *)

Section TreeProps.
Import Tree.
Context `{Headers}.

Lemma Qle_bool_false (x y : Q) : Qle_bool x y = false <-> (y < x)%Q.
Proof.
  rewrite <- not_true_iff_false, Qle_bool_iff. split.
  - apply Qnot_le_lt.
  - intros Hlt Hle. exact (Qlt_not_le _ _ Hlt Hle).
Qed.

Lemma loop_body_stop (p : vec3_t) (nds : list mnode_t) (m : model_t)
    (node : node_ptr) (c : Z) :
  contents_at nds m node = Ok c -> c < 0 ->
  loop_body p nds m node = Ok (found node).
Proof.
  intros Hc Hneg. unfold loop_body. rewrite Hc. cbn.
  destruct (Z.ltb_spec c 0); [done | lia].
Qed.

Lemma loop_body_node (p : vec3_t) (nds : list mnode_t) (m : model_t)
    (i : Z) (n : mnode_t) (pl : mplane_t) :
  peek nds i = Ok n -> 0 <= contents n ->
  peek (planes m) (plane n) = Ok pl ->
  loop_body p nds m (to_node i)
  = Ok (next (if negb (Qle_bool (DotProduct p (normal pl) - dist pl) 0)
              then fst (children n) else snd (children n))).
Proof.
  intros Hn Hc Hpl. unfold loop_body, contents_at. rewrite Hn. cbn.
  destruct (Z.ltb_spec (contents n) 0); [lia|]. rewrite Hpl. cbn.
  by destruct (Qle_bool _ 0).
Qed.

(** A descent of [k] turns is what the loop computes, given [k] turns or
    more. *)
Lemma descend_of_descent (p : vec3_t) (nds : list mnode_t) (m : model_t)
    (node leaf : node_ptr) (k : nat) :
  descent p nds m node leaf k ->
  forall fuel : nat, (k <= fuel)%nat ->
    descend fuel p nds m node = Some (Ok leaf).
Proof.
  induction 1 as [node c Hc Hneg
                 |i n pl leaf k Hn Hc Hpl Hd Hrest IH
                 |i n pl leaf k Hn Hc Hpl Hd Hrest IH];
    intros fuel Hfuel; (destruct fuel as [|fuel]; [lia|]); cbn [descend].
  - by rewrite (loop_body_stop p nds m node c).
  - rewrite (loop_body_node p nds m i n pl) by done.
    apply Qle_bool_false in Hd. rewrite Hd. cbn [negb]. apply IH. lia.
  - rewrite (loop_body_node p nds m i n pl) by done.
    apply Qle_bool_iff in Hd. rewrite Hd. cbn [negb]. apply IH. lia.
Qed.

(** Whatever leaf the loop returns is the end of a descent. *)
Lemma descent_of_descend (p : vec3_t) (nds : list mnode_t) (m : model_t)
    (fuel : nat) :
  forall node leaf : node_ptr,
    descend fuel p nds m node = Some (Ok leaf) ->
    exists k : nat, (k <= fuel)%nat /\ descent p nds m node leaf k.
Proof.
  induction fuel as [|fuel IH]; intros node leaf Hrun; [done|].
  cbn [descend] in Hrun. unfold loop_body in Hrun.
  destruct (contents_at nds m node) as [c| |] eqn:Hc; cbn in Hrun; try done.
  destruct (Z.ltb_spec c 0) as [Hneg|Hpos]; cbn in Hrun.
  { injection Hrun as <-. exists 1%nat. split; [lia|].
    by apply (descent_stop p nds m node c). }
  destruct node as [i|i]; [|done].
  cbn in Hc. destruct (peek nds i) as [n| |] eqn:Hn; cbn in Hc, Hrun; try done.
  injection Hc as <-.
  destruct (peek (planes m) (plane n)) as [pl| |] eqn:Hpl; cbn in Hrun; try done.
  destruct (Qle_bool (DotProduct p (normal pl) - dist pl) 0) eqn:Hd;
    cbn in Hrun; destruct (IH _ _ Hrun) as (k & Hk & Hdesc);
    exists (S k); (split; [lia|]).
  - apply Qle_bool_iff in Hd. by apply (descent_back p nds m i n pl).
  - apply Qle_bool_false in Hd. by apply (descent_front p nds m i n pl).
Qed.

Lemma descent_ends_at_leaf (p : vec3_t) (nds : list mnode_t) (m : model_t)
    (node leaf : node_ptr) (k : nat) :
  descent p nds m node leaf k ->
  exists c, contents_at nds m leaf = Ok c /\ c < 0.
Proof. induction 1; eauto. Qed.

(** C5.  [Mod_PointInLeaf] is fatal on a null model or a null node
    array.  Otherwise it starts at the first node and returns the first
    tree element with a negative contents tag that it meets going, at
    each node, to [children[0]] when [DotProduct(p, normal) - dist] is
    strictly positive and to [children[1]] when it is not: the leaf it
    returns is the end of that descent, and a descent of [k] turns is
    found by the loop within [k] turns.  For a node that splits on the
    plane x = 0 with a leaf on either side, a point with x = +1 gets the
    leaf at [children[0]] and a point with x = -1 the one at
    [children[1]]. *)
Theorem C5_point_in_leaf :
  (forall (fuel : nat) (p : vec3_t),
      Mod_PointInLeaf fuel p None = Some (SysError "bad model")) /\
  (forall (fuel : nat) (p : vec3_t) (m : model_t),
      nodes m = None ->
      Mod_PointInLeaf fuel p (Some m) = Some (SysError "bad model")) /\
  (forall (p : vec3_t) (m : model_t) (nds : list mnode_t) (leaf : node_ptr),
      nodes m = Some nds ->
      (forall k : nat,
          descent p nds m (to_node 0) leaf k ->
          forall fuel : nat, (k <= fuel)%nat ->
            Mod_PointInLeaf fuel p (Some m) = Some (Ok leaf)) /\
      (forall fuel : nat,
          Mod_PointInLeaf fuel p (Some m) = Some (Ok leaf) ->
          (exists k : nat,
              (k <= fuel)%nat /\ descent p nds m (to_node 0) leaf k) /\
          (exists c, contents_at nds m leaf = Ok c /\ c < 0))) /\
  (forall (front back : node_ptr) (x y z : Q),
      (forall q : vec3_t, DotProduct q (1, 0, 0)%Q == q.1.1)%Q ->
      (exists i, front = to_leaf i /\ 0 <= i <= 2) ->
      (exists i, back = to_leaf i /\ 0 <= i <= 2) ->
      ((0 < x)%Q ->
       Mod_PointInLeaf 2 (x, y, z) (Some (split_on_x front back))
       = Some (Ok front)) /\
      ((x <= 0)%Q ->
       Mod_PointInLeaf 2 (x, y, z) (Some (split_on_x front back))
       = Some (Ok back))).
Proof.
  split_and!.
  - done.
  - intros fuel p m Hnodes. unfold Mod_PointInLeaf. by rewrite Hnodes.
  - intros p m nds leaf Hnodes. unfold Mod_PointInLeaf. rewrite Hnodes. split.
    + intros k Hdesc fuel Hfuel. by apply (descend_of_descent p nds m _ _ k).
    + intros fuel Hrun.
      destruct (descent_of_descend p nds m fuel _ _ Hrun) as (k & Hk & Hdesc).
      split; [by exists k|]. exact (descent_ends_at_leaf p nds m _ _ k Hdesc).
  - intros front back x y z Hdot (i & -> & Hi) (j & -> & Hj).
    set (root := {| contents := 0; plane := 0;
                    children := (to_leaf i, to_leaf j) |}).
    set (pl := {| normal := (1, 0, 0)%Q; dist := 0%Q |}).
    assert (Hleaf : forall a, 0 <= a <= 2 ->
              exists c, contents_at [root] (split_on_x (to_leaf i) (to_leaf j))
                          (to_leaf a) = Ok c /\ c < 0).
    { intros a Ha.
      assert (Hcases : a = 0 \/ a = 1 \/ a = 2) by lia.
      destruct Hcases as [-> | [-> | ->]]; eexists;
        (split; [vm_compute; reflexivity | vm_compute; reflexivity]). }
    pose proof (Hdot (x, y, z)) as Hx. cbn in Hx.
    unfold Mod_PointInLeaf. cbn [split_on_x nodes]. split; intros Hside.
    + apply (descend_of_descent _ _ _ _ _ 2); [|lia].
      apply (descent_front _ _ _ 0 root pl); cbn; try done; try lra.
      destruct (Hleaf i Hi) as (c & Hc & Hneg).
      by apply (descent_stop _ _ _ _ c).
    + apply (descend_of_descent _ _ _ _ _ 2); [|lia].
      apply (descent_back _ _ _ 0 root pl); cbn; try done; try lra.
      destruct (Hleaf j Hj) as (c & Hc & Hneg).
      by apply (descent_stop _ _ _ _ c).
Qed.

End TreeProps.

(** [C5_point_in_leaf] on the points (1, 0, 0) and (-1, 0, 0), with the
    usual dot product and leaves 1 and 2 on the two sides. *)
Lemma C5_point_in_leaf_witness :
  @Tree.Mod_PointInLeaf stock_headers 2 (1, 0, 0)%Q
    (Some (Tree.split_on_x (Tree.to_leaf 1) (Tree.to_leaf 2)))
  = Some (Ok (Tree.to_leaf 1)) /\
  @Tree.Mod_PointInLeaf stock_headers 2 (-1, 0, 0)%Q
    (Some (Tree.split_on_x (Tree.to_leaf 1) (Tree.to_leaf 2)))
  = Some (Ok (Tree.to_leaf 2)).
Proof.
  destruct (@C5_point_in_leaf stock_headers) as (_ & _ & _ & Hex).
  assert (Hdot : forall q : Tree.vec3_t,
             (@DotProduct stock_headers q (1, 0, 0) == q.1.1)%Q).
  { intros [[a b] c]. cbn. ring. }
  split.
  - apply (Hex (Tree.to_leaf 1) (Tree.to_leaf 2) 1%Q 0%Q 0%Q Hdot);
      [exists 1; split; [done | lia] | exists 2; split; [done | lia] | reflexivity].
  - apply (Hex (Tree.to_leaf 1) (Tree.to_leaf 2) (-1)%Q 0%Q 0%Q Hdot);
      [exists 1; split; [done | lia] | exists 2; split; [done | lia] |].
    discriminate.
Defined.

(** ** Texture animation sequences *)

Section TexAnimProps.
Import TexAnim.

Lemma classify_primary (c num : Z) : classify c = primary num -> 0 <= num <= 9.
Proof.
  unfold classify. cbv zeta.
  generalize (if (97 <=? c) && (c <=? 122) then c - (97 - 65) else c).
  intros c'.
  destruct (Z.leb_spec 48 c'), (Z.leb_spec c' 57), (Z.leb_spec 65 c'),
    (Z.leb_spec c' 74); cbn; intros [=]; lia.
Qed.

Lemma classify_alternate (c num : Z) :
  classify c = alternate num -> 0 <= num <= 9.
Proof.
  unfold classify. cbv zeta.
  generalize (if (97 <=? c) && (c <=? 122) then c - (97 - 65) else c).
  intros c'.
  destruct (Z.leb_spec 48 c'), (Z.leb_spec c' 57), (Z.leb_spec 65 c'),
    (Z.leb_spec c' 74); cbn; intros [=]; lia.
Qed.

Lemma no_frames_lookup (k : nat) (idx : Z) : no_frames !! k <> Some (Some idx).
Proof.
  unfold no_frames. intros Hk. apply lookup_replicate in Hk as [? _]. done.
Qed.

Lemma table_ok_empty : table_ok no_frames 0.
Proof.
  split_and!; [done | lia | lia | | lia].
  intros k idx Hk. by apply no_frames_lookup in Hk.
Qed.

Lemma frames_in_empty (textures : list (option texture_t))
    (kind : Z -> frame_char) : frames_in textures no_frames kind.
Proof. intros k idx Hk. by apply no_frames_lookup in Hk. Qed.

(** Recording texture [j] as frame [num] of a table. *)
Lemma table_ok_insert (seq : list (option Z)) (len num j : Z) :
  table_ok seq len -> 0 <= num <= 9 ->
  table_ok (<[Z.to_nat num := Some j]> seq)
           (if num + 1 >? len then num + 1 else len).
Proof.
  intros (Hlen & Hrange & Hbelow & Htop) Hnum.
  assert (Hnew : <[Z.to_nat num := Some j]> seq !! Z.to_nat num = Some (Some j))
    by (apply list_lookup_insert_eq; lia).
  split_and!.
  - by rewrite length_insert.
  - destruct (Z.gtb_spec (num + 1) len); lia.
  - destruct (Z.gtb_spec (num + 1) len); lia.
  - intros k idx Hk. apply list_lookup_insert_Some in Hk as [(<- & _ & _)|[_ Hk]].
    + destruct (Z.gtb_spec (num + 1) len); lia.
    + specialize (Hbelow k idx Hk). destruct (Z.gtb_spec (num + 1) len); lia.
  - intros _. destruct (Z.gtb_spec (num + 1) len) as [Hgt|Hle].
    + exists j. by replace (num + 1 - 1) with num by lia.
    + destruct Htop as [idx Hidx]; [lia|].
      destruct (decide (Z.to_nat num = Z.to_nat (len - 1))) as [Heq|Hne].
      * exists j. by rewrite <- Heq.
      * exists idx. by rewrite list_lookup_insert_ne.
Qed.

Lemma frames_in_insert (textures : list (option texture_t))
    (seq : list (option Z)) (kind : Z -> frame_char) (num j : Z)
    (t : texture_t) :
  frames_in textures seq kind -> 0 <= num -> 0 <= j ->
  textures !! Z.to_nat j = Some (Some t) ->
  classify (char_at (name t) 1) = kind num ->
  frames_in textures (<[Z.to_nat num := Some j]> seq) kind.
Proof.
  intros Hin Hnum Hj Ht Hkind k idx Hk.
  apply list_lookup_insert_Some in Hk as [(<- & [= <-] & _)|[_ Hk]].
  - split; [done|]. exists t. rewrite Z2Nat.id by lia. done.
  - by apply Hin.
Qed.

Lemma same_names_lookup (before after : list (option texture_t)) (i : nat)
    (t : texture_t) :
  same_names before after -> before !! i = Some (Some t) ->
  exists t', after !! i = Some (Some t') /\ name t' = name t.
Proof.
  unfold same_names. intros Hsame Ht.
  apply (f_equal (fun l => l !! i)) in Hsame.
  rewrite !list_lookup_fmap, Ht in Hsame. cbn in Hsame.
  destruct (after !! i) as [[t'|]|]; cbn in Hsame; try done.
  injection Hsame as Hname. eauto.
Qed.

Lemma same_names_trans (a b c : list (option texture_t)) :
  same_names a b -> same_names b c -> same_names a c.
Proof. unfold same_names. congruence. Qed.

Lemma same_names_insert (textures : list (option texture_t)) (i : nat)
    (t t' : texture_t) :
  textures !! i = Some (Some t) -> name t' = name t ->
  same_names textures (<[i := Some t']> textures).
Proof.
  intros Ht Hname. unfold same_names. rewrite list_fmap_insert. cbn.
  rewrite Hname. apply list_insert_id. by rewrite list_lookup_fmap, Ht.
Qed.

Lemma frames_in_same_names (before after : list (option texture_t))
    (seq : list (option Z)) (kind : Z -> frame_char) :
  same_names before after -> frames_in before seq kind ->
  frames_in after seq kind.
Proof.
  intros Hsame Hin k idx Hk. destruct (Hin k idx Hk) as (Hidx & t & Ht & Hc).
  split; [done|].
  destruct (same_names_lookup _ _ _ _ Hsame Ht) as (t' & Ht' & Hname).
  exists t'. by rewrite Hname.
Qed.

Section one_sequence.
Variables (seq other : list (option Z)) (len otherlen : Z).
Variable kind : Z -> frame_char.
Hypothesis kind_inj : forall a b : Z, kind a = kind b -> a = b.
Hypothesis seq_length : length seq = 10%nat.

(** Two entries of a table never point to the same texture. *)
Lemma frames_distinct (textures : list (option texture_t)) (k k' : nat)
    (idx idx' : Z) :
  frames_in textures seq kind ->
  seq !! k = Some (Some idx) -> seq !! k' = Some (Some idx') ->
  Z.to_nat idx = Z.to_nat idx' -> k = k'.
Proof.
  intros Hin Hk Hk' Heq.
  destruct (Hin k idx Hk) as (_ & t & Ht & Hc).
  destruct (Hin k' idx' Hk') as (_ & t' & Ht' & Hc').
  rewrite Heq, Ht' in Ht. injection Ht as <-.
  rewrite Hc' in Hc. apply kind_inj in Hc. lia.
Qed.

(** The linking loop over frames that are all present. *)
Lemma link_spec (n : nat) :
  forall (j : nat) (textures : list (option texture_t)),
    (j + n <= 10)%nat ->
    frames_in textures seq kind ->
    (forall k : nat, (j <= k < j + n)%nat -> present seq k) ->
    exists textures',
      link n (Z.of_nat j) seq other len otherlen textures = Ok textures' /\
      same_names textures textures' /\
      (forall (k : nat) (idx : Z),
          (j <= k < j + n)%nat -> seq !! k = Some (Some idx) ->
          exists t, textures' !! Z.to_nat idx = Some (Some t) /\
                    anim_total t = len * ANIM_CYCLE /\
                    anim_min t = Z.of_nat k * ANIM_CYCLE /\
                    anim_max t = (Z.of_nat k + 1) * ANIM_CYCLE /\
                    anim_next t
                    = default None
                        (seq !! Z.to_nat ((Z.of_nat k + 1) mod len))) /\
      (forall i : nat,
          (forall (k : nat) (idx : Z),
              (j <= k < j + n)%nat -> seq !! k = Some (Some idx) ->
              Z.to_nat idx <> i) ->
          textures' !! i = textures !! i).
Proof.
  induction n as [|n IH]; intros j textures Hfit Hin Hpres.
  { exists textures. cbn. split_and!; [done | done | intros; lia | done]. }
  destruct (Hpres j ltac:(lia)) as [idx Hidx].
  destruct (Hin j idx Hidx) as (Hpos & tx2 & Htx2 & Hc).
  cbn [link]. rewrite (peek_lookup _ _ _ Hidx), (peek_inside _ _ _ Hpos Htx2).
  set (tx2' := {| name := name tx2; anim_total := _; anim_min := _;
                  anim_max := _; anim_next := _; alternate_anims := _ |}).
  assert (Hsame1 : same_names textures (<[Z.to_nat idx := Some tx2']> textures))
    by (by apply (same_names_insert _ _ tx2)).
  replace (Z.of_nat j + 1) with (Z.of_nat (S j)) by lia.
  destruct (IH (S j) (<[Z.to_nat idx := Some tx2']> textures))
    as (textures' & Hrun & Hsame & Hlinked & Hothers).
  { lia. }
  { by apply (frames_in_same_names textures). }
  { intros k Hk. apply Hpres. lia. }
  exists textures'. split_and!.
  - done.
  - by apply (same_names_trans _ (<[Z.to_nat idx := Some tx2']> textures)).
  - intros k idx' Hk Hidx'.
    destruct (decide (k = j)) as [->|Hne].
    + rewrite Hidx in Hidx'. injection Hidx' as <-.
      rewrite Hothers.
      * rewrite list_lookup_insert_eq by (by apply lookup_lt_Some in Htx2).
        exists tx2'. done.
      * intros k' idx' Hk' Hidx' Heq.
        pose proof (frames_distinct textures k' j idx' idx Hin Hidx' Hidx Heq).
        lia.
    + apply Hlinked; [lia | done].
  - intros i Hi. rewrite Hothers.
    + apply list_lookup_insert_ne. apply (Hi j idx); [lia | done].
    + intros k idx' Hk. apply Hi. lia.
Qed.

(** The linking loop over frames one of which is missing. *)
Lemma link_gap (n : nat) :
  forall (j : nat) (textures : list (option texture_t)),
    (j + n <= 10)%nat ->
    frames_in textures seq kind ->
    (exists k : nat, (j <= k < j + n)%nat /\ seq !! k = Some None) ->
    is_fatal (link n (Z.of_nat j) seq other len otherlen textures).
Proof.
  induction n as [|n IH]; intros j textures Hfit Hin (k & Hk & Hgap); [lia|].
  cbn [link].
  destruct (lookup_lt_is_Some_2 seq j) as [entry Hentry]; [lia|].
  rewrite (peek_lookup _ _ _ Hentry).
  destruct entry as [idx|]; [|by eexists].
  destruct (Hin j idx Hentry) as (Hpos & tx2 & Htx2 & Hc).
  rewrite (peek_inside _ _ _ Hpos Htx2).
  replace (Z.of_nat j + 1) with (Z.of_nat (S j)) by lia.
  apply IH.
  - lia.
  - apply (frames_in_same_names textures); [|done].
    by apply (same_names_insert _ _ tx2).
  - exists k. split; [|done].
    destruct (decide (k = j)) as [->|?]; [congruence | lia].
Qed.

End one_sequence.

(** Within its length a table of ten slots is complete or has a gap. *)
Lemma complete_or_gap (seq : list (option Z)) (len : Z) :
  length seq = 10%nat -> 0 <= len <= 10 ->
  complete seq len \/ has_gap seq len.
Proof.
  intros Hlen Hrange.
  assert (Hn : forall n : nat, (n <= 10)%nat ->
             (forall k : nat, (k < n)%nat -> present seq k) \/
             (exists k : nat, (k < n)%nat /\ seq !! k = Some None)).
  { induction n as [|n IH]; intros Hle; [left; intros; lia|].
    destruct (IH ltac:(lia)) as [Hall|(k & Hk & Hgap)].
    - destruct (lookup_lt_is_Some_2 seq n) as [[idx|] Hentry]; [lia | |].
      + left. intros k Hk. destruct (decide (k = n)) as [->|?].
        * by exists idx.
        * apply Hall. lia.
      + right. exists n. split; [lia | done].
    - right. exists k. split; [lia | done]. }
  destruct (Hn (Z.to_nat len) ltac:(lia)) as [Hall|(k & Hk & Hgap)].
  - left. intros k Hk. apply Hall. lia.
  - right. exists k. split; [lia | done].
Qed.

Lemma primary_inj (a b : Z) : primary a = primary b -> a = b.
Proof. by intros [=]. Qed.

Lemma alternate_inj (a b : Z) : alternate a = alternate b -> a = b.
Proof. by intros [=]. Qed.


(** ** The whole sequencing loop *)

Lemma strcmp_eq_terminated (a : list Z) :
  forall b : list Z,
    In 0 a -> In 0 b ->
    strcmp_eq a b = Ok (bool_decide (c_string a = c_string b)).
Proof.
  induction a as [|x a IH]; intros b Ha Hb; [done|].
  destruct b as [|y b]; [done|].
  cbn [strcmp_eq c_string].
  destruct (Z.eqb_spec x y) as [->|Hne]; cbn [negb].
  - destruct (Z.eqb_spec y 0) as [->|Hy].
    + by rewrite bool_decide_eq_true_2.
    + rewrite IH.
      * f_equal. apply bool_decide_ext. split; [congruence | by intros [=]].
      * destruct Ha as [Ha|Ha]; [lia | done].
      * destruct Hb as [Hb|Hb]; [lia | done].
  - destruct (Z.eqb_spec x 0), (Z.eqb_spec y 0);
      rewrite bool_decide_eq_false_2; try done; try congruence.
Qed.

Lemma is_kind_inj (kind : Z -> frame_char) (a b : Z) :
  is_kind kind -> kind a = kind b -> a = b.
Proof. intros [->| ->] [=]; done. Qed.

Lemma is_kind_not_bad (kind : Z -> frame_char) (k : Z) :
  is_kind kind -> kind k <> bad_char.
Proof. intros [->| ->]; done. Qed.

Lemma is_kind_range (kind : Z -> frame_char) (c k : Z) :
  is_kind kind -> classify c = kind k -> 0 <= k <= 9.
Proof.
  intros [->| ->] Hc;
    [by apply classify_primary in Hc | by apply classify_alternate in Hc].
Qed.

Lemma classify_cases (c : Z) :
  classify c = bad_char \/
  exists (kind : Z -> frame_char) (k : Z), is_kind kind /\ classify c = kind k.
Proof.
  destruct (classify c) as [num|num|] eqn:Hc.
  - right. exists primary, num. split; [by left | done].
  - right. exists alternate, num. split; [by right | done].
  - by left.
Qed.

Lemma drop_cons_inv {A : Type} (l : list A) (j : nat) (a : A) (r : list A) :
  drop j l = a :: r -> l !! j = Some a /\ drop (S j) l = r.
Proof.
  intros Hd. split.
  - pose proof (lookup_drop l j 0) as Hl. rewrite Hd in Hl. cbn in Hl.
    by rewrite Nat.add_0_r in Hl.
  - replace (S j) with (j + 1)%nat by lia. rewrite <- drop_drop, Hd. done.
Qed.

Section whole_loop.
Variable names : list (option (list Z)).
Hypothesis Hterm : all_terminated names.

Lemma frame_of_fun (sfx sfx' : list Z) (fc fc' : frame_char) (j : nat) :
  frame_of names sfx fc j -> frame_of names sfx' fc' j ->
  sfx = sfx' /\ fc = fc'.
Proof.
  intros (nm & Hnm & _ & <- & <-) (nm' & Hnm' & _ & <- & <-).
  rewrite Hnm in Hnm'. injection Hnm' as <-. done.
Qed.

Lemma frame_of_range (sfx : list Z) (kind : Z -> frame_char) (k : Z) (j : nat) :
  is_kind kind -> frame_of names sfx (kind k) j -> 0 <= k <= 9.
Proof.
  intros Hkind (nm & _ & _ & _ & Hc). by apply (is_kind_range kind _ k) in Hc.
Qed.

Lemma frame_of_lt (sfx : list Z) (fc : frame_char) (j : nat) :
  frame_of names sfx fc j -> (j < length names)%nat.
Proof. intros (nm & Hnm & _). by apply lookup_lt_Some in Hnm. Qed.

Lemma frame_of_dec (sfx : list Z) (j : nat) :
  (exists fc, frame_of names sfx fc j) \/
  (forall fc, ~ frame_of names sfx fc j).
Proof.
  destruct (names !! j) as [[nm|]|] eqn:Hnm.
  - destruct (decide (char_at nm 0 = 43)) as [Hplus|Hplain].
    + destruct (decide (suffix nm = sfx)) as [Hs|Hs].
      * left. exists (classify (char_at nm 1)). by exists nm.
      * right. intros fc (nm' & Hnm' & _ & Hs' & _). congruence.
    + right. intros fc (nm' & Hnm' & Hp & _). congruence.
  - right. intros fc (nm' & Hnm' & _). congruence.
  - right. intros fc (nm' & Hnm' & _). congruence.
Qed.

(** A suffix has a texture before [i], or all its textures come at [i]
    or later. *)
Lemma first_or_earlier (sfx : list Z) (i : nat) :
  (exists (j0 : nat) (fc0 : frame_char),
      (j0 < i)%nat /\ frame_of names sfx fc0 j0) \/
  (forall (j : nat) (fc : frame_char), frame_of names sfx fc j -> (i <= j)%nat).
Proof.
  induction i as [|i IH]; [right; intros; lia|].
  destruct IH as [(j0 & fc0 & Hj0 & Hf0)|Hlater].
  { left. exists j0, fc0. split; [lia | done]. }
  destruct (frame_of_dec sfx i) as [[fc Hfc]|Hno].
  - left. exists i, fc. split; [lia | done].
  - right. intros j fc Hf. pose proof (Hlater j fc Hf).
    destruct (decide (j = i)) as [->|?]; [by apply Hno in Hf | lia].
Qed.

Lemma gathered_skip (sfx : list Z) (i m : nat) (kind : Z -> frame_char)
    (seq : list (option Z)) (len : Z) :
  gathered names sfx i m kind seq len ->
  (forall k : Z, ~ frame_of names sfx (kind k) m) ->
  gathered names sfx i (S m) kind seq len.
Proof.
  intros (Hok & Hto & Hfrom) Hno. split; [done|]. split.
  - intros k idx Hk. destruct (Hto k idx Hk) as (? & ? & ?).
    split; [done|]. split; [lia | done].
  - intros j k Hj Hf. destruct (decide (j = m)) as [->|?].
    + by destruct (Hno k).
    + destruct (Hfrom j k ltac:(lia) Hf) as (j' & Hj' & Hentry).
      exists j'. split; [lia | done].
Qed.

Lemma gathered_insert (sfx : list Z) (i m : nat) (kind : Z -> frame_char)
    (seq : list (option Z)) (len num : Z) :
  is_kind kind -> (i <= m)%nat ->
  gathered names sfx i m kind seq len ->
  frame_of names sfx (kind num) m ->
  gathered names sfx i (S m) kind
    (<[Z.to_nat num := Some (Z.of_nat m)]> seq)
    (if num + 1 >? len then num + 1 else len).
Proof.
  intros Hkind Him (Hok & Hto & Hfrom) Hf.
  pose proof (frame_of_range _ _ _ _ Hkind Hf) as Hnum.
  assert (Hlen : length seq = 10%nat) by apply Hok.
  split; [by apply table_ok_insert|]. split.
  - intros k idx Hk.
    apply list_lookup_insert_Some in Hk as [(<- & [= <-] & _)|[_ Hk]].
    + rewrite Nat2Z.id, Z2Nat.id by lia. split; [lia|]. split; [lia | done].
    + destruct (Hto k idx Hk) as (? & ? & ?). split; [done|]. split; [lia | done].
  - intros j k Hj Hfj.
    pose proof (frame_of_range _ _ _ _ Hkind Hfj) as Hk.
    destruct (decide (k = num)) as [->|Hne].
    + exists m. split; [lia|]. apply list_lookup_insert_eq. lia.
    + assert (Hjm : j <> m).
      { intros ->. destruct (frame_of_fun _ _ _ _ _ Hf Hfj) as [_ Heq].
        by apply (is_kind_inj kind) in Heq. }
      destruct (Hfrom j k ltac:(lia) Hfj) as (j' & Hj' & Hentry).
      exists j'. split; [lia|]. by rewrite list_lookup_insert_ne by lia.
Qed.

Lemma gathered_upto_skip (sfx : list Z) (i m : nat) (sq : sequences) :
  gathered_upto names sfx i m sq ->
  (forall fc : frame_char, ~ frame_of names sfx fc m) ->
  gathered_upto names sfx i (S m) sq.
Proof.
  intros (Ha & Hb & Hbad) Hno. split; [|split].
  - apply gathered_skip; [done|]. intros k. apply Hno.
  - apply gathered_skip; [done|]. intros k. apply Hno.
  - intros j Hj. destruct (decide (j = m)) as [->|?]; [apply Hno|].
    apply Hbad. lia.
Qed.

(** The inner loop gathers the frames of the suffix, if it meets no bad
    frame character. *)
Lemma gather_spec (tx : texture_t) (sfx : list Z) (i : nat)
    (rest : list (option texture_t)) :
  forall (j : nat) (sq : sequences),
    char_at (name tx) 0 = 43 -> terminated (name tx) ->
    suffix (name tx) = sfx ->
    ((fmap name : option texture_t -> option (list Z)) <$> rest)
    = drop j names ->
    (i < j)%nat ->
    gathered_upto names sfx i j sq ->
    (is_fatal (gather tx (Z.of_nat j) rest sq) /\ bad_frame names) \/
    exists sq',
      gather tx (Z.of_nat j) rest sq = Ok sq' /\
      gathered_upto names sfx i (j + length rest) sq'.
Proof.
  induction rest as [|x rest IH]; intros j sq Hplus Htx Hsfx Hrest Hij Hg.
  { right. exists sq. split; [done|]. by rewrite Nat.add_0_r. }
  cbn [fmap list_fmap] in Hrest. symmetry in Hrest.
  apply drop_cons_inv in Hrest as [Hj Hrest]. symmetry in Hrest.
  cbn [gather length].
  replace (Z.of_nat j + 1) with (Z.of_nat (S j)) by lia.
  replace (j + S (length rest))%nat with (S j + length rest)%nat by lia.
  assert (Hskip : (forall fc : frame_char, ~ frame_of names sfx fc j) ->
            (is_fatal (gather tx (Z.of_nat (S j)) rest sq) /\ bad_frame names) \/
            exists sq',
              gather tx (Z.of_nat (S j)) rest sq = Ok sq' /\
              gathered_upto names sfx i (S j + length rest) sq').
  { intros Hno. apply IH; try done; [lia|]. by apply gathered_upto_skip. }
  destruct x as [tx2|].
  2:{ apply Hskip. intros fc (nm & Hnm & _). rewrite Hj in Hnm. done. }
  cbn in Hj.
  destruct (Z.eqb_spec (char_at (name tx2) 0) 43) as [Hplus2|Hplain]; cbn [negb].
  2:{ apply Hskip. intros fc (nm & Hnm & Hp & _). rewrite Hj in Hnm.
      injection Hnm as <-. done. }
  rewrite strcmp_eq_terminated; [|by apply (Hterm j) | done].
  fold (suffix (name tx2)). fold (suffix (name tx)). rewrite Hsfx.
  destruct (decide (suffix (name tx2) = sfx)) as [Hsame|Hother].
  2:{ rewrite bool_decide_eq_false_2 by done.
      apply Hskip. intros fc (nm & Hnm & _ & Hs & _). rewrite Hj in Hnm.
      injection Hnm as <-. done. }
  rewrite bool_decide_eq_true_2 by done.
  assert (Hframe : frame_of names sfx (classify (char_at (name tx2) 1)) j)
    by (by exists (name tx2)).
  destruct Hg as (Ha & Hb & Hbad).
  destruct (classify (char_at (name tx2) 1)) as [num|num|] eqn:Hc.
  - apply IH; try done; [lia|].
    split; [|split]; cbn [anims altanims max altmax].
    + apply gathered_insert; [by left | lia | done | done].
    + apply gathered_skip; [done|]. intros k Hk.
      by destruct (frame_of_fun _ _ _ _ _ Hframe Hk).
    + intros j' Hj' Hk. destruct (decide (j' = j)) as [->|?].
      * by destruct (frame_of_fun _ _ _ _ _ Hframe Hk).
      * apply (Hbad j'); [lia | done].
  - apply IH; try done; [lia|].
    split; [|split]; cbn [anims altanims max altmax].
    + apply gathered_skip; [done|]. intros k Hk.
      by destruct (frame_of_fun _ _ _ _ _ Hframe Hk).
    + apply gathered_insert; [by right | lia | done | done].
    + intros j' Hj' Hk. destruct (decide (j' = j)) as [->|?].
      * by destruct (frame_of_fun _ _ _ _ _ Hframe Hk).
      * apply (Hbad j'); [lia | done].
  - left. split; [by eexists|]. by exists sfx, j.
Qed.

Lemma gathered_empty (sfx : list Z) (i : nat) (kind : Z -> frame_char) :
  gathered names sfx i i kind no_frames 0.
Proof.
  split; [apply table_ok_empty|]. split.
  - intros k idx Hk. by apply no_frames_lookup in Hk.
  - intros j k Hj. lia.
Qed.

(** The first frame opens the tables, if its character is a frame
    character. *)
Lemma open_sequence_spec (i : nat) (tx : texture_t) (sfx : list Z) :
  names !! i = Some (Some (name tx)) -> char_at (name tx) 0 = 43 ->
  suffix (name tx) = sfx ->
  (is_fatal (open_sequence (Z.of_nat i) tx) /\ bad_frame names) \/
  exists sq0,
    open_sequence (Z.of_nat i) tx = Ok sq0 /\
    gathered_upto names sfx i (S i) sq0.
Proof.
  intros Hnm Hplus Hsfx.
  assert (Hframe : frame_of names sfx (classify (char_at (name tx) 1)) i)
    by (by exists (name tx)).
  unfold open_sequence.
  destruct (classify (char_at (name tx) 1)) as [num|num|] eqn:Hc.
  - right. eexists. split; [done|].
    pose proof (classify_primary _ _ Hc) as Hnum.
    split; [|split]; cbn [anims altanims max altmax].
    + pose proof (gathered_insert sfx i i primary no_frames 0 num
                    ltac:(by left) ltac:(lia) (gathered_empty _ _ _) Hframe)
        as Hg.
      destruct (Z.gtb_spec (num + 1) 0); [done | lia].
    + apply gathered_skip; [apply gathered_empty|]. intros k Hk.
      by destruct (frame_of_fun _ _ _ _ _ Hframe Hk).
    + intros j Hj Hk. replace j with i in Hk by lia.
      by destruct (frame_of_fun _ _ _ _ _ Hframe Hk).
  - right. eexists. split; [done|].
    pose proof (classify_alternate _ _ Hc) as Hnum.
    split; [|split]; cbn [anims altanims max altmax].
    + apply gathered_skip; [apply gathered_empty|]. intros k Hk.
      by destruct (frame_of_fun _ _ _ _ _ Hframe Hk).
    + pose proof (gathered_insert sfx i i alternate no_frames 0 num
                    ltac:(by right) ltac:(lia) (gathered_empty _ _ _) Hframe)
        as Hg.
      destruct (Z.gtb_spec (num + 1) 0); [done | lia].
    + intros j Hj Hk. replace j with i in Hk by lia.
      by destruct (frame_of_fun _ _ _ _ _ Hframe Hk).
  - left. split; [by eexists|]. by exists sfx, i.
Qed.

Lemma names_of_lookup (cur : list (option texture_t)) (j : nat)
    (x : option texture_t) :
  ((fmap name : option texture_t -> option (list Z)) <$> cur) = names ->
  cur !! j = Some x -> names !! j = Some (name <$> x).
Proof. intros <- Hx. by rewrite list_lookup_fmap, Hx. Qed.

Lemma lookup_of_names (cur : list (option texture_t)) (j : nat) (nm : list Z) :
  ((fmap name : option texture_t -> option (list Z)) <$> cur) = names ->
  names !! j = Some (Some nm) ->
  exists t, cur !! j = Some (Some t) /\ name t = nm.
Proof.
  intros <- Hnm. rewrite list_lookup_fmap in Hnm.
  destruct (cur !! j) as [[t|]|]; cbn in Hnm; try done.
  injection Hnm as <-. eauto.
Qed.

(** What a table holds once the inner loop is over. *)
Section one_table.
Variables (sfx : list Z) (i : nat) (kind : Z -> frame_char).
Variables (seq : list (option Z)) (len : Z).
Hypothesis Hkind : is_kind kind.
Hypothesis Hg : gathered names sfx i (length names) kind seq len.

Lemma gathered_frames_in (cur : list (option texture_t)) :
  ((fmap name : option texture_t -> option (list Z)) <$> cur) = names ->
  frames_in cur seq kind.
Proof.
  intros Hnames k idx Hk. destruct Hg as (_ & Hto & _).
  destruct (Hto k idx Hk) as (Hidx & _ & (nm & Hnm & _ & _ & Hc)).
  split; [done|].
  destruct (lookup_of_names cur _ nm Hnames Hnm) as (t & Ht & <-).
  by exists t.
Qed.

(** From here on no texture before the first one has the suffix. *)
Hypothesis Hfirst :
  forall (j : nat) (fc : frame_char), frame_of names sfx fc j -> (i <= j)%nat.

Lemma gathered_entry (j : nat) (k : Z) :
  frame_of names sfx (kind k) j ->
  exists j' : nat, seq !! Z.to_nat k = Some (Some (Z.of_nat j')).
Proof.
  intros Hf. destruct Hg as (_ & _ & Hfrom).
  destruct (Hfrom j k) as (j' & _ & Hentry); [|done|by exists j'].
  split; [by apply (Hfirst j (kind k)) | by apply (frame_of_lt sfx (kind k))].
Qed.

Lemma gathered_length : sequence_length names sfx kind len.
Proof.
  destruct Hg as (Hok & Hto & _).
  destruct Hok as (Hlen & Hrange & Hbelow & Htop).
  split; [lia|]. split.
  - intros j k Hf. pose proof (frame_of_range _ _ _ _ Hkind Hf) as Hk.
    apply gathered_entry in Hf as [j' Hf]. apply Hbelow in Hf. lia.
  - intros Hpos. destruct (Htop Hpos) as [idx Hidx].
    destruct (Hto _ _ Hidx) as (_ & _ & Hf).
    rewrite Z2Nat.id in Hf by lia. by exists (Z.to_nat idx).
Qed.

Lemma table_gap : has_gap seq len -> gap names.
Proof.
  intros (k0 & Hk0 & Hgap).
  destruct Hg as (Hok & Hto & _).
  destruct Hok as (Hlen & Hrange & Hbelow & Htop).
  destruct Htop as [idx Hidx]; [lia|].
  destruct (Hto _ _ Hidx) as (_ & _ & Hf).
  rewrite Z2Nat.id in Hf by lia.
  assert (Hne : Z.of_nat k0 <> len - 1).
  { intros Heq. rewrite <- Heq, Nat2Z.id in Hidx. congruence. }
  exists sfx, kind, (len - 1), (Z.of_nat k0), (Z.to_nat idx).
  split; [done|]. split; [done|]. split; [lia|].
  intros j' Hf'. apply gathered_entry in Hf' as [j'' Hf'].
  rewrite Nat2Z.id in Hf'. congruence.
Qed.

Lemma complete_gapless (k k' : Z) (j : nat) :
  complete seq len -> frame_of names sfx (kind k) j -> 0 <= k' < k ->
  exists j', frame_of names sfx (kind k') j'.
Proof.
  intros Hc Hf Hk'.
  destruct gathered_length as (_ & Hbelow & _).
  pose proof (Hbelow j k Hf) as Hk.
  destruct (Hc (Z.to_nat k') ltac:(lia)) as [idx Hidx].
  destruct Hg as (_ & Hto & _).
  destruct (Hto _ _ Hidx) as (_ & _ & Hf').
  rewrite Z2Nat.id in Hf' by lia. by exists (Z.to_nat idx).
Qed.

(** From here on no two textures are the same frame of the suffix. *)
Hypothesis Hdist : distinct_in names sfx.

Lemma gathered_all (j : nat) (k : Z) :
  frame_of names sfx (kind k) j ->
  seq !! Z.to_nat k = Some (Some (Z.of_nat j)).
Proof.
  intros Hf. pose proof (frame_of_range _ _ _ _ Hkind Hf) as Hk.
  destruct (gathered_entry j k Hf) as [j' Hentry].
  destruct Hg as (_ & Hto & _).
  destruct (Hto _ _ Hentry) as (_ & _ & Hf').
  rewrite Z2Nat.id, Nat2Z.id in Hf' by lia.
  by rewrite (Hdist kind k j j' Hkind Hf Hf').
Qed.

(** The frames of a complete table, as the linking loop leaves them. *)
Lemma linked_sequenced (after : list (option texture_t)) (j : nat) (k : Z) :
  complete seq len ->
  (forall (k : nat) (idx : Z),
      Z.of_nat k < len -> seq !! k = Some (Some idx) ->
      exists t, after !! Z.to_nat idx = Some (Some t) /\
                anim_total t = len * ANIM_CYCLE /\
                anim_min t = Z.of_nat k * ANIM_CYCLE /\
                anim_max t = (Z.of_nat k + 1) * ANIM_CYCLE /\
                anim_next t
                = default None (seq !! Z.to_nat ((Z.of_nat k + 1) mod len))) ->
  frame_of names sfx (kind k) j ->
  exists t, after !! j = Some (Some t) /\ sequenced names sfx kind k t.
Proof.
  intros Hc Hlinked Hf.
  pose proof (frame_of_range _ _ _ _ Hkind Hf) as Hk.
  destruct gathered_length as (Hlen0 & Hbelow & Htop).
  pose proof (Hbelow j k Hf) as Hklen.
  pose proof (gathered_all j k Hf) as Hentry.
  destruct (Hlinked (Z.to_nat k) (Z.of_nat j) ltac:(lia) Hentry)
    as (t & Ht & Htot & Hmin & Hmax & Hnext).
  rewrite Nat2Z.id in Ht. rewrite Z2Nat.id in Hmin, Hmax, Hnext by lia.
  exists t. split; [done|].
  pose proof (Z.mod_pos_bound (k + 1) len ltac:(lia)) as Hmod.
  destruct (Hc (Z.to_nat ((k + 1) mod len)) ltac:(lia)) as [idx Hidx].
  destruct Hg as (_ & Hto & _).
  destruct (Hto _ _ Hidx) as (Hpos & _ & Hf').
  rewrite Z2Nat.id in Hf' by lia.
  exists len, (Z.to_nat idx). split; [apply gathered_length|].
  split; [done|]. split; [done|]. split; [done|]. split; [|done].
  rewrite Hnext, Hidx. cbn. by rewrite Z2Nat.id by lia.
Qed.

End one_table.

(** One turn of the sequencing loop at a texture that is not sequenced
    yet. *)
Lemma sequence_from_spec (i : nat) (cur : list (option texture_t))
    (tx : texture_t) :
  sequenced_upto names i cur ->
  cur !! i = Some (Some tx) -> char_at (name tx) 0 = 43 ->
  anim_next tx = None ->
  (is_fatal (sequence_from (Z.of_nat i) tx cur) /\
   (distinct_in names (suffix (name tx)) -> gap names \/ bad_frame names)) \/
  exists sq cur',
    sequence_from (Z.of_nat i) tx cur = Ok (sq, cur') /\
    sequenced_upto names (S i) cur'.
Proof.
  intros (Hnames & Hseq & Hgroups & Hkept) Htx Hplus Hnext.
  set (sfx := suffix (name tx)).
  assert (Hnm : names !! i = Some (Some (name tx)))
    by (by apply (names_of_lookup cur i (Some tx))).
  assert (Hme : frame_of names sfx (classify (char_at (name tx) 1)) i)
    by (by exists (name tx)).
  assert (Hfirst : distinct_in names sfx ->
             forall (j : nat) (fc : frame_char),
               frame_of names sfx fc j -> (i <= j)%nat).
  { intros Hd j fc Hf.
    destruct (decide (i <= j)%nat) as [|Hlt]; [done|]. exfalso.
    destruct (Hgroups j sfx fc ltac:(lia) Hf) as [Hnobad _].
    destruct (classify_cases (char_at (name tx) 1))
      as [Hbad|(kind & k & Hkind & Hc)].
    - rewrite Hbad in Hme. by apply Hnobad in Hme.
    - rewrite Hc in Hme.
      destruct (Hseq j i sfx fc kind k ltac:(lia) Hf Hd Hkind Hme)
        as (t & Ht & (len & next & _ & _ & _ & _ & Hn & _)).
      rewrite Htx in Ht. injection Ht as <-. congruence. }
  unfold sequence_from.
  destruct (open_sequence_spec i tx sfx Hnm Hplus eq_refl)
    as [[[msg Hmsg] Hbad]|(sq0 & Hopen & Hg0)].
  { left. rewrite Hmsg. split; [by eexists | by right]. }
  rewrite Hopen. cbn [mbind result_bind].
  replace (Z.of_nat i + 1) with (Z.of_nat (S i)) by lia. rewrite Nat2Z.id.
  destruct (gather_spec tx sfx i (drop (S i) cur) (S i) sq0 Hplus
              (Hterm i _ Hnm Hplus) eq_refl)
    as [[[msg Hmsg] Hbad]|(sq & Hgather & Hg)].
  { rewrite <- Hnames. by rewrite fmap_drop. }
  { lia. }
  { done. }
  { left. rewrite Hmsg. split; [by eexists | by right]. }
  rewrite Hgather. cbn [mbind result_bind].
  assert (Hn : (S i + length (drop (S i) cur))%nat = length names).
  { rewrite <- Hnames, length_fmap, length_drop.
    apply lookup_lt_Some in Htx. lia. }
  rewrite Hn in Hg. destruct Hg as (Ha & Hb & Hnobad).
  pose proof Ha as ((Hla & Hra & _ & _) & Htoa & _).
  pose proof Hb as ((Hlb & Hrb & _ & _) & Htob & _).
  assert (Hfa : frames_in cur (anims sq) primary)
    by (by apply (gathered_frames_in sfx i primary _ _ Ha)).
  destruct (complete_or_gap (anims sq) (max sq) Hla Hra) as [Hca|Hga].
  2:{ left. split.
      - destruct (link_gap (anims sq) (altanims sq) (max sq) (altmax sq)
                    primary Hla (Z.to_nat (max sq)) 0 cur) as [msg Hmsg].
        { lia. } { done. }
        { destruct Hga as (k & Hk & Hgapk). exists k. split; [lia | done]. }
        change (Z.of_nat 0) with 0 in Hmsg. rewrite Hmsg. by eexists.
      - intros Hd. left.
        by apply (table_gap sfx i primary (anims sq) (max sq)
                    ltac:(by left) Ha (Hfirst Hd)). }
  destruct (link_spec (anims sq) (altanims sq) (max sq) (altmax sq)
              primary primary_inj Hla (Z.to_nat (max sq)) 0 cur)
    as (t1 & Hrun1 & Hsame1 & Hlinked1 & Hothers1).
  { lia. } { done. } { intros k Hk. apply Hca. lia. }
  change (Z.of_nat 0) with 0 in Hrun1. rewrite Hrun1. cbn [mbind result_bind].
  assert (Hnames1 : ((fmap name : option texture_t -> option (list Z)) <$> t1)
                    = names)
    by (unfold same_names in Hsame1; congruence).
  assert (Hfb1 : frames_in t1 (altanims sq) alternate)
    by (by apply (gathered_frames_in sfx i alternate _ _ Hb)).
  destruct (complete_or_gap (altanims sq) (altmax sq) Hlb Hrb) as [Hcb|Hgb].
  2:{ left. split.
      - destruct (link_gap (altanims sq) (anims sq) (altmax sq) (max sq)
                    alternate Hlb (Z.to_nat (altmax sq)) 0 t1) as [msg Hmsg].
        { lia. } { done. }
        { destruct Hgb as (k & Hk & Hgapk). exists k. split; [lia | done]. }
        change (Z.of_nat 0) with 0 in Hmsg. rewrite Hmsg. by eexists.
      - intros Hd. left.
        by apply (table_gap sfx i alternate (altanims sq) (altmax sq)
                    ltac:(by right) Hb (Hfirst Hd)). }
  destruct (link_spec (altanims sq) (anims sq) (altmax sq) (max sq)
              alternate alternate_inj Hlb (Z.to_nat (altmax sq)) 0 t1)
    as (t2 & Hrun2 & Hsame2 & Hlinked2 & Hothers2).
  { lia. } { done. } { intros k Hk. apply Hcb. lia. }
  change (Z.of_nat 0) with 0 in Hrun2. rewrite Hrun2.
  cbn [mbind result_bind mret result_ret].
  right. exists sq, t2. split; [done|].
  assert (Hnames2 : ((fmap name : option texture_t -> option (list Z)) <$> t2)
                    = names)
    by (unfold same_names in Hsame2; congruence).
  assert (Hprim : forall (k : nat) (idx : Z),
             Z.of_nat k < max sq -> anims sq !! k = Some (Some idx) ->
             exists t, t2 !! Z.to_nat idx = Some (Some t) /\
                       anim_total t = max sq * ANIM_CYCLE /\
                       anim_min t = Z.of_nat k * ANIM_CYCLE /\
                       anim_max t = (Z.of_nat k + 1) * ANIM_CYCLE /\
                       anim_next t
                       = default None
                           (anims sq !! Z.to_nat ((Z.of_nat k + 1) mod max sq))).
  { intros k idx Hk Hidx.
    destruct (Hlinked1 k idx ltac:(lia) Hidx) as (t & Ht & Hfields).
    exists t. split; [|done]. rewrite Hothers2; [done|].
    intros k' idx' _ Hidx' Heq.
    destruct (Htoa _ _ Hidx) as (_ & _ & Hf).
    destruct (Htob _ _ Hidx') as (_ & _ & Hf').
    rewrite Heq in Hf'. by destruct (frame_of_fun _ _ _ _ _ Hf Hf') as [_ ?]. }
  assert (Halt : forall (k : nat) (idx : Z),
             Z.of_nat k < altmax sq -> altanims sq !! k = Some (Some idx) ->
             exists t, t2 !! Z.to_nat idx = Some (Some t) /\
                       anim_total t = altmax sq * ANIM_CYCLE /\
                       anim_min t = Z.of_nat k * ANIM_CYCLE /\
                       anim_max t = (Z.of_nat k + 1) * ANIM_CYCLE /\
                       anim_next t
                       = default None
                           (altanims sq
                              !! Z.to_nat ((Z.of_nat k + 1) mod altmax sq))).
  { intros k idx Hk Hidx. apply Hlinked2; [lia | done]. }
  assert (Hout : forall j : nat,
             (forall fc, ~ frame_of names sfx fc j) -> t2 !! j = cur !! j).
  { intros j Hno. rewrite Hothers2, Hothers1; [done | |].
    - intros k idx _ Hidx <-. destruct (Htoa _ _ Hidx) as (_ & _ & Hf).
      by apply Hno in Hf.
    - intros k idx _ Hidx <-. destruct (Htob _ _ Hidx) as (_ & _ & Hf).
      by apply Hno in Hf. }
  split; [done|]. split; [|split].
  - intros j0 j sfx' fc0 kind k Hj0 Hf0 Hd Hkind Hf.
    destruct (decide (sfx' = sfx)) as [->|Hne].
    + destruct Hkind as [->| ->].
      * by apply (linked_sequenced sfx i primary (anims sq) (max sq)
                    ltac:(by left) Ha (Hfirst Hd) Hd t2 j k Hca Hprim).
      * by apply (linked_sequenced sfx i alternate (altanims sq) (altmax sq)
                    ltac:(by right) Hb (Hfirst Hd) Hd t2 j k Hcb Halt).
    + assert (Hj0' : j0 <> i).
      { intros ->. by destruct (frame_of_fun _ _ _ _ _ Hf0 Hme). }
      destruct (Hseq j0 j sfx' fc0 kind k ltac:(lia) Hf0 Hd Hkind Hf)
        as (t & Ht & Hs).
      exists t. split; [|done]. rewrite Hout; [done|].
      intros fc Hfc. by destruct (frame_of_fun _ _ _ _ _ Hf Hfc).
  - intros j0 sfx' fc0 Hj0 Hf0.
    destruct (decide (sfx' = sfx)) as [->|Hne].
    + destruct (first_or_earlier sfx i) as [(j1 & fc1 & Hj1 & Hf1)|Hfst].
      { by apply (Hgroups j1 sfx fc1). }
      split.
      * intros j Hbadj. apply (Hnobad j); [|done].
        split; [by apply (Hfst j bad_char)
               | by apply (frame_of_lt sfx bad_char)].
      * intros kind k k' j [->| ->] Hf Hk'.
        -- by apply (complete_gapless sfx i primary (anims sq) (max sq)
                       ltac:(by left) Ha Hfst k k' j).
        -- by apply (complete_gapless sfx i alternate (altanims sq) (altmax sq)
                       ltac:(by right) Hb Hfst k k' j).
    + assert (Hj0' : j0 <> i).
      { intros ->. by destruct (frame_of_fun _ _ _ _ _ Hf0 Hme). }
      apply (Hgroups j0 sfx' fc0); [lia | done].
  - intros j. destruct (frame_of_dec sfx j) as [[fc Hfc]|Hno].
    + right. exists i, sfx, (classify (char_at (name tx) 1)), fc.
      split; [lia|]. split; done.
    + rewrite (Hout j Hno).
      destruct (Hkept j) as [Heq|(j0 & sfx' & fc0 & fc & Hj0 & Hf0 & Hf)];
        [by left|].
      right. exists j0, sfx', fc0, fc. split; [lia | done].
Qed.

(** A turn that changes nothing: the texture is no frame, or one of its
    suffix came before. *)
Lemma sequenced_upto_next (i : nat) (cur : list (option texture_t)) :
  sequenced_upto names i cur ->
  (forall (sfx : list Z) (fc : frame_char),
      frame_of names sfx fc i ->
      exists (j0 : nat) (fc0 : frame_char),
        (j0 < i)%nat /\ frame_of names sfx fc0 j0) ->
  sequenced_upto names (S i) cur.
Proof.
  intros (Hnames & Hseq & Hgroups & Hkept) Hseen.
  assert (Hearlier : forall (j0 : nat) (sfx : list Z) (fc0 : frame_char),
             (j0 < S i)%nat -> frame_of names sfx fc0 j0 ->
             exists (j1 : nat) (fc1 : frame_char),
               (j1 < i)%nat /\ frame_of names sfx fc1 j1).
  { intros j0 sfx fc0 Hj0 Hf0. destruct (decide (j0 = i)) as [->|?].
    - by apply (Hseen sfx fc0).
    - exists j0, fc0. split; [lia | done]. }
  split; [done|]. split; [|split].
  - intros j0 j sfx fc0 kind k Hj0 Hf0 Hd Hkind Hf.
    destruct (Hearlier _ _ _ Hj0 Hf0) as (j1 & fc1 & Hj1 & Hf1).
    by apply (Hseq j1 j sfx fc1 kind k).
  - intros j0 sfx fc0 Hj0 Hf0.
    destruct (Hearlier _ _ _ Hj0 Hf0) as (j1 & fc1 & Hj1 & Hf1).
    by apply (Hgroups j1 sfx fc1).
  - intros j.
    destruct (Hkept j) as [?|(j0 & sfx & fc0 & fc & Hj0 & Hf0 & Hf)];
      [by left|].
    right. exists j0, sfx, fc0, fc. split; [lia | done].
Qed.

(** The loop from turn [i] on: it is fatal, where the frames are
    distinct over a gap or a bad frame character, or it returns with
    every animation sound and, where its frames are distinct,
    sequenced. *)
Lemma sequence_loop_spec (n : nat) :
  forall (i : nat) (cur : list (option texture_t)),
    (i + n)%nat = length names -> sequenced_upto names i cur ->
    (is_fatal (sequence_loop n (Z.of_nat i) cur) /\
     (distinct_frames names -> gap names \/ bad_frame names)) \/
    exists final,
      sequence_loop n (Z.of_nat i) cur = Ok final /\
      sequenced_upto names (length names) final.
Proof.
  induction n as [|n IH]; intros i cur Hin Hinv.
  { right. exists cur. split; [done|]. by replace (length names) with i by lia. }
  pose proof Hinv as (Hnames & Hseq & Hgroups & Hkept).
  assert (Hlen : length cur = length names)
    by (by rewrite <- Hnames, length_fmap).
  destruct (lookup_lt_is_Some_2 cur i) as [x Hx]; [lia|].
  cbn [sequence_loop]. rewrite (peek_lookup cur i x Hx).
  replace (Z.of_nat i + 1) with (Z.of_nat (S i)) by lia.
  assert (Hnext : (forall (sfx : list Z) (fc : frame_char),
                      frame_of names sfx fc i ->
                      exists (j0 : nat) (fc0 : frame_char),
                        (j0 < i)%nat /\ frame_of names sfx fc0 j0) ->
            (is_fatal (sequence_loop n (Z.of_nat (S i)) cur) /\
             (distinct_frames names -> gap names \/ bad_frame names)) \/
            exists final,
              sequence_loop n (Z.of_nat (S i)) cur = Ok final /\
              sequenced_upto names (length names) final).
  { intros Hseen. apply IH; [lia|]. by apply sequenced_upto_next. }
  destruct x as [tx|].
  2:{ apply Hnext. intros sfx fc (nm & Hnm & _).
      rewrite (names_of_lookup cur i None Hnames Hx) in Hnm. done. }
  pose proof (names_of_lookup cur i (Some tx) Hnames Hx) as Hnmi.
  cbn in Hnmi.
  destruct (Z.eqb_spec (char_at (name tx) 0) 43) as [Hplus|Hplain]; cbn [negb].
  2:{ apply Hnext. intros sfx fc (nm & Hnm & Hp & _).
      rewrite Hnmi in Hnm. injection Hnm as <-. done. }
  destruct (anim_next tx) as [nxt|] eqn:Hnxt.
  { apply Hnext. intros sfx fc Hf.
    destruct (Hkept i) as [Heq|(j0 & sfx' & fc0 & fc' & Hj0 & Hf0 & Hf')].
    - rewrite Hx, list_lookup_fmap, Hnmi in Heq. cbn in Heq.
      injection Heq as Heq. rewrite Heq in Hnxt. done.
    - destruct (frame_of_fun _ _ _ _ _ Hf Hf') as [-> _]. by exists j0, fc0. }
  destruct (sequence_from_spec i cur tx Hinv Hx Hplus Hnxt)
    as [[[msg Hmsg] Hwhy]|(sq & cur' & Hrun & Hinv')].
  { left. rewrite Hmsg. split; [by eexists|]. intros Hd. apply Hwhy, Hd. }
  rewrite Hrun. apply IH; [lia | done].
Qed.

End whole_loop.

Lemma sequenced_upto_start (names : list (option (list Z))) :
  sequenced_upto names 0
    ((fmap loaded : option (list Z) -> option texture_t) <$> names).
Proof.
  split; [|split; [|split]].
  - apply list_eq. intros j. rewrite !list_lookup_fmap.
    by destruct (names !! j) as [[nm|]|].
  - intros; lia.
  - intros; lia.
  - intros j. by left.
Qed.

(** The sequencing of a map: it is fatal, where the frames are distinct
    over a gap or a bad frame character, or it returns with every
    animation sound and, where its frames are distinct, sequenced. *)
Lemma sequence_loaded_spec (names : list (option (list Z))) :
  all_terminated names ->
  (is_fatal (sequence_loaded names) /\
   (distinct_frames names -> gap names \/ bad_frame names)) \/
  exists final,
    sequence_loaded names = Ok final /\
    sequenced_upto names (length names) final.
Proof.
  intros Hterm. unfold sequence_loaded, sequence_animations.
  rewrite length_fmap. change 0 with (Z.of_nat 0).
  apply (sequence_loop_spec names Hterm (length names) 0%nat);
    [lia | apply sequenced_upto_start].
Qed.

(** C2.  Where every animated name has its NUL inside its 16 bytes, the
    sequencing loop groups the textures whose names begin with '+' by
    their suffix, and the highest frame among the textures of a suffix
    sets the length of a sequence.  A gap, a frame of a sequence with a
    lower frame missing, is fatal, and so is a bad frame character.
    Where no two textures are the same frame of the same sequence, the
    loop returns without either.  When it returns, the names are kept,
    and of every suffix without two textures of the same frame each
    frame [k] of each sequence, primary and alternate, has [anim_total]
    the length times [ANIM_CYCLE], [anim_min] and [anim_max] [k] and
    [k + 1] times [ANIM_CYCLE], and [anim_next] the texture of the next
    frame of its sequence, the first one after the last.  The textures
    +0ABC, +1ABC, +2ABC are linked 0 -> 1 -> 2 -> 0 with [anim_total]
    6; +0ABC and +2ABC without +1ABC fail the load. *)
Theorem C2_animation_sequences :
  (forall names : list (option (list Z)),
      all_terminated names ->
      (gap names -> is_fatal (sequence_loaded names)) /\
      (bad_frame names -> is_fatal (sequence_loaded names)) /\
      (distinct_frames names -> gapless names -> ~ bad_frame names ->
       exists final, sequence_loaded names = Ok final) /\
      (forall final : list (option texture_t),
          sequence_loaded names = Ok final ->
          ((fmap name : option texture_t -> option (list Z)) <$> final)
          = names /\
          forall (sfx : list Z) (kind : Z -> frame_char) (k : Z) (j : nat),
            distinct_in names sfx ->
            is_kind kind -> frame_of names sfx (kind k) j ->
            exists t, final !! j = Some (Some t) /\
                      sequenced names sfx kind k t)) /\
  (exists t0 t1 t2,
      sequence_animations abc_frames = Ok [Some t0; Some t1; Some t2] /\
      anim_total t0 = 6 /\ anim_total t1 = 6 /\ anim_total t2 = 6 /\
      anim_next t0 = Some 1 /\ anim_next t1 = Some 2 /\
      anim_next t2 = Some 0 /\
      (anim_min t0, anim_max t0) = (0, 2) /\
      (anim_min t1, anim_max t1) = (2, 4) /\
      (anim_min t2, anim_max t2) = (4, 6)) /\
  sequence_animations [fresh "+0ABC"; fresh "+2ABC"]
  = SysError "Missing frame".
Proof.
  split; [|split].
  - intros names Hterm.
    destruct (sequence_loaded_spec names Hterm)
      as [[Hfatal Hwhy]|(final & Hrun & Hnames & Hseq & Hgroups & _)].
    + split; [done|]. split; [done|]. split.
      * intros Hdist Hgapless Hnobad. exfalso.
        destruct (Hwhy Hdist)
          as [(sfx & kind & k & k' & j & Hkind & Hf & Hk' & Hnone)|Hbad];
          [|done].
        destruct (Hgapless sfx kind k k' j Hkind Hf Hk') as [j' Hj'].
        by apply (Hnone j').
      * intros final Hrun. destruct Hfatal as [msg Hmsg]. congruence.
    + split; [|split; [|split]].
      * intros (sfx & kind & k & k' & j & Hkind & Hf & Hk' & Hnone). exfalso.
        destruct (Hgroups j sfx (kind k) (frame_of_lt _ _ _ _ Hf) Hf)
          as [_ Hgl].
        destruct (Hgl kind k k' j Hkind Hf Hk') as [j' Hj'].
        by apply (Hnone j').
      * intros (sfx & j & Hf). exfalso.
        destruct (Hgroups j sfx bad_char (frame_of_lt _ _ _ _ Hf) Hf)
          as [Hnb _].
        by apply (Hnb j).
      * intros _ _ _. by exists final.
      * intros final' Hrun'. assert (final' = final) as -> by congruence.
        split; [done|]. intros sfx kind k j Hd Hkind Hf.
        by apply (Hseq j j sfx (kind k) kind k (frame_of_lt _ _ _ _ Hf)).
  - vm_compute. do 3 eexists. split; [reflexivity|]. by split_and!.
  - vm_compute. reflexivity.
Qed.

End TexAnimProps.

Lemma abc_frame_of (sfx : list Z) (fc : TexAnim.frame_char) (j : nat) :
  TexAnim.frame_of TexAnim.abc_names sfx fc j ->
  (j < 3)%nat /\ sfx = [65; 66; 67] /\ fc = TexAnim.primary (Z.of_nat j).
Proof.
  intros (nm & Hnm & _ & <- & <-).
  destruct j as [|[|[|j]]]; cbn in Hnm; [| | |done];
    injection Hnm as <-; (split; [lia|]); split; reflexivity.
Qed.

Lemma abc_terminated : TexAnim.all_terminated TexAnim.abc_names.
Proof.
  intros j nm Hnm _.
  destruct j as [|[|[|j]]]; cbn in Hnm; [| | |done];
    injection Hnm as <-; unfold TexAnim.terminated; cbn; tauto.
Qed.

Lemma abc_distinct : TexAnim.distinct_frames TexAnim.abc_names.
Proof.
  intros sfx kind k j j' _ Hf Hf'.
  apply abc_frame_of in Hf as (_ & _ & Hk).
  apply abc_frame_of in Hf' as (_ & _ & Hk').
  rewrite Hk in Hk'. injection Hk' as Hk'. lia.
Qed.

Lemma abc_no_bad_frame : ~ TexAnim.bad_frame TexAnim.abc_names.
Proof. intros (sfx & j & Hf). by apply abc_frame_of in Hf as (_ & _ & ?). Qed.

Lemma abc_gapless : TexAnim.gapless TexAnim.abc_names.
Proof.
  intros sfx kind k k' j Hkind Hf Hk'.
  pose proof Hf as (nm0 & _ & _ & Hsfx0 & _).
  apply abc_frame_of in Hf as (Hj & -> & Hk).
  assert (Hkj : kind = TexAnim.primary /\ k = Z.of_nat j).
  { destruct Hkind as [->| ->]; [by injection Hk as -> | done]. }
  destruct Hkj as [-> ->].
  exists (Z.to_nat k').
  destruct (Z.to_nat k') as [|[|[|n]]] eqn:Hn; [| | |lia].
  - replace k' with 0 by lia. by exists (TexAnim.miptex_name "+0ABC").
  - replace k' with 1 by lia. by exists (TexAnim.miptex_name "+1ABC").
  - replace k' with 2 by lia. by exists (TexAnim.miptex_name "+2ABC").
Qed.

(** [C2_animation_sequences] on the names +0ABC, +1ABC, +2ABC: the load
    returns, and every frame is sequenced. *)
Lemma C2_animation_sequences_witness :
  TexAnim.all_terminated TexAnim.abc_names /\
  TexAnim.distinct_frames TexAnim.abc_names /\
  TexAnim.gapless TexAnim.abc_names /\
  ~ TexAnim.bad_frame TexAnim.abc_names /\
  exists final,
    TexAnim.sequence_loaded TexAnim.abc_names = Ok final /\
    forall (sfx : list Z) (kind : Z -> TexAnim.frame_char) (k : Z) (j : nat),
      TexAnim.is_kind kind ->
      TexAnim.frame_of TexAnim.abc_names sfx (kind k) j ->
      exists t, final !! j = Some (Some t) /\
                TexAnim.sequenced TexAnim.abc_names sfx kind k t.
Proof.
  split; [exact abc_terminated|]. split; [exact abc_distinct|].
  split; [exact abc_gapless|]. split; [exact abc_no_bad_frame|].
  destruct C2_animation_sequences as (Hgen & _).
  destruct (Hgen TexAnim.abc_names abc_terminated)
    as (_ & _ & Hreturns & Hlinked).
  destruct (Hreturns abc_distinct abc_gapless abc_no_bad_frame)
    as (final & Hrun).
  exists final. split; [exact Hrun|].
  destruct (Hlinked final Hrun) as [_ Hall].
  intros sfx kind k j Hkind Hf.
  exact (Hall sfx kind k j (abc_distinct sfx) Hkind Hf).
Defined.

(** The names +2ABC, +0ABC, +0ABC, +1ABC share the suffix ABC, and their
    highest frame, 2, gives the primary sequence the length 3.  The load
    returns, and the texture +1ABC is left with an [anim_total] of 4,
    not of 6, and with the second +0ABC for its next texture, which has
    +1ABC for its own: the first +0ABC is not linked at all, and the
    links that start at +2ABC, whose [anim_total] is 6, never come back
    to it. *)
Lemma C2_doubled_frame_breaks_sequence :
  TexAnim.sequence_length TexAnim.doubled_names [65; 66; 67]
    TexAnim.primary 3 /\
  TexAnim.frame_of TexAnim.doubled_names [65; 66; 67] (TexAnim.primary 1) 3 /\
  exists t0 t1 t2 t3,
    TexAnim.sequence_loaded TexAnim.doubled_names
    = Ok [Some t0; Some t1; Some t2; Some t3] /\
    TexAnim.anim_total t3 = 4 /\ TexAnim.anim_next t3 = Some 2 /\
    TexAnim.anim_total t2 = 4 /\ TexAnim.anim_next t2 = Some 3 /\
    TexAnim.anim_total t0 = 6 /\ TexAnim.anim_next t0 = Some 2 /\
    TexAnim.anim_total t1 = 0 /\ TexAnim.anim_next t1 = None.
Proof.
  split; [|split].
  - split; [lia|]. split.
    + intros j k (nm & Hnm & _ & _ & Hc).
      destruct j as [|[|[|[|j]]]]; cbn in Hnm; [| | | |done];
        injection Hnm as <-; vm_compute in Hc; injection Hc as <-; lia.
    + intros _. exists 0%nat. by exists (TexAnim.miptex_name "+2ABC").
  - by exists (TexAnim.miptex_name "+1ABC").
  - vm_compute. do 4 eexists. split; [reflexivity|]. by split_and!.
Qed.

(** Two names that fill their 16 bytes and agree from the third
    character on: the comparison of their suffixes reads past them. *)
Lemma unterminated_names_undefined :
  TexAnim.sequence_loaded TexAnim.long_names
  = Undefined "strcmp reads past the end of the name".
Proof. vm_compute. reflexivity. Qed.

(** ** Rounding to multiples of 16 *)

Lemma Zle_of_Qle (a b : Z) : (inject_Z a <= inject_Z b)%Q -> a <= b.
Proof. intros Hq. rewrite Zle_Qle. exact Hq. Qed.

Lemma Zlt_of_Qlt (a b : Z) : (inject_Z a < inject_Z b)%Q -> a < b.
Proof. intros Hq. rewrite Zlt_Qlt. exact Hq. Qed.

Lemma floor16_bounds (mn : Q) :
  (16 * inject_Z (Qfloor (mn / 16)) <= mn /\
   mn < 16 * inject_Z (Qfloor (mn / 16)) + 16)%Q.
Proof.
  pose proof (Qfloor_le (mn / 16)) as Hlo.
  pose proof (Qlt_floor (mn / 16)) as Hhi.
  rewrite inject_Z_plus in Hhi. change (inject_Z 1) with 1%Q in Hhi.
  assert (Heq : (mn == (mn / 16) * 16)%Q) by field.
  split; lra.
Qed.

Lemma ceiling16_bounds (mx : Q) :
  (16 * inject_Z (Qceiling (mx / 16)) - 16 < mx /\
   mx <= 16 * inject_Z (Qceiling (mx / 16)))%Q.
Proof.
  pose proof (Qle_ceiling (mx / 16)) as Hhi.
  pose proof (Qceiling_lt (mx / 16)) as Hlo.
  replace (Qceiling (mx / 16) - 1) with (Qceiling (mx / 16) + (-1)) in Hlo
    by lia.
  rewrite inject_Z_plus in Hlo.
  change (inject_Z (-1)) with (-1)%Q in Hlo.
  assert (Heq : (mx == (mx / 16) * 16)%Q) by field.
  split; lra.
Qed.

(** A span of exactly 17 rounds to 32 when the minimum lies at most 15
    above a multiple of 16, and to 48 when it lies higher. *)
Lemma span17 (mn mx : Q) :
  (mx - mn == 17)%Q ->
  let f := Qfloor (mn / 16) in
  let c := Qceiling (mx / 16) in
  (c - f = 2 \/ c - f = 3) /\
  ((mn - 16 * inject_Z f <= 15)%Q <-> c - f = 2).
Proof.
  intros Hspan f c.
  destruct (floor16_bounds mn) as [Hf1 Hf2].
  destruct (ceiling16_bounds mx) as [Hc1 Hc2].
  fold f in Hf1, Hf2. fold c in Hc1, Hc2.
  assert (Hlo : 2 <= c - f).
  { assert (Hq : (inject_Z (f + 1) < inject_Z c)%Q).
    { rewrite inject_Z_plus. change (inject_Z 1) with 1%Q. lra. }
    apply Zlt_of_Qlt in Hq. lia. }
  assert (Hhi : c - f <= 3).
  { assert (Hq : (inject_Z c < inject_Z (f + 4))%Q).
    { rewrite inject_Z_plus. change (inject_Z 4) with 4%Q. lra. }
    apply Zlt_of_Qlt in Hq. lia. }
  split; [lia|]. split.
  - intros Hr.
    assert (Hq : (inject_Z c < inject_Z (f + 3))%Q).
    { rewrite inject_Z_plus. change (inject_Z 3) with 3%Q. lra. }
    apply Zlt_of_Qlt in Hq. lia.
  - intros Hc.
    assert (Hcq : (inject_Z c == inject_Z f + 2)%Q).
    { replace c with (f + 2) by lia. rewrite inject_Z_plus.
      change (inject_Z 2) with 2%Q. lra. }
    lra.
Qed.

Lemma moderate_rounding (mn mx : Q) :
  (-16000 <= mn)%Q -> (mn <= mx)%Q -> (mx <= 16000)%Q ->
  -1000 <= Qfloor (mn / 16) <= Qceiling (mx / 16) /\
  Qceiling (mx / 16) <= 1000.
Proof.
  intros Hlo Hle Hhi.
  destruct (floor16_bounds mn) as [Hf1 Hf2].
  destruct (ceiling16_bounds mx) as [Hc1 Hc2].
  split_and!.
  - assert (Hq : (inject_Z (-1001) < inject_Z (Qfloor (mn / 16)))%Q)
      by (change (inject_Z (-1001)) with (-1001)%Q; lra).
    apply Zlt_of_Qlt in Hq. lia.
  - apply Zle_of_Qle. lra.
  - assert (Hq : (inject_Z (Qceiling (mx / 16)) < inject_Z 1001)%Q)
      by (change (inject_Z 1001) with 1001%Q; lra).
    apply Zlt_of_Qlt in Hq. lia.
Qed.

Lemma wrap_fits (bits x : Z) :
  16 <= bits -> -32768 <= x <= 32767 -> wrap bits x = x.
Proof.
  intros Hbits Hx. unfold wrap.
  assert (Hp : 2 ^ 15 <= 2 ^ (bits - 1)) by (apply Z.pow_le_mono_r; lia).
  change (2 ^ 15) with 32768 in Hp.
  replace (2 ^ bits) with (2 * 2 ^ (bits - 1))
    by (rewrite <- Z.pow_succ_r by lia; f_equal; lia).
  rewrite Z.mod_small; lia.
Qed.

(** ** Texel extents of a face *)

Section FacesProps.
Import Faces.
Context `{Headers}.
Variables fmul fadd fdiv : Q -> Q -> Q.

(** What one turn of the rounding loop yields on moderate bounds. *)
Lemma round_axis_value (tex : mtexinfo_t) (mn mx : Q) :
  16 <= EXTENT_BITS ->
  (-16000 <= mn)%Q -> (mn <= mx)%Q -> (mx <= 16000)%Q ->
  divides_exactly fdiv mn -> divides_exactly fdiv mx ->
  round_axis fdiv tex mn mx
  = if (Z.land (tex_flags tex) TEX_SPECIAL =? 0) && (rounded_span mn mx >? 256)
    then SysError "Bad surface extents"
    else Ok (rounded_min mn, rounded_span mn mx).
Proof.
  intros Hbits Hlo Hle Hhi Hdmn Hdmx.
  destruct (moderate_rounding mn mx Hlo Hle Hhi) as [Hf Hc].
  unfold round_axis, rounded_span, rounded_max, rounded_min, int_of_double.
  unfold divides_exactly in Hdmn, Hdmx.
  rewrite (Qfloor_comp _ _ Hdmn), (Qceiling_comp _ _ Hdmx).
  set (f := Qfloor (mn / 16)) in *. set (c := Qceiling (mx / 16)) in *.
  assert (Hif : (INT_MIN <=? f) && (f <=? INT_MAX) = true).
  { unfold INT_MIN, INT_MAX. apply andb_true_iff. split; apply Z.leb_le; lia. }
  assert (Hic : (INT_MIN <=? c) && (c <=? INT_MAX) = true).
  { unfold INT_MIN, INT_MAX. apply andb_true_iff. split; apply Z.leb_le; lia. }
  rewrite Hif, Hic. cbn [mbind result_bind].
  unfold stored, int_mul, int_sub.
  rewrite (wrap_small (c - f)) by (unfold is_int, INT_MIN, INT_MAX; lia).
  rewrite !wrap_small by (unfold is_int, INT_MIN, INT_MAX; lia).
  rewrite !wrap_fits by lia.
  replace (f * 16) with (16 * f) by lia.
  replace ((c - f) * 16) with (16 * c - 16 * f) by lia.
  done.
Qed.

Lemma lower_le (val m : Q) : (lower val m <= m)%Q /\ (lower val m <= val)%Q.
Proof.
  unfold lower, Qltb. destruct (Qle_bool m val) eqn:Hle; cbn.
  - apply Qle_bool_iff in Hle. split; lra.
  - apply Qle_bool_false in Hle. split; lra.
Qed.

Lemma raise_ge (val m : Q) : (m <= raise val m)%Q /\ (val <= raise val m)%Q.
Proof.
  unfold raise, Qltb. destruct (Qle_bool val m) eqn:Hle; cbn.
  - apply Qle_bool_iff in Hle. split; lra.
  - apply Qle_bool_false in Hle. split; lra.
Qed.

Lemma running_min_spec (vals : list Q) :
  forall init : Q,
    (running_min vals init <= init)%Q /\
    (forall val, In val vals -> (running_min vals init <= val)%Q) /\
    (running_min vals init = init \/ In (running_min vals init) vals).
Proof.
  induction vals as [|val vals IH]; intros init; cbn.
  { split_and!; [lra | tauto | by left]. }
  destruct (IH (lower val init)) as (Hle & Hall & Hmem).
  unfold running_min in *. destruct (lower_le val init) as [Hl1 Hl2].
  split_and!.
  - lra.
  - intros x [<-|Hx]; [lra | by apply Hall].
  - destruct Hmem as [Heq|Hin]; [|right; right; exact Hin].
    rewrite Heq. unfold lower.
    destruct (Qltb val init); [right; left; reflexivity | left; reflexivity].
Qed.

Lemma running_max_spec (vals : list Q) :
  forall init : Q,
    (init <= running_max vals init)%Q /\
    (forall val, In val vals -> (val <= running_max vals init)%Q) /\
    (running_max vals init = init \/ In (running_max vals init) vals).
Proof.
  induction vals as [|val vals IH]; intros init; cbn.
  { split_and!; [lra | tauto | by left]. }
  destruct (IH (raise val init)) as (Hle & Hall & Hmem).
  unfold running_max in *. destruct (raise_ge val init) as [Hl1 Hl2].
  split_and!.
  - lra.
  - intros x [<-|Hx]; [lra | by apply Hall].
  - destruct Hmem as [Heq|Hin]; [|right; right; exact Hin].
    rewrite Heq. unfold raise.
    destruct (Qltb init val); [right; left; reflexivity | left; reflexivity].
Qed.

Lemma FLT_MAX_large : (16000 < FLT_MAX)%Q.
Proof. reflexivity. Qed.

(** Over moderate coordinates, not all absent, the first loop ends with
    the least and the greatest of them. *)
Lemma running_bounds (vals : list Q) :
  vals <> [] -> Forall moderate vals ->
  is_least (running_min vals FLT_MAX) vals /\
  is_greatest (running_max vals (- FLT_MAX)) vals /\
  moderate (running_min vals FLT_MAX) /\
  moderate (running_max vals (- FLT_MAX)) /\
  (running_min vals FLT_MAX <= running_max vals (- FLT_MAX))%Q.
Proof.
  intros Hne Hmod. rewrite List.Forall_forall in Hmod.
  destruct vals as [|v0 vals]; [done|].
  assert (Hv0 : In v0 (v0 :: vals)) by (by left).
  pose proof (Hmod v0 Hv0) as [Hv0lo Hv0hi].
  pose proof FLT_MAX_large as Hbig.
  destruct (running_min_spec (v0 :: vals) FLT_MAX) as (_ & Hall & Hmem).
  destruct (running_max_spec (v0 :: vals) (- FLT_MAX)) as (_ & Hall' & Hmem').
  pose proof (Hall v0 Hv0) as Hmin0. pose proof (Hall' v0 Hv0) as Hmax0.
  assert (Hin : In (running_min (v0 :: vals) FLT_MAX) (v0 :: vals)).
  { destruct Hmem as [Heq|Hin]; [|done]. rewrite Heq in Hmin0. lra. }
  assert (Hin' : In (running_max (v0 :: vals) (- FLT_MAX)) (v0 :: vals)).
  { destruct Hmem' as [Heq|Hin']; [|done]. rewrite Heq in Hmax0. lra. }
  split_and!; try done.
  - by apply Hmod.
  - by apply Hmod.
  - lra.
Qed.

(** The first loop computes the running bounds of the projections. *)
Lemma bounds_loop_projections (m : brush) (tex : mtexinfo_t) (first : Z)
    (n : nat) :
  forall (i : Z) (mins maxs : Q * Q) (vals0 vals1 : list Q),
    projections fmul fadd m (fst (vecs tex)) first n i = Ok vals0 ->
    projections fmul fadd m (snd (vecs tex)) first n i = Ok vals1 ->
    bounds_loop fmul fadd m tex first n i mins maxs
    = Ok ((running_min vals0 (fst mins), running_min vals1 (snd mins)),
          (running_max vals0 (fst maxs), running_max vals1 (snd maxs))).
Proof.
  induction n as [|n IH]; intros i mins maxs vals0 vals1 H0 H1.
  { cbn in *. injection H0 as <-. injection H1 as <-. cbn.
    by destruct mins, maxs. }
  cbn [projections bounds_loop] in *.
  destruct (peek (surfedges m) (int_add first i)) as [e| |]; cbn in H0, H1;
    try done.
  destruct (edge_vertex m e) as [vert| |]; cbn in H0, H1; try done.
  destruct (projections fmul fadd m (fst (vecs tex)) first n (i + 1)) as [r0| |] eqn:Hr0;
    cbn in H0; try done.
  destruct (projections fmul fadd m (snd (vecs tex)) first n (i + 1)) as [r1| |] eqn:Hr1;
    cbn in H1; try done.
  injection H0 as <-. injection H1 as <-.
  by rewrite (IH (i + 1) _ _ r0 r1).
Qed.

Lemma projections_length (m : brush) (axis : vec4_t) (first : Z) (n : nat) :
  forall (i : Z) (vals : list Q),
    projections fmul fadd m axis first n i = Ok vals -> length vals = n.
Proof.
  induction n as [|n IH]; intros i vals Hv; cbn in Hv.
  { by injection Hv as <-. }
  destruct (peek (surfedges m) (int_add first i)) as [e| |]; cbn in Hv; try done.
  destruct (edge_vertex m e) as [vert| |]; cbn in Hv; try done.
  destruct (projections fmul fadd m axis first n (i + 1)) as [r| |] eqn:Hr; cbn in Hv;
    try done.
  injection Hv as <-. cbn. f_equal. by apply (IH (i + 1)).
Qed.

(** [CalcSurfaceExtents] on a face with moderate projected coordinates
    that are divided by 16 exactly: the bounds are the least and
    greatest coordinate per axis, and the outcome is decided by the
    rounded spans and the special flag. *)
Lemma CalcSurfaceExtents_value (m : brush) (first num : Z) (tex : mtexinfo_t)
    (vals0 vals1 : list Q) :
  16 <= EXTENT_BITS -> 0 < num ->
  projections fmul fadd m (fst (vecs tex)) first (Z.to_nat num) 0 = Ok vals0 ->
  projections fmul fadd m (snd (vecs tex)) first (Z.to_nat num) 0 = Ok vals1 ->
  Forall moderate vals0 -> Forall moderate vals1 ->
  Forall (divides_exactly fdiv) vals0 -> Forall (divides_exactly fdiv) vals1 ->
  exists mn0 mx0 mn1 mx1,
    is_least mn0 vals0 /\ is_greatest mx0 vals0 /\
    is_least mn1 vals1 /\ is_greatest mx1 vals1 /\
    CalcSurfaceExtents fmul fadd fdiv m first num tex
    = if (Z.land (tex_flags tex) TEX_SPECIAL =? 0)
         && ((rounded_span mn0 mx0 >? 256) || (rounded_span mn1 mx1 >? 256))
      then SysError "Bad surface extents"
      else Ok ((rounded_min mn0, rounded_min mn1),
               (rounded_span mn0 mx0, rounded_span mn1 mx1)).
Proof.
  intros Hbits Hnum Hv0 Hv1 Hm0 Hm1 Hd0 Hd1.
  rewrite List.Forall_forall in Hd0, Hd1.
  assert (Hne0 : vals0 <> []).
  { apply projections_length in Hv0. destruct vals0; [cbn in Hv0; lia | done]. }
  assert (Hne1 : vals1 <> []).
  { apply projections_length in Hv1. destruct vals1; [cbn in Hv1; lia | done]. }
  destruct (running_bounds vals0 Hne0 Hm0) as (Hl0 & Hg0 & [? ?] & [? ?] & ?).
  destruct (running_bounds vals1 Hne1 Hm1) as (Hl1 & Hg1 & [? ?] & [? ?] & ?).
  exists (running_min vals0 FLT_MAX), (running_max vals0 (- FLT_MAX)),
         (running_min vals1 FLT_MAX), (running_max vals1 (- FLT_MAX)).
  split_and!; try done.
  unfold CalcSurfaceExtents.
  rewrite (bounds_loop_projections m tex first _ 0 _ _ vals0 vals1 Hv0 Hv1).
  cbn [mbind result_bind fst snd].
  rewrite !round_axis_value
    by (first [done | apply Hd0; apply Hl0 | apply Hd0; apply Hg0
              | apply Hd1; apply Hl1 | apply Hd1; apply Hg1]).
  generalize (rounded_span (running_min vals0 FLT_MAX)
                (running_max vals0 (- FLT_MAX)) >? 256).
  generalize (rounded_span (running_min vals1 FLT_MAX)
                (running_max vals1 (- FLT_MAX)) >? 256).
  intros over1 over0.
  by destruct (Z.land (tex_flags tex) TEX_SPECIAL =? 0), over0, over1.
Qed.

Lemma sky_not_turb (nm : list Z) : is_sky nm = true -> is_turb nm = false.
Proof.
  unfold is_sky, is_turb. rewrite !andb_true_iff, !Z.eqb_eq.
  intros [[-> _] _]. done.
Qed.

Lemma rounding_bounds (mn mx : Q) :
  (inject_Z (rounded_min mn) <= mn < inject_Z (rounded_min mn) + 16)%Q /\
  (inject_Z (rounded_max mx) - 16 < mx <= inject_Z (rounded_max mx))%Q.
Proof.
  unfold rounded_max, rounded_min.
  destruct (floor16_bounds mn) as [Hf1 Hf2].
  destruct (ceiling16_bounds mx) as [Hc1 Hc2].
  rewrite !inject_Z_mult. change (inject_Z 16) with 16%Q.
  split; split; lra.
Qed.

Lemma rounded_span17 (mn mx : Q) :
  (mx - mn == 17)%Q ->
  (rounded_span mn mx = 32 \/ rounded_span mn mx = 48) /\
  ((mn - inject_Z (rounded_min mn) <= 15)%Q <-> rounded_span mn mx = 32).
Proof.
  intros Hspan. destruct (span17 mn mx Hspan) as [Hcases Hiff].
  cbv zeta in Hcases, Hiff.
  unfold rounded_span, rounded_max, rounded_min.
  rewrite inject_Z_mult. change (inject_Z 16) with 16%Q.
  split; [lia|]. rewrite Hiff. lia.
Qed.

Lemma extent_test_passes (special span0 span1 : Z) :
  special <> 0 \/ (span0 <= 256 /\ span1 <= 256) ->
  (special =? 0) && ((span0 >? 256) || (span1 >? 256)) = false.
Proof.
  intros Hfine. destruct (Z.eqb_spec special 0) as [Hz|Hnz]; [|done].
  destruct Hfine as [?|[Hs0 Hs1]]; [done|].
  destruct (Z.gtb_spec span0 256); [lia|].
  destruct (Z.gtb_spec span1 256); [lia|]. done.
Qed.

(** C6.  The texel extents of a face of at least one edge, where the
    fields of the extents have at least 16 bits and the coordinates of
    its vertices, projected on the two texture axes in the float
    arithmetic of the target, are of magnitude at most 16000 and are
    divided by 16 exactly: per axis the bounds are the least and the
    greatest of these coordinates, the minimum is rounded down and the
    maximum up to a multiple of 16, and, unless the face is not special
    and a rounded span exceeds 256, [texturemins] is the rounded minimum
    and [extents] the rounded span.  A span of exactly 17 gives an
    extent of 32 when the minimum lies at most 15 above a multiple of
    16, as every integer minimum does, and of 48 when it lies higher. *)
Theorem C6_surface_extents (m : brush) (first num : Z) (tex : mtexinfo_t)
    (vals0 vals1 : list Q) :
  16 <= EXTENT_BITS -> 0 < num ->
  projections fmul fadd m (fst (vecs tex)) first (Z.to_nat num) 0 = Ok vals0 ->
  projections fmul fadd m (snd (vecs tex)) first (Z.to_nat num) 0 = Ok vals1 ->
  Forall moderate vals0 -> Forall moderate vals1 ->
  Forall (divides_exactly fdiv) vals0 -> Forall (divides_exactly fdiv) vals1 ->
  exists mn0 mx0 mn1 mx1,
    (is_least mn0 vals0 /\ is_greatest mx0 vals0 /\
     is_least mn1 vals1 /\ is_greatest mx1 vals1) /\
    ((inject_Z (rounded_min mn0) <= mn0 < inject_Z (rounded_min mn0) + 16)%Q /\
     (inject_Z (rounded_max mx0) - 16 < mx0 <= inject_Z (rounded_max mx0))%Q /\
     (inject_Z (rounded_min mn1) <= mn1 < inject_Z (rounded_min mn1) + 16)%Q /\
     (inject_Z (rounded_max mx1) - 16 < mx1 <= inject_Z (rounded_max mx1))%Q) /\
    (Z.land (tex_flags tex) TEX_SPECIAL <> 0 \/
     (rounded_span mn0 mx0 <= 256 /\ rounded_span mn1 mx1 <= 256) ->
     CalcSurfaceExtents fmul fadd fdiv m first num tex
     = Ok ((rounded_min mn0, rounded_min mn1),
           (rounded_span mn0 mx0, rounded_span mn1 mx1))) /\
    ((mx0 - mn0 == 17)%Q ->
     (rounded_span mn0 mx0 = 32 \/ rounded_span mn0 mx0 = 48) /\
     ((mn0 - inject_Z (rounded_min mn0) <= 15)%Q
      <-> rounded_span mn0 mx0 = 32)) /\
    ((mx1 - mn1 == 17)%Q ->
     (rounded_span mn1 mx1 = 32 \/ rounded_span mn1 mx1 = 48) /\
     ((mn1 - inject_Z (rounded_min mn1) <= 15)%Q
      <-> rounded_span mn1 mx1 = 32)).
Proof.
  intros Hbits Hnum Hv0 Hv1 Hm0 Hm1 Hd0 Hd1.
  destruct (CalcSurfaceExtents_value m first num tex vals0 vals1
              Hbits Hnum Hv0 Hv1 Hm0 Hm1 Hd0 Hd1)
    as (mn0 & mx0 & mn1 & mx1 & Hl0 & Hg0 & Hl1 & Hg1 & Hcalc).
  exists mn0, mx0, mn1, mx1.
  split; [done|]. split.
  { destruct (rounding_bounds mn0 mx0) as [? ?].
    destruct (rounding_bounds mn1 mx1) as [? ?]. done. }
  split.
  { intros Hfine. rewrite Hcalc.
    by rewrite (extent_test_passes _ _ _ Hfine). }
  split.
  - apply rounded_span17.
  - apply rounded_span17.
Qed.

(** C7.  A face of at least one edge, where the fields of the extents
    have at least 16 bits and the coordinates of its vertices, projected
    in the float arithmetic of the target, are of magnitude at most
    16000 and are divided by 16 exactly, by its special flag and the
    name of its texture.  Without the [TEX_SPECIAL] flag a rounded span
    above 256 on either axis is fatal, whatever the name.  With the
    flag, or with both spans within 256, the face loads.  A texture name
    that begins with "sky" then adds the sky and the tiled draw flag to
    the plane-back flag and keeps the computed minima and spans; a name
    that begins with '*' adds the turbulent and the tiled draw flag and
    has the extents set to 16384 and the minima to -8192; any other name
    adds no flag and keeps the computed minima and spans. *)
Theorem C7_extent_limit (m : brush) (inp : dface_t) (tex : mtexinfo_t)
    (vals0 vals1 : list Q) :
  16 <= EXTENT_BITS -> 0 < d_numedges inp ->
  peek (texinfo m) (d_texinfo inp) = Ok tex ->
  projections fmul fadd m (fst (vecs tex)) (d_firstedge inp)
    (Z.to_nat (d_numedges inp)) 0 = Ok vals0 ->
  projections fmul fadd m (snd (vecs tex)) (d_firstedge inp)
    (Z.to_nat (d_numedges inp)) 0 = Ok vals1 ->
  Forall moderate vals0 -> Forall moderate vals1 ->
  Forall (divides_exactly fdiv) vals0 -> Forall (divides_exactly fdiv) vals1 ->
  exists mn0 mx0 mn1 mx1,
    (is_least mn0 vals0 /\ is_greatest mx0 vals0 /\
     is_least mn1 vals1 /\ is_greatest mx1 vals1) /\
    (Z.land (tex_flags tex) TEX_SPECIAL = 0 ->
     256 < rounded_span mn0 mx0 \/ 256 < rounded_span mn1 mx1 ->
     is_fatal (CalcSurfaceExtents fmul fadd fdiv m (d_firstedge inp)
                 (d_numedges inp) tex) /\
     is_fatal (load_face fmul fadd fdiv m inp)) /\
    (Z.land (tex_flags tex) TEX_SPECIAL <> 0 \/
     (rounded_span mn0 mx0 <= 256 /\ rounded_span mn1 mx1 <= 256) ->
     exists s,
       load_face fmul fadd fdiv m inp = Ok s /\
       (is_turb (texture_name tex) = true ->
        extents s = (16384, 16384) /\ texturemins s = (-8192, -8192)) /\
       (is_turb (texture_name tex) = false ->
        extents s = (rounded_span mn0 mx0, rounded_span mn1 mx1) /\
        texturemins s = (rounded_min mn0, rounded_min mn1)) /\
       (is_sky (texture_name tex) = true ->
        flags s = Z.lor (plane_back inp) (Z.lor SURF_DRAWSKY SURF_DRAWTILED)) /\
       (is_sky (texture_name tex) = false ->
        is_turb (texture_name tex) = true ->
        flags s = Z.lor (plane_back inp) (Z.lor SURF_DRAWTURB SURF_DRAWTILED)) /\
       (is_sky (texture_name tex) = false ->
        is_turb (texture_name tex) = false ->
        flags s = plane_back inp)).
Proof.
  intros Hbits Hnum Htex Hv0 Hv1 Hm0 Hm1 Hd0 Hd1.
  destruct (CalcSurfaceExtents_value m _ _ tex vals0 vals1
              Hbits Hnum Hv0 Hv1 Hm0 Hm1 Hd0 Hd1)
    as (mn0 & mx0 & mn1 & mx1 & Hl0 & Hg0 & Hl1 & Hg1 & Hcalc).
  exists mn0, mx0, mn1, mx1. split; [done|].
  unfold load_face. rewrite Htex. cbn [mbind result_bind]. rewrite Hcalc.
  split.
  - intros Hflag Hover. rewrite Hflag. cbn [Z.eqb andb].
    assert (Hor : (rounded_span mn0 mx0 >? 256)
                  || (rounded_span mn1 mx1 >? 256) = true).
    { apply orb_true_iff.
      destruct Hover; [left | right]; apply Z.gtb_lt; lia. }
    rewrite Hor. split; by eexists.
  - intros Hfine. rewrite (extent_test_passes _ _ _ Hfine).
    cbn [mbind result_bind mret result_ret fst snd].
    assert (Hback : (if negb (d_side inp =? 0) then Z.lor 0 SURF_PLANEBACK
                     else 0) = plane_back inp).
    { unfold plane_back. rewrite Z.lor_0_l. by destruct (d_side inp =? 0). }
    rewrite Hback.
    destruct (is_sky (texture_name tex)) eqn:Hsky.
    + eexists. split; [done|]. cbn [extents texturemins flags].
      rewrite (sky_not_turb _ Hsky). split_and!; done.
    + destruct (is_turb (texture_name tex)) eqn:Hturb.
      * eexists. split; [done|]. cbn [extents texturemins flags].
        unfold stored. rewrite !wrap_fits by lia. split_and!; done.
      * eexists. split; [done|]. cbn [extents texturemins flags].
        split_and!; done.
Qed.

End FacesProps.

(** [C6_surface_extents] on a triangle whose s coordinates are 0, 17 and
    17 and whose t coordinates are 0, 0 and 16, all of them numbers on
    which float arithmetic is exact: the face passes the test and the
    computation returns. *)
Lemma C6_surface_extents_witness :
  exists mn0 mx0 mn1 mx1,
    (Faces.is_least mn0 [0; 17; 17]%Q /\ Faces.is_greatest mx0 [0; 17; 17]%Q /\
     Faces.is_least mn1 [0; 0; 16]%Q /\ Faces.is_greatest mx1 [0; 0; 16]%Q) /\
    (Z.land 0 (@TEX_SPECIAL stock_headers) <> 0 \/
     (Faces.rounded_span mn0 mx0 <= 256 /\ Faces.rounded_span mn1 mx1 <= 256) ->
     @Faces.CalcSurfaceExtents stock_headers Qmult Qplus Qdiv
       (Faces.triangle 0 17 0 "wall") 0 3 (Faces.triangle_tex 0 "wall")
     = Ok ((Faces.rounded_min mn0, Faces.rounded_min mn1),
           (Faces.rounded_span mn0 mx0, Faces.rounded_span mn1 mx1))).
Proof.
  destruct (@C6_surface_extents stock_headers Qmult Qplus Qdiv
              (Faces.triangle 0 17 0 "wall")
              0 3 (Faces.triangle_tex 0 "wall") [0; 17; 17]%Q [0; 0; 16]%Q)
    as (mn0 & mx0 & mn1 & mx1 & Hbounds & _ & Hcalc & _).
  - vm_compute. discriminate.
  - lia.
  - reflexivity.
  - reflexivity.
  - repeat constructor; discriminate.
  - repeat constructor; discriminate.
  - repeat constructor.
  - repeat constructor.
  - exists mn0, mx0, mn1, mx1. split; [exact Hbounds | exact Hcalc].
Defined.

(** The s coordinates 15.5, 32.5 and 32.5 of a face that is not special,
    on which float arithmetic is exact, span exactly 17, and the extent
    is 48, not 32. *)
Lemma C6_span17_extent_48 :
  let m := Faces.triangle (31 # 2) (65 # 2) 0 "wall" in
  let tex := Faces.triangle_tex 0 "wall" in
  peek (Faces.texinfo m) 0 = Ok tex /\
  Z.land (Faces.tex_flags tex) (@TEX_SPECIAL stock_headers) = 0 /\
  Faces.projections Qmult Qplus m (fst (Faces.vecs tex)) 0 3 0
  = Ok [31 # 2; 65 # 2; 65 # 2]%Q /\
  ((65 # 2) - (31 # 2) == 17)%Q /\
  @Faces.CalcSurfaceExtents stock_headers Qmult Qplus Qdiv m 0 3 tex
  = Ok ((0, 0), (48, 16)) /\
  (exists s, @Faces.load_face stock_headers Qmult Qplus Qdiv m
               Faces.triangle_face = Ok s /\
             Faces.extents s = (48, 16)).
Proof.
  cbv zeta. split; [reflexivity|]. split; [reflexivity|].
  split; [vm_compute; reflexivity|]. split; [reflexivity|].
  split; [vm_compute; reflexivity|].
  eexists. split; vm_compute; reflexivity.
Qed.

(** [C7_extent_limit] on a sky triangle with the special flag, whose s
    coordinates are 0, 300 and 300, numbers on which float arithmetic
    is exact. *)
Lemma C7_extent_limit_witness :
  exists mn0 mx0 mn1 mx1,
    (Faces.is_least mn0 [0; 300; 300]%Q /\
     Faces.is_greatest mx0 [0; 300; 300]%Q /\
     Faces.is_least mn1 [0; 0; 16]%Q /\ Faces.is_greatest mx1 [0; 0; 16]%Q) /\
    exists s,
      @Faces.load_face stock_headers Qmult Qplus Qdiv
        (Faces.triangle 0 300 1 "sky4") Faces.triangle_face = Ok s /\
      Faces.extents s
      = (Faces.rounded_span mn0 mx0, Faces.rounded_span mn1 mx1) /\
      Faces.texturemins s = (Faces.rounded_min mn0, Faces.rounded_min mn1) /\
      Faces.flags s
      = Z.lor (@SURF_DRAWSKY stock_headers) (@SURF_DRAWTILED stock_headers).
Proof.
  destruct (@C7_extent_limit stock_headers Qmult Qplus Qdiv
              (Faces.triangle 0 300 1 "sky4")
              Faces.triangle_face (Faces.triangle_tex 1 "sky4")
              [0; 300; 300]%Q [0; 0; 16]%Q)
    as (mn0 & mx0 & mn1 & mx1 & Hbounds & _ & Hload).
  - vm_compute. discriminate.
  - vm_compute. reflexivity.
  - reflexivity.
  - reflexivity.
  - reflexivity.
  - repeat constructor; discriminate.
  - repeat constructor; discriminate.
  - repeat constructor.
  - repeat constructor.
  - exists mn0, mx0, mn1, mx1. split; [exact Hbounds|].
    destruct Hload as (s & Hs & _ & Hkeep & Hsky & _).
    + left. vm_compute. discriminate.
    + exists s. split; [exact Hs|].
      destruct (Hkeep eq_refl) as [Hext Hmins].
      split; [exact Hext|]. split; [exact Hmins|].
      exact (Hsky eq_refl).
Defined.

(** A sky face with the special flag keeps its computed extents, and a
    face with a '*' texture but without the special flag is held to the
    limit of 256; the coordinates are numbers on which float arithmetic
    is exact. *)
Lemma C7_limit_follows_flag_not_name :
  (exists s,
     @Faces.load_face stock_headers Qmult Qplus Qdiv
       (Faces.triangle 0 300 1 "sky4") Faces.triangle_face = Ok s /\
     Faces.is_sky (Faces.texture_name (Faces.triangle_tex 1 "sky4")) = true /\
     Faces.extents s = (304, 16) /\ Faces.texturemins s = (0, 0)) /\
  Faces.is_turb (Faces.texture_name (Faces.triangle_tex 0 "*lava")) = true /\
  @Faces.load_face stock_headers Qmult Qplus Qdiv
    (Faces.triangle 0 300 0 "*lava") Faces.triangle_face
  = SysError "Bad surface extents".
Proof.
  split.
  - eexists. split; [vm_compute; reflexivity|].
    split; [reflexivity|]. split; reflexivity.
  - split; [reflexivity|]. vm_compute. reflexivity.
Qed.

(** * Further properties *)

(** ** Model registry: lookups, clearing and loading by name *)

Lemma substring_all (s : string) (n : nat) :
  (String.length s <= n)%nat -> substring 0 n s = s.
Proof.
  revert n. induction s as [|a s IH]; intros n Hn.
  - by destruct n.
  - destruct n as [|n]; [cbn in Hn; lia|]. cbn. f_equal. apply IH.
    cbn in Hn. lia.
Qed.

Lemma length_substring_0 (s : string) (n : nat) :
  String.length (substring 0 n s) = Nat.min n (String.length s).
Proof.
  revert n. induction s as [|a s IH]; intros n.
  - by destruct n.
  - destruct n as [|n]; [done|]. cbn. by rewrite IH.
Qed.

Section RegistryMore.
Import Registry.
Context `{Headers} {payload cache_user_t cache_t : Type}.

Local Abbreviation model := (@model_t payload cache_user_t).
Local Abbreviation reg := (@registry payload cache_user_t cache_t).

Lemma present_or_not (nm : string) (st : reg) :
  registry_ok st -> present nm st \/ ~ present nm st.
Proof.
  intros Hok.
  destruct (search_spec nm (take (Z.to_nat (mod_numknown st)) (mod_known st)) 0)
    as [[_ Hall]|(k & m & _ & Hk & Hm)].
  - right. intros Hp. apply (present_take nm st Hok) in Hp as (i & m & Hi & Hm).
    rewrite List.Forall_forall in Hall. apply (Hall m); [|done].
    apply list_elem_of_In, list_elem_of_lookup. eauto.
  - left. apply (present_take nm st Hok). eauto.
Qed.

Lemma Mod_FindName_Ok_name (nm : string) (st st1 : reg) (i : Z) :
  Mod_FindName nm st = Ok (i, st1) -> nm <> "".
Proof. intros Hfind ->. by cbn in Hfind. Qed.

(** What a successful lookup is: the name was there and nothing changed,
    or it was not and the next slot was claimed for it. *)
Lemma Mod_FindName_Ok_cases (nm : string) (st st1 : reg) (i : Z) :
  registry_ok st -> Mod_FindName nm st = Ok (i, st1) ->
  (present nm st /\ st1 = st /\ 0 <= i < mod_numknown st /\
   exists m, mod_known st !! Z.to_nat i = Some m /\ name m = nm) \/
  (~ present nm st /\ i = mod_numknown st /\ mod_numknown st < MAX_MOD_KNOWN /\
   exists m,
     mod_known st !! Z.to_nat i = Some m /\
     st1 = {| mod_known :=
                <[Z.to_nat i :=
                    {| name := stored_name nm; needload := true;
                       type := type m; cache := cache m; data := data m |}]>
                  (mod_known st);
              mod_numknown := mod_numknown st + 1;
              content_cache := content_cache st |}).
Proof.
  intros Hok Hfind. pose proof Hok as [Hlen Hn].
  pose proof (Mod_FindName_Ok_name _ _ _ _ Hfind) as Hnm.
  destruct (present_or_not nm st Hok) as [Hp|Hp].
  - left. destruct (Mod_FindName_present nm st Hok Hnm Hp)
      as (k & m & Hfind' & Hk & Hm & Hname).
    rewrite Hfind' in Hfind. injection Hfind as <- <-.
    split_and!; [done | done | lia | lia |].
    exists m. by rewrite Nat2Z.id.
  - right. destruct (Mod_FindName_absent nm st Hok Hnm Hp) as [Hfull Hnew].
    destruct (Z.eq_dec (mod_numknown st) MAX_MOD_KNOWN) as [Heq|Hne].
    { destruct (Hfull Heq) as [msg Hmsg]. by rewrite Hmsg in Hfind. }
    destruct Hnew as (m & Hm & Hfind'); [lia|].
    rewrite Hfind' in Hfind. injection Hfind as <- <-.
    split_and!; [done | done | lia |]. by exists m.
Qed.

Lemma stored_name_short (nm : string) :
  Z.of_nat (String.length nm) < MAX_QPATH -> stored_name nm = nm.
Proof. intros Hlen. unfold stored_name. apply substring_all. lia. Qed.

Lemma stored_name_long (nm : string) :
  1 <= MAX_QPATH -> MAX_QPATH <= Z.of_nat (String.length nm) ->
  stored_name nm <> nm.
Proof.
  intros Hq Hlen Heq. apply (f_equal String.length) in Heq.
  unfold stored_name in Heq. rewrite length_substring_0 in Heq. lia.
Qed.

Lemma Mod_FindName_again (nm : string) (st st1 : reg) (i : Z) :
  registry_ok st -> Z.of_nat (String.length nm) < MAX_QPATH ->
  Mod_FindName nm st = Ok (i, st1) ->
  registry_ok st1 /\ present nm st1 /\ Mod_FindName nm st1 = Ok (i, st1).
Proof.
  intros Hok Hshort Hfind. pose proof Hok as [Hlen Hn].
  pose proof (Mod_FindName_Ok_name _ _ _ _ Hfind) as Hnm.
  destruct (Mod_FindName_Ok_cases nm st st1 i Hok Hfind)
    as [(Hp & -> & Hi & m & Hm & Hname)|(Hp & -> & Hroom & m & Hm & ->)].
  - done.
  - set (st1 := {| mod_known := _; mod_numknown := _; content_cache := _ |}).
    assert (Hok1 : registry_ok st1).
    { split; cbn; [by rewrite length_insert | lia]. }
    assert (Hslot : mod_known st1 !! Z.to_nat (mod_numknown st)
                    = Some {| name := nm; needload := true; type := type m;
                              cache := cache m; data := data m |}).
    { cbn. rewrite list_lookup_insert_eq by (by apply lookup_lt_Some in Hm).
      by rewrite stored_name_short. }
    assert (Hp1 : present nm st1).
    { eexists _, _. split_and!; [|exact Hslot|done]. cbn. lia. }
    split_and!; [done | done |].
    destruct (Mod_FindName_present nm st1 Hok1 Hnm Hp1)
      as (k & m' & Hfind' & Hk & Hm' & Hname).
    rewrite Hfind'. do 2 f_equal.
    destruct (decide (k = Z.to_nat (mod_numknown st))) as [->|Hne]; [lia|].
    exfalso. apply Hp. exists k, m'. cbn in Hk, Hm'.
    rewrite list_lookup_insert_ne in Hm' by done.
    split_and!; [lia | done | done].
Qed.

(** X1.  A name of fewer than [MAX_QPATH] characters that [Mod_FindName]
    has looked up once is in the registry afterwards, and looking it up
    again gives the same slot and changes nothing.  The first lookup
    claims at most one slot and leaves the slots that were in use as
    they were. *)
Theorem X1_find_name_again (nm : string) (st st1 : reg) (i : Z) :
  registry_ok st -> Z.of_nat (String.length nm) < MAX_QPATH ->
  Mod_FindName nm st = Ok (i, st1) ->
  registry_ok st1 /\ present nm st1 /\
  Mod_FindName nm st1 = Ok (i, st1) /\
  mod_numknown st <= mod_numknown st1 <= mod_numknown st + 1 /\
  (forall (k : nat) (m : model),
      Z.of_nat k < mod_numknown st -> mod_known st !! k = Some m ->
      mod_known st1 !! k = Some m).
Proof.
  intros Hok Hshort Hfind.
  destruct (Mod_FindName_again nm st st1 i Hok Hshort Hfind)
    as (Hok1 & Hp1 & Hagain).
  do 3 (split; [done|]). split.
  - destruct (Mod_FindName_Ok_cases nm st st1 i Hok Hfind)
      as [(_ & -> & _)|(_ & _ & _ & m & _ & ->)]; cbn; lia.
  - intros k m Hk Hm.
    destruct (Mod_FindName_Ok_cases nm st st1 i Hok Hfind)
      as [(_ & -> & _)|(_ & -> & _ & m0 & _ & ->)]; [done|].
    cbn. rewrite list_lookup_insert_ne by lia. done.
Qed.

(** X2.  A name of [MAX_QPATH] characters or more is stored cut short, so
    the stored name never compares equal to it: the name is never found
    again, and every lookup claims one more slot under the same stored
    name. *)
Theorem X2_long_name_never_found (nm : string) (st : reg) :
  registry_ok st -> 1 <= MAX_QPATH ->
  MAX_QPATH <= Z.of_nat (String.length nm) ->
  ~ present nm st -> mod_numknown st + 2 <= MAX_MOD_KNOWN ->
  exists (st1 st2 : reg) (m1 m2 : model),
    Mod_FindName nm st = Ok (mod_numknown st, st1) /\
    Mod_FindName nm st1 = Ok (mod_numknown st + 1, st2) /\
    mod_numknown st2 = mod_numknown st + 2 /\
    mod_known st2 !! Z.to_nat (mod_numknown st) = Some m1 /\
    mod_known st2 !! Z.to_nat (mod_numknown st + 1) = Some m2 /\
    name m1 = stored_name nm /\ name m2 = stored_name nm /\
    ~ present nm st2.
Proof.
  intros Hok Hq Hlong Hp Hroom. pose proof Hok as [Hlen Hn].
  assert (Hnm : nm <> "") by (intros ->; cbn in Hlong; lia).
  pose proof (stored_name_long nm Hq Hlong) as Hcut.
  (* one lookup of a name that is not there *)
  assert (Hstep : forall s : reg,
    registry_ok s -> ~ present nm s -> mod_numknown s < MAX_MOD_KNOWN ->
    exists (s' : reg) (m : model),
      Mod_FindName nm s = Ok (mod_numknown s, s') /\
      registry_ok s' /\ mod_numknown s' = mod_numknown s + 1 /\
      mod_known s' !! Z.to_nat (mod_numknown s) = Some m /\
      name m = stored_name nm /\
      (forall k : nat, k <> Z.to_nat (mod_numknown s) ->
                       mod_known s' !! k = mod_known s !! k) /\
      ~ present nm s').
  { intros s Hoks Hps Hrooms. pose proof Hoks as [Hlens Hns].
    destruct (Mod_FindName_absent nm s Hoks Hnm Hps) as [_ Hnew].
    destruct (Hnew Hrooms) as (m & Hm & Hfind).
    eexists _, _. split; [exact Hfind|]. cbn.
    split_and!.
    - split; cbn; [by rewrite length_insert | lia].
    - done.
    - apply list_lookup_insert_eq. by apply lookup_lt_Some in Hm.
    - done.
    - intros k Hk. by rewrite list_lookup_insert_ne.
    - intros (k & mk & Hk & Hmk & Hname). cbn in Hk, Hmk.
      destruct (decide (k = Z.to_nat (mod_numknown s))) as [->|Hne].
      + rewrite list_lookup_insert_eq in Hmk by (by apply lookup_lt_Some in Hm).
        injection Hmk as <-. by cbn in Hname.
      + rewrite list_lookup_insert_ne in Hmk by done.
        apply Hps. exists k, mk. split_and!; [lia | done | done]. }
  destruct (Hstep st Hok Hp) as (st1 & m1 & Hf1 & Hok1 & Hn1 & Hm1 & Hnm1 & Hrest1 & Hp1);
    [lia|].
  destruct (Hstep st1 Hok1 Hp1) as (st2 & m2 & Hf2 & Hok2 & Hn2 & Hm2 & Hnm2 & Hrest2 & Hp2);
    [lia|].
  exists st1, st2, m1, m2. rewrite Hn1 in Hf2, Hm2, Hrest2.
  split_and!; [done | done | lia | | done | done | done | done].
  rewrite Hrest2 by lia. done.
Qed.

Lemma search_names (nm : string) (mods mods' : list model) (i : Z) :
  map name mods = map name mods' -> search nm mods i = search nm mods' i.
Proof.
  revert mods' i. induction mods as [|m rest IH]; intros [|m' rest'] i Heq;
    try discriminate Heq; [done|].
  cbn in Heq. injection Heq as Hname Hrest. cbn [search]. rewrite Hname.
  destruct (String.eqb (name m') nm); [done|]. by apply IH.
Qed.

Lemma clear_one_fields (clear : cache_user_t -> cache_user_t) (m : model) :
  name (clear_one clear m) = name m /\
  type (clear_one clear m) = type m /\
  data (clear_one clear m) = data m /\
  needload (clear_one clear m)
  = (if modtype_eqb (type m) mod_alias then needload m else true) /\
  cache (clear_one clear m)
  = (if modtype_eqb (type m) mod_sprite then clear (cache m) else cache m).
Proof. unfold clear_one. destruct m as [nm nl [| |] c d]; cbn; done. Qed.

(** X3.  [Mod_ClearAll] gives no slot back and renames none: the count
    and every name, type and loaded data stay, so a name that was found
    is found at the same slot afterwards.  Every slot in use that is not
    an alias model is marked for reloading; an alias model keeps its
    flag and its cache handle; only a sprite has its cache pointer
    cleared.  Slots not in use are not touched. *)
Theorem X3_clear_all (clear : cache_user_t -> cache_user_t) (st : reg) :
  registry_ok st ->
  registry_ok (Mod_ClearAll clear st) /\
  mod_numknown (Mod_ClearAll clear st) = mod_numknown st /\
  (forall (i : nat) (m : model),
      Z.of_nat i < mod_numknown st -> mod_known st !! i = Some m ->
      exists m',
        mod_known (Mod_ClearAll clear st) !! i = Some m' /\
        name m' = name m /\ type m' = type m /\ data m' = data m /\
        needload m'
        = (if modtype_eqb (type m) mod_alias then needload m else true) /\
        cache m'
        = (if modtype_eqb (type m) mod_sprite then clear (cache m)
           else cache m)) /\
  (forall i : nat,
      mod_numknown st <= Z.of_nat i ->
      mod_known (Mod_ClearAll clear st) !! i = mod_known st !! i) /\
  (forall (nm : string) (i : Z),
      Mod_FindName nm st = Ok (i, st) -> i < mod_numknown st ->
      Mod_FindName nm (Mod_ClearAll clear st)
      = Ok (i, Mod_ClearAll clear st)).
Proof.
  intros Hok. pose proof Hok as [Hlen Hn].
  assert (Htake : take (Z.to_nat (mod_numknown st))
                    (mod_known (Mod_ClearAll clear st))
                  = map (clear_one clear)
                      (take (Z.to_nat (mod_numknown st)) (mod_known st))).
  { cbn. rewrite take_app_length'; [done|].
    rewrite length_map, length_take. lia. }
  split_and!.
  - split; cbn; [|done].
    rewrite length_app, length_map, length_take, length_drop. lia.
  - done.
  - intros i m Hi Hm. cbn [Mod_ClearAll mod_known].
    rewrite lookup_app_l by (rewrite length_map, length_take; lia).
    rewrite list_lookup_fmap, lookup_take_lt, Hm by lia. cbn.
    eexists. split; [done|]. apply clear_one_fields.
  - intros i Hi. cbn [Mod_ClearAll mod_known].
    rewrite lookup_app_r; rewrite length_map, length_take; [|lia].
    rewrite lookup_drop. f_equal. lia.
  - intros nm i Hfind Hi. unfold Mod_FindName in *.
    destruct (String.eqb nm ""); [done|].
    cbn [mod_numknown Mod_ClearAll] in *. fold (Mod_ClearAll clear st).
    rewrite Htake.
    rewrite <- (search_names nm
                 (take (Z.to_nat (mod_numknown st)) (mod_known st))).
    2:{ rewrite map_map. apply map_ext. intros m. symmetry.
        apply clear_one_fields. }
    destruct (search nm (take (Z.to_nat (mod_numknown st)) (mod_known st)) 0
              =? mod_numknown st) eqn:Hs.
    + apply Z.eqb_eq in Hs.
      destruct (mod_numknown st =? MAX_MOD_KNOWN); [done|].
      destruct (peek (mod_known st) _); cbn in Hfind; try done.
      destruct (poke (mod_known st) _ _); cbn in Hfind; try done.
      injection Hfind as Hi' _. lia.
    + cbn in Hfind. injection Hfind as ->. done.
Qed.

End RegistryMore.

Section LoadingProps.
Import Registry Loading.
Context `{Headers} {payload cache_user_t cache_t : Type}.
Context (Cache_Check :
           cache_user_t -> cache_t -> option Z * cache_user_t * cache_t).
Context (cache_data : cache_user_t -> option Z).
Context (COM_LoadStackFile : string -> option (list Z)).
Context (COM_FileBase : string -> string).
Context (IDPOLYHEADER IDSPRITEHEADER : Z).

Local Abbreviation model := (@model_t payload cache_user_t).
Local Abbreviation reg := (@registry payload cache_user_t cache_t).

Context (Mod_LoadAliasModel Mod_LoadSpriteModel :
           Z -> string -> list Z -> reg -> result reg).
Context (Mod_LoadBrushModel : Z -> string -> list Z -> Z -> reg -> result reg).

Local Abbreviation load_model :=
  (Mod_LoadModel Cache_Check COM_LoadStackFile COM_FileBase
     IDPOLYHEADER IDSPRITEHEADER
     Mod_LoadAliasModel Mod_LoadSpriteModel Mod_LoadBrushModel).
Local Abbreviation for_name :=
  (Mod_ForName Cache_Check COM_LoadStackFile COM_FileBase
     IDPOLYHEADER IDSPRITEHEADER
     Mod_LoadAliasModel Mod_LoadSpriteModel Mod_LoadBrushModel).
Local Abbreviation extradata :=
  (Mod_Extradata Cache_Check cache_data COM_LoadStackFile COM_FileBase
     IDPOLYHEADER IDSPRITEHEADER
     Mod_LoadAliasModel Mod_LoadSpriteModel Mod_LoadBrushModel).

(** X4.  [Mod_ForName] on a name whose slots are loaded and are not
    alias models is a lookup and no more: it returns the slot and leaves
    the registry as it is, whatever the file system holds and whatever
    the loaders would do. *)
Theorem X4_for_name_loaded (nm : string) (crash : bool) (st : reg) :
  registry_ok st -> nm <> "" -> present nm st ->
  (forall (i : nat) (m : model),
      Z.of_nat i < mod_numknown st -> mod_known st !! i = Some m ->
      name m = nm -> needload m = false /\ type m <> mod_alias) ->
  exists (i : nat) (m : model),
    for_name nm crash st = Ok (Some (Z.of_nat i), st) /\
    mod_known st !! i = Some m /\ name m = nm.
Proof.
  intros Hok Hnm Hp Hloaded.
  destruct (Mod_FindName_present nm st Hok Hnm Hp)
    as (i & m & Hfind & Hi & Hm & Hname).
  exists i, m. split; [|done].
  destruct (Hloaded i m Hi Hm Hname) as [Hneed Htype].
  unfold Mod_ForName. rewrite Hfind. cbn [mbind result_bind].
  unfold Mod_LoadModel, still_loaded.
  rewrite (peek_lookup _ _ _ Hm). cbn [mbind result_bind]. rewrite Hneed.
  cbn [negb]. by destruct (type m).
Qed.

(** X5.  A name of fewer than [MAX_QPATH] characters that is new to the
    registry and has no file: with [crash] set the call is fatal;
    without it the call returns NULL, but the name has claimed a slot,
    which stays marked for loading, and a second call asks the file
    system again, returns NULL again and changes nothing more. *)
Theorem X5_for_name_missing_file (nm : string) (st : reg) :
  registry_ok st -> nm <> "" -> Z.of_nat (String.length nm) < MAX_QPATH ->
  ~ present nm st -> mod_numknown st < MAX_MOD_KNOWN ->
  COM_LoadStackFile nm = None ->
  is_fatal (for_name nm true st) /\
  exists (st' : reg) (m : model),
    for_name nm false st = Ok (None, st') /\
    mod_numknown st' = mod_numknown st + 1 /\
    mod_known st' !! Z.to_nat (mod_numknown st) = Some m /\
    name m = nm /\ needload m = true /\
    for_name nm false st' = Ok (None, st').
Proof.
  intros Hok Hnm Hshort Hp Hroom Hfile. pose proof Hok as [Hlen Hn].
  destruct (Mod_FindName_absent nm st Hok Hnm Hp) as [_ Hnew].
  destruct (Hnew Hroom) as (m0 & Hm0 & Hfind).
  rewrite stored_name_short in Hfind by done.
  set (m := {| name := nm; needload := true; type := type m0;
               cache := cache m0; data := data m0 |}) in *.
  set (st' := {| mod_known := _; mod_numknown := _; content_cache := _ |}) in *.
  assert (Hslot : mod_known st' !! Z.to_nat (mod_numknown st) = Some m).
  { cbn. apply list_lookup_insert_eq. by apply lookup_lt_Some in Hm0. }
  assert (Hpeek : peek (mod_known st') (mod_numknown st) = Ok m).
  { apply peek_inside; [lia | done]. }
  assert (Hload : forall crash : bool,
    load_model (mod_numknown st) crash st'
    = if crash then SysError "Mod_LoadModel: not found" else Ok (None, st')).
  { intros crash. unfold Mod_LoadModel, still_loaded. rewrite Hpeek.
    cbn [mbind result_bind needload m negb mret result_ret]. rewrite Hpeek.
    cbn [mbind result_bind name m]. rewrite Hfile. done. }
  split.
  - unfold Mod_ForName. rewrite Hfind. cbn [mbind result_bind].
    rewrite Hload. by eexists.
  - exists st', m. split_and!; try done.
    + unfold Mod_ForName. rewrite Hfind. cbn [mbind result_bind].
      by rewrite Hload.
    + destruct (Mod_FindName_again nm st st' (mod_numknown st) Hok Hshort)
        as (_ & _ & Hagain).
      { exact Hfind. }
      unfold Mod_ForName. rewrite Hagain. cbn [mbind result_bind].
      by rewrite Hload.
Qed.

End LoadingProps.

Section ExtradataProps.
Import Registry Loading.
Context `{Headers} {payload cache_user_t cache_t : Type}.
Context (Cache_Check :
           cache_user_t -> cache_t -> option Z * cache_user_t * cache_t).
Context (cache_data : cache_user_t -> option Z).
Context (COM_LoadStackFile : string -> option (list Z)).
Context (COM_FileBase : string -> string).
Context (IDPOLYHEADER IDSPRITEHEADER : Z).

Local Abbreviation model := (@model_t payload cache_user_t).
Local Abbreviation reg := (@registry payload cache_user_t cache_t).

Context (Mod_LoadAliasModel Mod_LoadSpriteModel :
           Z -> string -> list Z -> reg -> result reg).
Context (Mod_LoadBrushModel : Z -> string -> list Z -> Z -> reg -> result reg).

Local Abbreviation extradata :=
  (Mod_Extradata Cache_Check cache_data COM_LoadStackFile COM_FileBase
     IDPOLYHEADER IDSPRITEHEADER
     Mod_LoadAliasModel Mod_LoadSpriteModel Mod_LoadBrushModel).

Lemma poke_of_peek {A} (arr : list A) (i : Z) (a b : A) :
  peek arr i = Ok a -> poke arr i b = Ok (<[Z.to_nat i := b]> arr).
Proof.
  intros Hpeek. apply peek_Ok_inv in Hpeek as [Hi Ha].
  apply poke_inside. apply lookup_lt_Some in Ha. lia.
Qed.

(** X6.  [Mod_Extradata] never hands back NULL: when it returns, the
    pointer is not null.  When the cache check on the slot finds the
    data, that pointer is returned at once: no file is read and no
    loader runs, and of the registry only the cache handle of that slot
    and the cache itself may have changed. *)
Theorem X6_extradata (md : Z) (st : reg) :
  (forall (r : option Z) (st' : reg),
      extradata md st = Ok (r, st') -> exists p, r = Some p) /\
  (forall (m : model) (p : Z) (handle : cache_user_t) (cc : cache_t),
      peek (mod_known st) md = Ok m ->
      Cache_Check (cache m) (content_cache st) = (Some p, handle, cc) ->
      extradata md st
      = Ok (Some p,
            {| mod_known := <[Z.to_nat md := with_cache handle m]> (mod_known st);
               mod_numknown := mod_numknown st;
               content_cache := cc |})).
Proof.
  split.
  - intros r st'. unfold Mod_Extradata.
    destruct (check_slot Cache_Check md st) as [[[p|] st0]|msg|w];
      cbn [mbind result_bind]; [| |done|done].
    + intros [= <- _]. by exists p.
    + destruct (Mod_LoadModel _ _ _ _ _ _ _ _ _ _ _) as [[r1 st1]|msg|w];
        cbn [mbind result_bind]; [|done|done].
      destruct (peek (mod_known st1) md) as [m|msg|w];
        cbn [mbind result_bind]; [|done|done].
      destruct (cache_data (cache m)) as [p|]; [|done].
      intros [= <- _]. by exists p.
  - intros m p handle cc Hm Hcheck. unfold Mod_Extradata, check_slot.
    rewrite Hm. cbn [mbind result_bind]. rewrite Hcheck.
    rewrite (poke_of_peek _ _ m _ Hm). done.
Qed.

End ExtradataProps.

(** [X1_find_name_again] on the first lookup of a name in the blank
    registry. *)
Lemma X1_find_name_again_witness :
  exists i st1,
    @Registry.Mod_FindName stock_headers _ _ _ "progs/player.mdl"
      Registry.blank_registry = Ok (i, st1) /\
    @Registry.Mod_FindName stock_headers _ _ _ "progs/player.mdl" st1
    = Ok (i, st1).
Proof.
  assert (Hok : Registry.registry_ok Registry.blank_registry).
  { split; [vm_compute; reflexivity | cbn; unfold Registry.MAX_MOD_KNOWN; lia]. }
  destruct (@Registry.Mod_FindName stock_headers _ _ _ "progs/player.mdl"
              Registry.blank_registry) as [[i st1]|msg|w] eqn:Hfind.
  - exists i, st1. split; [reflexivity|].
    destruct (@X1_find_name_again stock_headers _ _ _ "progs/player.mdl"
                Registry.blank_registry st1 i Hok) as (_ & _ & Hagain & _);
      [cbn; lia | exact Hfind | exact Hagain].
  - vm_compute in Hfind. discriminate Hfind.
  - vm_compute in Hfind. discriminate Hfind.
Defined.

(** [X2_long_name_never_found] on a name of seventy characters in the
    blank registry: two lookups claim the slots 0 and 1. *)
Lemma X2_long_name_never_found_witness :
  exists st1 st2,
    @Registry.Mod_FindName stock_headers _ _ _ Loading.long_name
      Registry.blank_registry = Ok (0, st1) /\
    @Registry.Mod_FindName stock_headers _ _ _ Loading.long_name st1
    = Ok (1, st2) /\
    Registry.mod_numknown st2 = 2.
Proof.
  assert (Hok : Registry.registry_ok Registry.blank_registry).
  { split; [vm_compute; reflexivity | cbn; unfold Registry.MAX_MOD_KNOWN; lia]. }
  destruct (@X2_long_name_never_found stock_headers _ _ _ Loading.long_name
              Registry.blank_registry Hok)
    as (st1 & st2 & m1 & m2 & Hf1 & Hf2 & Hn & _).
  - cbn. lia.
  - cbn. lia.
  - intros (i & m & Hi & _). cbn in Hi. lia.
  - cbn. unfold Registry.MAX_MOD_KNOWN. lia.
  - exists st1, st2. split; [exact Hf1|]. split; [exact Hf2 | exact Hn].
Defined.

(** [X3_clear_all] on a registry that holds one loaded brush model: the
    model is marked for reloading and keeps its slot. *)
Lemma X3_clear_all_witness :
  Registry.mod_numknown
    (Registry.Mod_ClearAll (fun _ => None) Loading.loaded_registry) = 1 /\
  exists m',
    Registry.mod_known
      (Registry.Mod_ClearAll (fun _ => None) Loading.loaded_registry) !! 0%nat
    = Some m' /\
    Registry.name m' = "maps/start.bsp" /\ Registry.needload m' = true.
Proof.
  assert (Hok : Registry.registry_ok Loading.loaded_registry).
  { split; [vm_compute; reflexivity | cbn; unfold Registry.MAX_MOD_KNOWN; lia]. }
  destruct (@X3_clear_all stock_headers _ _ _ (fun _ => None)
              Loading.loaded_registry Hok)
    as (_ & Hn & Hslots & _).
  split; [exact Hn|].
  destruct (Hslots 0%nat Loading.world_model) as (m' & Hm' & Hname & _ & _ & Hneed & _).
  - cbn. lia.
  - reflexivity.
  - exists m'. split; [exact Hm'|]. split; [exact Hname | exact Hneed].
Defined.

(** [X4_for_name_loaded] on the loaded brush model, with a file system
    that holds no file at all. *)
Lemma X4_for_name_loaded_witness :
  exists (i : nat) m,
    @Loading.Mod_ForName stock_headers _ _ _ Registry.probe_only
      Loading.no_files (fun nm => nm) 1330660425 1347634249
      Loading.idle_loader Loading.idle_loader Loading.idle_brush_loader
      "maps/start.bsp" true Loading.loaded_registry
    = Ok (Some (Z.of_nat i), Loading.loaded_registry) /\
    Registry.mod_known Loading.loaded_registry !! i = Some m /\
    Registry.name m = "maps/start.bsp".
Proof.
  apply (@X4_for_name_loaded stock_headers _ _ _ Registry.probe_only
           Loading.no_files (fun nm => nm) 1330660425 1347634249
           Loading.idle_loader Loading.idle_loader Loading.idle_brush_loader
           "maps/start.bsp" true Loading.loaded_registry).
  - split; [vm_compute; reflexivity | cbn; unfold Registry.MAX_MOD_KNOWN; lia].
  - discriminate.
  - exists 0%nat, Loading.world_model. cbn. split_and!; [lia | done | done].
  - intros i m Hi Hm _. cbn in Hi. assert (i = 0%nat) as -> by lia.
    cbn in Hm. injection Hm as <-. split; [reflexivity | discriminate].
Defined.

(** [X5_for_name_missing_file] on the blank registry and a file system
    without files. *)
Lemma X5_for_name_missing_file_witness :
  exists st' m,
    @Loading.Mod_ForName stock_headers _ _ _ Registry.probe_only
      Loading.no_files (fun nm => nm) 1330660425 1347634249
      Loading.idle_loader Loading.idle_loader Loading.idle_brush_loader
      "progs/player.mdl" false Registry.blank_registry
    = Ok (None, st') /\
    Registry.mod_known st' !! 0%nat = Some m /\
    Registry.name m = "progs/player.mdl" /\ Registry.needload m = true.
Proof.
  destruct (@X5_for_name_missing_file stock_headers _ _ _ Registry.probe_only
              Loading.no_files (fun nm => nm) 1330660425 1347634249
              Loading.idle_loader Loading.idle_loader Loading.idle_brush_loader
              "progs/player.mdl" Registry.blank_registry)
    as (_ & st' & m & Hcall & _ & Hm & Hname & Hneed & _).
  - split; [vm_compute; reflexivity | cbn; unfold Registry.MAX_MOD_KNOWN; lia].
  - discriminate.
  - cbn. lia.
  - intros (i & m & Hi & _). cbn in Hi. lia.
  - cbn. unfold Registry.MAX_MOD_KNOWN. lia.
  - reflexivity.
  - exists st', m. split; [exact Hcall|]. split; [exact Hm|].
    split; [exact Hname | exact Hneed].
Defined.

(** [X6_extradata] on an alias model that is resident in the cache. *)
Lemma X6_extradata_witness :
  exists st',
    @Loading.Mod_Extradata _ _ _ Registry.probe_only (fun h => h)
      Loading.no_files (fun nm => nm) 1330660425 1347634249
      Loading.idle_loader Loading.idle_loader Loading.idle_brush_loader
      0 Loading.cached_registry
    = Ok (Some 4096, st').
Proof.
  eexists.
  apply (X6_extradata Registry.probe_only (fun h => h)
           Loading.no_files (fun nm => nm) 1330660425 1347634249
           Loading.idle_loader Loading.idle_loader Loading.idle_brush_loader
           0 Loading.cached_registry).
  - reflexivity.
  - reflexivity.
Defined.

(** ** Visibility rows *)

Section PvsProps.
Import Vis Pvs.

Lemma visible_all_ones (n : nat) (tail : list Z) (i : Z) :
  0 <= i < 8 * Z.of_nat n ->
  visible (replicate n 255 ++ tail) i = true.
Proof.
  intros Hi. unfold visible.
  rewrite Z.shiftr_div_pow2 by lia. change (2 ^ 3) with 8.
  assert (Hq : 0 <= i / 8 < Z.of_nat n).
  { split; [apply Z.div_pos; lia | apply Z.div_lt_upper_bound; lia]. }
  rewrite nth_lookup, lookup_app_l by (rewrite length_replicate; lia).
  rewrite lookup_replicate_2 by lia. cbn [default].
  change 7 with (Z.ones 3). rewrite Z.land_ones by lia. change (2 ^ 3) with 8.
  pose proof (Z.mod_pos_bound i 8 ltac:(lia)) as Hm.
  assert (Hcases : i mod 8 = 0 \/ i mod 8 = 1 \/ i mod 8 = 2 \/ i mod 8 = 3 \/
                   i mod 8 = 4 \/ i mod 8 = 5 \/ i mod 8 = 6 \/ i mod 8 = 7)
    by lia.
  destruct Hcases as [-> | [-> | [-> | [-> | [-> | [-> | [-> | ->]]]]]]];
    reflexivity.
Qed.

(** X7.  Once [Mod_Init] has run, the row that [Mod_LeafPVS] returns for
    leaf 0, and for any leaf that has no compressed visibility data,
    shows every leaf of the model as visible: bit [i] of the row is set
    for every [i] below the leaf count. *)
Theorem X7_leaf_pvs_all_visible (leaf : Z) (model : model_t)
    (mod_novis decompressed : list Z) :
  0 <= numleafs model <= INT_MAX - 7 ->
  numleafs model <= 8 * Z.of_nat (length mod_novis) ->
  numleafs model <= 8 * Z.of_nat (length decompressed) ->
  leaf = 0 \/ (0 < leaf /\ compressed_vis model !! Z.to_nat leaf = Some None) ->
  exists row,
    Mod_LeafPVS leaf model (Mod_Init mod_novis) decompressed = Ok row /\
    forall i, 0 <= i < numleafs model -> visible row i = true.
Proof.
  intros Hn Hnovis Hbuf Hleaf. unfold Mod_LeafPVS.
  destruct Hleaf as [->|[Hpos Hvis]].
  - cbn [Z.eqb]. eexists. split; [done|]. intros i Hi. unfold Mod_Init.
    rewrite <- (app_nil_r (replicate _ _)).
    apply (visible_all_ones _ []). lia.
  - destruct (Z.eqb_spec leaf 0) as [?|_]; [lia|].
    rewrite (peek_inside _ _ None) by (lia || done).
    cbn [mbind result_bind fmap option_fmap option_map].
    unfold Mod_DecompressVis.
    destruct (vis_row_ceil (numleafs model) Hn) as [Hrow Hceil].
    destruct (Z.ltb_spec (vis_row (numleafs model)) 0) as [?|_]; [lia|].
    assert (Hfit : (Z.to_nat (vis_row (numleafs model))
                    <= length decompressed)%nat) by lia.
    pose proof (fill_visible_spec (Z.to_nat (vis_row (numleafs model)))
                  [] decompressed Hfit) as Hfill.
    cbn [length app] in Hfill. change (Z.of_nat 0) with 0 in Hfill.
    rewrite Hfill. eexists. split; [done|]. intros i Hi.
    apply visible_all_ones. lia.
Qed.

(** The plainest encoding of a row: a byte that is not zero stands for
    itself and a zero byte is a run of one. *)
Lemma expand_loop_plain (row : list Z) :
  forall w tail : list Z,
    row <> [] -> Forall is_byte row ->
    (length row <= length tail)%nat ->
    expand_loop (flat_map (fun b => if b =? 0 then [0; 1] else [b]) row)
      (Z.of_nat (length w + length row)) (Z.of_nat (length w)) (w ++ tail)
    = Ok (w ++ row ++ drop (length row) tail,
          Z.of_nat (length w + length row)).
Proof.
  induction row as [|b row IH]; intros w tail Hne Hbytes Hfit; [done|].
  inversion Hbytes as [|? ? Hb Hrest]; subst.
  destruct tail as [|t tail]; [cbn in Hfit; lia|].
  cbn [flat_map]. cbn [length] in *.
  assert (Hnext : row <> [] ->
    expand_loop (flat_map (fun b => if b =? 0 then [0; 1] else [b]) row)
      (Z.of_nat (length w + S (length row)))
      (Z.of_nat (length w) + 1) ((w ++ [b]) ++ tail)
    = Ok (w ++ (b :: row) ++ drop (length row) tail,
          Z.of_nat (length w + S (length row)))).
  { intros Hrow.
    replace (Z.of_nat (length w) + 1) with (Z.of_nat (length (w ++ [b])))
      by (rewrite length_app; cbn; lia).
    replace (length w + S (length row))%nat
      with (length (w ++ [b]) + length row)%nat
      by (rewrite length_app; cbn; lia).
    rewrite IH by (done || lia). by rewrite <- !app_assoc. }
  assert (Hlast : row = [] ->
    (Z.of_nat (length w) + 1 <? Z.of_nat (length w + S (length row))) = false).
  { intros ->. cbn. apply Z.ltb_ge. lia. }
  assert (Hmore : row <> [] ->
    (Z.of_nat (length w) + 1 <? Z.of_nat (length w + S (length row))) = true).
  { intros Hrow. apply Z.ltb_lt. destruct row; [done|]. cbn. lia. }
  destruct (Z.eqb_spec b 0) as [->|Hb0].
  - cbn [app expand_loop Z.eqb negb].
    change (Z.to_nat 1) with 1%nat. cbn [write_zeros]. rewrite poke_end.
    destruct row as [|b' row'].
    + rewrite (Hlast eq_refl). cbn. rewrite drop_0, <- app_assoc.
      do 3 f_equal. lia.
    + rewrite Hmore by done. by rewrite Hnext.
  - cbn [app expand_loop].
    destruct (Z.eqb_spec b 0) as [?|_]; [done|]. cbn [negb].
    rewrite poke_end.
    destruct row as [|b' row'].
    + rewrite (Hlast eq_refl). cbn. rewrite drop_0, <- app_assoc.
      do 3 f_equal. lia.
    + rewrite Hmore by done. by rewrite Hnext.
Qed.

(** X8.  Every row of the right length is the decoding of some input:
    for [ceil(numleafs / 8)] bytes there is a byte string that
    [Mod_DecompressVis] expands to exactly these bytes, written over the
    head of the buffer, the rest of the buffer being left as it was. *)
Theorem X8_every_row_is_decoded (row : list Z) (numleafs : Z)
    (decompressed : list Z) :
  0 < numleafs <= INT_MAX - 7 ->
  Forall is_byte row ->
  Z.of_nat (length row) = vis_row numleafs ->
  (length row <= length decompressed)%nat ->
  exists inp,
    Forall is_byte inp /\
    Mod_DecompressVis (Some inp) numleafs decompressed
    = Ok (row ++ drop (length row) decompressed).
Proof.
  intros Hn Hbytes Hlen Hfit.
  destruct (vis_row_ceil numleafs ltac:(lia)) as [_ Hceil].
  exists (flat_map (fun b => if b =? 0 then [0; 1] else [b]) row). split.
  - clear -Hbytes. induction Hbytes as [|b row Hb _ IH]; [constructor|].
    cbn [flat_map]. destruct (Z.eqb_spec b 0) as [->|_].
    + cbn. repeat constructor; (done || unfold is_byte; lia).
    + cbn. by constructor.
  - unfold Mod_DecompressVis.
    pose proof (expand_loop_plain row [] decompressed) as Hloop.
    cbn [length app] in Hloop. change (Z.of_nat 0) with 0 in Hloop.
    rewrite Nat.add_0_l, Hlen in Hloop. rewrite Hloop; [done | | done | done].
    intros ->. cbn in Hlen. lia.
Qed.

Lemma write_zeros_overflow (c : nat) :
  forall w tail : list Z,
    (length tail < c)%nat ->
    exists what,
      write_zeros c (Z.of_nat (length w)) (w ++ tail) = Undefined what.
Proof.
  induction c as [|c IH]; intros w tail Hc; [lia|].
  cbn [write_zeros]. destruct tail as [|t tail].
  - rewrite app_nil_r. destruct (poke_full w 0) as [what ->]. eauto.
  - rewrite poke_end.
    replace (Z.of_nat (length w) + 1) with (Z.of_nat (length (w ++ [0])))
      by (rewrite length_app; cbn; lia).
    apply IH. cbn in Hc. lia.
Qed.

Lemma expand_loop_literals (lits : list Z) :
  forall (rest w tail : list Z) (row : Z),
    Forall (fun b => b <> 0) lits ->
    Z.of_nat (length w + length lits) < row ->
    (length lits <= length tail)%nat ->
    expand_loop (lits ++ rest) row (Z.of_nat (length w)) (w ++ tail)
    = expand_loop rest row (Z.of_nat (length w + length lits))
        ((w ++ lits) ++ drop (length lits) tail).
Proof.
  induction lits as [|b lits IH]; intros rest w tail row Hnz Hrow Hfit.
  - cbn. by rewrite Nat.add_0_r, app_nil_r, drop_0.
  - inversion Hnz as [|? ? Hb Hrest]; subst.
    destruct tail as [|t tail]; [cbn in Hfit; lia|].
    cbn [app expand_loop]. destruct (Z.eqb_spec b 0) as [?|_]; [done|].
    cbn [negb]. rewrite poke_end. cbn [length] in *.
    destruct (Z.ltb_spec (Z.of_nat (length w) + 1) row) as [_|?]; [|lia].
    replace (Z.of_nat (length w) + 1) with (Z.of_nat (length (w ++ [b])))
      by (rewrite length_app; cbn; lia).
    rewrite IH; [| done | rewrite length_app; cbn; lia | lia].
    rewrite length_app. cbn [length drop].
    rewrite <- !app_assoc. cbn. do 2 f_equal. lia.
Qed.

(** X9.  The decoder tests the row length only between codes, and the
    end of its buffer never: a run of zeros is written in full.  When
    the bytes written before a run and the count of the run together
    pass the end of the buffer, the run is written past that end. *)
Theorem X9_run_written_past_buffer (lits rest : list Z) (c numleafs : Z)
    (decompressed : list Z) :
  Forall (fun b => b <> 0) lits ->
  Z.of_nat (length lits) < vis_row numleafs ->
  Z.of_nat (length lits) <= Z.of_nat (length decompressed) < Z.of_nat (length lits) + c ->
  exists what,
    Mod_DecompressVis (Some (lits ++ 0 :: c :: rest)) numleafs decompressed
    = Undefined what.
Proof.
  intros Hnz Hrow Hbuf. unfold Mod_DecompressVis.
  pose proof (expand_loop_literals lits (0 :: c :: rest) [] decompressed
                (vis_row numleafs) Hnz) as Hlits.
  cbn [length app] in Hlits. change (Z.of_nat 0) with 0 in Hlits.
  rewrite Nat.add_0_l in Hlits. rewrite Hlits by lia.
  cbn [expand_loop Z.eqb negb].
  destruct (write_zeros_overflow (Z.to_nat c) lits
              (drop (length lits) decompressed)) as [what Hwhat].
  { rewrite length_drop. lia. }
  rewrite Hwhat. eauto.
Qed.

End PvsProps.

(** [X7_leaf_pvs_all_visible] on leaf 5 of a model of twenty leafs
    without visibility data. *)
Lemma X7_leaf_pvs_all_visible_witness :
  exists row,
    Pvs.Mod_LeafPVS 5 Pvs.unvised (Pvs.Mod_Init (replicate 8 0))
      (replicate 8 0) = Ok row /\
    forall i, 0 <= i < 20 -> Pvs.visible row i = true.
Proof.
  apply (X7_leaf_pvs_all_visible 5 Pvs.unvised (replicate 8 0) (replicate 8 0)).
  - cbn. unfold INT_MAX. lia.
  - cbn. lia.
  - cbn. lia.
  - right. split; [lia | reflexivity].
Defined.

(** [X8_every_row_is_decoded] on a row of three bytes for twenty
    leafs. *)
Lemma X8_every_row_is_decoded_witness :
  exists inp,
    Forall is_byte inp /\
    Vis.Mod_DecompressVis (Some inp) 20 (replicate 8 7)
    = Ok ([129; 0; 3] ++ drop 3 (replicate 8 7)).
Proof.
  apply (X8_every_row_is_decoded [129; 0; 3] 20 (replicate 8 7)).
  - unfold INT_MAX. lia.
  - repeat constructor; unfold is_byte; lia.
  - reflexivity.
  - cbn. lia.
Defined.

(** [X9_run_written_past_buffer] on a buffer of four bytes: two bytes
    are written, then a run of three zeros. *)
Lemma X9_run_written_past_buffer_witness :
  exists what,
    Vis.Mod_DecompressVis (Some ([9; 9] ++ [0; 3; 255])) 32 (replicate 4 0)
    = Undefined what.
Proof.
  apply (X9_run_written_past_buffer [9; 9] [255] 3 32 (replicate 4 0)).
  - repeat constructor; discriminate.
  - vm_compute. reflexivity.
  - cbn. lia.
Defined.

(** ** Brush model lumps *)

Lemma peek_in_range {A} (arr : list A) (i : Z) :
  0 <= i < Z.of_nat (length arr) ->
  exists a, peek arr i = Ok a /\ arr !! Z.to_nat i = Some a.
Proof.
  intros Hi. destruct (lookup_lt_is_Some_2 arr (Z.to_nat i)) as [a Ha]; [lia|].
  exists a. split; [|done]. apply peek_inside; [lia | done].
Qed.

Section LumpDataProps.
Import Lumps LumpData.
Context `{Headers}.

Lemma header_accepted (header : dheader_t) (size : Z) :
  32 <= ULONG_BITS ->
  Forall (fun l => is_int (fileofs l) /\ is_int (filelen l)) (lumps header) ->
  Mod_LoadBrushModel_header header size = Ok () ->
  version header = BSPVERSION /\
  Forall (fun l => 0 <= fileofs l /\ 0 <= filelen l /\
                   fileofs l + filelen l <= size /\
                   fileofs l + filelen l <= INT_MAX) (lumps header) /\
  (forall l1 l2, In l1 (lumps header) -> In l2 (lumps header) ->
                 ~ fileofs l1 < fileofs l2 < lump_end l1).
Proof.
  intros Hbits Hint. unfold Mod_LoadBrushModel_header.
  destruct (Z.eqb_spec (version header) BSPVERSION) as [Hv|?]; [|done].
  cbn [negb]. intros Hcheck.
  apply (check_lumps_characterised _ _ Hbits Hint) in Hcheck as [Hall Hno].
  done.
Qed.

(** X10.  A header that [Mod_LoadBrushModel] lets through has the
    expected version, every lump of its table lies inside the file (the
    offset and the length are not negative and the end is within the
    size), and two lumps that start at different offsets have no byte
    in common. *)
Theorem X10_accepted_header (header : dheader_t) (size : Z) :
  32 <= ULONG_BITS ->
  Forall (fun l => is_int (fileofs l) /\ is_int (filelen l)) (lumps header) ->
  Mod_LoadBrushModel_header header size = Ok () ->
  version header = BSPVERSION /\
  Forall (fun l => 0 <= filelen l /\ in_buffer l size) (lumps header) /\
  (forall l1 l2, In l1 (lumps header) -> In l2 (lumps header) ->
                 fileofs l1 <> fileofs l2 -> ~ share_a_byte l1 l2).
Proof.
  intros Hbits Hint Hpass.
  destruct (header_accepted header size Hbits Hint Hpass) as (Hv & Hall & Hno).
  split; [done|]. split.
  - eapply List.Forall_impl; [|exact Hall]. cbn. intros l (? & ? & ? & ?).
    unfold in_buffer. lia.
  - rewrite List.Forall_forall in Hall.
    assert (Hend : forall l, In l (lumps header) ->
                             lump_end l = fileofs l + filelen l).
    { intros l Hl. destruct (Hall l Hl) as (? & ? & ? & ?).
      unfold lump_end, int_add. apply wrap_small.
      unfold is_int, INT_MIN, INT_MAX in *. lia. }
    intros l1 l2 Hl1 Hl2 Hne (x & Hx1 & Hx2).
    pose proof (Hno l1 l2 Hl1 Hl2) as H12.
    pose proof (Hno l2 l1 Hl2 Hl1) as H21.
    rewrite (Hend l1 Hl1) in H12. rewrite (Hend l2 Hl2) in H21. lia.
Qed.

Lemma copy_bytes_inside (n : nat) :
  forall (ofs : Z) (mod_base : list Z),
    0 <= ofs -> ofs + Z.of_nat n <= Z.of_nat (length mod_base) ->
    copy_bytes n ofs mod_base = Ok (take n (drop (Z.to_nat ofs) mod_base)).
Proof.
  induction n as [|n IH]; intros ofs mod_base Hofs Hend; [done|].
  cbn [copy_bytes].
  destruct (peek_in_range mod_base ofs ltac:(lia)) as (b & -> & Hb).
  cbn [mbind result_bind]. rewrite IH by lia. cbn [mbind result_bind mret result_ret].
  f_equal. rewrite (drop_S _ b _ Hb). cbn [take]. do 3 f_equal. lia.
Qed.

(** X11.  After the header has passed, [Mod_LoadLighting],
    [Mod_LoadVisibility] and [Mod_LoadEntities] read inside the file
    only: for an empty lump they yield NULL, and otherwise a copy of
    exactly the [filelen] bytes of the file from [fileofs] on. *)
Theorem X11_raw_lumps_inside_file (header : dheader_t) (mod_base : list Z)
    (l : lump_t) :
  32 <= ULONG_BITS ->
  Forall (fun l => is_int (fileofs l) /\ is_int (filelen l)) (lumps header) ->
  Mod_LoadBrushModel_header header (Z.of_nat (length mod_base)) = Ok () ->
  In l (lumps header) ->
  let bytes := take (Z.to_nat (filelen l)) (drop (Z.to_nat (fileofs l)) mod_base) in
  let data := if filelen l =? 0 then None else Some bytes in
  Z.of_nat (length bytes) = filelen l /\
  Mod_LoadLighting mod_base l = Ok data /\
  Mod_LoadVisibility mod_base l = Ok data /\
  Mod_LoadEntities mod_base l = Ok data.
Proof.
  intros Hbits Hint Hpass Hl bytes data.
  destruct (header_accepted _ _ Hbits Hint Hpass) as (_ & Hall & _).
  rewrite List.Forall_forall in Hall.
  destruct (Hall l Hl) as (Hofs & Hlen & Hend & Hmax).
  split.
  { unfold bytes. rewrite length_take, length_drop. lia. }
  assert (Hcopy : copy_lump mod_base l = Ok data).
  { unfold copy_lump, data. destruct (Z.eqb_spec (filelen l) 0); [done|].
    rewrite ulong_of_int_nonneg by lia.
    rewrite copy_bytes_inside by lia. done. }
  done.
Qed.

Lemma lump_count_value (l : lump_t) (size : Z) :
  32 <= ULONG_BITS -> 0 <= filelen l <= INT_MAX -> 0 < size ->
  lump_count l size
  = if filelen l mod size =? 0 then Ok (filelen l / size)
    else SysError "funny lump size".
Proof.
  intros Hbits Hlen Hsize. unfold lump_count.
  rewrite ulong_of_int_nonneg by lia.
  destruct (filelen l mod size =? 0); [|done]. cbn [negb]. f_equal.
  apply wrap_small. unfold is_int, INT_MIN, INT_MAX in *.
  pose proof (Z.div_pos (filelen l) size ltac:(lia) ltac:(lia)).
  pose proof (Z.div_le_upper_bound (filelen l) size 2147483647 ltac:(lia)
                ltac:(nia)). lia.
Qed.

Lemma read_long_inside (buf : list Z) (ofs : Z) :
  0 <= ofs -> ofs + 4 <= Z.of_nat (length buf) ->
  exists b0 b1 b2 b3,
    buf !! Z.to_nat ofs = Some b0 /\ buf !! Z.to_nat (ofs + 1) = Some b1 /\
    buf !! Z.to_nat (ofs + 2) = Some b2 /\ buf !! Z.to_nat (ofs + 3) = Some b3 /\
    Skins.read_long buf ofs = Ok (long_of_bytes b0 b1 b2 b3).
Proof.
  intros Hofs Hend. unfold Skins.read_long.
  destruct (peek_in_range buf ofs ltac:(lia)) as (b0 & -> & Hb0).
  destruct (peek_in_range buf (ofs + 1) ltac:(lia)) as (b1 & -> & Hb1).
  destruct (peek_in_range buf (ofs + 2) ltac:(lia)) as (b2 & -> & Hb2).
  destruct (peek_in_range buf (ofs + 3) ltac:(lia)) as (b3 & -> & Hb3).
  exists b0, b1, b2, b3. done.
Qed.

Lemma surfedge_loop_inside (n : nat) :
  forall (i : Z) (mod_base : list Z) (ofs : Z),
    0 <= i -> 0 <= ofs ->
    ofs + 4 * (i + Z.of_nat n) <= Z.of_nat (length mod_base) ->
    exists out,
      surfedge_loop n i mod_base ofs = Ok out /\
      length out = n /\
      forall k : nat,
        (k < n)%nat ->
        exists b0 b1 b2 b3,
          let at_ := ofs + 4 * (i + Z.of_nat k) in
          mod_base !! Z.to_nat at_ = Some b0 /\
          mod_base !! Z.to_nat (at_ + 1) = Some b1 /\
          mod_base !! Z.to_nat (at_ + 2) = Some b2 /\
          mod_base !! Z.to_nat (at_ + 3) = Some b3 /\
          out !! k = Some (long_of_bytes b0 b1 b2 b3).
Proof.
  induction n as [|n IH]; intros i mod_base ofs Hi Hofs Hend.
  - exists []. split_and!; [done | done | lia].
  - cbn [surfedge_loop].
    destruct (read_long_inside mod_base (ofs + 4 * i) ltac:(lia) ltac:(lia))
      as (b0 & b1 & b2 & b3 & Hb0 & Hb1 & Hb2 & Hb3 & ->).
    cbn [mbind result_bind].
    destruct (IH (i + 1) mod_base ofs ltac:(lia) Hofs ltac:(lia))
      as (out & -> & Hlen & Hout).
    cbn [mbind result_bind mret result_ret]. eexists. split; [done|].
    split; [cbn; lia|]. intros [|k] Hk.
    + exists b0, b1, b2, b3. cbn zeta. rewrite Z.add_0_r. done.
    + destruct (Hout k ltac:(lia)) as (c0 & c1 & c2 & c3 & Hc).
      exists c0, c1, c2, c3. cbn zeta in *.
      replace (i + Z.of_nat (S k)) with (i + 1 + Z.of_nat k) by lia. done.
Qed.

(** X12.  After the header has passed, [Mod_LoadSurfedges] is fatal for
    a lump whose length is not a multiple of four; for any other lump it
    reads inside the file only and yields [filelen / 4] entries, entry
    [k] being the signed little-endian reading of the four bytes at
    [fileofs + 4 * k]. *)
Theorem X12_surfedges (header : dheader_t) (mod_base : list Z) (l : lump_t) :
  32 <= ULONG_BITS ->
  Forall (fun l => is_int (fileofs l) /\ is_int (filelen l)) (lumps header) ->
  Mod_LoadBrushModel_header header (Z.of_nat (length mod_base)) = Ok () ->
  In l (lumps header) ->
  (filelen l mod 4 <> 0 -> is_fatal (Mod_LoadSurfedges mod_base l)) /\
  (filelen l mod 4 = 0 ->
   exists out,
     Mod_LoadSurfedges mod_base l = Ok out /\
     Z.of_nat (length out) = filelen l / 4 /\
     forall k : nat,
       (k < length out)%nat ->
       exists b0 b1 b2 b3,
         let at_ := fileofs l + 4 * Z.of_nat k in
         mod_base !! Z.to_nat at_ = Some b0 /\
         mod_base !! Z.to_nat (at_ + 1) = Some b1 /\
         mod_base !! Z.to_nat (at_ + 2) = Some b2 /\
         mod_base !! Z.to_nat (at_ + 3) = Some b3 /\
         out !! k = Some (long_of_bytes b0 b1 b2 b3)).
Proof.
  intros Hbits Hint Hpass Hl.
  destruct (header_accepted _ _ Hbits Hint Hpass) as (_ & Hall & _).
  rewrite List.Forall_forall in Hall.
  destruct (Hall l Hl) as (Hofs & Hlen & Hend & Hmax).
  unfold Mod_LoadSurfedges. rewrite lump_count_value by lia.
  split.
  - intros Hmod. destruct (Z.eqb_spec (filelen l mod 4) 0); [done|].
    by eexists.
  - intros Hmod. rewrite Hmod. cbn [Z.eqb mbind result_bind].
    pose proof (Z.div_mod (filelen l) 4 ltac:(lia)) as Hdiv.
    pose proof (Z.div_pos (filelen l) 4 ltac:(lia) ltac:(lia)) as Hq.
    destruct (surfedge_loop_inside (Z.to_nat (filelen l / 4)) 0 mod_base
                (fileofs l) ltac:(lia) Hofs ltac:(lia))
      as (out & Hout & Hlength & Hentries).
    exists out. split; [done|]. split; [lia|].
    intros k Hk. rewrite Hlength in Hk.
    destruct (Hentries k Hk) as (b0 & b1 & b2 & b3 & Hb).
    exists b0, b1, b2, b3. cbn zeta in *. by rewrite Z.add_0_l in Hb.
Qed.

Lemma read_ushort_inside (buf : list Z) (ofs : Z) :
  0 <= ofs -> ofs + 2 <= Z.of_nat (length buf) ->
  exists b0 b1,
    buf !! Z.to_nat ofs = Some b0 /\ buf !! Z.to_nat (ofs + 1) = Some b1 /\
    read_ushort buf ofs = Ok ((b0 + 256 * b1) mod 65536).
Proof.
  intros Hofs Hend. unfold read_ushort.
  destruct (peek_in_range buf ofs ltac:(lia)) as (b0 & -> & Hb0).
  destruct (peek_in_range buf (ofs + 1) ltac:(lia)) as (b1 & -> & Hb1).
  exists b0, b1. done.
Qed.

Lemma marksurface_loop_inside (n : nat) :
  forall (i : Z) (mod_base : list Z) (ofs numsurfaces : Z),
    0 <= i -> 0 <= ofs ->
    ofs + 2 * (i + Z.of_nat n) <= Z.of_nat (length mod_base) ->
    (exists out,
        marksurface_loop n i mod_base ofs numsurfaces = Ok out /\
        length out = n /\
        forall k : nat,
          (k < n)%nat ->
          exists b0 b1,
            let at_ := ofs + 2 * (i + Z.of_nat k) in
            mod_base !! Z.to_nat at_ = Some b0 /\
            mod_base !! Z.to_nat (at_ + 1) = Some b1 /\
            out !! k = Some ((b0 + 256 * b1) mod 65536) /\
            0 <= (b0 + 256 * b1) mod 65536 < numsurfaces) \/
    (marksurface_loop n i mod_base ofs numsurfaces
     = SysError "bad surface number" /\
     exists (k : nat) (b0 b1 : Z),
       (k < n)%nat /\
       let at_ := ofs + 2 * (i + Z.of_nat k) in
       mod_base !! Z.to_nat at_ = Some b0 /\
       mod_base !! Z.to_nat (at_ + 1) = Some b1 /\
       numsurfaces <= (b0 + 256 * b1) mod 65536).
Proof.
  induction n as [|n IH]; intros i mod_base ofs ns Hi Hofs Hend.
  - left. exists []. split_and!; [done | done | lia].
  - cbn [marksurface_loop].
    destruct (read_ushort_inside mod_base (ofs + 2 * i) ltac:(lia) ltac:(lia))
      as (b0 & b1 & Hb0 & Hb1 & ->).
    cbn [mbind result_bind].
    pose proof (Z.mod_pos_bound (b0 + 256 * b1) 65536 ltac:(lia)) as Hj.
    destruct (Z.geb_spec ((b0 + 256 * b1) mod 65536) ns) as [Hbad|Hgood].
    { right. split; [done|]. exists 0%nat, b0, b1. cbn zeta.
      rewrite Z.add_0_r. split_and!; [lia | done | done | lia]. }
    destruct (IH (i + 1) mod_base ofs ns ltac:(lia) Hofs ltac:(lia))
      as [(out & -> & Hlen & Hout)|(-> & k & c0 & c1 & Hk & Hc)].
    + left. cbn [mbind result_bind mret result_ret]. eexists. split; [done|].
      split; [cbn; lia|]. intros [|k] Hk.
      * exists b0, b1. cbn zeta. rewrite Z.add_0_r.
        split_and!; [done | done | done | lia | lia].
      * destruct (Hout k ltac:(lia)) as (c0 & c1 & Hc).
        exists c0, c1. cbn zeta in *.
        replace (i + Z.of_nat (S k)) with (i + 1 + Z.of_nat k) by lia. done.
    + right. split; [done|]. exists (S k), c0, c1. cbn zeta in *.
      replace (i + Z.of_nat (S k)) with (i + 1 + Z.of_nat k) by lia.
      split; [lia | done].
Qed.

(** X13.  After the header has passed, [Mod_LoadMarksurfaces] reads
    inside the file only.  It is fatal for a lump of odd length and for
    a lump that names a surface number at or above [numsurfaces]; in
    every other case it yields [filelen / 2] entries, entry [k] being
    the unsigned little-endian reading of the two bytes at
    [fileofs + 2 * k], and every entry is a surface number below
    [numsurfaces]. *)
Theorem X13_marksurfaces (header : dheader_t) (mod_base : list Z) (l : lump_t)
    (numsurfaces : Z) :
  32 <= ULONG_BITS ->
  Forall (fun l => is_int (fileofs l) /\ is_int (filelen l)) (lumps header) ->
  Mod_LoadBrushModel_header header (Z.of_nat (length mod_base)) = Ok () ->
  In l (lumps header) ->
  (filelen l mod 2 <> 0 ->
   is_fatal (Mod_LoadMarksurfaces mod_base l numsurfaces)) /\
  (filelen l mod 2 = 0 ->
   (exists out,
       Mod_LoadMarksurfaces mod_base l numsurfaces = Ok out /\
       Z.of_nat (length out) = filelen l / 2 /\
       forall k : nat,
         (k < length out)%nat ->
         exists b0 b1,
           mod_base !! Z.to_nat (fileofs l + 2 * Z.of_nat k) = Some b0 /\
           mod_base !! Z.to_nat (fileofs l + 2 * Z.of_nat k + 1) = Some b1 /\
           out !! k = Some ((b0 + 256 * b1) mod 65536) /\
           0 <= (b0 + 256 * b1) mod 65536 < numsurfaces) \/
   (is_fatal (Mod_LoadMarksurfaces mod_base l numsurfaces) /\
    exists (k : nat) (b0 b1 : Z),
      Z.of_nat k < filelen l / 2 /\
      mod_base !! Z.to_nat (fileofs l + 2 * Z.of_nat k) = Some b0 /\
      mod_base !! Z.to_nat (fileofs l + 2 * Z.of_nat k + 1) = Some b1 /\
      numsurfaces <= (b0 + 256 * b1) mod 65536)).
Proof.
  intros Hbits Hint Hpass Hl.
  destruct (header_accepted _ _ Hbits Hint Hpass) as (_ & Hall & _).
  rewrite List.Forall_forall in Hall.
  destruct (Hall l Hl) as (Hofs & Hlen & Hend & Hmax).
  unfold Mod_LoadMarksurfaces. rewrite lump_count_value by lia.
  split.
  - intros Hmod. destruct (Z.eqb_spec (filelen l mod 2) 0); [done|].
    by eexists.
  - intros Hmod. rewrite Hmod. cbn [Z.eqb mbind result_bind].
    pose proof (Z.div_mod (filelen l) 2 ltac:(lia)) as Hdiv.
    pose proof (Z.div_pos (filelen l) 2 ltac:(lia) ltac:(lia)) as Hq.
    destruct (marksurface_loop_inside (Z.to_nat (filelen l / 2)) 0 mod_base
                (fileofs l) numsurfaces ltac:(lia) Hofs ltac:(lia))
      as [(out & Hout & Hlength & Hentries)|(Hfatal & k & b0 & b1 & Hk & Hb)].
    + left. exists out. split; [done|]. split; [lia|].
      intros k Hk. rewrite Hlength in Hk.
      destruct (Hentries k Hk) as (b0 & b1 & Hb).
      exists b0, b1. cbn zeta in Hb. by rewrite Z.add_0_l in Hb.
    + right. split; [by eexists|]. exists k, b0, b1.
      cbn zeta in Hb. rewrite Z.add_0_l in Hb. split; [lia | done].
Qed.

End LumpDataProps.

Ltac sample_table_ints :=
  repeat (constructor;
          [split; unfold is_int, INT_MIN, INT_MAX; cbn; lia|]);
  try constructor.

(** [X10_accepted_header] on the sample table: its first two lumps have
    no byte in common. *)
Lemma X10_accepted_header_witness :
  ~ Lumps.share_a_byte {| Lumps.fileofs := 124; Lumps.filelen := 8 |}
      {| Lumps.fileofs := 132; Lumps.filelen := 6 |}.
Proof.
  destruct (@X10_accepted_header stock_headers
              {| Lumps.version := 29; Lumps.lumps := LumpData.sample_table |}
              140) as (_ & _ & Hdisjoint).
  - cbn. lia.
  - cbn [Lumps.lumps]. unfold LumpData.sample_table. cbn [replicate].
    sample_table_ints.
  - vm_compute. reflexivity.
  - apply Hdisjoint; cbn; [tauto | tauto | lia].
Defined.

(** [X11_raw_lumps_inside_file] on the first lump of the sample file. *)
Lemma X11_raw_lumps_inside_file_witness :
  @LumpData.Mod_LoadVisibility stock_headers LumpData.sample_file
    {| Lumps.fileofs := 124; Lumps.filelen := 8 |}
  = Ok (Some [1; 0; 0; 0; 255; 255; 255; 255]).
Proof.
  destruct (@X11_raw_lumps_inside_file stock_headers
              {| Lumps.version := 29; Lumps.lumps := LumpData.sample_table |}
              LumpData.sample_file
              {| Lumps.fileofs := 124; Lumps.filelen := 8 |})
    as (_ & _ & Hvis & _).
  - cbn. lia.
  - cbn [Lumps.lumps]. unfold LumpData.sample_table. cbn [replicate].
    sample_table_ints.
  - vm_compute. reflexivity.
  - cbn. tauto.
  - exact Hvis.
Defined.

(** [X12_surfedges] on the first lump of the sample file: the entries 1
    and -1. *)
Lemma X12_surfedges_witness :
  exists out,
    @LumpData.Mod_LoadSurfedges stock_headers LumpData.sample_file
      {| Lumps.fileofs := 124; Lumps.filelen := 8 |} = Ok out /\
    Z.of_nat (length out) = 2.
Proof.
  destruct (@X12_surfedges stock_headers
              {| Lumps.version := 29; Lumps.lumps := LumpData.sample_table |}
              LumpData.sample_file
              {| Lumps.fileofs := 124; Lumps.filelen := 8 |})
    as (_ & Hload).
  - cbn. lia.
  - cbn [Lumps.lumps]. unfold LumpData.sample_table. cbn [replicate].
    sample_table_ints.
  - vm_compute. reflexivity.
  - cbn. tauto.
  - destruct Hload as (out & Hout & Hlen & _); [reflexivity|].
    exists out. split; [exact Hout | exact Hlen].
Defined.

(** [X13_marksurfaces] on the second lump of the sample file: a lump of
    6 bytes holds three entries. *)
Lemma X13_marksurfaces_witness :
  exists out,
    @LumpData.Mod_LoadMarksurfaces stock_headers LumpData.sample_file
      {| Lumps.fileofs := 132; Lumps.filelen := 6 |} 3 = Ok out /\
    Z.of_nat (length out) = 3.
Proof.
  destruct (@X13_marksurfaces stock_headers
              {| Lumps.version := 29; Lumps.lumps := LumpData.sample_table |}
              LumpData.sample_file
              {| Lumps.fileofs := 132; Lumps.filelen := 6 |} 3)
    as (_ & Hload).
  - cbn. lia.
  - cbn [Lumps.lumps]. unfold LumpData.sample_table. cbn [replicate].
    sample_table_ints.
  - vm_compute. reflexivity.
  - cbn. tauto.
  - destruct Hload as [(out & Hout & Hlen & _)|[Hfatal _]]; [reflexivity | |].
    + exists out. split; [exact Hout | exact Hlen].
    + destruct Hfatal as [msg Hmsg]. vm_compute in Hmsg. discriminate Hmsg.
Defined.

(** ** Alias models: what the skin loader does to the file and the table *)

Section SkinTableProps.
Import Skins SkinTable.
Context `{Headers} {gl_t : Type}.
Context (GL_LoadTexture :
           string -> Z -> Z -> list Z -> bool -> bool -> gl_t -> Z * gl_t).
Context (Mod_FloodFillSkin : list Z -> Z -> Z -> Z -> list Z).

Lemma read_long_agree (buf buf' : list Z) (ofs : Z) :
  (forall d, 0 <= d < 4 ->
             buf' !! Z.to_nat (ofs + d) = buf !! Z.to_nat (ofs + d)) ->
  read_long buf' ofs = read_long buf ofs.
Proof.
  intros Hsame. unfold read_long, peek.
  rewrite <- (Z.add_0_r ofs) at 2 4.
  by rewrite !Hsame by lia.
Qed.

(** A copy that stays inside the buffer yields the bytes there. *)
Lemma read_bytes_inside (buf : list Z) (n : nat) :
  forall ofs : Z,
    0 <= ofs -> ofs + Z.of_nat n <= Z.of_nat (length buf) ->
    read_bytes n buf ofs = Ok (take n (drop (Z.to_nat ofs) buf)).
Proof.
  induction n as [|n IH]; intros ofs Hofs Hend; cbn [read_bytes]; [done|].
  destruct (peek_in_range buf ofs ltac:(lia)) as (b & -> & Hb).
  cbn [mbind result_bind]. rewrite IH by lia. cbn [mbind result_bind].
  cbn [mret result_ret]. f_equal.
  rewrite (drop_S _ b _ Hb). cbn [take]. do 2 f_equal. f_equal. lia.
Qed.

Lemma pixels_at_agree (buf buf' : list Z) (data s : Z) :
  0 <= data ->
  (forall k : nat,
      data <= Z.of_nat k < data + s -> buf' !! k = buf !! k) ->
  pixels_at buf' data s = pixels_at buf data s.
Proof.
  intros Hdata Hsame. unfold pixels_at. apply list_eq. intros k.
  rewrite !lookup_take. destruct (decide (k < Z.to_nat s)%nat); [|done].
  rewrite !lookup_drop. apply Hsame. lia.
Qed.

Section one_model.
Variables (model : string) (skinwidth skinheight skin s : Z).
Variables NQ_HACK QW_HACK : bool.
Hypothesis Hlocal : fill_local Mod_FloodFillSkin skin skinwidth skinheight.

Local Abbreviation same_outside buf buf' :=
  (forall k : nat, outside skin skinwidth skinheight k -> buf' !! k = buf !! k).

Lemma upload_loop_buffer (n : nat) :
  forall (i j : Z) (st st' : loader),
    upload_loop GL_LoadTexture Mod_FloodFillSkin model skinwidth skinheight
      skin s n i j st = Ok st' ->
    same_outside (buffer st) (buffer st').
Proof.
  induction n as [|n IH]; intros i j st st' Hrun k Hk.
  - cbn in Hrun. by injection Hrun as <-.
  - cbn [upload_loop] in Hrun.
    destruct (GL_LoadTexture _ _ _ _ _ _ _) as [handle g].
    destruct (set_slot _ _ _ _) as [table|msg|w]; try done.
    rewrite (IH _ _ _ _ Hrun k Hk). cbn [buffer]. by apply Hlocal.
Qed.

Lemma load_skin_group_buffer (i : Z) (st st' : loader) :
  load_skin_group GL_LoadTexture Mod_FloodFillSkin model skinwidth skinheight
    skin s i st = Ok st' ->
  same_outside (buffer st) (buffer st').
Proof.
  unfold load_skin_group. intros Hrun k Hk.
  destruct (read_long _ _) as [groupskins|msg|w]; try done.
  cbn [mbind result_bind] in Hrun.
  destruct (upload_loop _ _ _ _ _ _ _ _ _ _ _) as [st2|msg|w] eqn:Hup; try done.
  cbn [mbind result_bind] in Hrun.
  destruct (fill_loop _ _ _ _ _) as [table|msg|w]; try done.
  injection Hrun as <-. cbn [buffer].
  by rewrite (upload_loop_buffer _ _ _ _ _ Hup k Hk).
Qed.

Lemma load_skin_group_texels_buffer (i : Z) (st st' : loader)
    (ts ts' : texel_store) :
  load_skin_group_texels GL_LoadTexture Mod_FloodFillSkin model skinwidth
    skinheight skin s NQ_HACK i st ts = Ok (st', ts') ->
  same_outside (buffer st) (buffer st').
Proof.
  unfold load_skin_group_texels. intros Hrun.
  destruct (read_long _ _) as [groupskins|msg|w]; try done.
  cbn [mbind result_bind] in Hrun.
  destruct (if 0 <? groupskins then _ else _) as [ts1|msg|w]; try done.
  cbn [mbind result_bind] in Hrun.
  destruct (load_skin_group _ _ _ _ _ _ _ _ _) as [st1|msg|w] eqn:Hgroup;
    try done.
  injection Hrun as <- _. by apply (load_skin_group_buffer i).
Qed.

Lemma load_skin_single_buffer (i : Z) (st st' : loader)
    (ts ts' : texel_store) :
  load_skin_single GL_LoadTexture Mod_FloodFillSkin model skinwidth skinheight
    skin s NQ_HACK QW_HACK i st ts = Ok (st', ts') ->
  same_outside (buffer st) (buffer st').
Proof.
  unfold load_skin_single. intros Hrun k Hk.
  destruct (save_texels _ _ _ _ _ _) as [ts1|msg|w];
    cbn [mbind result_bind] in Hrun; try done.
  destruct (save_player_texels _ _ _ _ _ _) as [ts2|msg|w];
    cbn [mbind result_bind] in Hrun; try done.
  destruct (GL_LoadTexture _ _ _ _ _ _ _) as [handle g].
  repeat (destruct (set_slot _ _ _ _) as [?|?|?];
          cbn [mbind result_bind] in Hrun; try done).
  injection Hrun as <- _. cbn [buffer]. by apply Hlocal.
Qed.

Lemma skin_loop_buffer (n : nat) :
  forall (i : Z) (st st' : loader) (ts ts' : texel_store),
    skin_loop GL_LoadTexture Mod_FloodFillSkin model skinwidth skinheight
      skin s NQ_HACK QW_HACK n i st ts = Ok (st', ts') ->
    same_outside (buffer st) (buffer st').
Proof.
  induction n as [|n IH]; intros i st st' ts ts' Hrun k Hk.
  - cbn in Hrun. by injection Hrun as <- _.
  - cbn [skin_loop] in Hrun.
    destruct (read_long _ _) as [type|msg|w]; try done.
    destruct (type =? ALIAS_SKIN_SINGLE).
    + destruct (load_skin_single _ _ _ _ _ _ _ _ _ _ _ _)
        as [[st1 ts1]|msg|w] eqn:Hone; try done.
      rewrite (IH _ _ _ _ _ Hrun k Hk).
      by apply (load_skin_single_buffer _ _ _ _ _ Hone).
    + destruct (load_skin_group_texels _ _ _ _ _ _ _ _ _ _ _)
        as [[st1 ts1]|msg|w] eqn:Hone; try done.
      rewrite (IH _ _ _ _ _ Hrun k Hk).
      by apply (load_skin_group_texels_buffer _ _ _ _ _ Hone).
Qed.

(** The save under [NQ_HACK] of [s] bytes that lie inside the buffer. *)
Lemma save_texels_inside (i data : Z) (buf : list Z) (ts : texel_store) :
  0 <= s -> 0 <= data -> data + s <= Z.of_nat (length buf) ->
  0 <= i < Z.of_nat (length (texels ts)) ->
  save_texels s NQ_HACK i data buf ts
  = Ok (if NQ_HACK
        then {| texels := <[Z.to_nat i := Some (pixels_at buf data s)]>
                            (texels ts);
                player_8bit_texels := player_8bit_texels ts |}
        else ts).
Proof.
  intros Hs Hdata Hend Hi. unfold save_texels, copy_texels.
  destruct NQ_HACK; [|done].
  destruct (Z.ltb_spec s 0); [lia|].
  rewrite read_bytes_inside by lia. cbn [mbind result_bind].
  rewrite poke_inside by lia. done.
Qed.

(** The save under [QW_HACK]: it passes for every model but the player
    model, and for the player model when the skin has at most 320 * 200
    bytes, which lie inside the buffer. *)
Lemma save_player_texels_inside (data : Z) (buf : list Z) (ts : texel_store) :
  0 <= s -> 0 <= data -> data + s <= Z.of_nat (length buf) ->
  (QW_HACK = true -> model = "progs/player.mdl" -> s <= 320 * 200) ->
  exists ts',
    save_player_texels model s QW_HACK data buf ts = Ok ts' /\
    texels ts' = texels ts.
Proof.
  intros Hs Hdata Hend Hsize. unfold save_player_texels, copy_texels.
  destruct QW_HACK; cbn [andb]; [|by exists ts].
  destruct (String.eqb_spec model "progs/player.mdl") as [Hname|_];
    [|by exists ts].
  specialize (Hsize eq_refl Hname).
  destruct (Z.ltb_spec s 0); [lia|].
  destruct (Z.gtb_spec s (320 * 200)); [lia|]. cbn [orb].
  rewrite read_bytes_inside by lia. cbn [mbind result_bind]. by eexists.
Qed.

Ltac slot_side :=
  first [ done
        | by repeat eapply lookup_insert_row
        | rewrite ?length_insert; cbn [length]; lia ].

(** The loop over skins that are all single skins. *)
Lemma skin_loop_singles (buf0 : list Z) (n : nat) :
  s = skinwidth * skinheight -> 0 <= s ->
  fill_in_place Mod_FloodFillSkin skin skinwidth skinheight ->
  (QW_HACK = true -> model = "progs/player.mdl" -> s <= 320 * 200) ->
  forall (i : Z) (st : loader) (ts : texel_store),
    0 <= i -> 0 <= pskintype st ->
    pskintype st = skin - 4 \/ skin + s <= pskintype st ->
    same_outside buf0 (buffer st) ->
    length (buffer st) = length buf0 ->
    pskintype st + Z.of_nat n * (4 + s) <= Z.of_nat (length buf0) ->
    i + Z.of_nat n <= Z.of_nat (length (texels ts)) ->
    (forall k : nat,
        (k < n)%nat ->
        read_long buf0 (pskintype st + Z.of_nat k * (4 + s))
        = Ok ALIAS_SKIN_SINGLE) ->
    (forall k : nat,
        (k < n)%nat ->
        exists row, gl_texturenum st !! (Z.to_nat i + k)%nat = Some row /\
                    length row = 4%nat) ->
    exists st' ts',
      skin_loop GL_LoadTexture Mod_FloodFillSkin model skinwidth skinheight
        skin s NQ_HACK QW_HACK n i st ts = Ok (st', ts') /\
      pskintype st' = pskintype st + Z.of_nat n * (4 + s) /\
      (forall k : nat,
          (k < n)%nat ->
          exists hd,
            single_handles GL_LoadTexture Mod_FloodFillSkin model skinwidth
              skinheight skin s n i (buffer st) (gl st) (pskintype st) !! k
            = Some hd /\
            gl_texturenum st' !! (Z.to_nat i + k)%nat = Some [hd; hd; hd; hd]) /\
      (forall r : nat,
          (r < Z.to_nat i \/ Z.to_nat i + n <= r)%nat ->
          gl_texturenum st' !! r = gl_texturenum st !! r) /\
      length (texels ts') = length (texels ts) /\
      (NQ_HACK = true ->
       forall k : nat,
         (k < n)%nat ->
         skin + s <= pskintype st + Z.of_nat k * (4 + s) ->
         texels ts' !! (Z.to_nat i + k)%nat
         = Some (Some (pixels_at buf0
                         (pskintype st + Z.of_nat k * (4 + s) + 4) s))) /\
      (forall r : nat,
          (r < Z.to_nat i \/ Z.to_nat i + n <= r)%nat ->
          texels ts' !! r = texels ts !! r).
Proof.
  intros Hs Hs0 Hplace Hplayer. induction n as [|n IH];
    intros i st ts Hi Hp Hpos Hsame Hlen Hfit Hroom Htypes Hrows.
  - exists st, ts. split_and!; try done; [lia | intros; lia | intros; lia].
  - cbn [skin_loop single_handles].
    assert (Htype : read_long (buffer st) (pskintype st) = Ok ALIAS_SKIN_SINGLE).
    { specialize (Htypes 0%nat ltac:(lia)).
      rewrite Z.mul_0_l, Z.add_0_r in Htypes. rewrite <- Htypes.
      apply read_long_agree. intros d Hd. apply Hsame.
      unfold outside. lia. }
    rewrite Htype, Z.eqb_refl. unfold load_skin_single.
    set (buf1 := Mod_FloodFillSkin (buffer st) skin skinwidth skinheight).
    assert (Hlen1 : length buf1 = length buf0)
      by (unfold buf1; rewrite Hplace; exact Hlen).
    rewrite (save_texels_inside i (pskintype st + 4) buf1 ts) by lia.
    cbn [mbind result_bind].
    set (ts1 := if NQ_HACK then _ else ts).
    assert (Hts1 : length (texels ts1) = length (texels ts)).
    { unfold ts1. destruct NQ_HACK; [cbn; by rewrite length_insert | done]. }
    destruct (save_player_texels_inside (pskintype st + 4) buf1 ts1)
      as (ts2 & -> & Hts2); [lia | lia | lia | done |].
    cbn [mbind result_bind].
    destruct (GL_LoadTexture _ _ _ _ _ _ _) as [hd g].
    destruct (Hrows 0%nat ltac:(lia)) as (row & Hrow & Hrowlen).
    rewrite Nat.add_0_r in Hrow.
    destruct row as [|a [|b [|c [|d [|? ?]]]]]; try discriminate Hrowlen.
    rewrite (set_slot_spec _ i 3 hd [a; b; c; d]) by slot_side.
    cbn [mbind result_bind].
    rewrite (set_slot_spec _ i 2 hd (<[Z.to_nat 3 := hd]> [a; b; c; d]))
      by slot_side.
    cbn [mbind result_bind].
    rewrite (set_slot_spec _ i 1 hd
               (<[Z.to_nat 2 := hd]> (<[Z.to_nat 3 := hd]> [a; b; c; d])))
      by slot_side.
    cbn [mbind result_bind].
    rewrite (set_slot_spec _ i 0 hd
               (<[Z.to_nat 1 := hd]>
                  (<[Z.to_nat 2 := hd]> (<[Z.to_nat 3 := hd]> [a; b; c; d]))))
      by slot_side.
    cbn [mbind result_bind mret result_ret].
    change (<[Z.to_nat 0 := hd]>
              (<[Z.to_nat 1 := hd]>
                 (<[Z.to_nat 2 := hd]> (<[Z.to_nat 3 := hd]> [a; b; c; d]))))
      with [hd; hd; hd; hd].
    set (st1 := {| buffer := _; gl := g; gl_texturenum := _; pskintype := _ |}).
    assert (Hat : gl_texturenum st1 !! Z.to_nat i = Some [hd; hd; hd; hd]).
    { cbn. apply list_lookup_insert_eq.
      rewrite !length_insert. by apply lookup_lt_Some in Hrow. }
    assert (Helse : forall r : nat,
               r <> Z.to_nat i -> gl_texturenum st1 !! r = gl_texturenum st !! r).
    { intros r Hr. cbn. by rewrite !list_lookup_insert_ne. }
    assert (Hsame1 : same_outside buf0 buf1).
    { intros k Hk. unfold buf1. rewrite Hlocal by done. by apply Hsame. }
    destruct (IH (i + 1) st1 ts2)
      as (st' & ts' & Hrun & Hptr & Hnew & Hold & Hlen' & Hsaved & Hkept).
    + lia.
    + cbn. lia.
    + cbn. lia.
    + exact Hsame1.
    + exact Hlen1.
    + cbn [pskintype st1]. lia.
    + rewrite Hts2, Hts1. lia.
    + intros k Hk. cbn [pskintype st1].
      specialize (Htypes (S k) ltac:(lia)). rewrite <- Htypes. f_equal. lia.
    + intros k Hk. destruct (Hrows (S k) ltac:(lia)) as (row & Hrow' & Hlen'').
      exists row. split; [|done]. rewrite Helse by lia.
      rewrite <- Hrow'. f_equal. lia.
    + exists st', ts'. split; [done|]. split; [cbn in Hptr; lia|]. split.
      { intros [|k] Hk.
        - exists hd. split; [done|]. rewrite Nat.add_0_r.
          rewrite Hold by lia. done.
        - destruct (Hnew k ltac:(lia)) as (hd' & Hhd' & Hrow').
          exists hd'. split; [done|]. rewrite <- Hrow'. f_equal. lia. }
      split; [intros r Hr; rewrite Hold by lia; apply Helse; lia|].
      split; [by rewrite Hlen', Hts2, Hts1|]. split.
      { intros Hnq [|k] Hk Hbehind.
        - rewrite Nat.add_0_r, Hkept by lia. rewrite Hts2.
          unfold ts1. rewrite Hnq. cbn [texels].
          rewrite list_lookup_insert_eq by lia. do 2 f_equal.
          rewrite Z.mul_0_l, Z.add_0_r in *.
          apply pixels_at_agree; [lia|]. intros k Hk'. apply Hsame1.
          unfold outside. lia.
        - replace (Z.to_nat i + S k)%nat with (Z.to_nat (i + 1) + k)%nat by lia.
          rewrite (Hsaved Hnq k) by (cbn [pskintype st1]; lia).
          cbn [pskintype st1]. do 3 f_equal. lia. }
      intros r Hr. rewrite Hkept by lia. rewrite Hts2. unfold ts1.
      destruct NQ_HACK; [|done]. cbn [texels].
      apply list_lookup_insert_ne. lia.
Qed.

End one_model.

(** X14.  Of the file buffer, [Mod_LoadAllSkins] changes at most the
    pixels of the first skin: the flood fill is run at the pointer set
    before the loop over the skins, for every skin and every image of a
    group, so every byte outside the [skinwidth * skinheight] bytes
    behind the first type field is after the call what it was before
    (for a flood fill that writes to the skin it is given only).  This
    holds in every build. *)
Theorem X14_only_first_skin_filled (NQ_HACK QW_HACK : bool) (model : string)
    (skinwidth skinheight numskins : Z) (st st' : loader)
    (ts ts' : texel_store) :
  fill_local Mod_FloodFillSkin (pskintype st + 4) skinwidth skinheight ->
  Mod_LoadAllSkins GL_LoadTexture Mod_FloodFillSkin NQ_HACK QW_HACK model
    skinwidth skinheight numskins st ts = Ok (st', ts') ->
  forall k : nat,
    outside (pskintype st + 4) skinwidth skinheight k ->
    buffer st' !! k = buffer st !! k.
Proof.
  intros Hlocal. unfold Mod_LoadAllSkins.
  destruct ((numskins <? 1) || (numskins >? MAX_SKINS)); [done|].
  apply skin_loop_buffer. exact Hlocal.
Qed.

(** X15.  [Mod_LoadAllSkins] is fatal for a skin count below 1 or above
    [MAX_SKINS].  For a count within these bounds and skins that are all
    single skins and lie inside the buffer, with room for them in the
    table [texels], and, where [QW_HACK] is defined and the model is
    the player model, a skin of at most 320 * 200 bytes: it uploads the
    skins in order, fills all four slots of row [k] of the texture
    table with the handle of upload [k], leaves the other rows as they
    are, and returns the pointer to the byte behind the last skin,
    [numskins * (4 + skinwidth * skinheight)] bytes on; where
    [NQ_HACK] is defined, [texels[k]] of every skin [k] but the first
    holds the pixels of that skin.  Where [QW_HACK] is defined, the
    player model with a larger skin is fatal. *)
Theorem X15_single_skins (NQ_HACK QW_HACK : bool) (model : string)
    (skinwidth skinheight numskins : Z) (st : loader) (ts : texel_store) :
  let s := skinwidth * skinheight in
  (numskins < 1 \/ MAX_SKINS < numskins ->
   is_fatal (Mod_LoadAllSkins GL_LoadTexture Mod_FloodFillSkin NQ_HACK QW_HACK
               model skinwidth skinheight numskins st ts)) /\
  (1 <= numskins <= MAX_SKINS ->
   0 <= s <= INT_MAX -> 0 <= pskintype st ->
   fill_local Mod_FloodFillSkin (pskintype st + 4) skinwidth skinheight ->
   fill_in_place Mod_FloodFillSkin (pskintype st + 4) skinwidth skinheight ->
   pskintype st + numskins * (4 + s) <= Z.of_nat (length (buffer st)) ->
   numskins <= Z.of_nat (length (texels ts)) ->
   (forall k : nat,
       Z.of_nat k < numskins ->
       read_long (buffer st) (pskintype st + Z.of_nat k * (4 + s))
       = Ok ALIAS_SKIN_SINGLE) ->
   (forall k : nat,
       Z.of_nat k < numskins ->
       exists row, gl_texturenum st !! k = Some row /\ length row = 4%nat) ->
   ((QW_HACK = true -> model = "progs/player.mdl" -> s <= 320 * 200) ->
    exists st' ts',
      Mod_LoadAllSkins GL_LoadTexture Mod_FloodFillSkin NQ_HACK QW_HACK model
        skinwidth skinheight numskins st ts = Ok (st', ts') /\
      pskintype st' = pskintype st + numskins * (4 + s) /\
      (forall k : nat,
          Z.of_nat k < numskins ->
          exists hd,
            single_handles GL_LoadTexture Mod_FloodFillSkin model skinwidth
              skinheight (pskintype st + 4) s
              (Z.to_nat numskins) 0 (buffer st) (gl st) (pskintype st) !! k
            = Some hd /\
            gl_texturenum st' !! k = Some [hd; hd; hd; hd]) /\
      (forall r : nat,
          numskins <= Z.of_nat r ->
          gl_texturenum st' !! r = gl_texturenum st !! r) /\
      (NQ_HACK = true ->
       forall k : nat,
         1 <= Z.of_nat k < numskins ->
         texels ts' !! k
         = Some (Some (pixels_at (buffer st)
                         (pskintype st + Z.of_nat k * (4 + s) + 4) s)))) /\
   (QW_HACK = true -> model = "progs/player.mdl" -> 320 * 200 < s ->
    Mod_LoadAllSkins GL_LoadTexture Mod_FloodFillSkin NQ_HACK QW_HACK model
      skinwidth skinheight numskins st ts
    = SysError "Player skin too large")).
Proof.
  intros s. split.
  - intros Hbad. unfold Mod_LoadAllSkins.
    destruct (Z.ltb_spec numskins 1) as [?|?]; [by eexists|].
    destruct (Z.gtb_spec numskins MAX_SKINS) as [?|?]; [by eexists | lia].
  - intros Hn Hsize Hp Hlocal Hplace Hfit Hroom Htypes Hrows.
    unfold Mod_LoadAllSkins.
    destruct (Z.ltb_spec numskins 1) as [?|_]; [lia|].
    destruct (Z.gtb_spec numskins MAX_SKINS) as [?|_]; [lia|].
    cbn [orb].
    assert (Hs : int_mul skinwidth skinheight = s).
    { unfold int_mul. apply wrap_small.
      unfold is_int, INT_MIN, INT_MAX in *. fold s. lia. }
    rewrite Hs. split.
    + intros Hplayer.
      destruct (skin_loop_singles model skinwidth skinheight (pskintype st + 4)
                  s NQ_HACK QW_HACK Hlocal (buffer st)
                  (Z.to_nat numskins) eq_refl ltac:(lia) Hplace Hplayer 0 st ts)
        as (st' & ts' & Hrun & Hptr & Hnew & Hold & _ & Hsaved & _).
      * lia.
      * done.
      * left. lia.
      * done.
      * done.
      * lia.
      * lia.
      * intros k Hk. apply Htypes. lia.
      * intros k Hk. cbn. apply Hrows. lia.
      * exists st', ts'. split; [done|]. split; [lia|]. split.
        { intros k Hk. destruct (Hnew k ltac:(lia)) as (hd & Hhd & Hrow).
          exists hd. done. }
        split; [intros r Hr; apply Hold; right; cbn; lia|].
        intros Hnq k Hk. apply (Hsaved Hnq k); [lia|]. nia.
    + intros Hqw Hname Hbig.
      destruct (Z.to_nat numskins) as [|n] eqn:Hcount; [lia|].
      cbn [skin_loop].
      specialize (Htypes 0%nat ltac:(lia)).
      rewrite Z.mul_0_l, Z.add_0_r in Htypes. rewrite Htypes, Z.eqb_refl.
      unfold load_skin_single.
      set (buf1 := Mod_FloodFillSkin _ _ _ _).
      rewrite (save_texels_inside s NQ_HACK 0 (pskintype st + 4) buf1 ts);
        [|lia|lia|unfold buf1; rewrite Hplace; nia|lia].
      cbn [mbind result_bind]. unfold save_player_texels.
      rewrite Hqw, Hname, String.eqb_refl. cbn [andb].
      destruct (Z.ltb_spec s 0); [done|].
      destruct (Z.gtb_spec s (320 * 200)); [done | lia].
Qed.

End SkinTableProps.

Lemma paint_lookup (n : nat) :
  forall (ofs k : nat) (buf : list Z),
    ~ (ofs <= k < ofs + n)%nat -> SkinTable.paint n ofs buf !! k = buf !! k.
Proof.
  induction n as [|n IH]; intros ofs k buf Hk; [done|].
  cbn [SkinTable.paint]. rewrite IH by lia.
  apply list_lookup_insert_ne. lia.
Qed.

Lemma paint_fill_local (skin w h : Z) :
  0 <= skin -> SkinTable.fill_local SkinTable.paint_fill skin w h.
Proof.
  intros Hskin buf k Hk. unfold SkinTable.paint_fill.
  apply paint_lookup. unfold SkinTable.outside in Hk. lia.
Qed.

Lemma paint_length (n : nat) :
  forall (ofs : nat) (buf : list Z),
    length (SkinTable.paint n ofs buf) = length buf.
Proof.
  induction n as [|n IH]; intros ofs buf; [done|].
  cbn [SkinTable.paint]. by rewrite IH, length_insert.
Qed.

Lemma paint_fill_in_place (skin w h : Z) :
  SkinTable.fill_in_place SkinTable.paint_fill skin w h.
Proof. intros buf. apply paint_length. Qed.

(** [X14_only_first_skin_filled] on two single skins of 2x2 pixels and a
    flood fill that paints the skin it is given, in a build with
    [NQ_HACK]: the pixels of the second skin are what they were. *)
Lemma X14_only_first_skin_filled_witness :
  exists st' ts',
    @Skins.Mod_LoadAllSkins stock_headers _ Skins.counting_upload
      SkinTable.paint_fill true false "progs/flame.mdl" 2 2 2
      SkinTable.singles_loader SkinTable.no_texels
    = Ok (st', ts') /\
    Skins.buffer st' !! 12%nat = Some 6.
Proof.
  destruct (@Skins.Mod_LoadAllSkins stock_headers _ Skins.counting_upload
              SkinTable.paint_fill true false "progs/flame.mdl" 2 2 2
              SkinTable.singles_loader SkinTable.no_texels)
    as [[st' ts']|msg|w] eqn:Hrun.
  - exists st', ts'. split; [reflexivity|].
    rewrite (@X14_only_first_skin_filled stock_headers _ Skins.counting_upload
               SkinTable.paint_fill true false "progs/flame.mdl" 2 2 2
               SkinTable.singles_loader st' SkinTable.no_texels ts').
    + reflexivity.
    + apply paint_fill_local. cbn. lia.
    + exact Hrun.
    + unfold SkinTable.outside. cbn. lia.
  - exfalso. revert Hrun. unfold SkinTable.no_texels.
    generalize (replicate (Z.to_nat (320 * 200)) 0). intros player Hrun.
    vm_compute in Hrun. discriminate Hrun.
  - exfalso. revert Hrun. unfold SkinTable.no_texels.
    generalize (replicate (Z.to_nat (320 * 200)) 0). intros player Hrun.
    vm_compute in Hrun. discriminate Hrun.
Defined.

(** [X15_single_skins] on the same two skins in a build with [NQ_HACK]:
    the rows 0 and 1 of the table hold the first and the second handle
    four times each, and the texels saved for the second skin are its
    pixels. *)
Lemma X15_single_skins_witness :
  exists st' ts',
    @Skins.Mod_LoadAllSkins stock_headers _ Skins.counting_upload
      SkinTable.paint_fill true false "progs/flame.mdl" 2 2 2
      SkinTable.singles_loader SkinTable.no_texels
    = Ok (st', ts') /\
    Skins.pskintype st' = 16 /\
    Skins.gl_texturenum st' !! 0%nat = Some [100; 100; 100; 100] /\
    Skins.gl_texturenum st' !! 1%nat = Some [101; 101; 101; 101] /\
    Skins.texels ts' !! 1%nat = Some (Some [6; 6; 6; 6]).
Proof.
  destruct (@X15_single_skins stock_headers _ Skins.counting_upload
              SkinTable.paint_fill true false "progs/flame.mdl" 2 2 2
              SkinTable.singles_loader SkinTable.no_texels) as [_ Hload].
  destruct Hload as [Hload _].
  - cbn. lia.
  - unfold INT_MAX. lia.
  - cbn. lia.
  - apply paint_fill_local. cbn. lia.
  - apply paint_fill_in_place.
  - cbn. lia.
  - cbn. lia.
  - intros [|[|k]] Hk; [reflexivity | reflexivity | lia].
  - intros [|[|k]] Hk; [by eexists | by eexists | lia].
  - destruct Hload as (st' & ts' & Hrun & Hptr & Hrows & _ & Hsaved).
    + discriminate.
    + exists st', ts'. split; [exact Hrun|]. split; [exact Hptr|].
      destruct (Hrows 0%nat ltac:(lia)) as (h0 & Hh0 & Hrow0).
      destruct (Hrows 1%nat ltac:(lia)) as (h1 & Hh1 & Hrow1).
      vm_compute in Hh0. vm_compute in Hh1.
      injection Hh0 as <-. injection Hh1 as <-.
      split; [exact Hrow0|]. split; [exact Hrow1|].
      exact (Hsaved eq_refl 1%nat ltac:(lia)).
Defined.

(** ** Texture animation: what sequencing leaves alone *)

Section TexFrameProps.
Import TexAnim TexFrame.

Lemma kept_refl (textures : list (option texture_t)) : kept textures textures.
Proof. split; [done|]. intros i. split; [done|]. intros t Ht. by exists t. Qed.

Lemma kept_trans (a b c : list (option texture_t)) :
  kept a b -> kept b c -> kept a c.
Proof.
  intros [Hlen1 H1] [Hlen2 H2]. split; [congruence|]. intros i. split.
  - intros Ha. apply H2. by apply H1.
  - intros t Ht. destruct (H1 i) as [_ Hsome].
    destruct (Hsome t Ht) as (t1 & Ht1 & Hname1 & Hsame1).
    destruct (H2 i) as [_ Hsome2].
    destruct (Hsome2 t1 Ht1) as (t2 & Ht2 & Hname2 & Hsame2).
    exists t2. split; [done|]. split; [congruence|].
    intros Hna. rewrite <- (Hsame1 Hna). apply Hsame2.
    unfold animated in *. by rewrite Hname1.
Qed.

Lemma plus_frames_kept (before after : list (option texture_t))
    (seq : list (option Z)) :
  kept before after -> plus_frames before seq -> plus_frames after seq.
Proof.
  intros [Hlen Hkept] Hplus k idx Hk. destruct (Hplus k idx Hk) as [Hidx Hanim].
  split; [done|]. intros t' Ht'.
  destruct (before !! Z.to_nat idx) as [[t|]|] eqn:Hb.
  - destruct (Hkept (Z.to_nat idx)) as [_ Hsome].
    destruct (Hsome t Hb) as (t1 & Ht1 & Hname & _).
    assert (t1 = t') as -> by congruence.
    unfold animated in *. rewrite Hname. by apply Hanim.
  - destruct (Hkept (Z.to_nat idx)) as [Hnone _]. rewrite (Hnone Hb) in Ht'.
    done.
  - apply lookup_ge_None in Hb. apply lookup_lt_Some in Ht'. lia.
Qed.

Lemma plus_frames_empty (textures : list (option texture_t)) :
  plus_frames textures no_frames.
Proof. intros k idx Hk. by apply no_frames_lookup in Hk. Qed.

Lemma plus_frames_insert (textures : list (option texture_t))
    (seq : list (option Z)) (num j : Z) (t : texture_t) :
  plus_frames textures seq -> 0 <= j ->
  textures !! Z.to_nat j = Some (Some t) -> animated t ->
  plus_frames textures (<[Z.to_nat num := Some j]> seq).
Proof.
  intros Hplus Hj Ht Hanim k idx Hk.
  destruct (decide (k = Z.to_nat num)) as [->|Hne].
  - destruct (decide (Z.to_nat num < length seq)%nat) as [Hlt|Hge].
    + rewrite list_lookup_insert_eq in Hk by done. injection Hk as <-.
      split; [done|]. intros t' Ht'. congruence.
    + rewrite list_insert_ge in Hk by lia. by apply Hplus in Hk.
  - rewrite list_lookup_insert_ne in Hk by done. by apply Hplus in Hk.
Qed.

Lemma gather_plus (textures : list (option texture_t)) (tx : texture_t)
    (rest : list (option texture_t)) :
  forall (j : nat) (sq sq' : sequences),
    (forall (k : nat) (x : option texture_t),
        rest !! k = Some x -> textures !! (j + k)%nat = Some x) ->
    plus_frames textures (anims sq) -> plus_frames textures (altanims sq) ->
    gather tx (Z.of_nat j) rest sq = Ok sq' ->
    plus_frames textures (anims sq') /\ plus_frames textures (altanims sq').
Proof.
  induction rest as [|x rest IH]; intros j sq sq' Hrest Ha Hb Hrun.
  { cbn in Hrun. by injection Hrun as <-. }
  assert (Hrest' : forall (k : nat) (y : option texture_t),
             rest !! k = Some y -> textures !! (S j + k)%nat = Some y).
  { intros k y Hk. replace (S j + k)%nat with (j + S k)%nat by lia.
    by apply Hrest. }
  cbn [gather] in Hrun.
  replace (Z.of_nat j + 1) with (Z.of_nat (S j)) in Hrun by lia.
  destruct x as [tx2|]; [|by apply (IH (S j) sq)].
  destruct (Z.eqb_spec (char_at (name tx2) 0) 43) as [Hplus|?];
    [|by apply (IH (S j) sq)].
  cbn [negb] in Hrun.
  destruct (strcmp_eq (drop 2 (name tx2)) (drop 2 (name tx))) as [[|]| |];
    [| by apply (IH (S j) sq) | done | done].
  assert (Htx2 : textures !! Z.to_nat (Z.of_nat j) = Some (Some tx2)).
  { rewrite Nat2Z.id. specialize (Hrest 0%nat (Some tx2) eq_refl).
    by rewrite Nat.add_0_r in Hrest. }
  destruct (classify (char_at (name tx2) 1)) as [num|num|]; [| |done].
  - eapply (IH (S j) _ sq' Hrest'); [| |exact Hrun]; cbn [anims altanims];
      [|done].
    apply (plus_frames_insert _ _ _ _ tx2); (done || lia).
  - eapply (IH (S j) _ sq' Hrest'); [| |exact Hrun]; cbn [anims altanims];
      [done|].
    apply (plus_frames_insert _ _ _ _ tx2); (done || lia).
Qed.

Lemma link_kept (seq other : list (option Z)) (len otherlen : Z) (n : nat) :
  forall (j : Z) (textures textures' : list (option texture_t)),
    plus_frames textures seq ->
    link n j seq other len otherlen textures = Ok textures' ->
    kept textures textures'.
Proof.
  induction n as [|n IH]; intros j textures textures' Hplus Hrun.
  { cbn in Hrun. injection Hrun as <-. apply kept_refl. }
  cbn [link] in Hrun.
  destruct (peek seq j) as [[idx|]|msg|w] eqn:Hseq; try done.
  destruct (peek textures idx) as [[tx2|]|msg|w] eqn:Htx; try done.
  apply peek_Ok_inv in Hseq as [Hj Hseq]. apply peek_Ok_inv in Htx as [Hidx Htx].
  destruct (Hplus _ _ Hseq) as [_ Hanim]. specialize (Hanim tx2 Htx).
  match type of Hrun with
  | link _ _ _ _ _ _ (<[_ := Some ?t]> _) = _ => set (tx2' := t) in *
  end.
  assert (Hstep : kept textures (<[Z.to_nat idx := Some tx2']> textures)).
  { split; [by rewrite length_insert|]. intros i.
    destruct (decide (i = Z.to_nat idx)) as [->|Hne].
    - rewrite list_lookup_insert_eq by (by apply lookup_lt_Some in Htx).
      split; [congruence|]. intros t Ht. exists tx2'.
      assert (t = tx2) as -> by congruence. done.
    - rewrite list_lookup_insert_ne by done. split; [done|].
      intros t Ht. by exists t. }
  eapply kept_trans; [exact Hstep|].
  eapply IH; [|exact Hrun]. by eapply plus_frames_kept.
Qed.

Lemma sequence_from_kept (i : Z) (tx : texture_t)
    (textures textures' : list (option texture_t)) (sq : sequences) :
  0 <= i -> textures !! Z.to_nat i = Some (Some tx) -> animated tx ->
  sequence_from i tx textures = Ok (sq, textures') ->
  kept textures textures'.
Proof.
  intros Hi Htx Hanim. unfold sequence_from.
  destruct (open_sequence i tx) as [sq0|msg|w] eqn:Hopen; try done.
  cbn [mbind result_bind].
  destruct (gather _ _ _ _) as [sq1|msg|w] eqn:Hgather; try done.
  cbn [mbind result_bind].
  destruct (link _ _ (anims sq1) _ _ _ _) as [t1|msg|w] eqn:Hlink1; try done.
  cbn [mbind result_bind].
  destruct (link _ _ (altanims sq1) _ _ _ _) as [t2|msg|w] eqn:Hlink2; try done.
  cbn [mbind result_bind mret result_ret]. intros [= <- <-].
  assert (Hopened : plus_frames textures (anims sq0) /\
                    plus_frames textures (altanims sq0)).
  { unfold open_sequence in Hopen.
    destruct (classify (char_at (name tx) 1)) as [num|num|]; [| |done];
      injection Hopen as <-; cbn [anims altanims]; split;
      try apply plus_frames_empty;
      apply (plus_frames_insert _ _ _ _ tx); (done || apply plus_frames_empty). }
  destruct Hopened as [Ha0 Hb0].
  replace (i + 1) with (Z.of_nat (S (Z.to_nat i))) in Hgather by lia.
  apply (gather_plus textures) in Hgather as [Ha Hb]; [|
    intros k x Hk; rewrite lookup_drop in Hk; by rewrite Nat2Z.id in Hk
    | done | done].
  pose proof (link_kept _ _ _ _ _ _ _ _ Ha Hlink1) as Hk1.
  eapply kept_trans; [exact Hk1|].
  eapply link_kept; [|exact Hlink2]. by eapply plus_frames_kept.
Qed.

Lemma sequence_loop_kept (n : nat) :
  forall (i : Z) (textures textures' : list (option texture_t)),
    0 <= i -> sequence_loop n i textures = Ok textures' ->
    kept textures textures'.
Proof.
  induction n as [|n IH]; intros i textures textures' Hi Hrun.
  { cbn in Hrun. injection Hrun as <-. apply kept_refl. }
  cbn [sequence_loop] in Hrun.
  destruct (peek textures i) as [[tx|]|msg|w] eqn:Htx; try done.
  2:{ apply (IH (i + 1)); [lia | done]. }
  destruct (Z.eqb_spec (char_at (name tx) 0) 43) as [Hplus|?].
  2:{ apply (IH (i + 1)); [lia | done]. }
  cbn [negb] in Hrun.
  destruct (anim_next tx); [apply (IH (i + 1)); [lia | done]|].
  destruct (sequence_from i tx textures) as [[sq t1]|msg|w] eqn:Hfrom; try done.
  apply peek_Ok_inv in Htx as [_ Htx].
  eapply kept_trans.
  - by apply (sequence_from_kept i tx textures t1 sq).
  - apply (IH (i + 1)); [lia | done].
Qed.

(** X16.  Sequencing the animations never changes the number of
    textures, never fills or empties a slot of the texture array, never
    renames a texture, and never changes any field of a texture whose
    name does not begin with '+'. *)
Theorem X16_sequencing_frame (textures textures' : list (option texture_t)) :
  sequence_animations textures = Ok textures' ->
  length textures' = length textures /\
  forall i : nat,
    (textures !! i = Some None -> textures' !! i = Some None) /\
    (forall t, textures !! i = Some (Some t) ->
               exists t', textures' !! i = Some (Some t') /\
                          name t' = name t /\
                          (char_at (name t) 0 <> 43 -> t' = t)).
Proof.
  intros Hrun.
  apply (sequence_loop_kept (length textures) 0 textures textures'); [lia|].
  exact Hrun.
Qed.

End TexFrameProps.

(** [X16_sequencing_frame] on a wall texture and an empty slot between
    the two frames of an animation. *)
Lemma X16_sequencing_frame_witness :
  exists textures',
    TexAnim.sequence_animations TexFrame.mixed_textures = Ok textures' /\
    textures' !! 1%nat = Some (TexAnim.fresh "wall") /\
    textures' !! 2%nat = Some None.
Proof.
  destruct (TexAnim.sequence_animations TexFrame.mixed_textures)
    as [textures'|msg|w] eqn:Hrun.
  - exists textures'. split; [reflexivity|].
    destruct (X16_sequencing_frame _ _ Hrun) as [_ Hkept]. split.
    + destruct (Hkept 1%nat) as [_ Hsome].
      destruct (Hsome _ eq_refl) as (t' & Ht' & _ & Hsame).
      rewrite Ht', Hsame; [reflexivity|]. vm_compute. discriminate.
    + destruct (Hkept 2%nat) as [Hnone _]. apply Hnone. reflexivity.
  - vm_compute in Hrun. discriminate Hrun.
  - vm_compute in Hrun. discriminate Hrun.
Defined.

(** ** Leafs and the surfaces they mark *)

Lemma lor_twice (f bit : Z) : Z.lor (Z.lor f bit) bit = Z.lor f bit.
Proof. by rewrite <- Z.lor_assoc, Z.lor_diag. Qed.

Lemma lor_regroup (f a b c d : Z) :
  Z.lor (Z.lor f (Z.lor a b)) (Z.lor c d)
  = Z.lor f (Z.lor (Z.lor a c) (Z.lor b d)).
Proof.
  apply Z.bits_inj'. intros n _. rewrite !Z.lor_spec.
  by destruct (Z.testbit f n), (Z.testbit a n), (Z.testbit b n),
       (Z.testbit c n), (Z.testbit d n).
Qed.

Section LeafsProps.
Import Leafs.
Variables (CONTENTS_EMPTY SURF_UNDERWATER SURF_DONTWARP MAX_MAP_LEAFS : Z).
Variable isnotmap : bool.
Variable marksurfaces : list Z.

(** The entries [j] to [j + n - 1] of a leaf's marks name surface [s]. *)
Local Abbreviation marks_from first j n s :=
  (exists k : nat,
      (k < n)%nat /\
      marksurfaces !! Z.to_nat (first + j + Z.of_nat k) = Some (Z.of_nat s)).

Lemma mark_loop_spec (first bit : Z) (n : nat) :
  forall (j : Z) (flags : list Z),
    0 <= first -> 0 <= j ->
    first + j + Z.of_nat n <= Z.of_nat (length marksurfaces) ->
    Forall (fun surf => 0 <= surf < Z.of_nat (length flags)) marksurfaces ->
    exists flags',
      mark_loop n j first bit marksurfaces flags = Ok flags' /\
      length flags' = length flags /\
      forall (s : nat) (f : Z),
        flags !! s = Some f ->
        (marks_from first j n s /\ flags' !! s = Some (Z.lor f bit)) \/
        (~ marks_from first j n s /\ flags' !! s = Some f).
Proof.
  induction n as [|n IH]; intros j flags Hfirst Hj Hend Hmarks.
  - exists flags. split_and!; [done | done |]. intros s f Hf. right.
    split; [|done]. intros (k & Hk & _). lia.
  - cbn [mark_loop].
    destruct (peek_in_range marksurfaces (first + j) ltac:(lia))
      as (surf & -> & Hsurf).
    assert (Hin : 0 <= surf < Z.of_nat (length flags)).
    { rewrite List.Forall_forall in Hmarks. apply Hmarks.
      apply list_elem_of_In, list_elem_of_lookup. eauto. }
    destruct (peek_in_range flags surf Hin) as (f0 & -> & Hf0).
    rewrite poke_inside by done.
    destruct (IH (j + 1) (<[Z.to_nat surf := Z.lor f0 bit]> flags))
      as (flags' & -> & Hlen & Hall); [lia | lia | lia | |].
    { by rewrite length_insert. }
    exists flags'. split; [done|]. split; [by rewrite Hlen, length_insert|].
    intros s f Hf.
    assert (Hshift : marks_from first (j + 1) n s ->
                     marks_from first j (S n) s).
    { intros (k & Hk & Hm). exists (S k). split; [lia|].
      rewrite <- Hm. f_equal. lia. }
    assert (Hhead : Z.of_nat s = surf -> marks_from first j (S n) s).
    { intros Heq. exists 0%nat. split; [lia|].
      rewrite Z.add_0_r, Hsurf. by rewrite Heq. }
    assert (Hnone : Z.of_nat s <> surf -> ~ marks_from first (j + 1) n s ->
                    ~ marks_from first j (S n) s).
    { intros Hne Hrest (k & Hk & Hm). destruct k as [|k].
      - rewrite Z.add_0_r, Hsurf in Hm. congruence.
      - apply Hrest. exists k. split; [lia|]. rewrite <- Hm. f_equal. lia. }
    destruct (decide (Z.of_nat s = surf)) as [Heq|Hne].
    + assert (Hnew : <[Z.to_nat surf := Z.lor f0 bit]> flags !! s
                     = Some (Z.lor f bit)).
      { assert (s = Z.to_nat surf) as -> by lia.
        rewrite list_lookup_insert_eq by (by apply lookup_lt_Some in Hf0).
        congruence. }
      left. split; [by apply Hhead|].
      destruct (Hall s _ Hnew) as [[_ ->]|[_ ->]]; [|done].
      by rewrite lor_twice.
    + assert (Hold : <[Z.to_nat surf := Z.lor f0 bit]> flags !! s = Some f).
      { rewrite list_lookup_insert_ne by lia. done. }
      destruct (Hall s _ Hold) as [[Hm ->]|[Hm ->]].
      * left. split; [by apply Hshift | done].
      * right. split; [by apply Hnone | done].
Qed.

Lemma marks_from_start (l : dleaf_t) (s : nat) :
  0 <= d_nummarksurfaces l ->
  marks_from (d_firstmarksurface l) 0 (Z.to_nat (d_nummarksurfaces l)) s
  <-> marks marksurfaces l s.
Proof.
  intros Hnum. unfold marks. split; intros (k & Hk & Hm); exists k.
  - split; [lia|]. rewrite <- Hm. f_equal. lia.
  - split; [lia|]. rewrite <- Hm. f_equal. lia.
Qed.

Lemma added_or (bit : Z) (c1 c2 : Prop) (u1 u2 : Z) :
  added bit c1 u1 -> added bit c2 u2 -> added bit (c1 \/ c2) (Z.lor u1 u2).
Proof.
  intros [[-> H1]|[-> H1]] [[-> H2]|[-> H2]].
  - left. rewrite Z.lor_diag. tauto.
  - left. rewrite Z.lor_0_r. tauto.
  - left. rewrite Z.lor_0_l. tauto.
  - right. rewrite Z.lor_0_l. tauto.
Qed.

Lemma load_leaf_spec (l : dleaf_t) (flags : list Z) :
  marks_inside marksurfaces l ->
  Forall (fun surf => 0 <= surf < Z.of_nat (length flags)) marksurfaces ->
  exists out flags',
    load_leaf CONTENTS_EMPTY SURF_UNDERWATER SURF_DONTWARP isnotmap
      l marksurfaces flags = Ok (out, flags') /\
    length flags' = length flags /\
    forall (s : nat) (f : Z),
      flags !! s = Some f ->
      exists u d,
        flags' !! s = Some (Z.lor f (Z.lor u d)) /\
        added SURF_UNDERWATER
          (d_contents l <> CONTENTS_EMPTY /\ marks marksurfaces l s) u /\
        added SURF_DONTWARP (isnotmap = true /\ marks marksurfaces l s) d.
Proof.
  intros (Hfirst & Hnum & Hend) Hmarks. unfold load_leaf.
  cbn [contents firstmarksurface nummarksurfaces].
  assert (Hwater : exists flags1,
    (if negb (d_contents l =? CONTENTS_EMPTY)
     then mark_loop (Z.to_nat (d_nummarksurfaces l)) 0 (d_firstmarksurface l)
            SURF_UNDERWATER marksurfaces flags
     else Ok flags) = Ok flags1 /\
    length flags1 = length flags /\
    forall (s : nat) (f : Z),
      flags !! s = Some f ->
      exists u, flags1 !! s = Some (Z.lor f u) /\
                added SURF_UNDERWATER
                  (d_contents l <> CONTENTS_EMPTY /\ marks marksurfaces l s) u).
  { destruct (Z.eqb_spec (d_contents l) CONTENTS_EMPTY) as [Heq|Hne]; cbn [negb].
    - exists flags. split_and!; [done | done |]. intros s f Hf. exists 0.
      rewrite Z.lor_0_r. split; [done|]. right. tauto.
    - destruct (mark_loop_spec (d_firstmarksurface l) SURF_UNDERWATER
                  (Z.to_nat (d_nummarksurfaces l)) 0 flags)
        as (flags1 & -> & Hlen & Hall); [lia | lia | lia | done |].
      exists flags1. split_and!; [done | done |]. intros s f Hf.
      destruct (Hall s f Hf) as [[Hm ->]|[Hm ->]].
      + exists SURF_UNDERWATER. split; [done|]. left.
        apply marks_from_start in Hm; [|done]. tauto.
      + exists 0. rewrite Z.lor_0_r. split; [done|]. right.
        rewrite marks_from_start in Hm by done. tauto. }
  destruct Hwater as (flags1 & -> & Hlen1 & Hall1). cbn [mbind result_bind].
  assert (Hwarp : exists flags2,
    (if isnotmap
     then mark_loop (Z.to_nat (d_nummarksurfaces l)) 0 (d_firstmarksurface l)
            SURF_DONTWARP marksurfaces flags1
     else Ok flags1) = Ok flags2 /\
    length flags2 = length flags1 /\
    forall (s : nat) (f : Z),
      flags1 !! s = Some f ->
      exists d, flags2 !! s = Some (Z.lor f d) /\
                added SURF_DONTWARP
                  (isnotmap = true /\ marks marksurfaces l s) d).
  { destruct isnotmap.
    - destruct (mark_loop_spec (d_firstmarksurface l) SURF_DONTWARP
                  (Z.to_nat (d_nummarksurfaces l)) 0 flags1)
        as (flags2 & -> & Hlen & Hall); [lia | lia | lia | by rewrite Hlen1 |].
      exists flags2. split_and!; [done | done |]. intros s f Hf.
      destruct (Hall s f Hf) as [[Hm ->]|[Hm ->]].
      + exists SURF_DONTWARP. split; [done|]. left.
        apply marks_from_start in Hm; [|done]. tauto.
      + exists 0. rewrite Z.lor_0_r. split; [done|]. right.
        rewrite marks_from_start in Hm by done. tauto.
    - exists flags1. split_and!; [done | done |]. intros s f Hf. exists 0.
      rewrite Z.lor_0_r. split; [done|]. right. split; [done|].
      intros [? _]. done. }
  destruct Hwarp as (flags2 & -> & Hlen2 & Hall2).
  cbn [mbind result_bind mret result_ret].
  eexists _, flags2. split; [done|]. split; [congruence|].
  intros s f Hf. destruct (Hall1 s f Hf) as (u & Hu & Hadd1).
  destruct (Hall2 s _ Hu) as (d & Hd & Hadd2).
  exists u, d. split; [|done]. by rewrite Hd, Z.lor_assoc.
Qed.

Lemma leaf_loop_spec (inp : list dleaf_t) :
  forall flags : list Z,
    Forall (marks_inside marksurfaces) inp ->
    Forall (fun surf => 0 <= surf < Z.of_nat (length flags)) marksurfaces ->
    exists outs flags',
      leaf_loop CONTENTS_EMPTY SURF_UNDERWATER SURF_DONTWARP isnotmap
        inp marksurfaces flags = Ok (outs, flags') /\
      length outs = length inp /\
      length flags' = length flags /\
      forall (s : nat) (f : Z),
        flags !! s = Some f ->
        exists u d,
          flags' !! s = Some (Z.lor f (Z.lor u d)) /\
          added SURF_UNDERWATER
            (exists l, In l inp /\ d_contents l <> CONTENTS_EMPTY /\
                       marks marksurfaces l s) u /\
          added SURF_DONTWARP
            (isnotmap = true /\ exists l, In l inp /\ marks marksurfaces l s) d.
Proof.
  induction inp as [|l rest IH]; intros flags Hinside Hmarks.
  - exists [], flags. split_and!; [done | done | done |].
    intros s f Hf. exists 0, 0. rewrite ?Z.lor_0_r.
    split; [done|]. split; right; (split; [done|]).
    + intros (l & [] & _).
    + intros [_ (l & [] & _)].
  - inversion Hinside as [|? ? Hl Hrest]; subst. cbn [leaf_loop].
    destruct (load_leaf_spec l flags Hl Hmarks)
      as (out & flags1 & -> & Hlen1 & Hall1).
    destruct (IH flags1 Hrest) as (outs & flags2 & -> & Hlo & Hlen2 & Hall2).
    { by rewrite Hlen1. }
    exists (out :: outs), flags2.
    split_and!; [done | cbn; lia | congruence |].
    intros s f Hf. destruct (Hall1 s f Hf) as (u1 & d1 & Hf1 & Hu1 & Hd1).
    destruct (Hall2 s _ Hf1) as (u2 & d2 & Hf2 & Hu2 & Hd2).
    exists (Z.lor u1 u2), (Z.lor d1 d2). split; [by rewrite Hf2, lor_regroup|].
    pose proof (added_or _ _ _ _ _ Hu1 Hu2) as Hu.
    pose proof (added_or _ _ _ _ _ Hd1 Hd2) as Hd.
    split.
    + destruct Hu as [[-> Hc]|[-> Hc]]; [left | right]; (split; [done|]).
      * destruct Hc as [[? ?]|(l' & ? & ? & ?)]; [exists l | exists l'];
          cbn; tauto.
      * intros (l' & [<-|Hin] & Hne & Hm); apply Hc; [tauto|].
        right. by exists l'.
    + destruct Hd as [[-> Hc]|[-> Hc]]; [left | right]; (split; [done|]).
      * destruct Hc as [[? ?]|[? (l' & ? & ?)]]; (split; [done|]);
          [exists l | exists l']; cbn; tauto.
      * intros [Hmap (l' & [<-|Hin] & Hm)]; apply Hc; [tauto|].
        right. split; [done|]. by exists l'.
Qed.

(** X17.  [Mod_LoadLeafs] is fatal for more than [MAX_MAP_LEAFS] leafs.
    Otherwise, when the mark-surface entries of every leaf lie inside
    the mark-surface array, it loads every leaf and only ever adds flag
    bits to surfaces: the flags of a surface afterwards are its flags
    before, with [SURF_UNDERWATER] or'ed in exactly when a leaf whose
    contents are not [CONTENTS_EMPTY] marks the surface, and with
    [SURF_DONTWARP] or'ed in exactly when the model is not the map and
    some leaf marks the surface.  A surface that no leaf marks keeps its
    flags. *)
Theorem X17_leafs_mark_surfaces (inp : list dleaf_t) (flags : list Z) :
  (MAX_MAP_LEAFS < Z.of_nat (length inp) ->
   is_fatal (Mod_LoadLeafs CONTENTS_EMPTY SURF_UNDERWATER SURF_DONTWARP
               MAX_MAP_LEAFS isnotmap inp marksurfaces flags)) /\
  (Z.of_nat (length inp) <= MAX_MAP_LEAFS ->
   Forall (marks_inside marksurfaces) inp ->
   Forall (fun surf => 0 <= surf < Z.of_nat (length flags)) marksurfaces ->
   exists outs flags',
     Mod_LoadLeafs CONTENTS_EMPTY SURF_UNDERWATER SURF_DONTWARP
       MAX_MAP_LEAFS isnotmap inp marksurfaces flags = Ok (outs, flags') /\
     length outs = length inp /\
     length flags' = length flags /\
     forall (s : nat) (f : Z),
       flags !! s = Some f ->
       exists u d,
         flags' !! s = Some (Z.lor f (Z.lor u d)) /\
         ((u = SURF_UNDERWATER /\
           exists l, In l inp /\ d_contents l <> CONTENTS_EMPTY /\
                     marks marksurfaces l s) \/
          (u = 0 /\
           ~ exists l, In l inp /\ d_contents l <> CONTENTS_EMPTY /\
                       marks marksurfaces l s)) /\
         ((d = SURF_DONTWARP /\ isnotmap = true /\
           exists l, In l inp /\ marks marksurfaces l s) \/
          (d = 0 /\
           ~ (isnotmap = true /\
              exists l, In l inp /\ marks marksurfaces l s)))).
Proof.
  unfold Mod_LoadLeafs. split.
  - intros Hmany.
    destruct (Z.gtb_spec (Z.of_nat (length inp)) MAX_MAP_LEAFS); [|lia].
    by eexists.
  - intros Hcount Hinside Hmarks.
    destruct (Z.gtb_spec (Z.of_nat (length inp)) MAX_MAP_LEAFS); [lia|].
    destruct (leaf_loop_spec inp flags Hinside Hmarks)
      as (outs & flags' & Hrun & Hlo & Hlen & Hall).
    exists outs, flags'. split_and!; [done | done | done |].
    intros s f Hf. destruct (Hall s f Hf) as (u & d & Hf' & Hu & Hd).
    exists u, d. split; [done|]. split; [exact Hu|].
    destruct Hd as [[-> [? ?]]|[-> ?]]; [left | right]; done.
Qed.

End LeafsProps.

(** [X17_leafs_mark_surfaces] on the sample leafs, with the stock flag
    values 0x80 and 0x100: the surfaces 0 and 1, which the water leaf
    marks, get both flags, surface 2 gets [SURF_DONTWARP] alone, and
    surface 3, which no leaf marks, keeps its flags. *)
Lemma X17_leafs_mark_surfaces_witness :
  exists outs,
    Leafs.Mod_LoadLeafs (-1) 128 256 8192 true Leafs.sample_leafs
      Leafs.sample_marks [0; 0; 0; 4] = Ok (outs, [384; 384; 256; 4]).
Proof.
  destruct (X17_leafs_mark_surfaces (-1) 128 256 8192 true Leafs.sample_marks
              Leafs.sample_leafs [0; 0; 0; 4]) as [_ Hload].
  destruct Hload as (outs & flags' & Hrun & _).
  - cbn. lia.
  - repeat constructor; cbn; lia.
  - repeat constructor; cbn; lia.
  - exists outs. rewrite Hrun. pose proof Hrun as Hvalue.
    vm_compute in Hvalue. injection Hvalue as _ <-. reflexivity.
Defined.

(** ** Alias models: the pose tables have no guard *)

Section PoseOverflowProps.
Import Alias.
Context `{Headers}.

Lemma Mod_LoadAliasFrame_overflow (inp : daliasframe_t)
    (frame : maliasframedesc_t) (st : poses) :
  poses_ok st -> MAXALIASFRAMES <= posenum st ->
  exists what, Mod_LoadAliasFrame inp frame st = Undefined what.
Proof.
  intros (Hv & Hi & Hcap & Hpos) Hfull. unfold Mod_LoadAliasFrame, poke.
  destruct (Z.ltb_spec (posenum st) 0) as [?|_]; [lia|].
  destruct (Z.ltb_spec (posenum st) (Z.of_nat (length (poseverts st))))
    as [?|_]; [lia|].
  cbn. eauto.
Qed.

Lemma frame_loop_overflow (rest : list daliasframetype_t) :
  forall (done : list daliasframetype_t) (frames : list maliasframedesc_t)
         (st : poses),
    poses_ok st -> posenum st <= MAXALIASFRAMES ->
    Forall (fun rec => exists f, rec = frame_single f) rest ->
    MAXALIASFRAMES - posenum st < Z.of_nat (length rest) ->
    (length done + length rest <= length frames)%nat ->
    exists what,
      frame_loop (length rest) (Z.of_nat (length done)) (done ++ rest)
        frames st = Undefined what.
Proof.
  induction rest as [|rec rest IH];
    intros done frames st Hok Hcur Hsingle Hover Hlen.
  - cbn in Hover. lia.
  - inversion Hsingle as [|? ? [f ->] Hrest]; subst. cbn [length] in *.
    cbn [frame_loop].
    assert (Hrec : peek (done ++ frame_single f :: rest)
                     (Z.of_nat (length done)) = Ok (frame_single f)).
    { apply peek_lookup. by rewrite lookup_app_r, Nat.sub_diag by lia. }
    destruct (lookup_lt_is_Some_2 frames (length done)) as [frame Hframe];
      [lia|].
    rewrite Hrec, (peek_lookup _ _ _ Hframe).
    destruct (Z.eq_dec (posenum st) MAXALIASFRAMES) as [Hfull|Hroom].
    + destruct (Mod_LoadAliasFrame_overflow f frame st Hok ltac:(lia))
        as [what ->]. eauto.
    + destruct (Mod_LoadAliasFrame_spec f frame st Hok ltac:(lia))
        as (frame' & st' & -> & _ & _ & Hok' & Hnum').
      specialize (IH (done ++ [frame_single f])
                    (<[Z.to_nat (Z.of_nat (length done)) := frame']> frames)
                    st' Hok' ltac:(lia) Hrest ltac:(lia)).
      rewrite length_app, length_insert in IH. cbn [length] in IH.
      rewrite <- app_assoc in IH. cbn [app] in IH.
      replace (Z.of_nat (length done) + 1)
        with (Z.of_nat (length done + 1)) by lia.
      apply IH. lia.
Qed.

(** X18.  Nothing bounds the pose cursor: neither the header tests nor
    the frame loop compare the number of poses with [MAXALIASFRAMES].
    A header with more than [MAXALIASFRAMES] frames passes the tests,
    and loading that many single frames runs the cursor off the pose
    tables [poseverts] and [poseintervals]. *)
Theorem X18_pose_tables_unguarded (p : mdl_t)
    (records : list daliasframetype_t) (frames : list maliasframedesc_t)
    (st : poses) :
  header_tests p -> numframes p = Z.of_nat (length records) ->
  poses_ok st -> 0 <= MAXALIASFRAMES ->
  Forall (fun rec => exists f, rec = frame_single f) records ->
  MAXALIASFRAMES < Z.of_nat (length records) ->
  length frames = length records ->
  (exists h, Mod_LoadAliasModel_header p = Ok h /\
             h_numframes h = numframes p) /\
  exists what,
    load_frames (numframes p) records frames st = Undefined what.
Proof.
  intros Htests Hnum Hok Hcap Hsingle Hmany Hlen. split.
  - apply header_passes_iff in Htests as [h Hh]. exists h. split; [done|].
    unfold Mod_LoadAliasModel_header in Hh.
    repeat match type of Hh with
           | (if ?b then _ else _) = _ => destruct b; [done|]
           end.
    by injection Hh as <-.
  - unfold load_frames. rewrite Hnum, Nat2Z.id.
    destruct Hok as (Hv & Hi & Hmax & Hpos).
    destruct (frame_loop_overflow records [] frames
                {| poseverts := poseverts st;
                   poseintervals := poseintervals st; posenum := 0 |})
      as [what Hwhat].
    + done.
    + cbn. lia.
    + done.
    + cbn. lia.
    + cbn. lia.
    + cbn [length app] in Hwhat. change (Z.of_nat 0) with 0 in Hwhat.
      rewrite Hwhat. eauto.
Qed.

End PoseOverflowProps.

(** [X18_pose_tables_unguarded] on a model of 257 single frames, one more
    than the pose tables hold. *)
Lemma X18_pose_tables_unguarded_witness :
  exists what,
    Alias.load_frames 257
      (replicate 257 (Alias.frame_single (Alias.sample_frame "stand")))
      (replicate 257 Alias.blank_desc) Alias.blank_poses
    = Undefined what.
Proof.
  apply (@X18_pose_tables_unguarded stock_headers
           {| Alias.version := 6; Alias.numskins := 1; Alias.skinwidth := 8;
              Alias.skinheight := 8; Alias.numverts := 3; Alias.numtris := 1;
              Alias.numframes := 257; Alias.synctype := 0; Alias.flags := 0 |}
           (replicate 257 (Alias.frame_single (Alias.sample_frame "stand")))
           (replicate 257 Alias.blank_desc) Alias.blank_poses).
  - unfold Alias.header_tests. cbn. lia.
  - reflexivity.
  - unfold Alias.poses_ok. cbn. unfold INT_MAX. lia.
  - cbn. lia.
  - apply Forall_replicate. by eexists.
  - rewrite length_replicate. cbn. lia.
  - by rewrite !length_replicate.
Defined.

(** ** Nodes and their parents *)

Section NodesProps.
Import Tree Nodes.
Variables (nds : list mnode_t) (m : model_t).

Lemma walk_head (node : node_ptr) (els : list node_ptr) :
  walk nds m node els -> exists rest, els = node :: rest.
Proof. destruct 1; eauto. Qed.

Lemma walk_in (node : node_ptr) (els : list node_ptr) :
  walk nds m node els -> In node els.
Proof. intros Hw. destruct (walk_head _ _ Hw) as [rest ->]. by left. Qed.

(** The children of a visited node that is not taken for a leaf are
    visited too. *)
Lemma walk_children (node : node_ptr) (els : list node_ptr) :
  walk nds m node els ->
  forall (i : Z) (n : mnode_t),
    In (to_node i) els -> peek nds i = Ok n -> 0 <= contents n ->
    In (fst (children n)) els /\ In (snd (children n)) els.
Proof.
  induction 1 as [node c Hc Hneg|i0 n0 l1 l2 Hn0 Hpos Hw1 IH1 Hw2 IH2];
    intros i n Hin Hn Hcontents.
  - destruct Hin as [->|[]]. cbn in Hc. rewrite Hn in Hc. cbn in Hc.
    injection Hc as <-. lia.
  - destruct Hin as [Heq|Hin].
    + injection Heq as <-. rewrite Hn in Hn0. injection Hn0 as <-.
      split; right; apply in_or_app;
        [left; by apply walk_in | right; by apply walk_in].
    + apply in_app_or in Hin as [Hin|Hin].
      * destruct (IH1 i n Hin Hn Hcontents). split; right; apply in_or_app; tauto.
      * destruct (IH2 i n Hin Hn Hcontents). split; right; apply in_or_app; tauto.
Qed.

Lemma set_parent_spec (st : parents) (node : node_ptr)
    (parent : option node_ptr) (c : Z) :
  sized nds m st -> contents_at nds m node = Ok c ->
  exists st',
    set_parent st node parent = Ok st' /\ sized nds m st' /\
    parent_of st' node = Some parent /\
    forall e, e <> node -> parent_of st' e = parent_of st e.
Proof.
  intros [Hsn Hsl] Hc. destruct node as [i|i]; cbn in Hc |- *.
  - destruct (peek nds i) as [n| |] eqn:Hn; [|done|done].
    apply peek_Ok_inv in Hn as [Hi Hn]. apply lookup_lt_Some in Hn.
    rewrite poke_inside by lia. cbn. eexists. split; [done|]. split_and!.
    + split; cbn; [by rewrite length_insert | done].
    + destruct (Z.ltb_spec i 0); [lia|]. cbn.
      apply list_lookup_insert_eq. lia.
    + intros [j|j] Hne; cbn; [|done].
      destruct (Z.ltb_spec j 0); [done|].
      apply list_lookup_insert_ne. intros Heq. apply Hne. f_equal. lia.
  - destruct (peek (leafs m) i) as [l| |] eqn:Hl; [|done|done].
    apply peek_Ok_inv in Hl as [Hi Hl]. apply lookup_lt_Some in Hl.
    rewrite poke_inside by lia. cbn. eexists. split; [done|]. split_and!.
    + split; cbn; [done | by rewrite length_insert].
    + destruct (Z.ltb_spec i 0); [lia|]. cbn.
      apply list_lookup_insert_eq. lia.
    + intros [j|j] Hne; cbn; [done|].
      destruct (Z.ltb_spec j 0); [done|].
      apply list_lookup_insert_ne. intros Heq. apply Hne. f_equal. lia.
Qed.

Lemma Mod_SetParent_walk (node : node_ptr) (els : list node_ptr) :
  walk nds m node els ->
  forall (fuel : nat) (parent : option node_ptr) (st : parents),
    (length els <= fuel)%nat -> List.NoDup els -> sized nds m st ->
    exists st',
      Mod_SetParent fuel nds m node parent st = Some (Ok st') /\
      sized nds m st' /\
      parent_of st' node = Some parent /\
      (forall e, ~ In e els -> parent_of st' e = parent_of st e) /\
      (forall (i : Z) (n : mnode_t),
          In (to_node i) els -> peek nds i = Ok n -> 0 <= contents n ->
          parent_of st' (fst (children n)) = Some (Some (to_node i)) /\
          parent_of st' (snd (children n)) = Some (Some (to_node i))).
Proof.
  induction 1 as [node c Hc Hneg|i0 n0 l1 l2 Hn0 Hpos Hw1 IH1 Hw2 IH2];
    intros fuel parent st Hfuel Hnodup Hsized.
  - destruct fuel as [|fuel]; [cbn in Hfuel; lia|]. cbn [Mod_SetParent].
    destruct (set_parent_spec st node parent c Hsized Hc)
      as (st1 & -> & Hsized1 & Hroot & Hframe).
    rewrite Hc. destruct (Z.ltb_spec c 0) as [_|?]; [|lia].
    exists st1. split_and!; [done | done | done | |].
    + intros e He. apply Hframe. intros ->. apply He. by left.
    + intros i n [->|[]] Hn Hcontents. cbn in Hc. rewrite Hn in Hc.
      cbn in Hc. injection Hc as <-. lia.
  - destruct fuel as [|fuel]; [cbn in Hfuel; lia|]. cbn [Mod_SetParent].
    cbn [length] in Hfuel. rewrite length_app in Hfuel.
    apply List.NoDup_cons_iff in Hnodup as [Hfresh Hnodup].
    pose proof (List.NoDup_app_remove_l _ _ Hnodup) as Hnd2.
    pose proof (List.NoDup_app_remove_r _ _ Hnodup) as Hnd1.
    assert (Hdisjoint : forall e, In e l1 -> ~ In e l2).
    { intros e H1 H2. apply in_split in H1 as (a & b & ->).
      rewrite <- app_assoc in Hnodup. cbn in Hnodup.
      apply List.NoDup_remove_2 in Hnodup. apply Hnodup.
      apply in_or_app. right. apply in_or_app. by right. }
    assert (Hc0 : contents_at nds m (to_node i0) = Ok (contents n0)).
    { cbn. by rewrite Hn0. }
    destruct (set_parent_spec st (to_node i0) parent _ Hsized Hc0)
      as (st1 & -> & Hsized1 & Hroot & Hframe).
    rewrite Hc0. destruct (Z.ltb_spec (contents n0) 0) as [?|_]; [lia|].
    rewrite Hn0.
    destruct (IH1 fuel (Some (to_node i0)) st1 ltac:(lia) Hnd1 Hsized1)
      as (st2 & -> & Hsized2 & Hroot1 & Hframe1 & Hkids1).
    destruct (IH2 fuel (Some (to_node i0)) st2 ltac:(lia) Hnd2 Hsized2)
      as (st3 & -> & Hsized3 & Hroot2 & Hframe2 & Hkids2).
    assert (Hnot1 : ~ In (to_node i0) l1)
      by (intros ?; apply Hfresh, in_or_app; by left).
    assert (Hnot2 : ~ In (to_node i0) l2)
      by (intros ?; apply Hfresh, in_or_app; by right).
    exists st3. split_and!; [done | done | | |].
    + by rewrite Hframe2, Hframe1.
    + intros e He.
      rewrite Hframe2 by (intros ?; apply He; right; apply in_or_app; by right).
      rewrite Hframe1 by (intros ?; apply He; right; apply in_or_app; by left).
      apply Hframe. intros ->. apply He. by left.
    + intros i n Hin Hn Hcontents. destruct Hin as [Heq|Hin].
      * injection Heq as <-. rewrite Hn in Hn0. injection Hn0 as <-.
        split; [|done].
        rewrite Hframe2; [done|]. apply Hdisjoint. by apply (walk_in _ _ Hw1).
      * apply in_app_or in Hin as [Hin|Hin].
        -- destruct (Hkids1 i n Hin Hn Hcontents) as [Hk0 Hk1].
           destruct (walk_children _ _ Hw1 i n Hin Hn Hcontents) as [Hi0 Hi1].
           rewrite !Hframe2 by (by apply Hdisjoint). done.
        -- by apply Hkids2.
Qed.

End NodesProps.

Section LoadNodesProps.
Import Tree Nodes.

(** X19.  [Mod_LoadNodes] turns a child number that is not negative into
    the node of that number and a negative one [p] into the leaf
    [-1 - p].  When what can be reached from node 0 is a tree (no
    element is reached twice), [Mod_SetParent] returns, and afterwards
    the parent of node 0 is NULL, both children of every node of the
    tree have that node as their parent, and the parent of every
    element outside the tree is what it was. *)
Theorem X19_load_nodes_parents (inp : list dnode_t) (m : model_t)
    (st : parents) (els : list node_ptr) (fuel : nat) :
  walk (map load_node inp) m (to_node 0) els ->
  List.NoDup els -> sized (map load_node inp) m st ->
  (length els <= fuel)%nat ->
  exists st',
    Mod_LoadNodes fuel inp m st = Some (Ok (map load_node inp, st')) /\
    parent_of st' (to_node 0) = Some None /\
    (forall (i : nat) (d : dnode_t),
        In (to_node (Z.of_nat i)) els -> inp !! i = Some d ->
        parent_of st' (child_ptr (fst (d_children d)))
        = Some (Some (to_node (Z.of_nat i))) /\
        parent_of st' (child_ptr (snd (d_children d)))
        = Some (Some (to_node (Z.of_nat i)))) /\
    (forall e, ~ In e els -> parent_of st' e = parent_of st e).
Proof.
  intros Hwalk Hnodup Hsized Hfuel. unfold Mod_LoadNodes.
  destruct (Mod_SetParent_walk _ m _ _ Hwalk fuel None st Hfuel Hnodup Hsized)
    as (st' & -> & _ & Hroot & Hframe & Hkids).
  exists st'. split_and!; [done | done | | done].
  intros i d Hin Hd.
  apply (Hkids (Z.of_nat i) (load_node d)); [done | | cbn; lia].
  apply peek_lookup. by rewrite list_lookup_fmap, Hd.
Qed.

End LoadNodesProps.

(** [X19_load_nodes_parents] on the two sample nodes: the walk visits
    node 0, node 1, the leafs 2 and 0, and leaf 1. *)
Lemma X19_load_nodes_parents_witness :
  exists st',
    Nodes.Mod_LoadNodes 5 Nodes.sample_nodes Nodes.sample_leafs
      Nodes.no_parents
    = Some (Ok (map Nodes.load_node Nodes.sample_nodes, st')) /\
    Nodes.parent_of st' (Tree.to_node 0) = Some None /\
    Nodes.parent_of st' (Tree.to_leaf 2) = Some (Some (Tree.to_node 1)).
Proof.
  destruct (X19_load_nodes_parents Nodes.sample_nodes Nodes.sample_leafs
              Nodes.no_parents
              [Tree.to_node 0; Tree.to_node 1; Tree.to_leaf 2; Tree.to_leaf 0;
               Tree.to_leaf 1] 5)
    as (st' & Hrun & Hroot & Hkids & _).
  - apply (Nodes.walk_node _ _ 0
             (Nodes.load_node {| Nodes.d_planenum := 0;
                                 Nodes.d_children := (1, -2) |})
             [Tree.to_node 1; Tree.to_leaf 2; Tree.to_leaf 0] [Tree.to_leaf 1]);
      [reflexivity | cbn; lia | |].
    + apply (Nodes.walk_node _ _ 1
               (Nodes.load_node {| Nodes.d_planenum := 1;
                                   Nodes.d_children := (-3, -1) |})
               [Tree.to_leaf 2] [Tree.to_leaf 0]);
        [reflexivity | cbn; lia | |].
      * by apply (Nodes.walk_leaf _ _ _ (-3)).
      * by apply (Nodes.walk_leaf _ _ _ (-2)).
    + by apply (Nodes.walk_leaf _ _ _ (-1)).
  - repeat (constructor; [cbn; intros Hin; repeat destruct Hin as [Hin|Hin];
                          (discriminate Hin || exact Hin)|]).
    constructor.
  - split; reflexivity.
  - cbn. lia.
  - exists st'. split; [exact Hrun|]. split; [exact Hroot|].
    destruct (Hkids 1%nat {| Nodes.d_planenum := 1;
                             Nodes.d_children := (-3, -1) |}) as [Hfirst _].
    + cbn. tauto.
    + reflexivity.
    + exact Hfirst.
Defined.

(** ** The radius of a bounding box *)

Section BoundsProps.
Import Bounds.
Variable Length : Q * Q * Q -> Q.

Lemma fabs_cases (x : Q) :
  ((0 <= x)%Q /\ fabs x = x) \/ ((x < 0)%Q /\ fabs x = (- x)%Q).
Proof.
  unfold fabs. destruct (Qle_bool 0 x) eqn:Hle.
  - left. by apply Qle_bool_iff in Hle.
  - right. split; [|done]. apply Qnot_le_lt. intros Hc.
    apply Qle_bool_iff in Hc. congruence.
Qed.

Lemma fabs_of_nonneg (x : Q) : (0 <= x)%Q -> fabs x = x.
Proof. intros Hx. unfold fabs. apply Qle_bool_iff in Hx. by rewrite Hx. Qed.

Lemma corner_of_bounds (mn mx x : Q) :
  (mn <= x <= mx)%Q ->
  (fabs x <= corner_of mn mx)%Q /\ (0 <= corner_of mn mx)%Q.
Proof.
  intros [Hlo Hhi]. unfold corner_of, Faces.Qltb.
  destruct (fabs_cases x) as [[? ->]|[? ->]],
           (fabs_cases mn) as [[? ->]|[? ->]],
           (fabs_cases mx) as [[? ->]|[? ->]];
    match goal with
    | |- context [Qle_bool ?a ?b] =>
        destruct (Qle_bool a b) eqn:Hle; cbn [negb];
        [apply Qle_bool_iff in Hle
        |assert (b < a)%Q
           by (apply Qnot_le_lt; intros Hc; apply Qle_bool_iff in Hc;
               congruence)]
    end; split; lra.
Qed.

(** X20.  The radius that [RadiusFromBounds] gives a box reaches every
    point of the box: for a [Length] that does not shrink when the
    absolute value of a component grows, as the Euclidean length does
    not, the length of every point inside the box is at most the
    radius. *)
Theorem X20_radius_covers_box (mins maxs p : Q * Q * Q) :
  monotone Length -> inside mins maxs p ->
  (Length p <= RadiusFromBounds Length mins maxs)%Q.
Proof.
  intros Hmono (Hx & Hy & Hz). unfold RadiusFromBounds. apply Hmono; cbn.
  - destruct (corner_of_bounds _ _ _ Hx) as [Hle Hpos].
    by rewrite (fabs_of_nonneg (corner_of _ _)).
  - destruct (corner_of_bounds _ _ _ Hy) as [Hle Hpos].
    by rewrite (fabs_of_nonneg (corner_of _ _)).
  - destruct (corner_of_bounds _ _ _ Hz) as [Hle Hpos].
    by rewrite (fabs_of_nonneg (corner_of _ _)).
Qed.

End BoundsProps.

Lemma sum_length_monotone : Bounds.monotone Bounds.sum_length.
Proof.
  intros a b Hx Hy Hz. unfold Bounds.sum_length. lra.
Qed.

(** [X20_radius_covers_box] on the box from (-17, -17, -25) to
    (17, 17, 33) and the point (4, -5, 30). *)
Lemma X20_radius_covers_box_witness :
  (Bounds.sum_length (4, -5, 30)
   <= Bounds.RadiusFromBounds Bounds.sum_length
        (-17, -17, -25) (17, 17, 33))%Q.
Proof.
  apply (X20_radius_covers_box Bounds.sum_length).
  - exact sum_length_monotone.
  - unfold Bounds.inside. cbn. lra.
Defined.

(** ** Alias models: the flood fill of a skin *)

Lemma count_of_nonneg (v : Z) (pixels : list Z) : 0 <= FloodFill.count_of v pixels.
Proof.
  induction pixels as [|c rest IH]; cbn [FloodFill.count_of]; [lia|].
  destruct (c =? v); lia.
Qed.

Lemma count_of_length (v : Z) (pixels : list Z) :
  FloodFill.count_of v pixels <= Z.of_nat (length pixels).
Proof.
  induction pixels as [|c rest IH]; cbn [FloodFill.count_of length]; [lia|].
  destruct (c =? v); lia.
Qed.

Lemma count_of_insert (v c : Z) (pixels : list Z) :
  forall (k : nat) (c0 : Z),
    pixels !! k = Some c0 ->
    FloodFill.count_of v (<[k := c]> pixels)
    = FloodFill.count_of v pixels - (if c0 =? v then 1 else 0)
      + (if c =? v then 1 else 0).
Proof.
  induction pixels as [|p rest IH]; intros k c0 Hk; [done|].
  destruct k as [|k]; cbn [FloodFill.count_of].
  - cbn in Hk. injection Hk as ->. cbn [FloodFill.count_of].
    change (<[0%nat := c]> (c0 :: rest)) with (c :: rest).
    cbn [FloodFill.count_of]. lia.
  - change (<[S k := c]> (p :: rest)) with (p :: <[k := c]> rest).
    cbn [FloodFill.count_of]. rewrite (IH k c0) by done. lia.
Qed.

Lemma mod_add_cong (a c e : Z) :
  a mod 4096 = c mod 4096 -> (a + e) mod 4096 = (c + e) mod 4096.
Proof. intros Heq. by rewrite (Zplus_mod a), Heq, <- Zplus_mod. Qed.

Lemma land_mask (x : Z) : Z.land x 4095 = x mod 4096.
Proof. change 4095 with (Z.ones 12). by rewrite Z.land_ones by lia. Qed.

Section FloodFillProps.
Import FloodFill.
Variables (fillcolor filledcolor skinwidth skinheight : Z).
Variable pixels0 : list Z.
Hypothesis Hfill255 : fillcolor <> 255.
Hypothesis Hfilled : filledcolor <> fillcolor.
Hypothesis Hwidth : 0 < skinwidth <= 32767.
Hypothesis Hheight : 0 < skinheight <= 32767.
Hypothesis Hsize : skinwidth * skinheight <= Z.of_nat (length pixels0).

Local Abbreviation ok_state := (good fillcolor skinwidth skinheight pixels0).
Local Abbreviation ok_cell := (cell fillcolor skinwidth skinheight pixels0).

Lemma pixel_index (x y : Z) :
  0 <= x < skinwidth -> 0 <= y < skinheight ->
  0 <= x + skinwidth * y < skinwidth * skinheight.
Proof. intros Hx Hy. nia. Qed.

(** A pixel that has the fill colour now had it at the start. *)
Lemma still_fill (st : fill_state) (hw : Z) (k : nat) :
  ok_state st hw -> skin st !! k = Some fillcolor ->
  pixels0 !! k = Some fillcolor.
Proof.
  intros (_ & _ & _ & _ & _ & _ & Hframe & _) Hk.
  destruct (decide (pixels0 !! k = Some fillcolor)) as [|Hne]; [done|].
  rewrite Hframe in Hk by (by left). done.
Qed.

Lemma step_spec (x y pos off dx dy : Z) (st : fill_state) (hw : Z) :
  ok_state st hw ->
  0 <= x + dx < skinwidth -> 0 <= y + dy < skinheight ->
  pos + off = (x + dx) + skinwidth * (y + dy) ->
  exists st' hw',
    FLOODFILL_STEP fillcolor x y pos off dx dy st = Ok st' /\
    ok_state st' hw' /\ hw <= hw' /\
    ((count_of fillcolor (skin st') = count_of fillcolor (skin st) - 1 /\
      inpt st' = (inpt st + 1) mod 4096) \/
     (count_of fillcolor (skin st') = count_of fillcolor (skin st) /\
      inpt st' = inpt st)).
Proof.
  intros Hok Hx Hy Hpos.
  pose proof Hok as (Hlen & Hflen & Hin & Hhw & Hhwin & Hslots & Hframe & Hfdc).
  change FLOODFILL_FIFO_SIZE with 4096 in *.
  pose proof (pixel_index _ _ Hx Hy) as Hidx. rewrite <- Hpos in Hidx.
  unfold FLOODFILL_STEP.
  destruct (peek_in_range (skin st) (pos + off) ltac:(lia)) as (c & -> & Hc).
  cbn [mbind result_bind].
  destruct (Z.eqb_spec c fillcolor) as [->|Hne].
  - rewrite poke_inside by lia. cbn [mbind result_bind].
    rewrite poke_inside by lia. cbn [mbind result_bind mret result_ret].
    assert (Hnext : Z.land (int_add (inpt st) 1) FLOODFILL_FIFO_MASK
                    = (inpt st + 1) mod 4096).
    { change FLOODFILL_FIFO_MASK with 4095. rewrite land_mask. f_equal.
      unfold int_add. apply wrap_small. unfold is_int, INT_MIN, INT_MAX. lia. }
    rewrite Hnext.
    assert (Hwrap : (wrap 16 (x + dx), wrap 16 (y + dy)) = (x + dx, y + dy)).
    { f_equal; apply wrap_fits; lia. }
    rewrite Hwrap.
    assert (Hcell : ok_cell (x + dx, y + dy)).
    { split_and!; cbn [fst snd]; [lia | lia | lia | lia |].
      rewrite <- Hpos. by apply (still_fill st hw). }
    eexists _, (if decide (hw < 4096) then hw + 1 else hw).
    split; [done|]. split; [|split].
    + unfold good. cbn [skin fifo inpt fdc]. rewrite !length_insert.
      change FLOODFILL_FIFO_SIZE with 4096.
      pose proof (Z.mod_pos_bound (inpt st + 1) 4096 ltac:(lia)).
      split_and!; try done; try lia.
      * destruct (decide (hw < 4096)); lia.
      * destruct (decide (hw < 4096)); lia.
      * intros Hlt. destruct (decide (hw < 4096)) as [Hhw'|?]; [|lia].
        rewrite (Hhwin Hhw'). rewrite Z.mod_small by lia. lia.
      * intros s Hs.
        destruct (decide (s = inpt st)) as [->|Hns].
        -- eexists. split; [|exact Hcell].
           apply list_lookup_insert_eq. lia.
        -- rewrite list_lookup_insert_ne by lia. apply Hslots.
           destruct (decide (hw < 4096)) as [Hhw'|?]; [|lia].
           rewrite (Hhwin Hhw') in Hns. lia.
      * intros k Hk.
        destruct (decide (k = Z.to_nat (pos + off))) as [->|Hnk].
        -- exfalso. destruct Hk as [Hk|Hk]; [|lia].
           apply Hk. by apply (still_fill st hw).
        -- rewrite list_lookup_insert_ne by done. by apply Hframe.
    + destruct (decide (hw < 4096)); lia.
    + left. split; [|done]. cbn [skin].
      rewrite (count_of_insert _ _ _ _ _ Hc), Z.eqb_refl.
      destruct (Z.eqb_spec 255 fillcolor); [congruence | lia].
  - cbn [negb]. destruct (Z.eqb_spec c 255) as [->|Hn255]; cbn [negb].
    + exists st, hw. split_and!; [done | done | lia |]. right. done.
    + eexists _, hw. split; [done|]. split_and!; [|lia|by right].
      unfold good. cbn [skin fifo inpt fdc].
      change FLOODFILL_FIFO_SIZE with 4096. done.
Qed.

(** Four steps in a row: each is run or passed over. *)
Lemma steps_measure (c0 c1 i0 i1 : Z) :
  (c1 = c0 - 1 /\ i1 = (i0 + 1) mod 4096) \/ (c1 = c0 /\ i1 = i0) ->
  exists e, (e = 0 \/ e = 1) /\ c1 = c0 - e /\ i1 mod 4096 = (i0 + e) mod 4096.
Proof.
  intros [[-> ->]|[-> ->]].
  - exists 1. split_and!; [lia | done |]. by rewrite Z.mod_mod by lia.
  - exists 0. split_and!; [lia | lia |]. by rewrite Z.add_0_r.
Qed.

Lemma turn_spec (outpt : Z) (st : fill_state) (hw : Z) :
  ok_state st hw -> 0 <= outpt < 4096 -> outpt <> inpt st ->
  (hw < 4096 -> outpt < inpt st) ->
  exists st' outpt' hw',
    flood_turn fillcolor filledcolor skinwidth skinheight outpt st
    = Ok (st', outpt') /\
    ok_state st' hw' /\ 0 <= outpt' < 4096 /\
    (hw' < 4096 -> outpt' <= inpt st') /\
    left_to_do fillcolor st' outpt' < left_to_do fillcolor st outpt.
Proof.
  intros Hok Hout Hne Hlive.
  pose proof Hok as (Hlen & Hflen & Hin & Hhw & Hhwin & Hslots & Hframe & Hfdc).
  change FLOODFILL_FIFO_SIZE with 4096 in *.
  unfold flood_turn.
  destruct (Hslots outpt) as ([x y] & He & Hx & Hy & Hpix).
  { destruct (decide (hw < 4096)) as [Hlt|?]; [|lia].
    specialize (Hlive Hlt). rewrite (Hhwin Hlt) in Hlive. lia. }
  cbn [fst snd] in Hx, Hy, Hpix.
  rewrite (peek_inside _ outpt _ ltac:(lia) He). cbn [mbind result_bind fst snd].
  pose proof (pixel_index _ _ Hx Hy) as Hidx.
  assert (Hposv : int_add x (int_mul skinwidth y) = x + skinwidth * y).
  { unfold int_add, int_mul.
    rewrite (wrap_small (skinwidth * y))
      by (unfold is_int, INT_MIN, INT_MAX; nia).
    apply wrap_small. unfold is_int, INT_MIN, INT_MAX. nia. }
  rewrite Hposv.
  assert (Hw1 : int_sub skinwidth 1 = skinwidth - 1)
    by (unfold int_sub; apply wrap_small; unfold is_int, INT_MIN, INT_MAX; lia).
  assert (Hh1 : int_sub skinheight 1 = skinheight - 1)
    by (unfold int_sub; apply wrap_small; unfold is_int, INT_MIN, INT_MAX; lia).
  assert (Hnw : int_sub 0 skinwidth = - skinwidth)
    by (unfold int_sub; apply wrap_small; unfold is_int, INT_MIN, INT_MAX; lia).
  rewrite Hw1, Hh1, Hnw.
  set (st0 := {| skin := skin st; fifo := fifo st; inpt := inpt st;
                 fdc := filledcolor |}).
  assert (Hok0 : ok_state st0 hw)
    by (unfold good; change FLOODFILL_FIFO_SIZE with 4096; cbn; done).
  (* the four neighbours *)
  assert (H1 : exists st1 hw1,
    (if x >? 0
     then FLOODFILL_STEP fillcolor x y (x + skinwidth * y) (-1) (-1) 0 st0
     else Ok st0) = Ok st1 /\
    ok_state st1 hw1 /\ hw <= hw1 /\
    ((count_of fillcolor (skin st1) = count_of fillcolor (skin st0) - 1 /\
      inpt st1 = (inpt st0 + 1) mod 4096) \/
     (count_of fillcolor (skin st1) = count_of fillcolor (skin st0) /\
      inpt st1 = inpt st0))).
  { destruct (Z.gtb_spec x 0).
    - apply step_spec; [done | lia | lia | lia].
    - exists st0, hw. split_and!; [done | done | lia | by right]. }
  destruct H1 as (st1 & hw1 & -> & Hok1 & Hhw1 & Hm1).
  cbn [mbind result_bind].
  assert (H2 : exists st2 hw2,
    (if x <? skinwidth - 1
     then FLOODFILL_STEP fillcolor x y (x + skinwidth * y) 1 1 0 st1
     else Ok st1) = Ok st2 /\
    ok_state st2 hw2 /\ hw1 <= hw2 /\
    ((count_of fillcolor (skin st2) = count_of fillcolor (skin st1) - 1 /\
      inpt st2 = (inpt st1 + 1) mod 4096) \/
     (count_of fillcolor (skin st2) = count_of fillcolor (skin st1) /\
      inpt st2 = inpt st1))).
  { destruct (Z.ltb_spec x (skinwidth - 1)).
    - apply step_spec; [done | lia | lia | lia].
    - exists st1, hw1. split_and!; [done | done | lia | by right]. }
  destruct H2 as (st2 & hw2 & -> & Hok2 & Hhw2 & Hm2).
  cbn [mbind result_bind].
  assert (H3 : exists st3 hw3,
    (if y >? 0
     then FLOODFILL_STEP fillcolor x y (x + skinwidth * y) (- skinwidth)
            0 (-1) st2
     else Ok st2) = Ok st3 /\
    ok_state st3 hw3 /\ hw2 <= hw3 /\
    ((count_of fillcolor (skin st3) = count_of fillcolor (skin st2) - 1 /\
      inpt st3 = (inpt st2 + 1) mod 4096) \/
     (count_of fillcolor (skin st3) = count_of fillcolor (skin st2) /\
      inpt st3 = inpt st2))).
  { destruct (Z.gtb_spec y 0).
    - apply step_spec; [done | lia | lia | lia].
    - exists st2, hw2. split_and!; [done | done | lia | by right]. }
  destruct H3 as (st3 & hw3 & -> & Hok3 & Hhw3 & Hm3).
  cbn [mbind result_bind].
  assert (H4 : exists st4 hw4,
    (if y <? skinheight - 1
     then FLOODFILL_STEP fillcolor x y (x + skinwidth * y) skinwidth 0 1 st3
     else Ok st3) = Ok st4 /\
    ok_state st4 hw4 /\ hw3 <= hw4 /\
    ((count_of fillcolor (skin st4) = count_of fillcolor (skin st3) - 1 /\
      inpt st4 = (inpt st3 + 1) mod 4096) \/
     (count_of fillcolor (skin st4) = count_of fillcolor (skin st3) /\
      inpt st4 = inpt st3))).
  { destruct (Z.ltb_spec y (skinheight - 1)).
    - apply step_spec; [done | lia | lia | lia].
    - exists st3, hw3. split_and!; [done | done | lia | by right]. }
  destruct H4 as (st4 & hw4 & -> & Hok4 & Hhw4 & Hm4).
  cbn [mbind result_bind].
  pose proof Hok4 as (Hlen4 & Hflen4 & Hin4 & Hhwb4 & Hhwin4 & Hslots4
                      & Hframe4 & Hfdc4).
  change FLOODFILL_FIFO_SIZE with 4096 in *.
  destruct (peek_in_range (skin st4) (x + skinwidth * y) ltac:(lia))
    as (c4 & _ & Hc4).
  rewrite poke_inside by lia. cbn [mbind result_bind mret result_ret].
  assert (Hout' : Z.land (int_add outpt 1) FLOODFILL_FIFO_MASK
                  = (outpt + 1) mod 4096).
  { change FLOODFILL_FIFO_MASK with 4095. rewrite land_mask. f_equal.
    unfold int_add. apply wrap_small. unfold is_int, INT_MIN, INT_MAX. lia. }
  rewrite Hout'.
  pose proof (Z.mod_pos_bound (outpt + 1) 4096 ltac:(lia)) as Hob.
  eexists _, _, hw4. split; [done|]. split; [|split; [done|split]].
  - unfold good. cbn [skin fifo inpt fdc]. rewrite length_insert.
    change FLOODFILL_FIFO_SIZE with 4096.
    split_and!; try done; try lia.
    intros k Hk.
    destruct (decide (k = Z.to_nat (x + skinwidth * y))) as [->|Hnk].
    + exfalso. destruct Hk as [Hk|Hk]; [by apply Hk | lia].
    + rewrite list_lookup_insert_ne by done. by apply Hframe4.
  - intros Hlt. cbn [inpt]. rewrite (Hhwin4 Hlt).
    assert (Hlt0 : hw < 4096) by lia.
    specialize (Hlive Hlt0). rewrite (Hhwin Hlt0) in Hlive.
    rewrite Z.mod_small by lia. lia.
  - unfold left_to_do. change FLOODFILL_FIFO_SIZE with 4096.
    cbn [skin inpt].
    rewrite (count_of_insert _ _ _ _ _ Hc4).
    destruct (Z.eqb_spec (fdc st4) fillcolor) as [?|_]; [done|].
    apply steps_measure in Hm1 as (e1 & He1 & Hc1 & Hi1).
    apply steps_measure in Hm2 as (e2 & He2 & Hc2 & Hi2).
    apply steps_measure in Hm3 as (e3 & He3 & Hc3 & Hi3).
    apply steps_measure in Hm4 as (e4 & He4 & Hc4' & Hi4).
    cbn [skin inpt st0] in Hc1, Hi1.
    assert (Hinp : inpt st4 mod 4096 = (inpt st + (e1 + e2 + e3 + e4)) mod 4096).
    { rewrite Hi4, (mod_add_cong _ _ e4 Hi3).
      rewrite (mod_add_cong _ _ e4 (mod_add_cong _ _ e3 Hi2)).
      rewrite (mod_add_cong _ _ e4
                 (mod_add_cong _ _ e3 (mod_add_cong _ _ e2 Hi1))).
      f_equal. lia. }
    set (e := e1 + e2 + e3 + e4) in *.
    assert (Hesum : 0 <= e <= 4) by lia.
    assert (Hd' : (inpt st4 - (outpt + 1) mod 4096) mod 4096
                  = ((inpt st - outpt) mod 4096 + (e - 1)) mod 4096).
    { rewrite Zminus_mod_idemp_r, Zplus_mod_idemp_l.
      replace (inpt st4 - (outpt + 1)) with (inpt st4 + - (outpt + 1)) by lia.
      rewrite (mod_add_cong _ _ (- (outpt + 1)) Hinp). f_equal. lia. }
    rewrite Hd'.
    pose proof (Z.mod_pos_bound (inpt st - outpt) 4096 ltac:(lia)) as Hd.
    assert (Hd1 : (inpt st - outpt) mod 4096 <> 0).
    { intros Hz. apply Hne. apply Z.mod_divide in Hz as [q Hq]; [|lia]. lia. }
    pose proof (Z.mod_pos_bound ((inpt st - outpt) mod 4096 + (e - 1)) 4096
                  ltac:(lia)) as Hd2.
    destruct (Z.eq_dec e 0) as [He0|He0].
    + rewrite He0 in *. rewrite Z.mod_small by lia.
      destruct (c4 =? fillcolor); lia.
    + destruct (c4 =? fillcolor); lia.
Qed.

Lemma flood_loop_spec (fuel : nat) :
  forall (outpt : Z) (st : fill_state) (hw : Z),
    ok_state st hw -> 0 <= outpt < 4096 ->
    (hw < 4096 -> outpt <= inpt st) ->
    left_to_do fillcolor st outpt < Z.of_nat fuel ->
    exists pixels,
      flood_loop fuel fillcolor filledcolor skinwidth skinheight outpt st
      = Some (Ok pixels) /\
      length pixels = length pixels0 /\
      forall k : nat,
        pixels0 !! k <> Some fillcolor \/ skinwidth * skinheight <= Z.of_nat k ->
        pixels !! k = pixels0 !! k.
Proof.
  induction fuel as [|fuel IH]; intros outpt st hw Hok Hout Hlive Hfuel.
  - unfold left_to_do in Hfuel. change FLOODFILL_FIFO_SIZE with 4096 in Hfuel.
    pose proof (count_of_nonneg fillcolor (skin st)).
    pose proof (Z.mod_pos_bound (inpt st - outpt) 4096 ltac:(lia)). lia.
  - cbn [flood_loop]. destruct (Z.eqb_spec outpt (inpt st)) as [Heq|Hne].
    + exists (skin st). destruct Hok as (Hlen & _ & _ & _ & _ & _ & Hframe & _).
      done.
    + destruct (turn_spec outpt st hw Hok Hout Hne)
        as (st' & outpt' & hw' & -> & Hok' & Hout' & Hlive' & Hless).
      { intros Hlt. specialize (Hlive Hlt). lia. }
      apply (IH outpt' st' hw'); [done | done | done | lia].
Qed.

End FloodFillProps.

Lemma find_black_total (d_8to24table : list Z) (n : nat) :
  forall i : Z,
    0 <= i -> i + Z.of_nat n <= Z.of_nat (length d_8to24table) ->
    exists c, FloodFill.find_black n i d_8to24table = Ok c.
Proof.
  induction n as [|n IH]; intros i Hi Hn; cbn [FloodFill.find_black].
  - by exists 0.
  - destruct (peek_in_range d_8to24table i ltac:(lia)) as (c & -> & _).
    destruct (c =? 255); [by exists i|]. apply IH; lia.
Qed.

(** X21.  [Mod_FloodFillSkin] on an image of [skinwidth] by [skinheight]
    pixels that lies inside the buffer, with a palette of 256 entries:
    the loop comes to an end (within a number of turns bounded by the
    size of the buffer), no pixel and no queue slot outside its array is
    read or written, and the only pixels that can differ afterwards are
    pixels of the image that had the colour of the first pixel. *)
Theorem X21_flood_fill_stays_inside
    (d_8to24table : list Z) (fifo0 : list (Z * Z)) (pixels : list Z)
    (skinwidth skinheight : Z) (fuel : nat) :
  (256 <= length d_8to24table)%nat ->
  length fifo0 = Z.to_nat FloodFill.FLOODFILL_FIFO_SIZE ->
  0 < skinwidth <= 32767 -> 0 < skinheight <= 32767 ->
  skinwidth * skinheight <= Z.of_nat (length pixels) ->
  4096 * (Z.of_nat (length pixels) + 1) <= Z.of_nat fuel ->
  exists pixels',
    FloodFill.Mod_FloodFillSkin fuel d_8to24table fifo0 pixels
      skinwidth skinheight = Some (Ok pixels') /\
    length pixels' = length pixels /\
    forall k : nat,
      pixels !! k <> pixels !! 0%nat \/ skinwidth * skinheight <= Z.of_nat k ->
      pixels' !! k = pixels !! k.
Proof.
  intros Htable Hfifo Hwidth Hheight Hsize Hfuel.
  unfold FloodFill.Mod_FloodFillSkin.
  destruct (peek_in_range pixels 0 ltac:(lia)) as (fillcolor & -> & Hfill).
  change (Z.to_nat 0) with 0%nat in Hfill.
  destruct (find_black_total d_8to24table 256 0 ltac:(lia) ltac:(lia))
    as (filledcolor & ->).
  destruct (Z.eqb_spec fillcolor filledcolor) as [?|Hne]; cbn [orb];
    [by exists pixels|].
  destruct (Z.eqb_spec fillcolor 255) as [?|Hn255]; [by exists pixels|].
  change (Z.to_nat FloodFill.FLOODFILL_FIFO_SIZE) with 4096%nat in Hfifo.
  rewrite poke_inside by lia.
  change (Z.land (int_add 0 1) FloodFill.FLOODFILL_FIFO_MASK) with 1.
  change (Z.to_nat 0) with 0%nat.
  destruct (flood_loop_spec fillcolor filledcolor skinwidth skinheight pixels
              Hn255 ltac:(congruence) Hwidth Hheight Hsize fuel 0
              {| FloodFill.skin := pixels;
                 FloodFill.fifo := <[0%nat := (0, 0)]> fifo0;
                 FloodFill.inpt := 1; FloodFill.fdc := filledcolor |} 1)
    as (pixels' & Hrun & Hlen & Hframe).
  - unfold FloodFill.good. cbn [FloodFill.skin FloodFill.fifo FloodFill.inpt
                                 FloodFill.fdc].
    rewrite length_insert. change FloodFill.FLOODFILL_FIFO_SIZE with 4096.
    split_and!; try done; try lia.
    intros s Hs. assert (s = 0) as -> by lia.
    exists (0, 0). split; [apply list_lookup_insert_eq; lia|].
    unfold FloodFill.cell. cbn [fst snd]. split_and!; try lia.
    by rewrite Z.mul_0_r.
  - lia.
  - cbn [FloodFill.inpt]. lia.
  - unfold FloodFill.left_to_do. cbn [FloodFill.skin FloodFill.inpt].
    change FloodFill.FLOODFILL_FIFO_SIZE with 4096.
    pose proof (count_of_length fillcolor pixels).
    change ((1 - 0) mod 4096) with 1. lia.
  - exists pixels'. split; [exact Hrun|]. split; [exact Hlen|].
    intros k Hk. apply Hframe. by rewrite <- Hfill.
Qed.

(** [X21_flood_fill_stays_inside] on a skin of 3x2 pixels whose
    background has the colour 7: the four background pixels that can be
    reached from the first one are filled, the two pixels of colour 3
    stay. *)
Lemma X21_flood_fill_stays_inside_witness :
  exists pixels',
    FloodFill.Mod_FloodFillSkin (Z.to_nat 28672) FloodFill.black_first
      (replicate (Z.to_nat 4096) (0, 0)) FloodFill.small_skin 3 2
    = Some (Ok pixels') /\
    pixels' !! 2%nat = Some 3 /\ pixels' !! 4%nat = Some 3.
Proof.
  destruct (X21_flood_fill_stays_inside FloodFill.black_first
              (replicate (Z.to_nat 4096) (0, 0)) FloodFill.small_skin 3 2
              (Z.to_nat 28672))
    as (pixels' & Hrun & _ & Hframe).
  - unfold FloodFill.black_first. cbn [length]. rewrite length_replicate. lia.
  - apply length_replicate.
  - lia.
  - lia.
  - unfold FloodFill.small_skin. cbn [length]. lia.
  - unfold FloodFill.small_skin. cbn [length]. lia.
  - exists pixels'. split; [exact Hrun|].
    split; [rewrite (Hframe 2%nat) | rewrite (Hframe 4%nat)];
      first [reflexivity | left; discriminate].
Defined.

(** ** Brush models: setting up the submodels *)

Lemma pretty_N_go_length (d : nat) :
  forall (x : N) (s : string),
    (x < 10 ^ N.of_nat d)%N ->
    (String.length (pretty_N_go x s) <= String.length s + d)%nat.
Proof.
  induction d as [|d IH]; intros x s Hx.
  - assert (x = 0%N) as -> by (cbn in Hx; lia).
    rewrite pretty_N_go_0. lia.
  - destruct (decide (x = 0%N)) as [->|Hne].
    { rewrite pretty_N_go_0. lia. }
    rewrite pretty_N_go_step by lia.
    etrans; [apply IH|cbn [String.length]; lia].
    apply N.Div0.div_lt_upper_bound.
    rewrite Nat2N.inj_succ, N.pow_succ_r' in Hx. lia.
Qed.

Lemma pretty_length (k : Z) :
  0 < k < 100000000 -> (String.length (pretty k) <= 8)%nat.
Proof.
  intros Hk. destruct k as [|p|p]; [lia| |lia].
  change (pretty (Z.pos p)) with (pretty (N.pos p)).
  unfold pretty, pretty_N. destruct (decide (N.pos p = 0%N)) as [|_]; [done|].
  apply (pretty_N_go_length 8 (N.pos p) ""). cbn. lia.
Qed.

Lemma submodel_name_plain (i : Z) :
  0 <= i < 99999999 -> Submodels.submodel_name i = "*" +:+ pretty (i + 1).
Proof.
  intros Hi. unfold Submodels.submodel_name, int_add.
  rewrite wrap_small by (unfold is_int, INT_MIN, INT_MAX; lia).
  apply substring_all. pose proof (pretty_length (i + 1) ltac:(lia)).
  change (String.length ("*" +:+ pretty (i + 1)))
    with (S (String.length (pretty (i + 1)))). lia.
Qed.

Lemma submodel_name_inj (i j : Z) :
  0 <= i < 99999999 -> 0 <= j < 99999999 ->
  Submodels.submodel_name i = Submodels.submodel_name j -> i = j.
Proof.
  intros Hi Hj. rewrite !submodel_name_plain by done.
  intros [= Heq]. apply pretty_Z_inj in Heq. lia.
Qed.

Lemma submodel_name_length (i : Z) :
  (String.length (Submodels.submodel_name i) <= 9)%nat.
Proof. unfold Submodels.submodel_name. rewrite length_substring_0. lia. Qed.

Lemma submodel_name_star (i : Z) :
  exists tail, Submodels.submodel_name i = String "*" tail.
Proof. unfold Submodels.submodel_name. cbn. by eexists. Qed.

Section SubmodelProps.
Import Registry Submodels.
Context `{Headers} {cache_user_t cache_t other : Type}.
Variable MAX_MAP_HULLS : Z.
Variable Length : Q * Q * Q -> Q.

Local Abbreviation brush := (@brush_t other).
Local Abbreviation model := (@Registry.model_t brush cache_user_t).
Local Abbreviation reg := (@Registry.registry brush cache_user_t cache_t).

Lemma search_app (nm : string) (l1 l2 : list model) :
  forall i : Z,
    search nm (l1 ++ l2) i
    = if decide (search nm l1 i < i + Z.of_nat (length l1))
      then search nm l1 i
      else search nm l2 (i + Z.of_nat (length l1)).
Proof.
  induction l1 as [|m rest IH]; intros i; cbn [app search length].
  - rewrite Z.add_0_r. destruct (decide _) as [Hlt|_]; [lia | done].
  - destruct (String.eqb (name m) nm).
    + destruct (decide _) as [_|Hge]; [done | lia].
    + rewrite IH. repeat destruct (decide _); try lia; try done.
      f_equal. lia.
Qed.

Lemma names_insert_same (known : list model) (k n : nat) (m m' : model) :
  known !! k = Some m -> name m' = name m ->
  map name (take n (<[k := m']> known)) = map name (take n known).
Proof.
  intros Hk Hname. rewrite <- !firstn_map. f_equal.
  change (name <$> <[k := m']> known = name <$> known).
  rewrite list_fmap_insert, Hname. apply list_insert_id.
  by rewrite list_lookup_fmap, Hk.
Qed.

Lemma Mod_FindName_search (nm : string) (st st1 : reg) (s : Z) :
  Mod_FindName nm st = Ok (s, st1) ->
  s = search nm (take (Z.to_nat (mod_numknown st)) (mod_known st)) 0.
Proof.
  unfold Mod_FindName. destruct (String.eqb nm ""); [done|].
  destruct (_ =? mod_numknown st) eqn:Hi.
  - destruct (mod_numknown st =? MAX_MOD_KNOWN); [done|].
    destruct (peek _ _) as [m|msg|w]; cbn [mbind result_bind]; [|done|done].
    destruct (poke _ _ _) as [known|msg|w]; cbn [mbind result_bind];
      [|done|done].
    by intros [= <- _].
  - by intros [= <- _].
Qed.

Lemma first_at_find (nm : string) (st : reg) (s : Z) :
  nm <> "" -> first_at nm st s -> Mod_FindName nm st = Ok (s, st).
Proof.
  intros Hnm [Hs Hsearch]. unfold Mod_FindName.
  destruct (String.eqb_spec nm ""); [done|]. rewrite Hsearch.
  destruct (Z.eqb_spec s (mod_numknown st)); [lia | done].
Qed.

Lemma first_at_keeps (nm : string) (st st' : reg) (s : Z) :
  registry_ok st -> registry_ok st' ->
  mod_numknown st <= mod_numknown st' ->
  map name (take (Z.to_nat (mod_numknown st)) (mod_known st'))
  = map name (take (Z.to_nat (mod_numknown st)) (mod_known st)) ->
  first_at nm st s -> first_at nm st' s.
Proof.
  intros [Hlen Hn] [Hlen' Hn'] Hle Hnames [Hs Hsearch].
  split; [lia|].
  set (n := Z.to_nat (mod_numknown st)) in *.
  set (n' := Z.to_nat (mod_numknown st')).
  rewrite <- (take_drop n (take n' (mod_known st'))).
  rewrite take_take, (Nat.min_l n n') by lia.
  rewrite search_app.
  rewrite (search_names nm _ _ 0 Hnames), Hsearch.
  rewrite length_take. destruct (decide _); [done | lia].
Qed.

Lemma hull_loop_spec (bm : dmodel_t) (last : Z) (n : nat) :
  forall (j : Z) (hs : list hull_t),
    0 <= j -> j + Z.of_nat n <= Z.of_nat (length hs) ->
    j + Z.of_nat n <= Z.of_nat (length (headnode bm)) ->
    exists hs',
      hull_loop n j bm last hs = Ok hs' /\ length hs' = length hs /\
      (forall k : nat, Z.of_nat k < j -> hs' !! k = hs !! k) /\
      (forall (k : nat) (first : Z),
          j <= Z.of_nat k < j + Z.of_nat n ->
          headnode bm !! k = Some first ->
          exists h, hs' !! k = Some h /\ firstclipnode h = first).
Proof.
  induction n as [|n IH]; intros j hs Hj Hhs Hhead; cbn [hull_loop].
  - exists hs. split_and!; [done | done | done | lia].
  - destruct (peek_in_range (headnode bm) j ltac:(lia)) as (first & -> & Hfirst).
    cbn [mbind result_bind]. rewrite poke_inside by lia.
    cbn [mbind result_bind].
    destruct (IH (j + 1)
                (<[Z.to_nat j := {| firstclipnode := first;
                                    lastclipnode := last |}]> hs))
      as (hs' & -> & Hlen & Hbelow & Hdone);
      [lia | rewrite length_insert; lia | lia |].
    exists hs'. rewrite length_insert in Hlen. split_and!; [done | done | |].
    + intros k Hk. rewrite Hbelow by lia.
      apply list_lookup_insert_ne. lia.
    + intros k first' Hk Hk'.
      destruct (decide (Z.of_nat k = j)) as [<-|Hne].
      * rewrite Hbelow by lia. rewrite Nat2Z.id in *.
        rewrite list_lookup_insert_eq by lia.
        eexists. split; [done|]. cbn. congruence.
      * apply Hdone; [lia | done].
Qed.

Lemma setup_model_spec (i : Z) (b : brush) (bm : dmodel_t) :
  0 <= i -> submodels b !! Z.to_nat i = Some bm ->
  1 <= MAX_MAP_HULLS ->
  Z.of_nat (length (hulls b)) = MAX_MAP_HULLS ->
  Z.of_nat (length (headnode bm)) = MAX_MAP_HULLS ->
  exists b',
    setup_model MAX_MAP_HULLS Length i b = Ok b' /\
    set_up_for Length bm b' /\
    submodels b' = submodels b /\ numsubmodels b' = numsubmodels b /\
    length (hulls b') = length (hulls b).
Proof.
  intros Hi Hbm Hmax Hhulls Hhead. unfold setup_model.
  rewrite (peek_inside _ i _ Hi Hbm). cbn [mbind result_bind].
  unfold first_hull.
  destruct (peek_in_range (hulls b) 0 ltac:(lia)) as (h0 & -> & Hh0).
  cbn [mbind result_bind].
  destruct (peek_in_range (headnode bm) 0 ltac:(lia)) as (first0 & -> & Hf0).
  cbn [mbind result_bind]. rewrite poke_inside by lia.
  cbn [mbind result_bind].
  destruct (hull_loop_spec bm (int_sub (numclipnodes b) 1)
              (Z.to_nat (MAX_MAP_HULLS - 1)) 1
              (<[Z.to_nat 0 := {| firstclipnode := first0;
                                  lastclipnode := lastclipnode h0 |}]> (hulls b)))
    as (hs & -> & Hlen & Hbelow & Hdone);
    [lia | rewrite length_insert; lia | lia |].
  cbn [mbind result_bind mret result_ret]. eexists. split; [done|].
  rewrite length_insert in Hlen.
  split; [|done]. unfold set_up_for. cbn.
  split_and!; try done.
  intros j first Hj. destruct (decide (j = 0%nat)) as [->|Hne].
  - rewrite Hbelow by lia. change (Z.to_nat 0) with 0%nat in *.
    rewrite list_lookup_insert_eq by lia.
    eexists. split; [done|]. cbn. congruence.
  - apply Hdone; [|done]. apply lookup_lt_Some in Hj. lia.
Qed.

Lemma submodel_loop_done (fuel : nat) (i md : Z) (st : reg) (m : model) :
  0 <= md -> mod_known st !! Z.to_nat md = Some m ->
  numsubmodels (data m) <= i ->
  submodel_loop MAX_MAP_HULLS Length fuel i md st = Some (Ok (md, st)).
Proof.
  intros Hmd Hm Hi.
  destruct fuel; cbn [submodel_loop]; rewrite (peek_inside _ md _ Hmd Hm);
    by destruct (Z.ltb_spec i (numsubmodels (data m))); [lia|].
Qed.

Lemma take_agree {A} (l1 l2 : list A) (n : nat) :
  (forall k : nat, (k < n)%nat -> l1 !! k = l2 !! k) -> take n l1 = take n l2.
Proof.
  intros Hsame. apply list_eq. intros k. rewrite !lookup_take.
  destruct (decide (k < n)%nat); [by apply Hsame | done].
Qed.

(** What a lookup that succeeds leaves behind. *)
Lemma find_slot (nm : string) (st st2 : reg) (lm : Z) :
  registry_ok st -> Z.of_nat (String.length nm) < MAX_QPATH ->
  Mod_FindName nm st = Ok (lm, st2) ->
  registry_ok st2 /\ first_at nm st2 lm /\
  (exists ml, mod_known st2 !! Z.to_nat lm = Some ml /\ name ml = nm) /\
  mod_numknown st <= mod_numknown st2 <= mod_numknown st + 1 /\
  (forall k : nat,
      Z.of_nat k < mod_numknown st -> mod_known st2 !! k = mod_known st !! k).
Proof.
  intros Hok Hshort Hfind. pose proof Hok as [Hlen Hn].
  destruct (Mod_FindName_again nm st st2 lm Hok Hshort Hfind)
    as (Hok2 & _ & Hagain).
  pose proof (Mod_FindName_search _ _ _ _ Hagain) as Hsearch.
  destruct (Mod_FindName_Ok_cases nm st st2 lm Hok Hfind)
    as [(_ & -> & Hi & m & Hm & Hname)|(_ & -> & Hroom & m & Hm & ->)].
  - split; [done|]. split; [by split|]. split; [by exists m|].
    split; [lia | done].
  - cbn [mod_known mod_numknown] in *.
    split; [done|]. split; [split; [cbn; lia | done]|].
    split; [|split; [lia|]].
    + eexists. split.
      * apply list_lookup_insert_eq. by apply lookup_lt_Some in Hm.
      * cbn. by apply stored_name_short.
    + intros k Hk. apply list_lookup_insert_ne. lia.
Qed.

Variable m0 : model.
Variable md0 : Z.
Hypothesis Hmax : 1 <= MAX_MAP_HULLS.
Hypothesis Hhulls : Z.of_nat (length (hulls (data m0))) = MAX_MAP_HULLS.
Hypothesis Hheads :
  forall (k : nat) (bm : dmodel_t),
    submodels (data m0) !! k = Some bm ->
    Z.of_nat (length (headnode bm)) = MAX_MAP_HULLS.
Hypothesis Hcount :
  numsubmodels (data m0) = Z.of_nat (length (submodels (data m0))).
Hypothesis Hsmall : numsubmodels (data m0) <= MAX_MOD_KNOWN.
Hypothesis Hworld : forall k : Z, name m0 <> submodel_name k.
Hypothesis Hpath : 10 <= MAX_QPATH.

Local Abbreviation stands := (stands_for Length m0).
Local Abbreviation turn := (in_turn Length m0 md0).

Lemma name_of_inj (k k' : Z) :
  0 <= k <= MAX_MOD_KNOWN -> 0 <= k' <= MAX_MOD_KNOWN ->
  name_of (name m0) k = name_of (name m0) k' -> k = k'.
Proof.
  unfold MAX_MOD_KNOWN, name_of. intros Hk Hk'.
  destruct (Z.eqb_spec k 0), (Z.eqb_spec k' 0); intros Heq; [lia | | |].
  - by apply Hworld in Heq.
  - symmetry in Heq. by apply Hworld in Heq.
  - apply submodel_name_inj in Heq; lia.
Qed.

Lemma name_of_next (i : Z) :
  0 <= i -> name_of (name m0) (i + 1) = submodel_name i.
Proof.
  intros Hi. unfold name_of. destruct (Z.eqb_spec (i + 1) 0); [lia|].
  f_equal. lia.
Qed.

Lemma submodel_name_short (i : Z) :
  Z.of_nat (String.length (submodel_name i)) < MAX_QPATH.
Proof. pose proof (submodel_name_length i). lia. Qed.

Lemma stands_keeps (st st' : reg) (k s : Z) :
  registry_ok st -> registry_ok st' ->
  mod_numknown st <= mod_numknown st' ->
  map name (take (Z.to_nat (mod_numknown st)) (mod_known st'))
  = map name (take (Z.to_nat (mod_numknown st)) (mod_known st)) ->
  mod_known st' !! Z.to_nat s = mod_known st !! Z.to_nat s ->
  stands st k s -> stands st' k s.
Proof.
  intros Hok Hok' Hle Hnames Hslot
    (mk & bm & Hbm & Hs & Hmk & Hname & Hneed & Htype & Hset & Hfirst).
  exists mk, bm. split_and!; try done; [lia | lia | congruence |].
  intros Hk. by apply (first_at_keeps _ st st' s Hok Hok' Hle Hnames), Hfirst.
Qed.

Lemma find_total (nm : string) (st : reg) :
  registry_ok st -> nm <> "" -> mod_numknown st < MAX_MOD_KNOWN ->
  exists lm st2, Mod_FindName nm st = Ok (lm, st2).
Proof.
  intros Hok Hnm Hroom. destruct (present_or_not nm st Hok) as [Hp|Hp].
  - destruct (Mod_FindName_present nm st Hok Hnm Hp) as (k & m & -> & _).
    by eexists _, _.
  - destruct (Mod_FindName_absent nm st Hok Hnm Hp) as [_ Hnew].
    destruct (Hnew Hroom) as (m & _ & ->). by eexists _, _.
Qed.

Lemma submodel_name_nonempty (i : Z) : submodel_name i <> "".
Proof. destruct (submodel_name_star i) as [tail ->]. done. Qed.

(** The head of a turn: the fields of [mod] are set from the submodel
    [i], after which the submodels up to [i] have their models. *)
Lemma turn_setup (i md : Z) (st : reg) :
  turn i md st -> 0 <= i < numsubmodels (data m0) ->
  exists (m : model) (b' : brush),
    mod_known st !! Z.to_nat md = Some m /\
    setup_model MAX_MAP_HULLS Length i (data m) = Ok b' /\
    numsubmodels b' = numsubmodels (data m0) /\
    submodels b' = submodels (data m0) /\
    length (hulls b') = length (hulls (data m0)) /\
    name m = name_of (name m0) i /\
    needload m = needload m0 /\ type m = type m0 /\
    let st1 := {| mod_known := <[Z.to_nat md := with_data b' m]> (mod_known st);
                  mod_numknown := mod_numknown st;
                  content_cache := content_cache st |} in
    registry_ok st1 /\
    (1 <= i -> first_at (name_of (name m0) i) st1 md) /\
    forall k : Z,
      0 <= k <= i ->
      exists s, (k < i -> s <> md) /\ (k = 0 -> s = md0) /\ stands st1 k s.
Proof.
  intros (Hok & Hroom & Hmd & (m & Hm & Hname & Hneed & Htype & Hsubs & Hnum & Hhl)
          & Hstart & Hfirst & Hdone) Hi.
  pose proof Hok as [Hlen Hn].
  destruct (lookup_lt_is_Some_2 (submodels (data m0)) (Z.to_nat i))
    as [bm Hbm]; [lia|].
  destruct (setup_model_spec i (data m) bm)
    as (b' & Hsetup & Hset & Hsubs' & Hnum' & Hhl');
    [lia | by rewrite Hsubs | done | by rewrite Hhl | by eapply Hheads |].
  exists m, b'.
  split; [done|]. split; [done|]. split; [congruence|]. split; [congruence|].
  split; [congruence|]. split; [done|]. split; [done|]. split; [done|].
  intros st1.
  assert (Hok1 : registry_ok st1).
  { split; cbn; [by rewrite length_insert | done]. }
  assert (Hnames : map name (take (Z.to_nat (mod_numknown st)) (mod_known st1))
                   = map name (take (Z.to_nat (mod_numknown st)) (mod_known st))).
  { cbn. by apply (names_insert_same _ _ _ m). }
  assert (Hslot : mod_known st1 !! Z.to_nat md = Some (with_data b' m)).
  { cbn. apply list_lookup_insert_eq. by apply lookup_lt_Some in Hm. }
  split; [done|]. split.
  { intros Hi1.
    by apply (first_at_keeps _ st st1 md Hok Hok1 ltac:(cbn; lia) Hnames), Hfirst. }
  intros k Hk. destruct (decide (k = i)) as [->|Hne].
  - exists md. split; [lia|]. split; [done|].
    exists (with_data b' m), bm.
    split; [done|]. split; [done|]. split; [done|]. split; [done|].
    split; [done|]. split; [done|]. split; [done|].
    intros Hi1. cbn [name with_data]. rewrite Hname.
    by apply (first_at_keeps _ st st1 md Hok Hok1 ltac:(cbn; lia) Hnames), Hfirst.
  - destruct (Hdone k ltac:(lia)) as (s & Hsmd & Hs0 & Hstands).
    exists s. split; [done|]. split; [done|].
    apply (stands_keeps st st1 k s Hok Hok1 ltac:(cbn; lia) Hnames); [|done].
    cbn. apply list_lookup_insert_ne. intros Heq. apply Hsmd.
    destruct Hstands as (_ & _ & _ & Hs & _). lia.
Qed.

Lemma turn_next (i md : Z) (st : reg) :
  turn i md st -> 0 <= i < numsubmodels (data m0) - 1 ->
  exists lm st',
    submodel_turn MAX_MAP_HULLS Length i md st = Ok (lm, st') /\
    turn (i + 1) lm st'.
Proof.
  intros Hturn Hi.
  destruct (turn_setup i md st Hturn ltac:(lia))
    as (m & b' & Hm & Hsetup & Hnum & Hsubs & Hhl & Hname & Hneed & Htype
        & Hok1 & Hfirst1 & Hdone1).
  destruct Hturn as (Hok & Hroom & Hmd & _).
  pose proof Hok as [Hlen Hn].
  set (st1 := {| mod_known := _; mod_numknown := _; content_cache := _ |}) in *.
  unfold submodel_turn.
  rewrite (peek_inside _ md _ ltac:(lia) Hm). cbn [mbind result_bind].
  rewrite Hsetup. cbn [mbind result_bind].
  rewrite poke_inside by lia. cbn [mbind result_bind]. fold st1.
  assert (Hsub1 : int_sub (numsubmodels b') 1 = numsubmodels (data m0) - 1).
  { unfold int_sub. rewrite Hnum. apply wrap_small.
    unfold MAX_MOD_KNOWN in Hsmall. unfold is_int, INT_MIN, INT_MAX. lia. }
  rewrite Hsub1. destruct (Z.ltb_spec i (numsubmodels (data m0) - 1)); [|lia].
  destruct (find_total (submodel_name i) st1 Hok1 (submodel_name_nonempty i))
    as (lm & st2 & Hfind); [cbn; lia|].
  rewrite Hfind. cbn [mbind result_bind].
  destruct (find_slot _ st1 st2 lm Hok1 (submodel_name_short i) Hfind)
    as (Hok2 & Hfirst2 & (ml & Hml & Hmlname) & Hcount2 & Hbelow).
  cbn [mod_numknown st1] in Hcount2. pose proof Hok2 as [Hlen2 Hn2].
  pose proof Hfirst2 as [Hlm _].
  assert (Hmd2 : mod_known st2 !! Z.to_nat md = Some (with_data b' m)).
  { rewrite Hbelow by (cbn; lia). cbn.
    apply list_lookup_insert_eq. by apply lookup_lt_Some in Hm. }
  rewrite (peek_inside _ md _ ltac:(lia) Hmd2). cbn [mbind result_bind].
  destruct (Z.ltb_spec (Z.of_nat (String.length (submodel_name i))) MAX_QPATH)
    as [_|Hlong]; [|pose proof (submodel_name_short i); lia].
  rewrite poke_inside by lia. cbn [mbind result_bind mret result_ret].
  eexists _, _. split; [done|].
  set (st3 := {| mod_known := _; mod_numknown := _; content_cache := _ |}).
  assert (Hlm_md : lm <> md).
  { intros ->. rewrite Hmd2 in Hml. injection Hml as <-. cbn in Hmlname.
    rewrite Hname, <- name_of_next in Hmlname by lia.
    apply name_of_inj in Hmlname; lia. }
  assert (Hok3 : registry_ok st3).
  { split; cbn; [by rewrite length_insert | done]. }
  assert (Hnames23 : forall n : nat,
             map name (take n (mod_known st3)) = map name (take n (mod_known st2))).
  { intros n. cbn. by apply (names_insert_same _ _ _ ml). }
  assert (Hnames13 :
            map name (take (Z.to_nat (mod_numknown st1)) (mod_known st3))
            = map name (take (Z.to_nat (mod_numknown st1)) (mod_known st1))).
  { rewrite Hnames23. f_equal. apply take_agree. intros k Hk.
    apply Hbelow. lia. }
  split; [done|]. split; [cbn [st3 mod_numknown]; lia|].
  split; [done|]. split.
  { exists (with_name (submodel_name i) (with_data b' m)).
    split; [cbn; apply list_lookup_insert_eq; lia|].
    split; [cbn; by rewrite name_of_next by lia|]. cbn. done. }
  split; [lia|]. split.
  { intros _. rewrite name_of_next by lia.
    by apply (first_at_keeps _ st2 st3 lm Hok2 Hok3 ltac:(cbn; lia) (Hnames23 _)). }
  intros k Hk. destruct (Hdone1 k ltac:(lia)) as (s & Hsmd & Hs0 & Hstands).
  exists s.
  assert (Hs_lm : s <> lm).
  { intros ->. destruct Hstands as (mk & _ & _ & Hs & Hmk & Hmkname & _).
    rewrite <- Hbelow in Hmk by lia. rewrite Hml in Hmk. injection Hmk as <-.
    rewrite Hmlname, <- name_of_next in Hmkname by lia.
    apply name_of_inj in Hmkname; unfold MAX_MOD_KNOWN in *; lia. }
  split; [done|]. split; [done|].
  assert (Hle13 : mod_numknown st1 <= mod_numknown st3)
    by (cbn [st1 st3 mod_numknown]; lia).
  apply (stands_keeps st1 st3 k s Hok1 Hok3 Hle13 Hnames13); [|done].
  destruct Hstands as (_ & _ & _ & Hs & _). cbn [st1 mod_numknown] in Hs.
  cbn [st3 mod_known]. rewrite list_lookup_insert_ne by lia.
  apply Hbelow. cbn [st1 mod_numknown]. lia.
Qed.

Lemma turn_last (i md : Z) (st : reg) :
  turn i md st -> 0 <= i -> i = numsubmodels (data m0) - 1 ->
  exists st',
    submodel_turn MAX_MAP_HULLS Length i md st = Ok (md, st') /\
    all_set_up Length m0 md0 st' /\
    exists m, mod_known st' !! Z.to_nat md = Some m /\
              numsubmodels (data m) = numsubmodels (data m0).
Proof.
  intros Hturn Hi Hlast.
  destruct (turn_setup i md st Hturn ltac:(lia))
    as (m & b' & Hm & Hsetup & Hnum & Hsubs & Hhl & Hname & Hneed & Htype
        & Hok1 & Hfirst1 & Hdone1).
  destruct Hturn as (Hok & Hroom & Hmd & _).
  pose proof Hok as [Hlen Hn].
  unfold submodel_turn.
  rewrite (peek_inside _ md _ ltac:(lia) Hm). cbn [mbind result_bind].
  rewrite Hsetup. cbn [mbind result_bind].
  rewrite poke_inside by lia. cbn [mbind result_bind].
  assert (Hsub1 : int_sub (numsubmodels b') 1 = numsubmodels (data m0) - 1).
  { unfold int_sub. rewrite Hnum. apply wrap_small.
    unfold MAX_MOD_KNOWN in Hsmall. unfold is_int, INT_MIN, INT_MAX. lia. }
  rewrite Hsub1. destruct (Z.ltb_spec i (numsubmodels (data m0) - 1)); [lia|].
  eexists. split; [done|]. split.
  - split; [done|]. intros k Hk.
    destruct (Hdone1 k ltac:(lia)) as (s & _ & Hs0 & Hstands). by exists s.
  - exists (with_data b' m). split; [|done]. cbn.
    apply list_lookup_insert_eq. apply lookup_lt_Some in Hm. lia.
Qed.

Lemma submodel_loop_spec (fuel : nat) :
  forall (i md : Z) (st : reg),
    turn i md st -> 0 <= i < numsubmodels (data m0) ->
    numsubmodels (data m0) - i <= Z.of_nat fuel ->
    exists md' st',
      submodel_loop MAX_MAP_HULLS Length fuel i md st = Some (Ok (md', st')) /\
      all_set_up Length m0 md0 st'.
Proof.
  induction fuel as [|fuel IH]; intros i md st Hturn Hi Hfuel; [lia|].
  cbn [submodel_loop].
  pose proof Hturn as (_ & _ & Hmd & (m & Hm & _ & _ & _ & _ & Hnum & _) & _).
  rewrite (peek_inside _ md _ ltac:(lia) Hm), Hnum.
  destruct (Z.ltb_spec i (numsubmodels (data m0))); [|lia].
  assert (Hnext : int_add i 1 = i + 1).
  { unfold int_add. apply wrap_small. unfold MAX_MOD_KNOWN in Hsmall.
    unfold is_int, INT_MIN, INT_MAX. lia. }
  rewrite Hnext.
  destruct (decide (i = numsubmodels (data m0) - 1)) as [Hlast|Hmore].
  - destruct (turn_last i md st Hturn ltac:(lia) Hlast)
      as (st' & -> & Hall & m' & Hm' & Hnum').
    exists md, st'. split; [|done].
    apply (submodel_loop_done _ _ _ _ m'); [lia | done | lia].
  - destruct (turn_next i md st Hturn ltac:(lia)) as (lm & st' & -> & Hturn').
    apply IH; [done | lia | lia].
Qed.

End SubmodelProps.

Section SubmodelsLoaded.
Import Registry Loading Submodels.
Context `{Headers} {cache_user_t cache_t other : Type}.
Context (MAX_MAP_HULLS : Z) (Length : Q * Q * Q -> Q).
Context (Cache_Check :
           cache_user_t -> cache_t -> option Z * cache_user_t * cache_t).
Context (COM_LoadStackFile : string -> option (list Z)).
Context (COM_FileBase : string -> string).
Context (IDPOLYHEADER IDSPRITEHEADER : Z).

Local Abbreviation brush := (@brush_t other).
Local Abbreviation model := (@Registry.model_t brush cache_user_t).
Local Abbreviation reg := (@Registry.registry brush cache_user_t cache_t).

Context (Mod_LoadAliasModel Mod_LoadSpriteModel :
           Z -> string -> list Z -> reg -> result reg).
Context (Mod_LoadBrushModel : Z -> string -> list Z -> Z -> reg -> result reg).

Local Abbreviation for_name :=
  (Mod_ForName Cache_Check COM_LoadStackFile COM_FileBase
     IDPOLYHEADER IDSPRITEHEADER
     Mod_LoadAliasModel Mod_LoadSpriteModel Mod_LoadBrushModel).

(** X22.  The loop at the end of [Mod_LoadBrushModel], run on a map that
    is marked as loaded and has room for its submodels in the
    registry: it ends without an error; the map itself is set up for
    the first submodel; and every further submodel [k] has a model of
    the name ["*k"] of its own that is set up for it and is marked as
    loaded, so that [Mod_ForName] on that name returns its slot and
    changes nothing, whatever the file system holds. *)
Theorem X22_submodels_are_loaded (m0 : model) (md0 : Z) (st : reg) (fuel : nat) :
  registry_ok st ->
  0 <= md0 < mod_numknown st ->
  mod_known st !! Z.to_nat md0 = Some m0 ->
  needload m0 = false -> type m0 = mod_brush ->
  (forall k : Z, name m0 <> submodel_name k) ->
  numsubmodels (data m0) = Z.of_nat (length (submodels (data m0))) ->
  1 <= MAX_MAP_HULLS ->
  Z.of_nat (length (hulls (data m0))) = MAX_MAP_HULLS ->
  (forall (k : nat) (bm : dmodel_t),
      submodels (data m0) !! k = Some bm ->
      Z.of_nat (length (headnode bm)) = MAX_MAP_HULLS) ->
  mod_numknown st + numsubmodels (data m0) - 1 <= MAX_MOD_KNOWN ->
  10 <= MAX_QPATH ->
  numsubmodels (data m0) <= Z.of_nat fuel ->
  exists (md' : Z) (st' : reg),
    submodel_loop MAX_MAP_HULLS Length fuel 0 md0 st = Some (Ok (md', st')) /\
    registry_ok st' /\
    (forall bm : dmodel_t,
        submodels (data m0) !! 0%nat = Some bm ->
        exists m : model,
          mod_known st' !! Z.to_nat md0 = Some m /\
          name m = name m0 /\ needload m = false /\
          set_up_for Length bm (data m)) /\
    (forall (k : Z) (bm : dmodel_t) (crash : bool),
        1 <= k -> submodels (data m0) !! Z.to_nat k = Some bm ->
        exists (s : Z) (m : model),
          for_name ("*" +:+ pretty k) crash st' = Ok (Some s, st') /\
          mod_known st' !! Z.to_nat s = Some m /\
          name m = "*" +:+ pretty k /\ needload m = false /\
          set_up_for Length bm (data m)).
Proof.
  intros Hok Hmd Hm0 Hneed Htype Hworld Hcount Hmax Hhulls Hheads Hroom Hpath
    Hfuel.
  pose proof Hok as [Hlen Hn].
  assert (Hsmall : numsubmodels (data m0) <= MAX_MOD_KNOWN) by lia.
  assert (Hall : exists md' st',
             submodel_loop MAX_MAP_HULLS Length fuel 0 md0 st
             = Some (Ok (md', st')) /\
             all_set_up Length m0 md0 st').
  { destruct (decide (numsubmodels (data m0) = 0)) as [Hnone|Hsome].
    - exists md0, st. split.
      + apply (submodel_loop_done _ _ _ _ _ _ m0); [lia | done | lia].
      + split; [done|]. intros k Hk. lia.
    - apply (submodel_loop_spec MAX_MAP_HULLS Length m0 md0 Hmax Hhulls Hheads
               Hcount Hsmall Hworld Hpath); [|lia|lia].
      split; [done|]. split; [lia|]. split; [done|]. split.
      { exists m0. by rewrite Z.eqb_refl || done. }
      split; [done|]. split; [lia|]. intros k Hk. lia. }
  destruct Hall as (md' & st' & Hrun & Hok' & Hall).
  exists md', st'. split; [done|]. split; [done|]. split.
  - intros bm Hbm.
    destruct (Hall 0) as (s & Hs0 & mk & bm' & Hbm' & Hs & Hmk & Hname & Hneed'
                          & _ & Hset & _).
    { apply lookup_lt_Some in Hbm. lia. }
    rewrite (Hs0 eq_refl) in Hmk. change (Z.to_nat 0) with 0%nat in Hbm'.
    assert (bm' = bm) as -> by congruence.
    exists mk. split; [done|]. split; [done|]. split; [congruence | done].
  - intros k bm crash Hk Hbm.
    destruct (Hall k) as (s & _ & mk & bm' & Hbm' & Hs & Hmk & Hname & Hneed'
                          & Htype' & Hset & Hfirst).
    { apply lookup_lt_Some in Hbm. lia. }
    assert (bm' = bm) as -> by congruence.
    assert (Hnm : name mk = "*" +:+ pretty k).
    { rewrite Hname. unfold name_of. destruct (Z.eqb_spec k 0); [lia|].
      rewrite submodel_name_plain; [do 2 f_equal; lia|].
      apply lookup_lt_Some in Hbm. unfold MAX_MOD_KNOWN in Hsmall. lia. }
    exists s, mk. split; [|split; [done|split; [done|split; [congruence|done]]]].
    specialize (Hfirst Hk). rewrite Hnm in Hfirst.
    unfold Mod_ForName. rewrite (first_at_find _ st' s) by done.
    cbn [mbind result_bind]. unfold Mod_LoadModel, still_loaded.
    rewrite (peek_inside _ s _ ltac:(lia) Hmk). cbn [mbind result_bind].
    rewrite Hneed', Hneed, Htype', Htype. done.
Qed.

End SubmodelsLoaded.

(** [X22_submodels_are_loaded] on a map of three submodels in the slot
    0 of a registry that holds nothing else: the model of the last
    submodel is returned by [Mod_ForName] without a file. *)
Lemma X22_submodels_are_loaded_witness :
  exists md' st',
    @Submodels.submodel_loop stock_headers _ _ _ 4 Bounds.sum_length 3 0 0
      Submodels.sample_registry = Some (Ok (md', st')) /\
    exists s,
      @Loading.Mod_ForName stock_headers _ _ _ Registry.probe_only
        Loading.no_files (fun nm => nm) 1330660425 1347634249
        Loading.idle_loader Loading.idle_loader Loading.idle_brush_loader
        ("*" +:+ pretty 2) true st' = Ok (Some s, st').
Proof.
  destruct (@X22_submodels_are_loaded stock_headers _ _ _ 4 Bounds.sum_length
              Registry.probe_only Loading.no_files (fun nm => nm)
              1330660425 1347634249
              Loading.idle_loader Loading.idle_loader Loading.idle_brush_loader
              Submodels.sample_world 0 Submodels.sample_registry 3%nat)
    as (md' & st' & Hrun & _ & _ & Hsub).
  - split; [vm_compute; reflexivity | cbn; unfold Registry.MAX_MOD_KNOWN; lia].
  - cbn. lia.
  - reflexivity.
  - reflexivity.
  - reflexivity.
  - intros k Heq. destruct (submodel_name_star k) as [tail Htail].
    rewrite Htail in Heq. discriminate Heq.
  - reflexivity.
  - lia.
  - reflexivity.
  - intros k bm Hk. destruct k as [|[|[|k]]]; cbn in Hk;
      [injection Hk as <-; reflexivity .. | discriminate Hk].
  - cbn. unfold Registry.MAX_MOD_KNOWN. lia.
  - cbn. lia.
  - cbn. lia.
  - destruct (Hsub 2 (Submodels.sample_submodel 20) true) as (s & m & Hfor & _);
      [lia | reflexivity |].
    exists md', st'. split; [exact Hrun|]. exists s. exact Hfor.
Defined.
